(** * The hsh generator: stage division, resource tables, parameter
      validation and artifact emission

    A shallow embedding of [clang/lib/Hsh/HshGenerator.cpp]:
    - [StagesBuilder]: interface records, per-stage statement lists,
      texture and sampler tables ([getFieldForExpr], [VisitExpr],
      [addStageStmt], [liftDeclStmt], [registerSampleCall],
      [registerTexture]), the visitors behind
      [createInterStageReferenceExpr] ([VisitDeclRefExpr], [VisitDeclStmt],
      [findLastAssignment]), the captures, attribute records and color
      targets, the stages in use and the calls of the printing policy
      ([previousUsedStage], [nextUsedStage], [printResults]);
    - [LastAssignmentFinder]: the walk of the body of the lambda for the
      last assignment of a variable;
    - [ValueTracer]: the stage given to a binary operation, an operator
      call and a call of a builtin function;
    - [HshBuiltins::identifyBuiltinType] and the checks of the fields of a
      vertex buffer record;
    - [GenerateConsumer::run]: the parameter checks, the registration of
      the accepted parameters and the emission of the compiled stage
      binaries, with [StagesCompilerText];
    - [GenerateConsumer]: the preprocessor callbacks for the head include
      and the macro expansions;

    and of [clang/tools/hshgen/hshgen.cpp]: the command line [main] hands
    to the compiler and [raw_carray_ostream].

    Conventions.  An [int] or an enum is a [Z]; an [unsigned] is a [Z] with
    its wrap-around modulo [2^32] written out.  A [std::array] or a
    [SmallVector] is a [list]; indexing outside it is undefined behaviour in
    the source and yields [Undefined] here.  An AST node carries the address
    it was allocated at, so that comparing two pointers is comparing two
    nodes. *)

Set Warnings "-register-all".
From Stdlib Require Import ZArith Lia.
From stdpp Require Import prelude strings gmap pretty.
Open Scope Z_scope.

(** ** Outcomes *)

(** What a call of the embedded code comes to: a result, undefined behaviour
    of the source (a null record, an index outside an array, a statement
    at [llvm_unreachable]), or a path of the source that this development
    does not embed. *)
Inductive Outcome (A : Type) : Type :=
  | Done (a : A)
  | Undefined
  | NotEmbedded.
Arguments Done {A} a.
Arguments Undefined {A}.
Arguments NotEmbedded {A}.

#[global] Instance Outcome_ret : MRet Outcome := @Done.
#[global] Instance Outcome_bind : MBind Outcome := fun A B f m =>
  match m with
  | Done a => f a
  | Undefined => Undefined
  | NotEmbedded => NotEmbedded
  end.

(** ** Stages and stage masks *)

Abbreviation HshStage := Z (only parsing).
Definition HshNoStage : HshStage := -1.
Definition HshHostStage : HshStage := 0.
Definition HshVertexStage : HshStage := 1.
Definition HshControlStage : HshStage := 2.
Definition HshEvaluationStage : HshStage := 3.
Definition HshGeometryStage : HshStage := 4.
Definition HshFragmentStage : HshStage := 5.
Definition HshMaxStage : Z := 6.

Definition HSH_MAX_VERTEX_BUFFERS : Z := 32.
Definition HSH_MAX_TEXTURES : Z := 32.
Definition HSH_MAX_SAMPLERS : Z := 32.
Definition HSH_MAX_COLOR_TARGETS : Z := 8.

Definition HshStageToString (Stage : HshStage) : string :=
  if Stage =? HshHostStage then "host"
  else if Stage =? HshVertexStage then "vertex"
  else if Stage =? HshControlStage then "control"
  else if Stage =? HshEvaluationStage then "evaluation"
  else if Stage =? HshGeometryStage then "geometry"
  else if Stage =? HshFragmentStage then "fragment"
  else "none".

(** Conversion to [unsigned]. *)
Definition unsigned (z : Z) : Z := z mod 2 ^ 32.

(** [1u << n]. *)
Definition StageBit (n : Z) : Z := unsigned (Z.shiftl 1 n).

(** [UseStages & (1u << unsigned(D))], read as a condition. *)
Definition StageUsed (UseStages : Z) (D : HshStage) : bool :=
  negb (Z.land UseStages (StageBit (unsigned D)) =? 0).

(** Element [i] of a [std::array]; outside the array the source has
    undefined behaviour. *)
Definition array_get {A} (arr : list A) (i : Z) : Outcome A :=
  if (0 <=? i) && (i <? Z.of_nat (length arr)) then
    match arr !! Z.to_nat i with
    | Some a => Done a
    | None => Undefined
    end
  else Undefined.

Definition array_set {A} (arr : list A) (i : Z) (a : A) : list A :=
  <[Z.to_nat i := a]> arr.

(** ** AST nodes *)

(** The address of a node. *)
Definition Ptr := nat.

(** Modelled from the spec: Clang's [BinaryOperatorKind], declared in
    OperationKinds.def, which is not part of the sources at hand. *)
Inductive BinaryOperatorKind : Type :=
  | BO_PtrMemD | BO_PtrMemI | BO_Mul | BO_Div | BO_Rem | BO_Add | BO_Sub
  | BO_Shl | BO_Shr | BO_Cmp | BO_LT | BO_GT | BO_LE | BO_GE | BO_EQ | BO_NE
  | BO_And | BO_Xor | BO_Or | BO_LAnd | BO_LOr | BO_Assign | BO_MulAssign
  | BO_DivAssign | BO_RemAssign | BO_AddAssign | BO_SubAssign | BO_ShlAssign
  | BO_ShrAssign | BO_AndAssign | BO_XorAssign | BO_OrAssign | BO_Comma.

(** Modelled from the spec: Clang's [OverloadedOperatorKind], declared in
    OperatorKinds.def, which is not part of the sources at hand. *)
Inductive OverloadedOperatorKind : Type :=
  | OO_None | OO_New | OO_Delete | OO_Array_New | OO_Array_Delete | OO_Plus
  | OO_Minus | OO_Star | OO_Slash | OO_Percent | OO_Caret | OO_Amp | OO_Pipe
  | OO_Tilde | OO_Exclaim | OO_Equal | OO_Less | OO_Greater | OO_PlusEqual
  | OO_MinusEqual | OO_StarEqual | OO_SlashEqual | OO_PercentEqual
  | OO_CaretEqual | OO_AmpEqual | OO_PipeEqual | OO_LessLess
  | OO_GreaterGreater | OO_LessLessEqual | OO_GreaterGreaterEqual
  | OO_EqualEqual | OO_ExclaimEqual | OO_LessEqual | OO_GreaterEqual
  | OO_Spaceship | OO_AmpAmp | OO_PipePipe | OO_PlusPlus | OO_MinusMinus
  | OO_Comma | OO_ArrowStar | OO_Arrow | OO_Call | OO_Subscript
  | OO_Conditional | OO_Coawait.

#[global] Instance BinaryOperatorKind_eq_dec : EqDecision BinaryOperatorKind.
Proof. solve_decision. Defined.

#[global] Instance OverloadedOperatorKind_eq_dec :
  EqDecision OverloadedOperatorKind.
Proof. solve_decision. Defined.

(** A variable declaration, told apart by where it comes from: a parameter
    or a local of the lambda (by address), or the producer [_to_<D>] and
    consumer [_from_<S>] variable that [initializeRecord] creates for the
    record from stage [S] to stage [D]. *)
Inductive VarDecl : Type :=
  | ParmVar (p : Ptr)
  | LocalVar (p : Ptr)
  | ProducerVar (S D : HshStage)
  | ConsumerVar (S D : HshStage).

#[global] Instance VarDecl_eq_dec : EqDecision VarDecl.
Proof. solve_decision. Defined.

(** A field of an interface record: [getFieldForExpr] names it ['_'], the
    first letters of the record's two stages and its index in the record.
    The type of the field (that of the expression) is not modelled. *)
Record FieldDecl : Type := mkFieldDecl {
  FieldS : HshStage;
  FieldD : HshStage;
  FieldIndex : nat
}.

#[global] Instance FieldDecl_eq_dec : EqDecision FieldDecl.
Proof. solve_decision. Defined.

(** The expression classes that [StagesBuilder] looks through to an operand
    that is an expression (its visitors between "Begin ignores" and "End
    ignores").  The two other visitors there go on with a statement:
    [VisitBlockExpr] with the body of the block, and [VisitValueStmt] is
    the visitor of labels and attributed statements, which are statements
    of the body ([BodyStmt] below); a block is not an expression of this
    development. *)
Inductive IgnoredClass : Type :=
  | UnaryOperatorClass
  | GenericSelectionExprClass | ChooseExprClass | ConstantExprClass
  | ImplicitCastExprClass | FullExprClass | MaterializeTemporaryExprClass
  | SubstNonTypeTemplateParmExprClass.

#[global] Instance IgnoredClass_eq_dec : EqDecision IgnoredClass.
Proof. solve_decision. Defined.

(** The three kinds of call expression. *)
Inductive CallKind : Type :=
  | PlainCall (callee : Ptr)
  | CXXMemberCall (method : Ptr)
  | CXXOperatorCall (op : OverloadedOperatorKind).

#[global] Instance CallKind_eq_dec : EqDecision CallKind.
Proof. solve_decision. Defined.

(** Expressions.  Every node starts with its address.  A
    [CXXConstructExpr] records whether it is a [CXXTemporaryObjectExpr]. *)
Inductive Expr : Type :=
  | IntegerLiteral (p : Ptr) (v : Z)
  | FloatingLiteral (p : Ptr) (v : Z)
  | DeclRefExpr (p : Ptr) (d : VarDecl)
  | MemberExpr (p : Ptr) (base : Expr) (member : FieldDecl)
  | BinaryOperator (p : Ptr) (op : BinaryOperatorKind) (lhs rhs : Expr)
  | CallExpr (p : Ptr) (k : CallKind) (args : list Expr)
  | InitListExpr (p : Ptr) (inits : list Expr)
  | CXXConstructExpr (p : Ptr) (temporary : bool) (ctor : Ptr)
      (args : list Expr)
  | IgnoredExpr (p : Ptr) (c : IgnoredClass) (sub : Expr).

Fixpoint Expr_eq_dec (e1 e2 : Expr) {struct e1} : {e1 = e2} + {e1 <> e2}.
Proof.
  decide equality;
    try apply Nat.eq_dec; try apply Z.eq_dec; try apply Bool.bool_dec;
    try apply VarDecl_eq_dec; try apply FieldDecl_eq_dec;
    try apply BinaryOperatorKind_eq_dec; try apply CallKind_eq_dec;
    try apply IgnoredClass_eq_dec;
    apply (List.list_eq_dec Expr_eq_dec).
Defined.

#[global] Instance Expr_eqdec : EqDecision Expr := Expr_eq_dec.

Definition ExprPtr (E : Expr) : Ptr :=
  match E with
  | IntegerLiteral p _ | FloatingLiteral p _ | DeclRefExpr p _
  | MemberExpr p _ _ | BinaryOperator p _ _ _ | CallExpr p _ _
  | InitListExpr p _ | CXXConstructExpr p _ _ _ | IgnoredExpr p _ _ => p
  end.

(** An expression as a tree of values: every node at the address [O]. *)
Fixpoint withoutAddresses (E : Expr) : Expr :=
  match E with
  | IntegerLiteral _ v => IntegerLiteral O v
  | FloatingLiteral _ v => FloatingLiteral O v
  | DeclRefExpr _ d => DeclRefExpr O d
  | MemberExpr _ base member => MemberExpr O (withoutAddresses base) member
  | BinaryOperator _ op lhs rhs =>
      BinaryOperator O op (withoutAddresses lhs) (withoutAddresses rhs)
  | CallExpr _ k args => CallExpr O k (map withoutAddresses args)
  | InitListExpr _ inits => InitListExpr O (map withoutAddresses inits)
  | CXXConstructExpr _ temporary ctor args =>
      CXXConstructExpr O temporary ctor (map withoutAddresses args)
  | IgnoredExpr _ c sub => IgnoredExpr O c (withoutAddresses sub)
  end.

(** Modelled from the spec: Clang's [Expr::isSameComparisonOperand], which
    is not part of the sources at hand.  The spec has the record reuse a
    field for "structurally identical values (value equality of the
    expression tree, not identity)": two expressions are the same when
    they are equal as trees of values, whatever the addresses of their
    nodes. *)
Definition Expr_isSameComparisonOperand (E1 E2 : Expr) : bool :=
  bool_decide (withoutAddresses E1 = withoutAddresses E2).

(** Statements as the stage lists hold them: a declaration statement with
    the variable it declares, or an expression. *)
Inductive Stmt : Type :=
  | DeclStmt (p : Ptr) (decl : VarDecl)
  | ExprStmt (E : Expr).

#[global] Instance Stmt_eq_dec : EqDecision Stmt.
Proof. solve_decision. Defined.

Definition isa_DeclStmt (S : Stmt) : bool :=
  match S with
  | DeclStmt _ _ => true
  | ExprStmt _ => false
  end.

Definition StmtPtr (S : Stmt) : Ptr :=
  match S with
  | DeclStmt p _ => p
  | ExprStmt E => ExprPtr E
  end.

(** A declaration of the group of a declaration statement: a variable with
    its initializer, [None] when it has none, or a declaration of another
    kind. *)
Inductive Decl : Type :=
  | VarDeclOf (VD : VarDecl) (Init : option Expr)
  | OtherDecl.

(** Statements as the body of the lambda has them, and as
    [LastAssignmentFinder] walks them: a compound statement, a declaration
    statement with its group, a null statement, a label or an attributed
    statement with what [getExprStmt] finds in it ([None] for [nullptr]),
    an expression, or a statement of another class.  A declaration
    statement that [StagesBuilder::VisitDeclStmt] creates is such a node as
    well, its one variable with the initializer set for it. *)
Inductive BodyStmt : Type :=
  | CompoundStmt (p : Ptr) (body : list BodyStmt)
  | DeclGroupStmt (p : Ptr) (group : list Decl)
  | NullStmt (p : Ptr)
  | ValueStmt (p : Ptr) (exprStmt : option Expr)
  | ExprOf (E : Expr)
  | OtherStmt (p : Ptr).

Definition BodyStmtPtr (S : BodyStmt) : Ptr :=
  match S with
  | CompoundStmt p _ | DeclGroupStmt p _ | NullStmt p | ValueStmt p _
  | OtherStmt p => p
  | ExprOf E => ExprPtr E
  end.

(** ** Diagnostics and the AST context *)

Inductive DiagLevel : Type := Error | Warning | Note.

#[global] Instance DiagLevel_eq_dec : EqDecision DiagLevel.
Proof. solve_decision. Defined.

(** One constructor per format string passed to [ReportCustom]. *)
Inductive DiagMessage : Type :=
  | NonConstexprSampler | BadSamplerStructFormat | SamplerOverflow
  | BadVertexPositionType | BadColorTargetType | BadVertexBufferType
  | VertexBufferOutOfRange | VertexBufferDuplicate | PreviousBufferIndexHere
  | BadTextureType | TextureOutOfRange | TextureDuplicate
  | PreviousTextureIndexHere | BadIntegerType | BadRecordType
  | ColorTargetOutOfRange | UnsupportedStmt.

#[global] Instance DiagMessage_eq_dec : EqDecision DiagMessage.
Proof. solve_decision. Defined.

(** A reported diagnostic: its level, its message and the address of the
    node it is reported at. *)
Record Diagnostic : Type := mkDiag {
  Level : DiagLevel;
  Message : DiagMessage;
  Location : Ptr
}.

#[global] Instance Diagnostic_eq_dec : EqDecision Diagnostic.
Proof. solve_decision. Defined.

(** [ReportCustom]: the level defaults to [Error]. *)
Definition ReportCustom (at_ : Ptr) (msg : DiagMessage) (level : DiagLevel)
    (Diags : list Diagnostic) : list Diagnostic :=
  Diags ++ [mkDiag level msg at_].

Definition hasErrorOccurred (Diags : list Diagnostic) : bool :=
  bool_decide (Exists (fun d => Level d = Error) Diags).

(** The part of [ASTContext] the builder uses: the allocator, as the next
    free address, and the diagnostics engine, as the diagnostics reported so
    far. *)
Record ASTContext : Type := mkASTContext {
  NextPtr : Ptr;
  Diags : list Diagnostic
}.

(** [new (Context) T(...)], [T::Create(Context, ...)]. *)
Definition allocate (C : ASTContext) : Ptr * ASTContext :=
  (NextPtr C, mkASTContext (S (NextPtr C)) (Diags C)).

Definition report (at_ : Ptr) (msg : DiagMessage) (C : ASTContext)
    : ASTContext :=
  mkASTContext (NextPtr C) (ReportCustom at_ msg Error (Diags C)).

(** ** Interface records *)

(** [InterfaceRecord].  [RecordDecl] is the [CXXRecordDecl] with the member
    declarations added to it so far, [None] while it is [nullptr], that is
    before [initializeRecord]. *)
Record InterfaceRecord : Type := mkInterfaceRecord {
  RecordDecl : option (list FieldDecl);
  Fields : list (Expr * FieldDecl);
  Producer : option VarDecl;
  Consumer : option VarDecl;
  SStage : HshStage;
  DStage : HshStage
}.

(** A default-constructed record. *)
Definition InterfaceRecord_new : InterfaceRecord :=
  mkInterfaceRecord None [] None None HshNoStage HshNoStage.

Definition initializeRecord (R : InterfaceRecord) (S D : HshStage)
    : InterfaceRecord :=
  mkInterfaceRecord (Some []) (Fields R)
    (Some (ProducerVar S D)) (Some (ConsumerVar S D)) S D.

(** ** Per-stage statement lists *)

(** [StageStmtList]: the statements of a stage and, in step with them, a
    reference count and the originating variable of each. *)
Record StageStmtList : Type := mkStageStmtList {
  Stmts : list Stmt;
  StmtDeclRefCount : list (Z * option VarDecl)
}.

(** The search both [addStageStmt] and [liftDeclStmt] run over a stage: the
    index of the first declaration statement whose entry of
    [StmtDeclRefCount] names [OrigDecl].  The two vectors are walked in
    step; running off the end of the second is undefined. *)
Fixpoint findDeclRef (OrigDecl : option VarDecl) (Stmts : list Stmt)
    (Counts : list (Z * option VarDecl)) (i : nat) : Outcome (option nat) :=
  match Stmts with
  | [] => Done None
  | It :: Stmts' =>
      match Counts with
      | [] => Undefined
      | RefCount :: Counts' =>
          if isa_DeclStmt It && bool_decide (RefCount.2 = OrigDecl)
          then Done (Some i)
          else findDeclRef OrigDecl Stmts' Counts' (S i)
      end
  end.

Definition pushStageStmt (S : Stmt) (OrigDecl : option VarDecl)
    (L : StageStmtList) : StageStmtList :=
  mkStageStmtList (Stmts L ++ [S]) (StmtDeclRefCount L ++ [(1, OrigDecl)]).

(** [addStageStmt] on the list of one stage. *)
Definition addStageStmt_list (S : Stmt) (OrigDecl : option VarDecl)
    (L : StageStmtList) : Outcome StageStmtList :=
  if isa_DeclStmt S then
    found ← findDeclRef OrigDecl (Stmts L) (StmtDeclRefCount L) 0%nat;
    match found with
    | Some i =>
        Done (mkStageStmtList (Stmts L)
                (alter (fun RefCount => (unsigned (RefCount.1 + 1), RefCount.2))
                   i (StmtDeclRefCount L)))
    | None => Done (pushStageStmt S OrigDecl L)
    end
  else if bool_decide (S ∈ Stmts L) then Done L
  else Done (pushStageStmt S OrigDecl L).

(** The second half of [liftDeclStmt], on the list of the stage lifted
    from: the count of the declaration goes down by one, and the
    declaration leaves the list when the count reaches zero. *)
Definition dropDeclRef_list (OrigDecl : option VarDecl) (L : StageStmtList)
    : Outcome StageStmtList :=
  found ← findDeclRef OrigDecl (Stmts L) (StmtDeclRefCount L) 0%nat;
  match found with
  | Some i =>
      match StmtDeclRefCount L !! i with
      | Some RefCount =>
          if unsigned (RefCount.1 - 1) =? 0
          then Done (mkStageStmtList (delete i (Stmts L))
                       (delete i (StmtDeclRefCount L)))
          else Done (mkStageStmtList (Stmts L)
                       (<[i := (unsigned (RefCount.1 - 1), RefCount.2)]>
                          (StmtDeclRefCount L)))
      | None => Undefined
      end
  | None => Done L
  end.

(** ** Resource tables *)

(** [SamplerConfig]: the two enumerators are kept as the integers they are
    read from. *)
Record SamplerConfig : Type := mkSamplerConfig {
  Filter : Z;
  Wrap : Z
}.

#[global] Instance SamplerConfig_eq_dec : EqDecision SamplerConfig.
Proof. solve_decision. Defined.

Definition HSF_Linear : Z := 0.
Definition HSF_Nearest : Z := 1.
Definition HSW_Repeat : Z := 0.
Definition HSW_Clamp : Z := 1.

Record SamplerRecord : Type := mkSamplerRecord {
  Config : SamplerConfig;
  SamplerUseStages : Z
}.

(** [HshTextureKind]: a texture type of BuiltinTypes.def and its component
    type. *)
Inductive HshTextureName : Type :=
  | texture1d | texture1d_array | texture2d | render_texture2d
  | texture2d_array | texture3d | texturecube | texturecube_array.

Inductive HshTextureComponent : Type := Tex_float | Tex_int | Tex_uint.

Definition HshTextureKind : Type := HshTextureName * HshTextureComponent.

Record TextureRecord : Type := mkTextureRecord {
  TextureName : string;
  Kind : HshTextureKind;
  TextureUseStages : Z
}.

Record SampleCall : Type := mkSampleCall {
  SampleExpr : Ptr;
  Index : Z;
  SamplerIndex : Z
}.

(** Modelled from the spec: Clang's [APValue], the result of evaluating a
    constant expression, of which the generator uses the integers and the
    structs. *)
Inductive APValue : Type :=
  | APInt (v : Z)
  | APStruct (fields : list APValue)
  | APOther.

#[global] Instance APValue_inhabited : Inhabited APValue := populate APOther.

Definition APValue_isInt (V : APValue) : bool :=
  match V with
  | APInt _ => true
  | _ => false
  end.

Definition APValue_getInt (V : APValue) : Z :=
  match V with
  | APInt v => v
  | _ => 0
  end.

Definition NumFields : nat := 2.

(** [SamplerConfig::ValidateSamplerStruct]. *)
Definition ValidateSamplerStruct (Val : APValue) : bool :=
  match Val with
  | APStruct fields =>
      bool_decide (length fields = NumFields)
      && forallb APValue_isInt (take NumFields fields)
  | _ => false
  end.

(** The constructor [SamplerConfig(const APValue &)]. *)
Definition SamplerConfig_of (Val : APValue) : SamplerConfig :=
  match Val with
  | APStruct fields =>
      mkSamplerConfig (APValue_getInt (fields !!! 0%nat))
                      (APValue_getInt (fields !!! 1%nat))
  | _ => mkSamplerConfig HSF_Linear HSW_Repeat
  end.

(** What [registerSampleCall] reads from the call expression [C] it is
    given: the address of [C]; the stage and index of the texture attribute
    of the parameter the sample is performed on ([getTextureIndex], the
    index zero-extended), or [None] when the object argument is not a
    reference to a parameter; and the value of the sampler argument when it
    is a constant expression ([isCXX11ConstantExpr]). *)
Record SampleCallSite : Type := mkSampleCallSite {
  CallPtr : Ptr;
  SamplerArgPtr : Ptr;
  TextureParm : option (HshStage * Z);
  SamplerArg : option APValue
}.

(** ** The last assignment of a variable ([LastAssignmentFinder]) *)

Module LastAssignmentFinder.

Section Finder.

(** Clang's [BinaryOperator::isAssignmentOp] and
    [CXXOperatorCallExpr::isAssignmentOp], which are not part of the
    sources at hand: the finder is parametric in them. *)
Variable BinaryOperator_isAssignmentOp : BinaryOperatorKind -> bool.
Variable CXXOperatorCallExpr_isAssignmentOp : OverloadedOperatorKind -> bool.

(** Clang's [Expr::IgnoreParenCasts], which is not part of the sources at
    hand either: whether it goes on from a looked-through node, given by
    its address and its class, to the operand of the node.  The other
    expressions of this development it returns as they are. *)
Variable skippedByIgnoreParenCasts : Ptr -> IgnoredClass -> bool.

Fixpoint IgnoreParenCasts (E : Expr) : Expr :=
  match E with
  | IgnoredExpr p c sub =>
      if skippedByIgnoreParenCasts p c then IgnoreParenCasts sub else E
  | _ => E
  end.

(** The members of the finder, with the diagnostics engine of the context
    it holds.  [Assign] is set to a binary operator or to an operator call
    only; [CompoundChild], [LastCompoundChild] and [End] are compared and
    handed on, and never looked into. *)
Record State : Type := mkState {
  FinderContext : ASTContext;
  Var : option VarDecl;
  End_ : option Ptr;
  Assign : option Expr;
  LastAssign : option BodyStmt;
  CompoundChild : option Ptr;
  LastCompoundChild : option Ptr
}.

Definition set_Assign (A : option Expr) (st : State) : State :=
  mkState (FinderContext st) (Var st) (End_ st) A (LastAssign st)
    (CompoundChild st) (LastCompoundChild st).

Definition set_CompoundChild (Child : option Ptr) (st : State) : State :=
  mkState (FinderContext st) (Var st) (End_ st) (Assign st) (LastAssign st)
    Child (LastCompoundChild st).

Definition UpdateLastAssign (S : BodyStmt) (st : State) : State :=
  mkState (FinderContext st) (Var st) (End_ st) (Assign st) (Some S)
    (CompoundChild st) (CompoundChild st).

(** [ReportUnsupportedStmt(S, Context)]. *)
Definition ReportUnsupportedStmt (at_ : Ptr) (st : State) : State :=
  mkState (report at_ UnsupportedStmt (FinderContext st)) (Var st) (End_ st)
    (Assign st) (LastAssign st) (CompoundChild st) (LastCompoundChild st).

(** [DoVisit] on an expression, with [compare] set: the comparison with
    [End], then [Visit] on what [IgnoreParenCasts] makes of the expression.
    Without [compare], what is left to do once [IgnoreParenCasts] has gone
    on from a node to this one, its operand. *)
Fixpoint DoVisitExpr (compare : bool) (E : Expr) (st : State) {struct E}
    : Outcome (bool * State) :=
  if compare && bool_decide (End_ st = Some (ExprPtr E)) then Done (false, st)
  else
    let DoVisitRange :=
      fix DoVisitRange (Range : list Expr) (st : State)
          : Outcome (bool * State) :=
        match Range with
        | [] => Done (true, st)
        | Arg :: Range' =>
            '(Ret, st1) ← DoVisitExpr true Arg st;
            if negb (Ret : bool) then Done (false, st1)
            else DoVisitRange Range' st1
        end in
    match E with
    | IntegerLiteral _ _ | FloatingLiteral _ _ => Done (true, st)
    | DeclRefExpr _ d =>
        match Assign st with
        | Some A =>
            if bool_decide (Some d = Var st)
            then Done (true, UpdateLastAssign (ExprOf A) st)
            else Done (true, st)
        | None => Done (true, st)
        end
    | MemberExpr _ base _ => DoVisitExpr true base st
    | BinaryOperator _ op lhs rhs =>
        if BinaryOperator_isAssignmentOp op then
          '(Ret, st1) ← DoVisitExpr true lhs (set_Assign (Some E) st);
          let st2 := set_Assign (Assign st) st1 in
          if negb (Ret : bool) then Done (false, st2)
          else DoVisitExpr true rhs st2
        else
          '(Ret, st1) ← DoVisitExpr true lhs st;
          if negb (Ret : bool) then Done (false, st1)
          else DoVisitExpr true rhs st1
    | CallExpr _ (CXXOperatorCall op) args =>
        match args with
        | Arg0 :: Rest =>
            if CXXOperatorCallExpr_isAssignmentOp op then
              '(Ret, st1) ← DoVisitExpr true Arg0 (set_Assign (Some E) st);
              let st2 := set_Assign (Assign st) st1 in
              if negb (Ret : bool) then Done (false, st2)
              else
                match Rest with
                | Arg1 :: _ => DoVisitExpr true Arg1 st2
                | [] => Undefined
                end
            else DoVisitRange args st
        | [] => DoVisitRange args st
        end
    | CallExpr _ _ args => DoVisitRange args st
    | InitListExpr _ inits => DoVisitRange inits st
    | CXXConstructExpr _ _ _ args => DoVisitRange args st
    | IgnoredExpr p c sub =>
        if skippedByIgnoreParenCasts p c then DoVisitExpr false sub st
        else
          match c with
          | UnaryOperatorClass => DoVisitExpr true sub st
          | _ => Done (true, ReportUnsupportedStmt p st)
          end
    end.

(** [DoVisit] on a statement. *)
Fixpoint DoVisit (S : BodyStmt) (st : State) {struct S}
    : Outcome (bool * State) :=
  match S with
  | ExprOf E => DoVisitExpr true E st
  | CompoundStmt p body =>
      if bool_decide (End_ st = Some p) then Done (false, st)
      else
        (fix VisitCompoundStmt (body : list BodyStmt) (st : State)
             : Outcome (bool * State) :=
           match body with
           | [] => Done (true, st)
           | ChildStmt :: body' =>
               '(Ret, st1) ←
                 DoVisit ChildStmt
                   (set_CompoundChild (Some (BodyStmtPtr ChildStmt)) st);
               if negb (Ret : bool) then Done (false, st1)
               else VisitCompoundStmt body' st1
           end) body st
  | DeclGroupStmt p group =>
      if bool_decide (End_ st = Some p) then Done (false, st)
      else
        (fix VisitDeclStmt (group : list Decl) (st : State)
             : Outcome (bool * State) :=
           match group with
           | [] => Done (true, st)
           | VarDeclOf VD (Some Init) :: group' =>
               if bool_decide (Some VD = Var st)
               then VisitDeclStmt group' (UpdateLastAssign S st)
               else
                 '(Ret, st1) ← DoVisitExpr true Init st;
                 if negb (Ret : bool) then Done (false, st1)
                 else VisitDeclStmt group' st1
           | _ :: group' => VisitDeclStmt group' st
           end) group st
  | NullStmt p =>
      if bool_decide (End_ st = Some p) then Done (false, st)
      else Done (true, st)
  | ValueStmt p exprStmt =>
      if bool_decide (End_ st = Some p) then Done (false, st)
      else
        match exprStmt with
        | Some E => DoVisitExpr true E st
        | None => Undefined
        end
  | OtherStmt p =>
      if bool_decide (End_ st = Some p) then Done (false, st)
      else Done (true, ReportUnsupportedStmt p st)
  end.

(** [Find], on a finder just constructed on the context [C]: the last
    assignment, the child of a compound statement it was found in, and the
    context.  A null body is visited all the same. *)
Definition Find (V : VarDecl) (Body : option BodyStmt) (E : option Ptr)
    (C : ASTContext) : Outcome (option BodyStmt * option Ptr * ASTContext) :=
  match Body with
  | None => Undefined
  | Some B =>
      '(_, st) ← DoVisit B (mkState C (Some V) E None None None None);
      Done (LastAssign st, LastCompoundChild st, FinderContext st)
  end.

End Finder.

End LastAssignmentFinder.

(** ** The builder *)

(** [AssignmentFinderInfo].  [LastCompoundChild] is compared and handed on,
    and never looked into. *)
Record AssignmentFinderInfo : Type := mkAssignmentFinderInfo {
  Body : option BodyStmt;
  LastCompoundChild : option Ptr;
  SelectedVarDecl : option VarDecl
}.

Record StagesBuilder : Type := mkStagesBuilder {
  Context : ASTContext;
  UseStages : Z;
  HostToStageRecords : list InterfaceRecord;
  InterStageRecords : list InterfaceRecord;
  StageStmts : list StageStmtList;
  SampleCalls : list (list SampleCall);
  Textures : list TextureRecord;
  Samplers : list SamplerRecord;
  AssignFindInfo : AssignmentFinderInfo;
  OrigVarDecl : option VarDecl;
  ReplacedAssigns : gmap Ptr (list (option BodyStmt))
}.

Definition set_Context (C : ASTContext) (b : StagesBuilder) : StagesBuilder :=
  mkStagesBuilder C (UseStages b) (HostToStageRecords b)
    (InterStageRecords b) (StageStmts b) (SampleCalls b) (Textures b)
    (Samplers b) (AssignFindInfo b) (OrigVarDecl b) (ReplacedAssigns b).

Definition set_HostToStageRecords (R : list InterfaceRecord)
    (b : StagesBuilder) : StagesBuilder :=
  mkStagesBuilder (Context b) (UseStages b) R (InterStageRecords b)
    (StageStmts b) (SampleCalls b) (Textures b) (Samplers b)
    (AssignFindInfo b) (OrigVarDecl b) (ReplacedAssigns b).

Definition set_InterStageRecords (R : list InterfaceRecord)
    (b : StagesBuilder) : StagesBuilder :=
  mkStagesBuilder (Context b) (UseStages b) (HostToStageRecords b) R
    (StageStmts b) (SampleCalls b) (Textures b) (Samplers b)
    (AssignFindInfo b) (OrigVarDecl b) (ReplacedAssigns b).

Definition set_StageStmts (L : list StageStmtList) (b : StagesBuilder)
    : StagesBuilder :=
  mkStagesBuilder (Context b) (UseStages b) (HostToStageRecords b)
    (InterStageRecords b) L (SampleCalls b) (Textures b) (Samplers b)
    (AssignFindInfo b) (OrigVarDecl b) (ReplacedAssigns b).

Definition set_SampleCalls (L : list (list SampleCall)) (b : StagesBuilder)
    : StagesBuilder :=
  mkStagesBuilder (Context b) (UseStages b) (HostToStageRecords b)
    (InterStageRecords b) (StageStmts b) L (Textures b) (Samplers b)
    (AssignFindInfo b) (OrigVarDecl b) (ReplacedAssigns b).

Definition set_Textures (L : list TextureRecord) (b : StagesBuilder)
    : StagesBuilder :=
  mkStagesBuilder (Context b) (UseStages b) (HostToStageRecords b)
    (InterStageRecords b) (StageStmts b) (SampleCalls b) L (Samplers b)
    (AssignFindInfo b) (OrigVarDecl b) (ReplacedAssigns b).

Definition set_Samplers (L : list SamplerRecord) (b : StagesBuilder)
    : StagesBuilder :=
  mkStagesBuilder (Context b) (UseStages b) (HostToStageRecords b)
    (InterStageRecords b) (StageStmts b) (SampleCalls b) (Textures b) L
    (AssignFindInfo b) (OrigVarDecl b) (ReplacedAssigns b).

Definition set_AssignFindInfo (AFI : AssignmentFinderInfo)
    (b : StagesBuilder) : StagesBuilder :=
  mkStagesBuilder (Context b) (UseStages b) (HostToStageRecords b)
    (InterStageRecords b) (StageStmts b) (SampleCalls b) (Textures b)
    (Samplers b) AFI (OrigVarDecl b) (ReplacedAssigns b).

Definition set_OrigVarDecl (VD : option VarDecl) (b : StagesBuilder)
    : StagesBuilder :=
  mkStagesBuilder (Context b) (UseStages b) (HostToStageRecords b)
    (InterStageRecords b) (StageStmts b) (SampleCalls b) (Textures b)
    (Samplers b) (AssignFindInfo b) VD (ReplacedAssigns b).

Definition set_ReplacedAssigns (M : gmap Ptr (list (option BodyStmt)))
    (b : StagesBuilder) : StagesBuilder :=
  mkStagesBuilder (Context b) (UseStages b) (HostToStageRecords b)
    (InterStageRecords b) (StageStmts b) (SampleCalls b) (Textures b)
    (Samplers b) (AssignFindInfo b) (OrigVarDecl b) M.

(** The first loop of the constructor: the host record of every used stage
    from the vertex stage on. *)
Fixpoint initHostRecords (UseStages : Z) (n : nat) (D : Z)
    (Records : list InterfaceRecord) : list InterfaceRecord :=
  match n with
  | O => Records
  | S n' =>
      let Records' :=
        if StageUsed UseStages D then
          alter (fun R => initializeRecord R HshHostStage D) (Z.to_nat D)
            Records
        else Records in
      initHostRecords UseStages n' (D + 1) Records'
  end.

(** The second loop of the constructor: the record of every used stage from
    the control stage on, fed by the used stage before it, the vertex stage
    to begin with. *)
Fixpoint initInterRecords (UseStages : Z) (n : nat) (D S : Z)
    (Records : list InterfaceRecord) : list InterfaceRecord :=
  match n with
  | O => Records
  | Datatypes.S n' =>
      if StageUsed UseStages D then
        initInterRecords UseStages n' (D + 1) D
          (alter (fun R => initializeRecord R S D) (Z.to_nat D) Records)
      else initInterRecords UseStages n' (D + 1) S Records
  end.

(** The constructor [StagesBuilder(Context, SpecDeclContext, UseStages)]. *)
Definition StagesBuilder_new (C : ASTContext) (UseStages : Z)
    : StagesBuilder :=
  mkStagesBuilder C UseStages
    (initHostRecords UseStages (Z.to_nat (HshMaxStage - HshVertexStage))
       HshVertexStage (replicate (Z.to_nat HshMaxStage) InterfaceRecord_new))
    (initInterRecords UseStages (Z.to_nat (HshMaxStage - HshControlStage))
       HshControlStage HshVertexStage
       (replicate (Z.to_nat HshMaxStage) InterfaceRecord_new))
    (replicate (Z.to_nat HshMaxStage) (mkStageStmtList [] []))
    (replicate (Z.to_nat HshMaxStage) [])
    [] []
    (mkAssignmentFinderInfo None None None) None ∅.

(** ** Operations of the builder *)

Section Builder.

(** Clang's [Expr::isSameComparisonOperand], which is not part of the
    sources at hand: the builder is parametric in it. *)
Variable sameComparisonOperand : Expr -> Expr -> bool.

(** What [LastAssignmentFinder] takes from Clang. *)
Variable BinaryOperator_isAssignmentOp : BinaryOperatorKind -> bool.
Variable CXXOperatorCallExpr_isAssignmentOp : OverloadedOperatorKind -> bool.
Variable skippedByIgnoreParenCasts : Ptr -> IgnoredClass -> bool.

(** [InterfaceRecord::isSameComparisonOperand]: the same node, or two nodes
    that Clang's comparison equates.  (The source first sets the value kind
    of both nodes to [VK_RValue]; value kinds are not modelled.) *)
Definition isSameComparisonOperand (E1 E2 : Expr) : bool :=
  bool_decide (E1 = E2) || sameComparisonOperand E1 E2.

(** [InterfaceRecord::getFieldForExpr]: the field and the record after the
    call.  A new field cannot be declared in a null record. *)
Definition getFieldForExpr (R : InterfaceRecord) (E : Expr)
    (IgnoreExisting : bool) : Outcome (option FieldDecl * InterfaceRecord) :=
  match find (fun P => isSameComparisonOperand P.1 E) (Fields R) with
  | Some P => Done (if IgnoreExisting then None else Some P.2, R)
  | None =>
      match RecordDecl R with
      | None => Undefined
      | Some decls =>
          let FD := mkFieldDecl (SStage R) (DStage R) (length (Fields R)) in
          Done (Some FD,
                mkInterfaceRecord (Some (decls ++ [FD]))
                  (Fields R ++ [(E, FD)]) (Producer R) (Consumer R)
                  (SStage R) (DStage R))
      end
  end.

(** [InterfaceRecord::createFieldReference]: a member expression on a
    reference to [VD], when [getFieldForExpr] gives a field. *)
Definition createFieldReference (R : InterfaceRecord) (E : Expr)
    (VD : option VarDecl) (IgnoreExisting : bool) (C : ASTContext)
    : Outcome (option Expr * InterfaceRecord * ASTContext) :=
  '(Field, R') ← getFieldForExpr R E IgnoreExisting;
  match Field with
  | None => Done (None, R', C)
  | Some FD =>
      match VD with
      | None => Undefined
      | Some V =>
          let '(p1, C1) := allocate C in
          let '(p2, C2) := allocate C1 in
          Done (Some (MemberExpr p2 (DeclRefExpr p1 V) FD), R', C2)
      end
  end.

Definition createProducerFieldReference (R : InterfaceRecord) (E : Expr)
    (C : ASTContext) : Outcome (option Expr * InterfaceRecord * ASTContext) :=
  createFieldReference R E (Producer R) true C.

Definition createConsumerFieldReference (R : InterfaceRecord) (E : Expr)
    (C : ASTContext) : Outcome (option Expr * InterfaceRecord * ASTContext) :=
  createFieldReference R E (Consumer R) false C.

(** [InterStageRecords[D].createProducerFieldReference(Context, E)]. *)
Definition interProducerReference (D : HshStage) (E : Expr)
    (b : StagesBuilder) : Outcome (option Expr * StagesBuilder) :=
  R ← array_get (InterStageRecords b) D;
  '(Ref, R', C') ← createProducerFieldReference R E (Context b);
  Done (Ref, set_Context C'
               (set_InterStageRecords (array_set (InterStageRecords b) D R')
                  b)).

(** [InterStageRecords[D].createConsumerFieldReference(Context, E)]. *)
Definition interConsumerReference (D : HshStage) (E : Expr)
    (b : StagesBuilder) : Outcome (option Expr * StagesBuilder) :=
  R ← array_get (InterStageRecords b) D;
  '(Ref, R', C') ← createConsumerFieldReference R E (Context b);
  Done (Ref, set_Context C'
               (set_InterStageRecords (array_set (InterStageRecords b) D R')
                  b)).

(** [HostToStageRecords[D].createProducerFieldReference(Context, E)]. *)
Definition hostProducerReference (D : HshStage) (E : Expr)
    (b : StagesBuilder) : Outcome (option Expr * StagesBuilder) :=
  R ← array_get (HostToStageRecords b) D;
  '(Ref, R', C') ← createProducerFieldReference R E (Context b);
  Done (Ref, set_Context C'
               (set_HostToStageRecords (array_set (HostToStageRecords b) D R')
                  b)).

(** [HostToStageRecords[D].createConsumerFieldReference(Context, E)]. *)
Definition hostConsumerReference (D : HshStage) (E : Expr)
    (b : StagesBuilder) : Outcome (option Expr * StagesBuilder) :=
  R ← array_get (HostToStageRecords b) D;
  '(Ref, R', C') ← createConsumerFieldReference R E (Context b);
  Done (Ref, set_Context C'
               (set_HostToStageRecords (array_set (HostToStageRecords b) D R')
                  b)).

(** [StagesBuilder::addStageStmt]. *)
Definition addStageStmt (S : Stmt) (Stage : HshStage)
    (OrigDecl : option VarDecl) (b : StagesBuilder) : Outcome StagesBuilder :=
  L ← array_get (StageStmts b) Stage;
  L' ← addStageStmt_list S OrigDecl L;
  Done (set_StageStmts (array_set (StageStmts b) Stage L') b).

(** [StagesBuilder::liftDeclStmt]. *)
Definition liftDeclStmt (DS : Stmt) (From To : HshStage)
    (OrigDecl : option VarDecl) (b : StagesBuilder) : Outcome StagesBuilder :=
  b1 ← addStageStmt DS To OrigDecl b;
  L ← array_get (StageStmts b1) From;
  L' ← dropDeclRef_list OrigDecl L;
  Done (set_StageStmts (array_set (StageStmts b1) From L') b1).

(** [new (Context) BinaryOperator(LHS, RHS, BO_Assign, ...)] handed to
    [addStageStmt] for stage [Stage]. *)
Definition addAssignment (LHS RHS : Expr) (Stage : HshStage)
    (b : StagesBuilder) : Outcome StagesBuilder :=
  let '(p, C) := allocate (Context b) in
  addStageStmt (ExprStmt (BinaryOperator p BO_Assign LHS RHS)) Stage None
    (set_Context C b).

(** One turn of the loop of [VisitExpr] at a used stage [D], [S] being the
    stage the value was last carried to.  The new-expression allocates the
    assignment before it evaluates the arguments of its constructor, so the
    assignment has its address before the consumer reference is created.
    The consumer reference is asked for without [IgnoreExisting], so it is
    never null; a null one would be the right operand of the assignment. *)
Definition VisitExpr_hop (E : Expr) (From S D : HshStage) (b : StagesBuilder)
    : Outcome StagesBuilder :=
  _ ← array_get (InterStageRecords b) S;
  '(ProducerRef, b1) ← interProducerReference D E b;
  match ProducerRef with
  | None => Done b1
  | Some P =>
      if S =? From then addAssignment P E S b1
      else
        let '(p, C) := allocate (Context b1) in
        '(Source, b2) ← interConsumerReference S E (set_Context C b1);
        match Source with
        | None => Undefined
        | Some Src =>
            addStageStmt (ExprStmt (BinaryOperator p BO_Assign P Src)) S None
              b2
        end
  end.

(** [for (int D = From + 1, S = From; D <= To; ++D)], with [n] turns left. *)
Fixpoint VisitExpr_loop (E : Expr) (From : HshStage) (n : nat)
    (D S : HshStage) (b : StagesBuilder) : Outcome StagesBuilder :=
  match n with
  | O => Done b
  | Datatypes.S n' =>
      if StageUsed (UseStages b) D then
        b' ← VisitExpr_hop E From S D b;
        VisitExpr_loop E From n' (D + 1) D b'
      else VisitExpr_loop E From n' (D + 1) S b
  end.

(** [StagesBuilder::VisitExpr], the base case of
    [createInterStageReferenceExpr]. *)
Definition VisitExpr (E : Expr) (From To : HshStage) (b : StagesBuilder)
    : Outcome (Expr * StagesBuilder) :=
  if (From =? To) || (From =? HshNoStage) || (To =? HshNoStage) then
    Done (E, b)
  else
    b1 ← (if negb (From =? HshHostStage) then
            VisitExpr_loop E From (Z.to_nat (To - From)) (From + 1) From b
          else
            '(ProducerRef, b1) ← hostProducerReference To E b;
            match ProducerRef with
            | None => Done b1
            | Some P => addAssignment P E From b1
            end);
    '(Ref, b2) ← (if From =? HshHostStage then hostConsumerReference To E b1
                  else interConsumerReference To E b1);
    match Ref with
    | None => Undefined
    | Some R => Done (R, b2)
    end.

(** [StagesBuilder::registerReplacedAssign]: the array of [OldAssign],
    value-initialized when [ReplacedAssigns] has none yet, is written at
    [From]. *)
Definition registerReplacedAssign (OldAssign : Ptr) (NewAssign : BodyStmt)
    (From : HshStage) (b : StagesBuilder) : Outcome StagesBuilder :=
  let Assigns :=
    default (replicate (Z.to_nat HshMaxStage) None)
      (ReplacedAssigns b !! OldAssign) in
  _ ← array_get Assigns From;
  Done (set_ReplacedAssigns
          (<[OldAssign := array_set Assigns From (Some NewAssign)]>
             (ReplacedAssigns b)) b).

(** [StagesBuilder::findLastAssignment]: the variable, which is the one
    given or the one of the declaration statement that has replaced the
    assignment found, the assignment, the child of a compound statement
    the finder found it in, and the builder, of which the finder may have
    used the diagnostics engine. *)
Definition findLastAssignment (VD : VarDecl) (From : HshStage)
    (b : StagesBuilder)
    : Outcome (VarDecl * option BodyStmt * option Ptr * StagesBuilder) :=
  '(Assign, NextCompoundChild, C) ←
    LastAssignmentFinder.Find BinaryOperator_isAssignmentOp
      CXXOperatorCallExpr_isAssignmentOp skippedByIgnoreParenCasts VD
      (Body (AssignFindInfo b)) (LastCompoundChild (AssignFindInfo b))
      (Context b);
  let b1 := set_Context C b in
  match Assign ≫= (fun S => ReplacedAssigns b !! BodyStmtPtr S) with
  | Some Assigns =>
      NewAssign ← array_get Assigns From;
      match NewAssign with
      | Some (DeclGroupStmt _ [VarDeclOf NVD _]) =>
          Done (NVD, NewAssign, NextCompoundChild, b1)
      | Some _ => Undefined
      | None => Done (VD, Assign, NextCompoundChild, b1)
      end
  | None => Done (VD, Assign, NextCompoundChild, b1)
  end.

Section Visitors.

(** [Visit] on the assignment that [findLastAssignment] has found, which is
    [Visit] again: the visitors below are parametric in it, and [Visit]
    closes the recursion. *)
Variable VisitAssign :
  BodyStmt -> HshStage -> HshStage -> StagesBuilder ->
  Outcome (Expr * StagesBuilder).

(** [StagesBuilder::VisitDeclRefExpr].  The two members of [AssignFindInfo]
    that are set for the visit of the assignment are restored after it;
    without an assignment the source is at [llvm_unreachable]. *)
Definition VisitDeclRefExpr (DeclRef : Expr) (VD : VarDecl)
    (From To : HshStage) (b : StagesBuilder)
    : Outcome (Expr * StagesBuilder) :=
  match VD with
  | ParmVar _ => VisitExpr DeclRef From To b
  | _ =>
      '(VD', Assign, NextCompoundChild, b1) ←
        findLastAssignment VD From (set_OrigVarDecl (Some VD) b);
      match Assign with
      | Some A =>
          let Saved := AssignFindInfo b1 in
          '(Res, b2) ←
            VisitAssign A From To
              (set_AssignFindInfo
                 (mkAssignmentFinderInfo (Body Saved) NextCompoundChild
                    (Some VD')) b1);
          Done (Res,
                set_AssignFindInfo
                  (mkAssignmentFinderInfo (Body (AssignFindInfo b2))
                     (LastCompoundChild Saved) (SelectedVarDecl Saved)) b2)
      | None => Undefined
      end
  end.

(** The dispatch of [StagesBuilder::Visit] on the class of an expression:
    the looked-through classes, [VisitCXXConstructExpr],
    [VisitDeclRefExpr], and [VisitExpr] for every class without a visitor
    of its own. *)
Fixpoint VisitOfExpr (E : Expr) (From To : HshStage) (b : StagesBuilder)
    {struct E} : Outcome (Expr * StagesBuilder) :=
  match E with
  | IgnoredExpr _ _ sub => VisitOfExpr sub From To b
  | CXXConstructExpr _ _ ctor args =>
      '(Arguments, b1) ←
        (fix DoVisitExprRange (Range : list Expr) (b : StagesBuilder)
             : Outcome (list Expr * StagesBuilder) :=
           match Range with
           | [] => Done ([], b)
           | A :: Range' =>
               '(A', b1) ← VisitOfExpr A From To b;
               '(Res, b2) ← DoVisitExprRange Range' b1;
               Done (A' :: Res, b2)
           end) args b;
      let '(p, C) := allocate (Context b1) in
      Done (CXXConstructExpr p true ctor Arguments, set_Context C b1)
  | DeclRefExpr _ VD => VisitDeclRefExpr E VD From To b
  | _ => VisitExpr E From To b
  end.

(** [StagesBuilder::DoVisitExprRange]. *)
Fixpoint DoVisitExprRange (Range : list Expr) (From To : HshStage)
    (b : StagesBuilder) : Outcome (list Expr * StagesBuilder) :=
  match Range with
  | [] => Done ([], b)
  | A :: Range' =>
      '(A', b1) ← VisitOfExpr A From To b;
      '(Res, b2) ← DoVisitExprRange Range' From To b1;
      Done (A' :: Res, b2)
  end.

(** [StagesBuilder::VisitDeclStmt] on the declaration statement at [p] with
    the group [group].  The new variable and the new declaration statement
    are created before the initializer is visited; the statement is given
    here with the initializer that is then set for its variable, as
    [ReplacedAssigns] keeps it, while the list of the stage holds it as a
    [Stmt], by its address and its variable.  Without the selected
    variable in the group the source is at [llvm_unreachable]. *)
Definition VisitDeclStmt (p : Ptr) (group : list Decl) (From To : HshStage)
    (b : StagesBuilder) : Outcome (Expr * StagesBuilder) :=
  match
    find (fun D => match D with
                   | VarDeclOf VD _ =>
                       bool_decide
                         (Some VD = SelectedVarDecl (AssignFindInfo b))
                   | OtherDecl => false
                   end) group
  with
  | Some (VarDeclOf VD Init) =>
      let '(pVD, C1) := allocate (Context b) in
      let '(pDS, C2) := allocate C1 in
      let NVD := LocalVar pVD in
      '(NInit, b1) ←
        match Init with
        | Some Init0 =>
            '(Init', b1) ← VisitOfExpr Init0 From To (set_Context C2 b);
            Done (Some Init', b1)
        | None => Done (None, set_Context C2 b)
        end;
      b2 ← registerReplacedAssign p (DeclGroupStmt pDS [VarDeclOf NVD NInit])
             To b1;
      b3 ← liftDeclStmt (DeclStmt pDS NVD) From To (OrigVarDecl b2) b2;
      let '(pRef, C3) := allocate (Context b3) in
      Done (DeclRefExpr pRef NVD, set_Context C3 b3)
  | _ => Undefined
  end.

(** The dispatch of [StagesBuilder::Visit] on a statement.  [VisitStmt],
    the visitor of the statements without one of their own, is at
    [llvm_unreachable]. *)
Definition VisitOfStmt (S : BodyStmt) (From To : HshStage) (b : StagesBuilder)
    : Outcome (Expr * StagesBuilder) :=
  match S with
  | ExprOf E => VisitOfExpr E From To b
  | DeclGroupStmt p group => VisitDeclStmt p group From To b
  | ValueStmt _ (Some E) => VisitOfExpr E From To b
  | ValueStmt _ None => Undefined
  | CompoundStmt _ _ | NullStmt _ | OtherStmt _ => Undefined
  end.

End Visitors.

(** [StagesBuilder::Visit].  In the source the visit of a reference to a
    variable goes on with the assignment found for it, the visit of a
    declaration with its initializer, and so on through the body; here
    [depth] bounds the number of assignments gone through one within the
    other, and a visit that would go deeper is not embedded. *)
Fixpoint Visit (depth : nat) (S : BodyStmt) (From To : HshStage)
    (b : StagesBuilder) {struct depth} : Outcome (Expr * StagesBuilder) :=
  match depth with
  | O => VisitOfStmt (fun _ _ _ _ => NotEmbedded) S From To b
  | Datatypes.S depth' => VisitOfStmt (Visit depth') S From To b
  end.

(** [StagesBuilder::createInterStageReferenceExpr]. *)
Definition createInterStageReferenceExpr (depth : nat) (E : Expr)
    (From To : HshStage) (AFI : AssignmentFinderInfo) (b : StagesBuilder)
    : Outcome (Expr * StagesBuilder) :=
  Visit depth (ExprOf E) From To (set_AssignFindInfo AFI b).

End Builder.

(** [StagesBuilder::registerTexture].  The shift count is the stage as
    given. *)
Definition registerTexture (Name : string) (K : HshTextureKind)
    (Stage : HshStage) (b : StagesBuilder) : StagesBuilder :=
  match list_find (fun T => TextureName T = Name) (Textures b) with
  | Some (i, _) =>
      set_Textures
        (alter (fun T => mkTextureRecord (TextureName T) (Kind T)
                           (Z.lor (TextureUseStages T) (StageBit Stage)))
           i (Textures b)) b
  | None =>
      set_Textures (Textures b ++ [mkTextureRecord Name K (StageBit Stage)]) b
  end.

(** [StagesBuilder::registerSampleCall]. *)
Definition registerSampleCall (C : SampleCallSite) (b : StagesBuilder)
    : Outcome StagesBuilder :=
  match TextureParm C with
  | None => Done b
  | Some (TexStage, TexIdx) =>
      StageCalls ← array_get (SampleCalls b) TexStage;
      if existsb (fun Call => bool_decide (SampleExpr Call = CallPtr C))
           StageCalls
      then Done b
      else
        match SamplerArg C with
        | None =>
            Done (set_Context
                    (report (SamplerArgPtr C) NonConstexprSampler (Context b))
                    b)
        | Some Res =>
            if negb (ValidateSamplerStruct Res) then
              Done (set_Context
                      (report (SamplerArgPtr C) BadSamplerStructFormat
                         (Context b)) b)
            else
              let Sampler := SamplerConfig_of Res in
              let record (Search : nat) (b' : StagesBuilder) :=
                set_SampleCalls
                  (array_set (SampleCalls b') TexStage
                     (StageCalls ++
                        [mkSampleCall (CallPtr C) (unsigned TexIdx)
                           (unsigned (Z.of_nat Search))])) b' in
              match list_find (fun S => Config S = Sampler) (Samplers b) with
              | None =>
                  if Z.of_nat (length (Samplers b)) =? HSH_MAX_SAMPLERS then
                    Done (set_Context
                            (report (SamplerArgPtr C) SamplerOverflow
                               (Context b)) b)
                  else
                    Done (record (length (Samplers b))
                            (set_Samplers
                               (Samplers b ++
                                  [mkSamplerRecord Sampler
                                     (StageBit TexStage)]) b))
              | Some (i, _) =>
                  Done (record i
                          (set_Samplers
                             (alter (fun S =>
                                       mkSamplerRecord (Config S)
                                         (Z.lor (SamplerUseStages S)
                                            (StageBit TexStage)))
                                i (Samplers b)) b))
              end
        end
  end.

(** ** The stage of a binary operation ([ValueTracer]) *)

(** [ValueTracer::GetInterpolated], for the target stage [Target]. *)
Definition GetInterpolated (Target Stage : HshStage) : bool :=
  negb (Stage =? HshHostStage) && (Stage <? Target).

(** The stage [ValueTracer::VisitBinaryOperator] returns, from the opcode
    and the stages its visits of the two operands returned. *)
Definition VisitBinaryOperator_Stage (Target : HshStage)
    (Opcode : BinaryOperatorKind) (LStage RStage : HshStage) : HshStage :=
  let Stage := Z.max LStage RStage in
  let LHSInterpolated := GetInterpolated Target LStage in
  let RHSInterpolated := GetInterpolated Target RStage in
  if LHSInterpolated || RHSInterpolated then
    match Opcode with
    | BO_Add | BO_Sub | BO_Mul | BO_AddAssign | BO_SubAssign | BO_MulAssign
    | BO_Assign => Stage
    | BO_Div | BO_DivAssign => if RHSInterpolated then Target else Stage
    | _ => Target
    end
  else Stage.

(** The stage [ValueTracer::DoVisitExprRange] accumulates over the stages of
    the arguments: their maximum, from [HshNoStage] on. *)
Definition DoVisitExprRange_Stage (ExprStages : list HshStage) : HshStage :=
  fold_left Z.max ExprStages HshNoStage.

(** The stage [ValueTracer::VisitCXXOperatorCallExpr] returns, from the
    operator and the stages its visits of the arguments returned. *)
Definition VisitCXXOperatorCallExpr_Stage (Target : HshStage)
    (Operator : OverloadedOperatorKind) (ExprStages : list HshStage)
    : HshStage :=
  let Stage := DoVisitExprRange_Stage ExprStages in
  match ExprStages with
  | [Stage0; Stage1] =>
      let LHSInterpolated := GetInterpolated Target Stage0 in
      let RHSInterpolated := GetInterpolated Target Stage1 in
      if LHSInterpolated || RHSInterpolated then
        match Operator with
        | OO_Plus | OO_Minus | OO_Star | OO_PlusEqual | OO_MinusEqual
        | OO_StarEqual | OO_Equal => Stage
        | OO_Slash | OO_SlashEqual => if RHSInterpolated then Target else Stage
        | _ => Target
        end
      else Stage
  | _ => Stage
  end.

(** ** Parameter validation ([GenerateConsumer::run]) *)

(** [HshBuiltinType], from BuiltinTypes.def. *)
Inductive HshBuiltinType : Type :=
  | HBT_None
  | HBT_float2 | HBT_float3 | HBT_float4
  | HBT_int2 | HBT_int3 | HBT_int4
  | HBT_uint2 | HBT_uint3 | HBT_uint4
  | HBT_float3x3 | HBT_float4x4
  | HBT_Texture (n : HshTextureName) (c : HshTextureComponent).

#[global] Instance HshTextureName_eq_dec : EqDecision HshTextureName.
Proof. solve_decision. Defined.

#[global] Instance HshTextureComponent_eq_dec : EqDecision HshTextureComponent.
Proof. solve_decision. Defined.

#[global] Instance HshBuiltinType_eq_dec : EqDecision HshBuiltinType.
Proof. solve_decision. Defined.

Definition isTextureType (Tp : HshBuiltinType) : bool :=
  match Tp with
  | HBT_Texture _ _ => true
  | _ => false
  end.

(** What the checks ask of the type of a field. *)
Inductive TypeClass : Type :=
  | IntegralOrEnumeration (IntWidth : Z)
  | FloatType
  | DoubleType
  | OtherType.

(** A field of a record type: the address of its declaration, the builtin
    type [identifyBuiltinType] finds for its type, and the class of its
    type. *)
Record RecordField : Type := mkRecordField {
  FieldPtr : Ptr;
  FieldBuiltin : HshBuiltinType;
  FieldClass : TypeClass
}.

(** What the checks ask of the type of a parameter: the builtin type
    [identifyBuiltinType] finds for it, and its fields when
    [isStructureOrClassType] holds of it. *)
Record ParmType : Type := mkParmType {
  Builtin : HshBuiltinType;
  StructureOrClass : option (list RecordField)
}.

Inductive AttrKind : Type :=
  | HshPositionAttr | HshColorTargetAttr | HshVertexBufferAttr
  | HshInstanceBufferAttr | HshVertexTextureAttr | HshFragmentTextureAttr.

#[global] Instance AttrKind_eq_dec : EqDecision AttrKind.
Proof. solve_decision. Defined.

(** An attribute of a parameter, with the integer its index expression
    evaluates to (not read for the position attribute). *)
Record HshAttr : Type := mkHshAttr {
  AttrKindOf : AttrKind;
  AttrIndex : Z
}.

Record ParmVarDecl : Type := mkParmVarDecl {
  ParmPtr : Ptr;
  ParmName : string;
  ParmTypeOf : ParmType;
  ParmAttrs : list HshAttr
}.

Definition getAttr (K : AttrKind) (D : ParmVarDecl) : option HshAttr :=
  find (fun A => bool_decide (AttrKindOf A = K)) (ParmAttrs D).

Definition hasAttr (K : AttrKind) (D : ParmVarDecl) : bool :=
  bool_decide (is_Some (getAttr K D)).

Inductive HshInterfaceDirection : Type := HshInput | HshOutput | HshInOut.

#[global] Instance HshInterfaceDirection_eq_dec :
  EqDecision HshInterfaceDirection.
Proof. solve_decision. Defined.

(** [CheckHshFieldTypeCompatibility], on a field of a record. *)
Definition CheckHshFieldTypeCompatibility (FD : RecordField)
    (Diags : list Diagnostic) : bool * list Diagnostic :=
  if negb (bool_decide (FieldBuiltin FD = HBT_None))
     && negb (isTextureType (FieldBuiltin FD))
  then (true, Diags)
  else
    match FieldClass FD with
    | IntegralOrEnumeration IntWidth =>
        if negb (IntWidth =? 32)
        then (false, ReportCustom (FieldPtr FD) BadIntegerType Error Diags)
        else (false, ReportCustom (FieldPtr FD) BadRecordType Error Diags)
    | FloatType | DoubleType => (true, Diags)
    | OtherType =>
        (false, ReportCustom (FieldPtr FD) BadRecordType Error Diags)
    end.

(** [CheckHshRecordCompatibility]. *)
Fixpoint CheckHshRecordCompatibility (fields : list RecordField)
    (Diags : list Diagnostic) : bool * list Diagnostic :=
  match fields with
  | [] => (true, Diags)
  | FD :: fields' =>
      let '(ok, Diags1) := CheckHshFieldTypeCompatibility FD Diags in
      let '(Ret, Diags2) := CheckHshRecordCompatibility fields' Diags1 in
      (ok && Ret, Diags2)
  end.

(** The three tables [run] fills while it checks the parameters, and the
    stages in use. *)
Record ParmTables : Type := mkParmTables {
  RunUseStages : Z;
  VertexBufferParms : list (option ParmVarDecl);
  TextureParms : list (list (option ParmVarDecl));
  ColorTargetParms : list (option ParmVarDecl)
}.

Definition ParmTables_new : ParmTables :=
  mkParmTables 1
    (replicate (Z.to_nat HSH_MAX_VERTEX_BUFFERS) None)
    (replicate (Z.to_nat HshMaxStage)
       (replicate (Z.to_nat HSH_MAX_TEXTURES) None))
    (replicate (Z.to_nat HSH_MAX_COLOR_TARGETS) None).

Section Consumer.

(** ShaderInterface.def, which is not part of the sources at hand: the
    entries [INTERFACE_VARIABLE(Attr, Stage, Direction, Array)], in order. *)
Variable ShaderInterface :
  list (AttrKind * HshStage * HshInterfaceDirection).

Definition DetermineParmVarStage (D : ParmVarDecl) : HshStage :=
  match find (fun e => hasAttr e.1.1 D) ShaderInterface with
  | Some e => e.1.2
  | None => HshHostStage
  end.

Definition DetermineParmVarDirection (D : ParmVarDecl)
    : HshInterfaceDirection :=
  match find (fun e => hasAttr e.1.1 D) ShaderInterface with
  | Some e => e.2
  | None => HshInput
  end.

(** [VertexBufferParms[i]], read: outside the array the read is undefined
    behaviour. *)
Definition readVertexBufferParm (T : ParmTables) (i : Z)
    : Outcome (option ParmVarDecl) :=
  array_get (VertexBufferParms T) i.

(** [TextureParms[Stage][i]], read. *)
Definition readTextureParm (T : ParmTables) (Stage : HshStage) (i : Z)
    : Outcome (option ParmVarDecl) :=
  StageTextureParms ← array_get (TextureParms T) Stage;
  array_get StageTextureParms i.

(** The two checks the lambda [CheckVertexBufferParm] makes before it reads
    [VertexBufferParms]: the type of the parameter, and the range of the
    index [Res] its attribute evaluates to. *)
Definition CheckVertexBufferParm_checks (PVD : ParmVarDecl) (Res : Z)
    (Diags : list Diagnostic) : bool * list Diagnostic :=
  let '(Ret1, Diags1) :=
    match StructureOrClass (ParmTypeOf PVD) with
    | None =>
        (false, ReportCustom (ParmPtr PVD) BadVertexBufferType Error Diags)
    | Some fields => CheckHshRecordCompatibility fields Diags
    end in
  if (Res <? 0) || (HSH_MAX_VERTEX_BUFFERS <=? Res)
  then (false, ReportCustom (ParmPtr PVD) VertexBufferOutOfRange Error Diags1)
  else (Ret1, Diags1).

(** The lambda [CheckVertexBufferParm].  It reads [VertexBufferParms] at
    the index whatever the check of the range gave. *)
Definition CheckVertexBufferParm (PVD : ParmVarDecl) (Res : Z)
    (T : ParmTables) (Diags : list Diagnostic)
    : Outcome (bool * ParmTables * list Diagnostic) :=
  let '(Ret2, Diags2) := CheckVertexBufferParm_checks PVD Res Diags in
  Other ← readVertexBufferParm T Res;
  let '(Ret3, Diags3) :=
    match Other with
    | Some OtherPVD =>
        (false,
         ReportCustom (ParmPtr OtherPVD) PreviousBufferIndexHere Note
           (ReportCustom (ParmPtr PVD) VertexBufferDuplicate Error Diags2))
    | None => (Ret2, Diags2)
    end in
  if negb Ret3 then Done (false, T, Diags3)
  else
    Done (true,
          mkParmTables (RunUseStages T)
            (<[Z.to_nat Res := Some PVD]> (VertexBufferParms T))
            (TextureParms T) (ColorTargetParms T),
          Diags3).

(** The two checks the lambda [CheckTextureParm] makes before it reads the
    row of [TextureParms]. *)
Definition CheckTextureParm_checks (PVD : ParmVarDecl) (Res : Z)
    (Diags : list Diagnostic) : bool * list Diagnostic :=
  let '(Ret1, Diags1) :=
    if negb (isTextureType (Builtin (ParmTypeOf PVD)))
    then (false, ReportCustom (ParmPtr PVD) BadTextureType Error Diags)
    else (true, Diags) in
  if (Res <? 0) || (HSH_MAX_TEXTURES <=? Res)
  then (false, ReportCustom (ParmPtr PVD) TextureOutOfRange Error Diags1)
  else (Ret1, Diags1).

(** The lambda [CheckTextureParm].  It reads the row at the index whatever
    the check of the range gave. *)
Definition CheckTextureParm (PVD : ParmVarDecl) (Res : Z) (Stage : HshStage)
    (T : ParmTables) (Diags : list Diagnostic)
    : Outcome (bool * ParmTables * list Diagnostic) :=
  let '(Ret2, Diags2) := CheckTextureParm_checks PVD Res Diags in
  Other ← readTextureParm T Stage Res;
  let '(Ret3, Diags3) :=
    match Other with
    | Some OtherPVD =>
        (false,
         ReportCustom (ParmPtr OtherPVD) PreviousTextureIndexHere Note
           (ReportCustom (ParmPtr PVD) TextureDuplicate Error Diags2))
    | None => (Ret2, Diags2)
    end in
  if negb Ret3 then Done (false, T, Diags3)
  else
    Done (true,
          mkParmTables (RunUseStages T) (VertexBufferParms T)
            (alter (fun Row => <[Z.to_nat Res := Some PVD]> Row)
               (Z.to_nat Stage) (TextureParms T))
            (ColorTargetParms T),
          Diags3).

(** The lambda [CheckColorTargetParm]. *)
Definition CheckColorTargetParm (PVD : ParmVarDecl) (Res : Z)
    (T : ParmTables) (Diags : list Diagnostic)
    : bool * ParmTables * list Diagnostic :=
  let '(Ret1, Diags1) :=
    if negb (bool_decide (Builtin (ParmTypeOf PVD) = HBT_float4))
    then (false, ReportCustom (ParmPtr PVD) BadColorTargetType Error Diags)
    else (true, Diags) in
  let '(Ret2, Diags2) :=
    if (Res <? 0) || (HSH_MAX_COLOR_TARGETS <=? Res)
    then (false,
          ReportCustom (ParmPtr PVD) ColorTargetOutOfRange Error Diags1)
    else (Ret1, Diags1) in
  if negb Ret2 then (false, T, Diags2)
  else
    (true,
     mkParmTables (RunUseStages T) (VertexBufferParms T) (TextureParms T)
       (<[Z.to_nat Res := Some PVD]> (ColorTargetParms T)),
     Diags2).

(** The body of the loop of [run] over the parameters, for one parameter:
    [false] when [run] returns. *)
Definition checkParameter (Param : ParmVarDecl) (T : ParmTables)
    (Diags : list Diagnostic)
    : Outcome (bool * ParmTables * list Diagnostic) :=
  if negb (bool_decide (DetermineParmVarDirection Param = HshInput)) then
    let use (T' : ParmTables) :=
      mkParmTables
        (Z.lor (RunUseStages T')
           (StageBit (unsigned (DetermineParmVarStage Param))))
        (VertexBufferParms T') (TextureParms T') (ColorTargetParms T') in
    if hasAttr HshPositionAttr Param then
      if negb (bool_decide (Builtin (ParmTypeOf Param) = HBT_float4))
      then Done (false, T,
                 ReportCustom (ParmPtr Param) BadVertexPositionType Error
                   Diags)
      else Done (true, use T, Diags)
    else
      match getAttr HshColorTargetAttr Param with
      | Some CA =>
          let '(ok, T', Diags') :=
            CheckColorTargetParm Param (AttrIndex CA) T Diags in
          if negb ok then Done (false, T', Diags')
          else Done (true, use T', Diags')
      | None => Done (true, use T, Diags)
      end
  else
    match getAttr HshVertexBufferAttr Param with
    | Some VB => CheckVertexBufferParm Param (AttrIndex VB) T Diags
    | None =>
    match getAttr HshInstanceBufferAttr Param with
    | Some IB => CheckVertexBufferParm Param (AttrIndex IB) T Diags
    | None =>
    match getAttr HshVertexTextureAttr Param with
    | Some VTA =>
        CheckTextureParm Param (AttrIndex VTA) HshVertexStage T Diags
    | None =>
    match getAttr HshFragmentTextureAttr Param with
    | Some FTA =>
        CheckTextureParm Param (AttrIndex FTA) HshFragmentStage T Diags
    | None => Done (true, T, Diags)
    end end end end.

(** The loop of [run] over the parameters: the tables when it runs to its
    end, [None] when [run] returns from within it. *)
Fixpoint checkParameters (Params : list ParmVarDecl) (T : ParmTables)
    (Diags : list Diagnostic)
    : Outcome (option ParmTables * list Diagnostic) :=
  match Params with
  | [] => Done (Some T, Diags)
  | Param :: Params' =>
      '(ok, T', Diags') ← checkParameter Param T Diags;
      if negb (ok : bool) then Done (None, Diags')
      else checkParameters Params' T' Diags'
  end.

End Consumer.

(** ** Emission of the stage binaries ([GenerateConsumer::run]) *)

Inductive HshTarget : Type :=
  | HT_GLSL | HT_HLSL | HT_DXBC | HT_DXIL | HT_VULKAN_SPIRV | HT_METAL
  | HT_METAL_BIN_MAC | HT_METAL_BIN_IOS | HT_METAL_BIN_TVOS.

#[global] Instance HshTarget_eq_dec : EqDecision HshTarget.
Proof. solve_decision. Defined.

(** A byte. *)
Abbreviation uint8_t := Z (only parsing).

(** [StageBinaries]: per stage, the bytes of the binary and their hash. *)
Record StageBinaries : Type := mkStageBinaries {
  BinariesTarget : HshTarget;
  Binaries : list (list uint8_t * Z)
}.

(** What [run] writes to the stream [AnonOS] inside the table of a program's
    shader data for one target: a line [_hsho_<hash>,] naming a shader
    object by the hexadecimal rendering of its hash. *)
Inductive AnonEntry : Type :=
  | ShaderObjectRef (Hash : Z).

#[global] Instance AnonEntry_eq_dec : EqDecision AnonEntry.
Proof. solve_decision. Defined.

(** What [run] writes to the stream [OS] for a stage binary: the source in a
    comment, the array [_hshs_<hash>] of the bytes, and the shader object
    [_hsho_<hash>] of the stage that points to it. *)
Record ShaderArtifact : Type := mkShaderArtifact {
  ArtifactStage : HshStage;
  ArtifactTarget : HshTarget;
  ArtifactSource : string;
  ArtifactData : list uint8_t;
  ArtifactHash : Z
}.

(** The members of [GenerateConsumer] that the emission works on. *)
Record GenerateConsumer : Type := mkGenerateConsumer {
  SeenHashes : gset Z;
  AnonOS : list AnonEntry;
  OS : list ShaderArtifact;
  RunDiags : list Diagnostic
}.

Section Emission.

(** [llvm::xxHash64], which is not part of the sources at hand. *)
Variable xxHash64 : list uint8_t -> Z.

(** [StageBinaries::updateHashes]. *)
Definition updateHashes (B : StageBinaries) : StageBinaries :=
  mkStageBinaries (BinariesTarget B)
    (map (fun Binary =>
            if bool_decide (Binary.1 = []) then Binary
            else (Binary.1, xxHash64 Binary.1))
       (Binaries B)).

(** [StagesCompilerBase::compile], after [doCompile] has returned
    [Compiled]. *)
Definition compile (Compiled : StageBinaries) : StageBinaries :=
  updateHashes Compiled.

(** The body of the loop of [run] over the binaries of a target, for the
    binary [(Data, Hash)] of stage [Stage] with source [Source]. *)
Definition emitStageBinary (Target : HshTarget) (Stage : HshStage)
    (Source : string) (Data : list uint8_t) (Hash : Z)
    (G : GenerateConsumer) : GenerateConsumer :=
  if bool_decide (Data = []) then G
  else
    let G1 :=
      mkGenerateConsumer (SeenHashes G) (AnonOS G ++ [ShaderObjectRef Hash])
        (OS G) (RunDiags G) in
    if bool_decide (Hash ∈ SeenHashes G1) then G1
    else
      mkGenerateConsumer ({[Hash]} ∪ SeenHashes G1) (AnonOS G1)
        (OS G1 ++ [mkShaderArtifact Stage Target Source Data Hash])
        (RunDiags G1).

(** [for (auto &[Data, Hash] : Binaries.Binaries)], with the iterator over
    the sources and the stage counter that go with it.  The two arrays have
    the same length. *)
Fixpoint emitStageBinaries (Target : HshTarget)
    (Bins : list (list uint8_t * Z)) (Sources : list string)
    (StageIt : Z) (G : GenerateConsumer) : GenerateConsumer :=
  match Bins, Sources with
  | (Data, Hash) :: Bins', Source :: Sources' =>
      emitStageBinaries Target Bins' Sources' (StageIt + 1)
        (emitStageBinary Target StageIt Source Data Hash G)
  | _, _ => G
  end.

(** The emission of the shader data of one program for one target, from the
    sources printed for it and the binaries [doCompile] returned. *)
Definition emitTarget (Sources : list string) (Compiled : StageBinaries)
    (G : GenerateConsumer) : GenerateConsumer :=
  let B := compile Compiled in
  emitStageBinaries (BinariesTarget B) (Binaries B) Sources HshHostStage G.

End Emission.

Section Run.

Variable ShaderInterface :
  list (AttrKind * HshStage * HshInterfaceDirection).

(** The remainder of [run], from the construction of the builder to the
    emission for every target, kept abstract: what it makes of the tables. *)
Variable generate : ParmTables -> GenerateConsumer -> GenerateConsumer.

(** [GenerateConsumer::run] on a lambda with the parameters [Params]. *)
Definition run (Params : list ParmVarDecl) (G : GenerateConsumer)
    : Outcome GenerateConsumer :=
  '(Tables, Diags') ←
    checkParameters ShaderInterface Params ParmTables_new (RunDiags G);
  match Tables with
  | None => Done (mkGenerateConsumer (SeenHashes G) (AnonOS G) (OS G) Diags')
  | Some T =>
      Done (generate T
              (mkGenerateConsumer (SeenHashes G) (AnonOS G) (OS G) Diags'))
  end.

End Run.

(** ** Stages in use ([StagesBuilder::previousUsedStage], [nextUsedStage]) *)

(** [for (int D = S - 1; D >= HshVertexStage; --D)], with [n] turns left. *)
Fixpoint previousUsedStage_loop (UseStages : Z) (n : nat) (D : Z) : HshStage :=
  match n with
  | O => HshNoStage
  | S n' =>
      if StageUsed UseStages D then D
      else previousUsedStage_loop UseStages n' (D - 1)
  end.

(** [StagesBuilder::previousUsedStage]. *)
Definition previousUsedStage (UseStages : Z) (Stage : HshStage) : HshStage :=
  previousUsedStage_loop UseStages (Z.to_nat (Stage - HshVertexStage))
    (Stage - 1).

(** [for (int D = S + 1; D < HshMaxStage; ++D)], with [n] turns left. *)
Fixpoint nextUsedStage_loop (UseStages : Z) (n : nat) (D : Z) : HshStage :=
  match n with
  | O => HshNoStage
  | S n' =>
      if StageUsed UseStages D then D
      else nextUsedStage_loop UseStages n' (D + 1)
  end.

(** [StagesBuilder::nextUsedStage]. *)
Definition nextUsedStage (UseStages : Z) (Stage : HshStage) : HshStage :=
  nextUsedStage_loop UseStages (Z.to_nat (HshMaxStage - (Stage + 1)))
    (Stage + 1).

(** ** Names of interface fields *)

(** [Name[0]] of a stage name. *)
Definition firstLetter (Name : string) : Ascii.ascii :=
  match Name with
  | String c _ => c
  | EmptyString => Ascii.zero
  end.

(** The name [getFieldForExpr] gives the field it declares:
    [FNS << '_' << HshStageToString(SStage)[0] << HshStageToString(DStage)[0]
    << Fields.size()], the size in decimal. *)
Definition FieldName (F : FieldDecl) : string :=
  "_" +:+
    String (firstLetter (HshStageToString (FieldS F)))
      (String (firstLetter (HshStageToString (FieldD F)))
         (pretty (FieldIndex F))).

(** ** Captures, attribute records and color targets *)

(** [StagesBuilder::registerUsedCapture], on the vector [UsedCaptures] of
    parameter declarations. *)
Definition registerUsedCapture (PVD : Ptr) (UsedCaptures : list Ptr)
    : list Ptr :=
  if existsb (fun EC => bool_decide (EC = PVD)) UsedCaptures
  then UsedCaptures
  else UsedCaptures ++ [PVD].

Inductive HshAttributeKind : Type := PerVertex | PerInstance.

#[global] Instance HshAttributeKind_eq_dec : EqDecision HshAttributeKind.
Proof. solve_decision. Defined.

(** [AttributeRecord]; the record declaration is kept as its fields. *)
Record AttributeRecord : Type := mkAttributeRecord {
  AttributeName : string;
  AttributeFields : option (list RecordField);
  AttributeKind : HshAttributeKind;
  Binding : Z
}.

(** [StagesBuilder::registerAttributeRecord], on the vector
    [AttributeRecords]. *)
Definition registerAttributeRecord (Attribute : AttributeRecord)
    (AttributeRecords : list AttributeRecord) : list AttributeRecord :=
  match list_find (fun A => AttributeName A = AttributeName Attribute)
          AttributeRecords with
  | Some _ => AttributeRecords
  | None => AttributeRecords ++ [Attribute]
  end.

Record ColorTargetRecord : Type := mkColorTargetRecord {
  ColorTargetName : string;
  ColorTargetIndex : Z
}.

(** [StagesBuilder::registerColorTarget], on the vector [ColorTargets]. *)
Definition registerColorTarget (Record : ColorTargetRecord)
    (ColorTargets : list ColorTargetRecord) : list ColorTargetRecord :=
  match list_find (fun T => ColorTargetName T = ColorTargetName Record)
          ColorTargets with
  | Some _ => ColorTargets
  | None => ColorTargets ++ [Record]
  end.

(** The loop of [run] that registers the vertex buffers it accepted:
    [for (uint8_t i = 0; i < HSH_MAX_VERTEX_BUFFERS; ++i)], over the entries
    of [VertexBufferParms] from index [i] on. *)
Fixpoint registerVertexBuffers (Slots : list (option ParmVarDecl)) (i : Z)
    (AttributeRecords : list AttributeRecord) : list AttributeRecord :=
  match Slots with
  | [] => AttributeRecords
  | Slot :: Slots' =>
      registerVertexBuffers Slots' (i + 1)
        match Slot with
        | Some VertexBufferParm =>
            registerAttributeRecord
              (mkAttributeRecord (ParmName VertexBufferParm)
                 (StructureOrClass (ParmTypeOf VertexBufferParm))
                 (if hasAttr HshVertexBufferAttr VertexBufferParm
                  then PerVertex else PerInstance)
                 i)
              AttributeRecords
        | None => AttributeRecords
        end
  end.

(** The loop of [run] that registers the color targets it accepted. *)
Fixpoint registerColorTargets (Slots : list (option ParmVarDecl)) (i : Z)
    (ColorTargets : list ColorTargetRecord) : list ColorTargetRecord :=
  match Slots with
  | [] => ColorTargets
  | Slot :: Slots' =>
      registerColorTargets Slots' (i + 1)
        match Slot with
        | Some CTParm =>
            registerColorTarget (mkColorTargetRecord (ParmName CTParm) i)
              ColorTargets
        | None => ColorTargets
        end
  end.

(** ** Textures and samplers of a stage *)

(** [StagesBuilder::getTextureIndex] on a parameter: the stage and the index
    of the first texture attribute of the parameter, the vertex texture
    attribute before the fragment texture attribute, and [HshNoStage] with a
    default integer when it has neither. *)
Definition getTextureIndex (PVD : ParmVarDecl) : HshStage * Z :=
  match getAttr HshVertexTextureAttr PVD with
  | Some A => (HshVertexStage, AttrIndex A)
  | None =>
      match getAttr HshFragmentTextureAttr PVD with
      | Some A => (HshFragmentStage, AttrIndex A)
      | None => (HshNoStage, 0)
      end
  end.

(** [(1u << Stage) & UseStages], read as a condition: the test under which
    the printing policies declare a texture or a sampler in a stage. *)
Definition declaredInStage (Stage : HshStage) (UseStages : Z) : bool :=
  negb (Z.land (StageBit Stage) UseStages =? 0).

(** ** The stage of a call ([ValueTracer::VisitCallExpr]) *)

(** The stage [ValueTracer::VisitCallExpr] returns for a call of a builtin
    function, from [isInterpolationDistributed] of the function (the table
    of BuiltinFunctions.def) and the stages its visits of the arguments
    returned. *)
Definition VisitCallExpr_Stage (Target : HshStage)
    (InterpolationDistributed : bool) (ExprStages : list HshStage)
    : HshStage :=
  let Stage := DoVisitExprRange_Stage ExprStages in
  match ExprStages with
  | [Stage0; Stage1] =>
      let LHSInterpolated := GetInterpolated Target Stage0 in
      let RHSInterpolated := GetInterpolated Target Stage1 in
      if (LHSInterpolated || RHSInterpolated)
         && negb InterpolationDistributed
      then Target else Stage
  | _ => Stage
  end.

(** ** Builtin declarations ([HshBuiltins::identifyBuiltinType]) *)

(** The loop of [identifyBuiltinType] over the array [Types] of the first
    declarations of the builtin types, an enumerator being the integer it
    is: [Ret] counts up from [HBT_None], which is zero. *)
Fixpoint identifyBuiltinType_loop (T : Ptr) (Types : list (option Ptr))
    (Ret : Z) : Z :=
  match Types with
  | [] => 0
  | Tp :: Types' =>
      if bool_decide (Tp = Some T) then Ret
      else identifyBuiltinType_loop T Types' (Ret + 1)
  end.

(** [HshBuiltins::identifyBuiltinType], for the first declaration [T] of the
    tag declaration of the type, [None] when the type has none. *)
Definition identifyBuiltinType (Types : list (option Ptr)) (T : option Ptr)
    : Z :=
  match T with
  | None => 0
  | Some T => identifyBuiltinType_loop T Types 0
  end.

(** [HshBuiltins::getTypeDecl]. *)
Definition getTypeDecl (Types : list (option Ptr)) (Tp : Z)
    : Outcome (option Ptr) :=
  array_get Types Tp.

(** ** Compilation of text targets ([StagesCompilerText]) *)

(** The characters of a string as bytes. *)
Definition bytes_of_string (s : string) : list uint8_t :=
  (fun c => Z.of_N (Ascii.N_of_ascii c)) <$> String.list_ascii_of_string s.

(** [StageSources]. *)
Record StageSources : Type := mkStageSources {
  SourcesTarget : HshTarget;
  Sources : list string
}.

(** [StagesCompilerText::doCompile]: the binary of a stage is its source
    with one more byte, which [resize] sets to zero; a stage without source
    keeps the empty binary.  The hashes are value-initialized. *)
Definition doCompileText (S : StageSources) : StageBinaries :=
  mkStageBinaries (SourcesTarget S)
    ((fun Stage : string =>
        if bool_decide (Stage = "") then ([], 0)
        else (bytes_of_string Stage ++ [0], 0)) <$> Sources S).

(** ** The C array of a stage binary ([raw_carray_ostream]) *)

Section CArray.

(** [llvm::write_hex(OS, N, HexPrintStyle::PrefixLower, 2)], which is not
    part of the sources at hand: what it writes for a character. *)
Variable write_hex : Z -> string.

Definition LineSize : nat := 12.

(** The line feed. *)
Definition newline : string := String (Ascii.ascii_of_nat 10) EmptyString.

(** [raw_carray_ostream]: the text written to the stream [OS] it adapts,
    and [LineRem]. *)
Record raw_carray_ostream : Type := mk_raw_carray_ostream {
  CArrayOS : string;
  LineRem : nat
}.

(** The constructor. *)
Definition raw_carray_ostream_new (OS : string) (Name : string)
    : raw_carray_ostream :=
  mk_raw_carray_ostream (OS +:+ "const uint8_t " +:+ Name +:+ "[] = {") 0.

(** [for (size_t i = 0; i < ThisLineSize; ++i)], over the characters it
    writes. *)
Fixpoint write_line (Ptr : list Z) (OS : string) : string :=
  match Ptr with
  | [] => OS
  | c :: Ptr' => write_line Ptr' (OS +:+ " " +:+ write_hex c +:+ ",")
  end.

(** [while (Size)], with [fuel] turns left. *)
Fixpoint write_impl_loop (fuel : nat) (Ptr : list Z) (S : raw_carray_ostream)
    : option raw_carray_ostream :=
  match Ptr with
  | [] => Some S
  | _ :: _ =>
      match fuel with
      | O => None
      | Datatypes.S fuel' =>
          let S1 :=
            if (LineRem S =? 0)%nat
            then mk_raw_carray_ostream (CArrayOS S +:+ newline +:+ " ")
                   LineSize
            else S in
          let ThisLineSize := Nat.min (length Ptr) (LineRem S1) in
          write_impl_loop fuel' (drop ThisLineSize Ptr)
            (mk_raw_carray_ostream
               (write_line (take ThisLineSize Ptr) (CArrayOS S1))
               (LineRem S1 - ThisLineSize))
      end
  end.

(** [raw_carray_ostream::write_impl]: every turn of the loop writes a
    character at least, so as many turns as characters suffice. *)
Definition write_impl (Ptr : list Z) (S : raw_carray_ostream)
    : option raw_carray_ostream :=
  write_impl_loop (length Ptr) Ptr S.

(** The destructor, after [flush]. *)
Definition raw_carray_ostream_close (S : raw_carray_ostream) : string :=
  CArrayOS S +:+ newline +:+ "};".

End CArray.

(** ** The command line of the compiler ([main] of hshgen) *)

Definition TestLiteral : string := "HSH_PROFILE_MODE".

(** The test under which [main] leaves out a definition:
    [StringRef(Def).startswith(TestLiteral) && (Def.size() ==
    TestLiteral.size() || Def[TestLiteral.size()] == '=')]. *)
Definition isProfileModeDef (Def : string) : bool :=
  String.prefix TestLiteral Def
  && ((String.length Def =? String.length TestLiteral)%nat
      || bool_decide (String.get (String.length TestLiteral) Def
                      = String.get 0 "=")).

(** What [main] reads from its command line. *)
Record HshgenOptions : Type := mkHshgenOptions {
  argv0 : string;
  onLinux : bool;
  Verbose : bool;
  colorsEnabled : bool;
  IncludeDirs : list string;
  CompileDefs : list string;
  MD : bool;
  MF : string;
  MT : string;
  Input : string;
  Output : string
}.

(** The arguments [main] hands to the compiler. *)
Definition hshgenArgs (o : HshgenOptions) : list string :=
  [argv0 o]
  ++ (if onLinux o then ["--gcc-toolchain=/usr"] else [])
  ++ ["-c"; "-std=c++17"; "-D__hsh__=1"; "-Wno-expansion-to-defined";
      "-Wno-nullability-completeness"; "-Wno-unused-value";
      "-Wno-undefined-inline"]
  ++ (if Verbose o then ["-v"] else [])
  ++ (if colorsEnabled o then ["-fcolor-diagnostics"] else [])
  ++ flat_map (fun Dir => ["-I"; Dir]) (IncludeDirs o)
  ++ flat_map (fun Def => if isProfileModeDef Def then [] else ["-D"; Def])
       (CompileDefs o)
  ++ (if MD o then
        ["-MD"]
        ++ (if negb (String.eqb (MF o) "") then ["-MF"; MF o] else [])
        ++ (if negb (String.eqb (MT o) "") then ["-MT"; MT o] else [])
      else [])
  ++ ["-o"; Output o; Input o].

(** ** Includes and macro expansions ([GenerateConsumer]) *)

(** One constructor per message the consumer reports from its preprocessor
    callbacks. *)
Inductive ConsumerDiagMessage : Type :=
  | MultipleHeadIncludes | PreviousIncludeHere | HeadIncludeMismatch
  | ExpansionNotUnique | PreviousIdentifierUsage.

#[global] Instance ConsumerDiagMessage_eq_dec : EqDecision ConsumerDiagMessage.
Proof. solve_decision. Defined.

(** A source location, as its raw encoding, which orders locations. *)
Abbreviation SourceLocation := Z (only parsing).

Definition SourceRange : Type := Z * Z.

Record ConsumerDiag : Type := mkConsumerDiag {
  ConsumerLevel : DiagLevel;
  ConsumerMessage : ConsumerDiagMessage;
  ConsumerLocation : Z
}.

#[global] Instance ConsumerDiag_eq_dec : EqDecision ConsumerDiag.
Proof. solve_decision. Defined.

(** [operator[]] followed by assignment on a [std::map], kept as the list
    of its entries in the order of the keys. *)
Fixpoint map_assign {V} (k : Z) (v : V) (m : list (Z * V)) : list (Z * V) :=
  match m with
  | [] => [(k, v)]
  | e :: m' =>
      if k <? e.1 then (k, v) :: m
      else if k =? e.1 then (k, v) :: m'
      else e :: map_assign k v m'
  end.

(** The members of [GenerateConsumer] that the preprocessor callbacks work
    on. *)
Record PreprocessorState : Type := mkPreprocessorState {
  HeadInclude : option (Z * string);
  SeenHshExpansions : list (Z * (SourceRange * string));
  ConsumerDiags : list ConsumerDiag
}.

Section Preprocessor.

(** [SourceManager::isWrittenInMainFile] and the line of
    [SourceManager::getPresumedLoc], which are not part of the sources at
    hand, and the file name of the output file, which the compiler instance
    holds. *)
Variable isWrittenInMainFile : Z -> bool.
Variable getPresumedLine : Z -> Z.
Variable ExpectedName : string.

(** [GenerateConsumer::registerHshHeadInclude], for the location of the
    include directive, the begin of the range of its file name and the
    file name. *)
Definition registerHshHeadInclude (HashLoc FilenameBegin : Z)
    (RelativePath : string) (St : PreprocessorState) : PreprocessorState :=
  if isWrittenInMainFile HashLoc then
    match HeadInclude St with
    | Some Head =>
        mkPreprocessorState (HeadInclude St) (SeenHshExpansions St)
          (ConsumerDiags St ++
             [mkConsumerDiag Error MultipleHeadIncludes HashLoc;
              mkConsumerDiag Note PreviousIncludeHere Head.1])
    | None =>
        if negb (String.eqb ExpectedName RelativePath) then
          mkPreprocessorState None (SeenHshExpansions St)
            (ConsumerDiags St ++
               [mkConsumerDiag Error HeadIncludeMismatch FilenameBegin])
        else
          mkPreprocessorState (Some (HashLoc, RelativePath))
            (SeenHshExpansions St) (ConsumerDiags St)
    end
  else St.

(** [GenerateConsumer::registerHshExpansion]. *)
Definition registerHshExpansion (Range : SourceRange) (Name : string)
    (St : PreprocessorState) : PreprocessorState :=
  if isWrittenInMainFile Range.1 then
    match find (fun Exps => String.eqb Exps.2.2 Name)
            (SeenHshExpansions St) with
    | Some Exps =>
        mkPreprocessorState (HeadInclude St) (SeenHshExpansions St)
          (ConsumerDiags St ++
             [mkConsumerDiag Error ExpansionNotUnique Range.1;
              mkConsumerDiag Note PreviousIdentifierUsage Exps.1])
    | None =>
        mkPreprocessorState (HeadInclude St)
          (map_assign Range.1 (Range, Name) (SeenHshExpansions St))
          (ConsumerDiags St)
    end
  else St.

(** [GenerateConsumer::getExpansionNameBeforeLambda], for the attributes of
    the attributed statement, each with whether its kind is
    [attr::HshGeneratorLambda] and its location. *)
Fixpoint getExpansionNameBeforeLambda (Attrs : list (bool * Z))
    (Seen : list (Z * (SourceRange * string))) : string :=
  match Attrs with
  | [] => ""
  | Attr :: Attrs' =>
      if Attr.1 then
        match find (fun Exp => getPresumedLine Exp.1 =? getPresumedLine Attr.2)
                Seen with
        | Some Exp => Exp.2.2
        | None => getExpansionNameBeforeLambda Attrs' Seen
        end
      else getExpansionNameBeforeLambda Attrs' Seen
  end.

End Preprocessor.

(** ** The stages that are printed ([StagesBuilder::printResults]) *)

(** A call of [Policy.printStage] by [printResults]: the stage, the stages
    before and after it that the policy is told, and the uniform binding.
    The records it is handed are those of the builder at these stages: the
    host record [HostToStageRecords[S]], the record [InterStageRecords[S]]
    and, when there is a next stage, [InterStageRecords[NextStage]]. *)
Record PrintStageCall : Type := mkPrintStageCall {
  PrintStage : HshStage;
  PrintFrom : HshStage;
  PrintTo : HshStage;
  PrintUniformBinding : Z
}.

(** [for (int S = HshVertexStage; S < HshMaxStage; ++S)], with [n] turns
    left; [UniformBinding] is a [uint32_t]. *)
Fixpoint printResults_loop (UseStages : Z) (n : nat) (S : Z)
    (UniformBinding : Z) : list PrintStageCall :=
  match n with
  | O => []
  | Datatypes.S n' =>
      if StageUsed UseStages S then
        mkPrintStageCall S (previousUsedStage UseStages S)
          (nextUsedStage UseStages S) UniformBinding
        :: printResults_loop UseStages n' (S + 1)
             (unsigned (UniformBinding + 1))
      else printResults_loop UseStages n' (S + 1) UniformBinding
  end.

(** [StagesBuilder::printResults], as the calls of the policy it makes. *)
Definition printResults (UseStages : Z) : list PrintStageCall :=
  printResults_loop UseStages (Z.to_nat (HshMaxStage - HshVertexStage))
    HshVertexStage 0.

(** * Properties *)

(** ** Stage masks *)

Lemma StageBit_pow2 (n : Z) : 0 <= n < 32 -> StageBit n = 2 ^ n.
Proof.
  intros Hn. unfold StageBit, unsigned. rewrite Z.shiftl_1_l.
  apply Z.mod_small. split; [lia |].
  apply Z.pow_lt_mono_r; lia.
Qed.

Lemma StageBit_testbit (n i : Z) :
  0 <= n < 32 -> 0 <= i -> Z.testbit (StageBit n) i = bool_decide (i = n).
Proof.
  intros Hn Hi. rewrite StageBit_pow2 by done.
  rewrite Z.pow2_bits_eqb by lia.
  destruct (Z.eqb_spec n i); case_bool_decide; congruence.
Qed.

Lemma StageUsed_testbit (U D : Z) :
  0 <= D < 32 -> StageUsed U D = Z.testbit U D.
Proof.
  intros HD. unfold StageUsed.
  assert (unsigned D = D) as ->.
  { unfold unsigned. apply Z.mod_small. lia. }
  rewrite StageBit_pow2 by done.
  destruct (Z.testbit U D) eqn:Hb.
  - apply negb_true_iff, Z.eqb_neq. intros H0.
    assert (Z.testbit (Z.land U (2 ^ D)) D = false) as Hl
      by (rewrite H0; apply Z.bits_0).
    rewrite Z.land_spec, Hb, Z.pow2_bits_true in Hl by lia. done.
  - apply negb_false_iff, Z.eqb_eq, Z.bits_inj'. intros n Hn.
    rewrite Z.land_spec, Z.bits_0, Z.pow2_bits_eqb by lia.
    destruct (Z.eqb_spec D n) as [<- |]; [by rewrite Hb | apply andb_false_r].
Qed.

(** ** The stage of a binary operation *)

Lemma DoVisitExprRange_Stage_pair (L R : Z) :
  HshNoStage <= L -> HshNoStage <= R ->
  DoVisitExprRange_Stage [L; R] = Z.max L R.
Proof. unfold DoVisitExprRange_Stage, HshNoStage. simpl. lia. Qed.

(** C2.  In [ValueTracer], for a binary operation with an interpolated
    operand (one whose stage is not the host stage and lies before the
    target stage [Target]), both as a builtin [BinaryOperator] and as an
    overloaded operator call with two arguments: addition, subtraction,
    multiplication, their compound assignments and plain assignment keep
    the stage at the maximum of the two operand stages; division and
    division assignment give [Target] when the divisor is interpolated and
    the maximum of the operand stages when it is not; every other operator
    gives [Target]. *)
Theorem binary_operation_stage (Target LStage RStage : Z)
    (Opcode : BinaryOperatorKind) (Operator : OverloadedOperatorKind) :
  HshNoStage <= LStage -> HshNoStage <= RStage ->
  GetInterpolated Target LStage || GetInterpolated Target RStage = true ->
  let keeps := [BO_Add; BO_Sub; BO_Mul; BO_AddAssign; BO_SubAssign;
                BO_MulAssign; BO_Assign] in
  let divides := [BO_Div; BO_DivAssign] in
  let keeps' := [OO_Plus; OO_Minus; OO_Star; OO_PlusEqual; OO_MinusEqual;
                 OO_StarEqual; OO_Equal] in
  let divides' := [OO_Slash; OO_SlashEqual] in
  VisitBinaryOperator_Stage Target Opcode LStage RStage =
    (if bool_decide (Opcode ∈ keeps) then Z.max LStage RStage
     else if bool_decide (Opcode ∈ divides) then
       if GetInterpolated Target RStage then Target else Z.max LStage RStage
     else Target)
  /\ VisitCXXOperatorCallExpr_Stage Target Operator [LStage; RStage] =
    (if bool_decide (Operator ∈ keeps') then Z.max LStage RStage
     else if bool_decide (Operator ∈ divides') then
       if GetInterpolated Target RStage then Target else Z.max LStage RStage
     else Target).
Proof.
  intros HL HR Hint. cbv zeta. split.
  - unfold VisitBinaryOperator_Stage. rewrite Hint.
    destruct Opcode; vm_compute bool_decide; reflexivity.
  - unfold VisitCXXOperatorCallExpr_Stage. rewrite Hint.
    rewrite DoVisitExprRange_Stage_pair by done.
    destruct Operator; vm_compute bool_decide; reflexivity.
Qed.

Lemma binary_operation_stage_witness :
  VisitBinaryOperator_Stage HshFragmentStage BO_Div HshVertexStage
    HshHostStage = HshVertexStage
  /\ VisitCXXOperatorCallExpr_Stage HshFragmentStage OO_Slash
       [HshHostStage; HshVertexStage] = HshFragmentStage.
Proof.
  pose proof (binary_operation_stage HshFragmentStage HshVertexStage
                HshHostStage BO_Div OO_Plus) as H1.
  pose proof (binary_operation_stage HshFragmentStage HshHostStage
                HshVertexStage BO_Add OO_Slash) as H2.
  split.
  - apply H1; vm_compute; congruence.
  - apply H2; vm_compute; congruence.
Defined.

(** ** The texture table *)

Definition textureNames (b : StagesBuilder) : list string :=
  TextureName <$> Textures b.

(** A sequence of registrations, each a name, a kind and a stage. *)
Definition registerTextures
    (regs : list (string * HshTextureKind * HshStage)) (b : StagesBuilder)
    : StagesBuilder :=
  fold_left (fun b r => registerTexture r.1.1 r.1.2 r.2 b) regs b.

Lemma registerTexture_known (Name : string) (K : HshTextureKind) (Stage : Z)
    (b : StagesBuilder) :
  Name ∈ textureNames b ->
  exists i T,
    Textures b !! i = Some T /\ TextureName T = Name
    /\ (forall j T', Textures b !! j = Some T' -> (j < i)%nat ->
          TextureName T' <> Name)
    /\ Textures (registerTexture Name K Stage b) =
         <[i := mkTextureRecord Name (Kind T)
                  (Z.lor (TextureUseStages T) (StageBit Stage))]>
           (Textures b).
Proof.
  intros Hin. unfold registerTexture.
  destruct (list_find _ _) as [[i T]|] eqn:Hfind.
  - apply list_find_Some in Hfind as (Hi & HT & Hfirst).
    exists i, T. repeat split; try done.
    simpl. apply list_eq. intros j.
    destruct (decide (j = i)) as [-> |Hne].
    + rewrite list_lookup_alter_eq, Hi. simpl.
      rewrite list_lookup_insert_eq by (by eapply lookup_lt_Some).
      by rewrite HT.
    + by rewrite list_lookup_alter_ne, list_lookup_insert_ne.
  - apply list_find_None in Hfind.
    apply list_elem_of_fmap in Hin as (T & -> & HT).
    rewrite Forall_forall in Hfind. by destruct (Hfind T HT).
Qed.

Lemma registerTexture_fresh (Name : string) (K : HshTextureKind) (Stage : Z)
    (b : StagesBuilder) :
  Name ∉ textureNames b ->
  Textures (registerTexture Name K Stage b) =
    Textures b ++ [mkTextureRecord Name K (StageBit Stage)].
Proof.
  intros Hnin. unfold registerTexture.
  destruct (list_find _ _) as [[i T]|] eqn:Hfind; [| done].
  apply list_find_Some in Hfind as (Hi & HT & _).
  destruct Hnin. apply list_elem_of_fmap. exists T. split; [done |].
  by eapply list_elem_of_lookup_2.
Qed.

Lemma registerTexture_names (Name : string) (K : HshTextureKind) (Stage : Z)
    (b : StagesBuilder) :
  textureNames (registerTexture Name K Stage b) =
    if bool_decide (Name ∈ textureNames b) then textureNames b
    else textureNames b ++ [Name].
Proof.
  case_bool_decide as Hin; unfold textureNames.
  - destruct (registerTexture_known Name K Stage b Hin)
      as (i & T & Hi & HT & _ & ->).
    rewrite list_fmap_insert. simpl. apply list_insert_id.
    by rewrite list_lookup_fmap, Hi, <- HT.
  - rewrite registerTexture_fresh by done. by rewrite fmap_app.
Qed.

Lemma registerTexture_NoDup (Name : string) (K : HshTextureKind) (Stage : Z)
    (b : StagesBuilder) :
  NoDup (textureNames b) ->
  NoDup (textureNames (registerTexture Name K Stage b)).
Proof.
  intros Hnd. rewrite registerTexture_names.
  case_bool_decide as Hin; [done |].
  apply NoDup_app. repeat split; [done | | apply NoDup_singleton].
  intros x Hx ->%list_elem_of_singleton. done.
Qed.

Lemma registerTextures_NoDup
    (regs : list (string * HshTextureKind * HshStage)) (b : StagesBuilder) :
  NoDup (textureNames b) -> NoDup (textureNames (registerTextures regs b)).
Proof.
  revert b. induction regs as [|r regs IH]; intros b Hnd; [done |].
  simpl. apply IH. by apply registerTexture_NoDup.
Qed.

(** C10.  After any sequence of texture registrations on a new builder, no
    two records of the texture table have the same name.  Registering, in
    such a table, a name that is present leaves the size of the table as it
    is and changes the one record of that name, whose mask becomes the
    bitwise or of its mask and the bit of the stage; registering a name that
    is not present appends one record, whose mask is the bit of the stage:
    for a stage in range, bit [n] of it is set exactly when [n] is the
    stage. *)
Theorem texture_table_unique_names
    (regs : list (string * HshTextureKind * HshStage)) (C : ASTContext)
    (U : Z) (Name : string) (K : HshTextureKind) (Stage : Z) :
  let b := registerTextures regs (StagesBuilder_new C U) in
  let b' := registerTexture Name K Stage b in
  NoDup (textureNames b)
  /\ NoDup (textureNames b')
  /\ (Name ∈ textureNames b ->
        length (Textures b') = length (Textures b)
        /\ exists i T,
             Textures b !! i = Some T /\ TextureName T = Name
             /\ Textures b' =
                  <[i := mkTextureRecord Name (Kind T)
                           (Z.lor (TextureUseStages T) (StageBit Stage))]>
                    (Textures b))
  /\ (Name ∉ textureNames b ->
        Textures b' = Textures b ++ [mkTextureRecord Name K (StageBit Stage)])
  /\ (0 <= Stage < HshMaxStage ->
        forall n, 0 <= n ->
          Z.testbit (StageBit Stage) n = bool_decide (n = Stage)).
Proof.
  intros b b'.
  assert (NoDup (textureNames b)) as Hnd.
  { apply registerTextures_NoDup. apply NoDup_nil_2. }
  split; [done |]. split; [by apply registerTexture_NoDup |].
  split; [| split].
  - intros Hin.
    destruct (registerTexture_known Name K Stage b Hin)
      as (i & T & Hi & HT & _ & Heq).
    split.
    + unfold b'. by rewrite Heq, length_insert.
    + by exists i, T.
  - apply registerTexture_fresh.
  - intros HS n Hn. apply StageBit_testbit; [| done].
    unfold HshMaxStage in HS. lia.
Qed.

(** ** Emission of the stage binaries *)

Section EmissionFacts.

Variable xxHash64 : list Z -> Z.

(** A run of the generator, seen from the emission: for every program and
    target in turn, the sources and the binaries [doCompile] returned. *)
Definition emitTargets (jobs : list (list string * StageBinaries))
    (G : GenerateConsumer) : GenerateConsumer :=
  fold_left (fun G job => emitTarget xxHash64 job.1 job.2 G) jobs G.

(** The artifacts in [OS] have pairwise different hashes, all of them in
    [SeenHashes]. *)
Definition artifacts_once (G : GenerateConsumer) : Prop :=
  NoDup (ArtifactHash <$> OS G)
  /\ forall a, a ∈ OS G -> ArtifactHash a ∈ SeenHashes G.

Lemma compile_hash (Compiled : StageBinaries) (Data : list Z) (Hash : Z) :
  (Data, Hash) ∈ Binaries (compile xxHash64 Compiled) ->
  Data <> [] -> Hash = xxHash64 Data.
Proof.
  unfold compile, updateHashes. simpl. intros Hin Hne.
  apply list_elem_of_fmap in Hin as ([d h] & Heq & _). simpl in Heq.
  case_bool_decide; simplify_eq; done.
Qed.

Lemma emitStageBinary_seen (Target : HshTarget) (Stage : Z) (Source : string)
    (Data : list Z) (Hash : Z) (G : GenerateConsumer) :
  SeenHashes G ⊆ SeenHashes (emitStageBinary Target Stage Source Data Hash G).
Proof.
  unfold emitStageBinary. repeat case_bool_decide; simpl; set_solver.
Qed.

Lemma emitStageBinaries_seen (Target : HshTarget) (Bins : list (list Z * Z))
    (Sources : list string) (StageIt : Z) (G : GenerateConsumer) :
  SeenHashes G ⊆ SeenHashes (emitStageBinaries Target Bins Sources StageIt G).
Proof.
  revert Sources StageIt G.
  induction Bins as [|[Data Hash] Bins IH]; intros [|Source Sources] StageIt G;
    simpl; try done.
  etrans; [| apply IH]. apply emitStageBinary_seen.
Qed.

Lemma emitTargets_seen (jobs : list (list string * StageBinaries))
    (G : GenerateConsumer) :
  SeenHashes G ⊆ SeenHashes (emitTargets jobs G).
Proof.
  revert G. induction jobs as [|job jobs IH]; intros G; simpl; [done |].
  etrans; [| apply IH]. apply emitStageBinaries_seen.
Qed.

Lemma emitStageBinary_once (Target : HshTarget) (Stage : Z) (Source : string)
    (Data : list Z) (Hash : Z) (G : GenerateConsumer) :
  artifacts_once G ->
  artifacts_once (emitStageBinary Target Stage Source Data Hash G).
Proof.
  intros [Hnd Hseen]. unfold emitStageBinary.
  repeat case_bool_decide; simpl in *; try done.
  split; simpl.
  - rewrite fmap_app. simpl. apply NoDup_app.
    repeat split; [done | | apply NoDup_singleton].
    intros h Hh ->%list_elem_of_singleton.
    apply list_elem_of_fmap in Hh as (a & -> & Ha). auto.
  - intros a [Ha| ->%list_elem_of_singleton]%elem_of_app; simpl.
    + specialize (Hseen a Ha). set_solver.
    + set_solver.
Qed.

Lemma emitStageBinaries_once (Target : HshTarget) (Bins : list (list Z * Z))
    (Sources : list string) (StageIt : Z) (G : GenerateConsumer) :
  artifacts_once G ->
  artifacts_once (emitStageBinaries Target Bins Sources StageIt G).
Proof.
  revert Sources StageIt G.
  induction Bins as [|[Data Hash] Bins IH]; intros [|Source Sources] StageIt G;
    simpl; try done.
  intros HG. by apply IH, emitStageBinary_once.
Qed.

Lemma emitTargets_once (jobs : list (list string * StageBinaries))
    (G : GenerateConsumer) :
  artifacts_once G -> artifacts_once (emitTargets jobs G).
Proof.
  revert G. induction jobs as [|job jobs IH]; intros G HG; simpl; [done |].
  by apply IH, emitStageBinaries_once.
Qed.

(** Every artifact in [OS] carries the hash of its bytes. *)
Definition artifacts_hashed (G : GenerateConsumer) : Prop :=
  Forall (fun a => ArtifactHash a = xxHash64 (ArtifactData a)) (OS G).

Lemma emitStageBinaries_hashed (Target : HshTarget)
    (Bins : list (list Z * Z)) (Sources : list string) (StageIt : Z)
    (G : GenerateConsumer) :
  Forall (fun Binary => Binary.1 <> [] -> Binary.2 = xxHash64 Binary.1) Bins ->
  artifacts_hashed G ->
  artifacts_hashed (emitStageBinaries Target Bins Sources StageIt G).
Proof.
  revert Sources StageIt G.
  induction Bins as [|[Data Hash] Bins IH]; intros [|Source Sources] StageIt G;
    simpl; try done.
  intros [HB HBins]%Forall_cons HG. apply IH; [done |].
  unfold emitStageBinary. repeat case_bool_decide; simpl; try done.
  apply Forall_app. split; [done |]. apply Forall_singleton. simpl. auto.
Qed.

Lemma compile_hashed (Compiled : StageBinaries) :
  Forall (fun Binary => Binary.1 <> [] -> Binary.2 = xxHash64 Binary.1)
    (Binaries (compile xxHash64 Compiled)).
Proof.
  apply Forall_forall. intros [Data Hash] Hin Hne.
  by apply (compile_hash Compiled).
Qed.

Lemma emitTargets_hashed (jobs : list (list string * StageBinaries))
    (G : GenerateConsumer) :
  artifacts_hashed G -> artifacts_hashed (emitTargets jobs G).
Proof.
  revert G. induction jobs as [|job jobs IH]; intros G HG; simpl; [done |].
  apply IH. apply emitStageBinaries_hashed; [apply compile_hashed | done].
Qed.

(** The reference entries of one program for one target: one for every
    binary that is not empty, in the order of the stages, naming the hash of
    its bytes. *)
Definition references (Sources : list string) (Compiled : StageBinaries)
    : list AnonEntry :=
  omap (fun P : (list Z * Z) * string =>
          if bool_decide (P.1.1 = []) then None
          else Some (ShaderObjectRef (xxHash64 P.1.1)))
    (zip (Binaries Compiled) Sources).

Lemma emitTarget_references (Sources : list string) (Compiled : StageBinaries)
    (G : GenerateConsumer) :
  AnonOS (emitTarget xxHash64 Sources Compiled G) =
    AnonOS G ++ references Sources Compiled.
Proof.
  unfold emitTarget, compile, updateHashes, references. simpl.
  generalize HshHostStage as StageIt. revert Sources G.
  induction (Binaries Compiled) as [|[Data Hash] Bins IH];
    intros [|Source Sources] G StageIt; simpl;
    try (by rewrite app_nil_r).
  - by destruct (bool_decide _); rewrite app_nil_r.
  - case_bool_decide as Hempty; simpl.
    + rewrite IH. unfold emitStageBinary.
      by rewrite bool_decide_eq_true_2 by done.
    + rewrite IH. unfold emitStageBinary.
      rewrite bool_decide_eq_false_2 by done.
      case_bool_decide; simpl; by rewrite <- app_assoc.
Qed.

Lemma emitTargets_references (jobs : list (list string * StageBinaries))
    (G : GenerateConsumer) :
  AnonOS (emitTargets jobs G) =
    AnonOS G ++ concat ((fun job => references job.1 job.2) <$> jobs).
Proof.
  revert G. induction jobs as [|job jobs IH]; intros G; simpl.
  - by rewrite app_nil_r.
  - unfold emitTargets in IH. rewrite IH, emitTarget_references.
    by rewrite <- app_assoc.
Qed.

(** C5.  Let a stage binary with the bytes [Data], not empty, come up
    twice in one run, any emission for programs and targets in between, and
    let [Hash] be the hash of these bytes.  Either time the same reference
    entry, naming [Hash], is written to the table of shader data.  The
    first time the artifact is written if [Hash] is not in the set of seen
    hashes, and is not written if it is; the second time nothing is written
    but the reference.  And in a run that starts with no hash seen and no
    artifact written: no two artifacts written have the same hash, every
    artifact written carries the hash of its bytes, so that no two have
    the same bytes, and the reference entries written are those of every
    binary that is not empty, whether its artifact was written for it or
    before. *)
Theorem stage_binary_emitted_once (G : GenerateConsumer) (Data : list Z)
    (Target1 Target2 : HshTarget) (Stage1 Stage2 : Z)
    (Source1 Source2 : string)
    (between jobs : list (list string * StageBinaries))
    (RunDiags0 : list Diagnostic) :
  Data <> [] ->
  let Hash := xxHash64 Data in
  let G1 := emitStageBinary Target1 Stage1 Source1 Data Hash G in
  let G2 := emitTargets between G1 in
  let G3 := emitStageBinary Target2 Stage2 Source2 Data Hash G2 in
  let Run := emitTargets jobs (mkGenerateConsumer ∅ [] [] RunDiags0) in
  AnonOS G1 = AnonOS G ++ [ShaderObjectRef Hash]
  /\ (Hash ∉ SeenHashes G ->
        OS G1 =
          OS G ++ [mkShaderArtifact Stage1 Target1 Source1 Data Hash])
  /\ (Hash ∈ SeenHashes G -> OS G1 = OS G)
  /\ AnonOS G3 = AnonOS G2 ++ [ShaderObjectRef Hash]
  /\ OS G3 = OS G2
  /\ SeenHashes G3 = SeenHashes G2
  /\ NoDup (ArtifactHash <$> OS Run)
  /\ Forall (fun a => ArtifactHash a = xxHash64 (ArtifactData a)) (OS Run)
  /\ NoDup (ArtifactData <$> OS Run)
  /\ AnonOS Run = concat ((fun job => references job.1 job.2) <$> jobs).
Proof.
  intros Hne Hash G1 G2 G3 Run.
  assert (Hash ∈ SeenHashes G1) as Hin1.
  { unfold G1, emitStageBinary. rewrite bool_decide_eq_false_2 by done.
    case_bool_decide; simpl; set_solver. }
  assert (Hash ∈ SeenHashes G2) as Hin2
    by (by apply (emitTargets_seen between G1)).
  assert (NoDup (ArtifactHash <$> OS Run)) as Hnd.
  { apply emitTargets_once. split; simpl; [apply NoDup_nil_2 |].
    intros a Ha. by apply elem_of_nil in Ha. }
  assert (artifacts_hashed Run) as Hhashed.
  { apply emitTargets_hashed. apply Forall_nil_2. }
  split; [| split; [| split; [| split; [| split; [| split]]]]].
  - unfold G1, emitStageBinary. rewrite bool_decide_eq_false_2 by done.
    by case_bool_decide.
  - intros Hnin. unfold G1, emitStageBinary.
    rewrite bool_decide_eq_false_2 by done. simpl.
    by rewrite bool_decide_eq_false_2 by done.
  - intros Hin. unfold G1, emitStageBinary.
    rewrite bool_decide_eq_false_2 by done. simpl.
    by rewrite bool_decide_eq_true_2 by done.
  - unfold G3, emitStageBinary. rewrite bool_decide_eq_false_2 by done.
    simpl. by rewrite bool_decide_eq_true_2 by done.
  - unfold G3, emitStageBinary. rewrite bool_decide_eq_false_2 by done.
    simpl. by rewrite bool_decide_eq_true_2 by done.
  - unfold G3, emitStageBinary. rewrite bool_decide_eq_false_2 by done.
    simpl. by rewrite bool_decide_eq_true_2 by done.
  - split; [done |]. split; [done |]. split.
    + apply (NoDup_fmap_1 xxHash64). rewrite <- list_fmap_compose.
      erewrite list_fmap_ext; [exact Hnd |].
      intros i a Ha. simpl. symmetry.
      by apply (Forall_lookup_1 _ _ _ _ Hhashed Ha).
    + unfold Run. by rewrite emitTargets_references.
Qed.

End EmissionFacts.

Lemma stage_binary_emitted_once_witness :
  let xxHash64 := fun Data : list Z => foldr Z.add 0 Data in
  let G := mkGenerateConsumer ∅ [] [] [] in
  let G1 := emitStageBinary HT_GLSL HshFragmentStage "f" [1; 2] 3 G in
  let G3 := emitStageBinary HT_HLSL HshFragmentStage "g" [1; 2] 3 G1 in
  [1; 2] <> ([] : list Z)
  /\ OS G1 = [mkShaderArtifact HshFragmentStage HT_GLSL "f" [1; 2] 3]
  /\ OS G3 = OS G1
  /\ AnonOS G3 = AnonOS G1 ++ [ShaderObjectRef 3].
Proof.
  intros xxHash64 G G1 G3.
  assert ([1; 2] <> ([] : list Z)) as Hne by discriminate.
  pose proof (stage_binary_emitted_once xxHash64 G [1; 2] HT_GLSL HT_HLSL
                HshFragmentStage HshFragmentStage "f" "g" [] [] [] Hne)
    as (H1 & H2 & _ & H4 & H5 & _).
  split; [done |]. split; [| split].
  - apply H2. vm_compute. set_solver.
  - exact H5.
  - exact H4.
Defined.

(** ** Arrays *)

Lemma array_get_Done {A} (arr : list A) (i : Z) (a : A) :
  array_get arr i = Done a <->
  0 <= i /\ arr !! Z.to_nat i = Some a.
Proof.
  unfold array_get. split.
  - destruct (0 <=? i) eqn:H0; simpl; [| done].
    destruct (i <? Z.of_nat (length arr)); [| done].
    destruct (arr !! Z.to_nat i); [| done].
    intros [= ->]. split; [lia | done].
  - intros [H0 Hi]. pose proof (lookup_lt_Some _ _ _ Hi) as Hlt.
    rewrite (proj2 (Z.leb_le 0 i)) by done.
    rewrite (proj2 (Z.ltb_lt i _)) by lia. simpl. by rewrite Hi.
Qed.

Lemma array_get_set_eq {A} (arr : list A) (i : Z) (a a' : A) :
  array_get arr i = Done a -> array_get (array_set arr i a') i = Done a'.
Proof.
  intros [H0 Hi]%array_get_Done. apply array_get_Done. split; [done |].
  unfold array_set. apply list_lookup_insert_eq. by eapply lookup_lt_Some.
Qed.

Lemma array_get_set_ne {A} (arr : list A) (i j : Z) (a' : A) :
  0 <= i -> 0 <= j -> i <> j ->
  array_get (array_set arr i a') j = array_get arr j.
Proof.
  intros Hi Hj Hne. unfold array_get, array_set.
  rewrite length_insert, list_lookup_insert_ne by lia. done.
Qed.

(** ** Reference counts of lifted declarations *)

(** The declaration statement at index [i] of a stage list comes from the
    variable [O] and has the reference count [c]. *)
Definition declAt (L : StageStmtList) (O : option VarDecl) (i : nat) (c : Z)
    : Prop :=
  exists St, Stmts L !! i = Some St /\ isa_DeclStmt St = true
             /\ StmtDeclRefCount L !! i = Some (c, O).

(** A stage list is in order when its two vectors are in step and no two of
    its declaration statements come from the same variable. *)
Definition stage_ok (L : StageStmtList) : Prop :=
  length (Stmts L) = length (StmtDeclRefCount L)
  /\ forall O i j ci cj, declAt L O i ci -> declAt L O j cj -> i = j.

Lemma findDeclRef_Done (O : option VarDecl) (Ss : list Stmt)
    (Cs : list (Z * option VarDecl)) (k : nat) :
  length Ss = length Cs ->
  (exists i c St,
      findDeclRef O Ss Cs k = Done (Some (k + i)%nat)
      /\ Ss !! i = Some St /\ isa_DeclStmt St = true /\ Cs !! i = Some (c, O)
      /\ forall j St' e, (j < i)%nat -> Ss !! j = Some St' ->
           Cs !! j = Some e -> ~ (isa_DeclStmt St' = true /\ e.2 = O))
  \/ (findDeclRef O Ss Cs k = Done None
      /\ forall j St' e, Ss !! j = Some St' -> Cs !! j = Some e ->
           ~ (isa_DeclStmt St' = true /\ e.2 = O)).
Proof.
  revert Cs k. induction Ss as [|St Ss IH]; intros [|[c d] Cs] k Hlen;
    simpl in *; try done.
  - right. split; [done |]. intros j St' e Hj. done.
  - destruct (isa_DeclStmt St && bool_decide (d = O)) eqn:Hhit.
    + apply andb_true_iff in Hhit as [Hisa Hd%bool_decide_eq_true].
      subst d. left. exists 0%nat, c, St.
      rewrite Nat.add_0_r. repeat split; try done. intros j ? ? Hj. lia.
    + assert (~ (isa_DeclStmt St = true /\ d = O)) as Hmiss.
      { intros [Hisa Hd]. rewrite Hisa, bool_decide_eq_true_2 in Hhit; done. }
      destruct (IH Cs (S k)) as [(i & c' & St' & Hf & HS & Hisa & HC & Hmin)
                                | [Hf Hnone]]; [lia | |].
      * left. exists (S i), c', St'.
        replace (k + S i)%nat with (S k + i)%nat by lia.
        repeat split; try done.
        intros [|j] St'' e Hj HS' HC'; simpl in *; simplify_eq; [done |].
        apply (Hmin j St'' e); [lia | done | done].
      * right. split; [done |].
        intros [|j] St'' e HS' HC'; simpl in *; simplify_eq; [done |].
        by apply (Hnone j St'' e).
Qed.

Lemma findDeclRef_declAt (O : option VarDecl) (L : StageStmtList) (i : nat)
    (c : Z) :
  stage_ok L -> declAt L O i c ->
  findDeclRef O (Stmts L) (StmtDeclRefCount L) 0 = Done (Some i).
Proof.
  intros [Hlen Huniq] Hat.
  destruct (findDeclRef_Done O (Stmts L) (StmtDeclRefCount L) 0 Hlen)
    as [(i' & c' & St & Hf & HS & Hisa & HC & _) | [_ Hnone]].
  - assert (i = i') as -> by (eapply Huniq; [done | by exists St]).
    done.
  - destruct Hat as (St & HS & Hisa & HC).
    by destruct (Hnone i St (c, O) HS HC).
Qed.

Lemma findDeclRef_absent (O : option VarDecl) (L : StageStmtList) :
  stage_ok L -> (forall i c, ~ declAt L O i c) ->
  findDeclRef O (Stmts L) (StmtDeclRefCount L) 0 = Done None.
Proof.
  intros [Hlen _] Habs.
  destruct (findDeclRef_Done O (Stmts L) (StmtDeclRefCount L) 0 Hlen)
    as [(i' & c' & St & Hf & HS & Hisa & HC & _) | [Hf _]]; [| done].
  destruct (Habs i' c'). by exists St.
Qed.

Lemma stage_ok_count (L : StageStmtList) (O : option VarDecl) (i : nat)
    (c c' : Z) :
  stage_ok L -> declAt L O i c ->
  stage_ok (mkStageStmtList (Stmts L)
              (<[i := (c', O)]> (StmtDeclRefCount L))).
Proof.
  intros [Hlen Huniq] (St & HS & Hisa & HC). split; simpl.
  - by rewrite length_insert.
  - assert (forall O' j cj,
              declAt (mkStageStmtList (Stmts L)
                        (<[i := (c', O)]> (StmtDeclRefCount L))) O' j cj ->
              exists cj', declAt L O' j cj') as Hback.
    { intros O' j cj (St' & HS' & Hisa' & HC'). simpl in *.
      destruct (decide (j = i)) as [-> |Hne].
      - rewrite list_lookup_insert_eq in HC' by (by eapply lookup_lt_Some).
        simplify_eq. exists c. by exists St.
      - rewrite list_lookup_insert_ne in HC' by done. exists cj. by exists St'. }
    intros O' j1 j2 c1 c2 [? H1]%Hback [? H2]%Hback. eauto.
Qed.

Lemma stage_ok_push (L : StageStmtList) (S : Stmt) (O : option VarDecl) :
  stage_ok L ->
  (isa_DeclStmt S = true -> forall i c, ~ declAt L O i c) ->
  stage_ok (pushStageStmt S O L).
Proof.
  intros [Hlen Huniq] Habs. split; simpl.
  - rewrite !length_app. simpl. lia.
  - assert (forall O' j cj,
              declAt (pushStageStmt S O L) O' j cj ->
              declAt L O' j cj
              \/ (j = length (Stmts L) /\ O' = O /\ isa_DeclStmt S = true))
      as Hback.
    { intros O' j cj (St' & HS' & Hisa' & HC'). simpl in *.
      destruct (decide (j < length (Stmts L))%nat) as [Hlt|Hge].
      - rewrite lookup_app_l in HS' by done.
        rewrite lookup_app_l in HC' by lia. left. by exists St'.
      - rewrite lookup_app_r in HS' by lia.
        rewrite lookup_app_r in HC' by lia.
        rewrite <- Hlen in HC'.
        destruct (j - length (Stmts L))%nat as [|n] eqn:Hn;
          simpl in *; simplify_eq.
        right. repeat split; try done. lia. }
    intros O' j1 j2 c1 c2 [H1|(-> & -> & Hisa)]%Hback
                          [H2|(-> & Heq & Hisa')]%Hback;
      try subst; eauto.
    + by destruct (Habs Hisa' _ _ H1).
    + by destruct (Habs Hisa _ _ H2).
Qed.

Lemma stage_ok_delete (L : StageStmtList) (i : nat) :
  stage_ok L ->
  stage_ok (mkStageStmtList (delete i (Stmts L))
              (delete i (StmtDeclRefCount L))).
Proof.
  intros [Hlen Huniq]. split; simpl.
  - rewrite !delete_take_drop, !length_app, !length_take, !length_drop. lia.
  - assert (forall O j cj,
              declAt (mkStageStmtList (delete i (Stmts L))
                        (delete i (StmtDeclRefCount L))) O j cj ->
              declAt L O (if decide (j < i)%nat then j else S j) cj)
      as Hback.
    { intros O j cj (St' & HS' & Hisa' & HC'). simpl in *.
      exists St'. case_decide.
      - rewrite list_lookup_delete_lt in HS' by done.
        rewrite list_lookup_delete_lt in HC' by done. done.
      - rewrite list_lookup_delete_ge in HS' by lia.
        rewrite list_lookup_delete_ge in HC' by lia. done. }
    intros O j1 j2 c1 c2 H1%Hback H2%Hback.
    pose proof (Huniq _ _ _ _ _ H1 H2). repeat case_decide; lia.
Qed.

(** [addStageStmt] of a declaration statement, on a stage list in order. *)
Lemma addStageStmt_list_decl (DS : Stmt) (O : option VarDecl)
    (L : StageStmtList) :
  isa_DeclStmt DS = true -> stage_ok L ->
  exists L',
    addStageStmt_list DS O L = Done L' /\ stage_ok L'
    /\ (forall i c, declAt L O i c ->
          L' = mkStageStmtList (Stmts L)
                 (<[i := (unsigned (c + 1), O)]> (StmtDeclRefCount L)))
    /\ ((forall i c, ~ declAt L O i c) -> L' = pushStageStmt DS O L).
Proof.
  intros Hisa Hok. unfold addStageStmt_list. rewrite Hisa.
  destruct (findDeclRef_Done O (Stmts L) (StmtDeclRefCount L) 0 (proj1 Hok))
    as [(i & c & St & Hf & HS & HisaS & HC & _) | [Hf Hnone]].
  - rewrite Hf. simpl.
    assert (declAt L O i c) as Hat by (by exists St).
    assert (alter (fun RefCount : Z * option VarDecl =>
                     (unsigned (RefCount.1 + 1), RefCount.2)) i
              (StmtDeclRefCount L)
            = <[i := (unsigned (c + 1), O)]> (StmtDeclRefCount L)) as Halter.
    { apply list_eq. intros j. destruct (decide (j = i)) as [-> |Hne].
      - rewrite list_lookup_alter_eq, HC. simpl.
        by rewrite list_lookup_insert_eq by (by eapply lookup_lt_Some).
      - by rewrite list_lookup_alter_ne, list_lookup_insert_ne. }
    rewrite Halter. eexists. split; [done |]. split; [| split].
    + by eapply stage_ok_count.
    + intros i' c' Hat'.
      assert (i' = i) as -> by (by eapply (proj2 Hok)).
      destruct Hat' as (? & _ & _ & HC'). by simplify_eq.
    + intros Habs. by destruct (Habs i c).
  - rewrite Hf. simpl.
    assert (forall i c, ~ declAt L O i c) as Habs.
    { intros i c (St & HS & HisaS & HC). by apply (Hnone i St (c, O)). }
    eexists. split; [done |]. split; [| split].
    + by apply stage_ok_push.
    + intros i c Hat. by destruct (Habs i c).
    + done.
Qed.

(** The second half of [liftDeclStmt], on a stage list in order. *)
Lemma dropDeclRef_list_decl (O : option VarDecl) (L : StageStmtList) :
  stage_ok L ->
  exists L',
    dropDeclRef_list O L = Done L' /\ stage_ok L'
    /\ (forall i c, declAt L O i c ->
          (unsigned (c - 1) = 0 ->
             L' = mkStageStmtList (delete i (Stmts L))
                    (delete i (StmtDeclRefCount L))
             /\ forall j c', ~ declAt L' O j c')
          /\ (unsigned (c - 1) <> 0 ->
                L' = mkStageStmtList (Stmts L)
                       (<[i := (unsigned (c - 1), O)]> (StmtDeclRefCount L))))
    /\ ((forall i c, ~ declAt L O i c) -> L' = L).
Proof.
  intros Hok. unfold dropDeclRef_list.
  destruct (findDeclRef_Done O (Stmts L) (StmtDeclRefCount L) 0 (proj1 Hok))
    as [(i & c & St & Hf & HS & HisaS & HC & _) | [Hf Hnone]].
  - rewrite Hf. simpl. rewrite HC. simpl.
    assert (declAt L O i c) as Hat by (by exists St).
    assert (forall i' c', declAt L O i' c' -> i' = i /\ c' = c) as Hsame.
    { intros i' c' Hat'.
      assert (i' = i) as -> by (by eapply (proj2 Hok)).
      destruct Hat' as (? & _ & _ & HC'). by simplify_eq. }
    destruct (Z.eqb_spec (unsigned (c - 1)) 0) as [Hz|Hnz].
    + eexists. split; [done |]. split; [by apply stage_ok_delete |].
      split; [| intros Habs; by destruct (Habs i c)].
      intros i' c' [-> ->]%Hsame. split; [| done].
      intros _. split; [done |].
      intros j cj (St' & HS' & Hisa' & HC'). simpl in *.
      assert (declAt L O (if decide (j < i)%nat then j else S j) cj) as Hat'.
      { exists St'. case_decide.
        - rewrite list_lookup_delete_lt in HS' by done.
          rewrite list_lookup_delete_lt in HC' by done. done.
        - rewrite list_lookup_delete_ge in HS' by lia.
          rewrite list_lookup_delete_ge in HC' by lia. done. }
      apply Hsame in Hat' as [Hi _]. case_decide; lia.
    + eexists. split; [done |]. split; [by eapply stage_ok_count |].
      split; [| intros Habs; by destruct (Habs i c)].
      intros i' c' [-> ->]%Hsame. split; done.
  - rewrite Hf. simpl.
    assert (forall i c, ~ declAt L O i c) as Habs.
    { intros i c (St & HS & HisaS & HC). by apply (Hnone i St (c, O)). }
    exists L. split; [done |]. split; [done |]. split; [| done].
    intros i c Hat. by destruct (Habs i c).
Qed.

Lemma unsigned_pred_zero (c : Z) :
  0 <= c < 2 ^ 32 -> unsigned (c - 1) = 0 <-> c = 1.
Proof.
  intros Hc. unfold unsigned. split; [| by intros ->].
  intros H0. destruct (decide (c = 0)) as [-> |Hne].
  - by vm_compute in H0.
  - rewrite Z.mod_small in H0 by lia. lia.
Qed.

(** C9.  Let the lists of the stages [From] and [To], two different stages,
    be in order: in each, no two declaration statements come from the same
    variable.  Adding a declaration statement that comes from the variable
    [O] to stage [To], which is also the first step of lifting it from
    [From] to [To], leaves the statements of [To] as they are and adds one
    to the count of the declaration from [O] when there is one, and appends
    the statement with the count one when there is none.  Lifting then
    takes one from the count of the declaration from [O] in [From], and
    removes the declaration from [From] exactly when this count reaches
    zero, that is when it was one.  Both lists stay in order. *)
Theorem lifted_declaration_reference_counts (b : StagesBuilder) (DS : Stmt)
    (O : option VarDecl) (From To : Z) (LF LT : StageStmtList) :
  isa_DeclStmt DS = true -> From <> To ->
  array_get (StageStmts b) From = Done LF ->
  array_get (StageStmts b) To = Done LT ->
  stage_ok LF -> stage_ok LT ->
  exists LT' LF',
    addStageStmt DS To O b =
      Done (set_StageStmts (array_set (StageStmts b) To LT') b)
    /\ liftDeclStmt DS From To O b =
         Done (set_StageStmts
                 (array_set (array_set (StageStmts b) To LT') From LF') b)
    /\ stage_ok LT' /\ stage_ok LF'
    /\ (forall i c, declAt LT O i c ->
          Stmts LT' = Stmts LT
          /\ StmtDeclRefCount LT' =
               <[i := (unsigned (c + 1), O)]> (StmtDeclRefCount LT))
    /\ ((forall i c, ~ declAt LT O i c) -> LT' = pushStageStmt DS O LT)
    /\ (forall i c, declAt LF O i c -> 0 <= c < 2 ^ 32 ->
          if bool_decide (c = 1) then
            Stmts LF' = delete i (Stmts LF)
            /\ StmtDeclRefCount LF' = delete i (StmtDeclRefCount LF)
            /\ forall j c', ~ declAt LF' O j c'
          else
            Stmts LF' = Stmts LF
            /\ StmtDeclRefCount LF' =
                 <[i := (unsigned (c - 1), O)]> (StmtDeclRefCount LF))
    /\ ((forall i c, ~ declAt LF O i c) -> LF' = LF).
Proof.
  intros Hisa Hne HF HT HokF HokT.
  destruct (addStageStmt_list_decl DS O LT Hisa HokT)
    as (LT' & Hadd & HokT' & Hinc & Hpush).
  destruct (dropDeclRef_list_decl O LF HokF)
    as (LF' & Hdrop & HokF' & Hdec & Hkeep).
  pose proof (proj1 (array_get_Done _ _ _) HF) as [HF0 _].
  pose proof (proj1 (array_get_Done _ _ _) HT) as [HT0 _].
  assert (addStageStmt DS To O b =
            Done (set_StageStmts (array_set (StageStmts b) To LT') b))
    as Hadd'.
  { unfold addStageStmt. rewrite HT. simpl. by rewrite Hadd. }
  exists LT', LF'. split; [done |]. split.
  { unfold liftDeclStmt. rewrite Hadd'. simpl.
    rewrite array_get_set_ne, HF by done. simpl. by rewrite Hdrop. }
  split; [done |]. split; [done |]. split; [| split; [done |]].
  - intros i c Hat. by rewrite (Hinc i c Hat).
  - split; [| done].
    intros i c Hat Hc. destruct (Hdec i c Hat) as [Hzero Hnz].
    pose proof (unsigned_pred_zero c Hc) as Hiff.
    case_bool_decide as Hc1.
    + destruct (Hzero (proj2 Hiff Hc1)) as [-> Hgone]. done.
    + assert (unsigned (c - 1) <> 0) as Hn by (intros ?; apply Hc1; tauto).
      by rewrite (Hnz Hn).
Qed.

Lemma lifted_declaration_reference_counts_witness :
  let DS := DeclStmt 9%nat (LocalVar 4%nat) in
  let O := Some (LocalVar 3%nat) in
  let LF := mkStageStmtList [DeclStmt 8%nat (LocalVar 5%nat)] [(1, O)] in
  let LT := mkStageStmtList [] [] in
  let b :=
    mkStagesBuilder (mkASTContext 10%nat []) 35 [] []
      [LT; LF; LT; LT; LT; LT] [] [] []
      (mkAssignmentFinderInfo None None None) None ∅ in
  liftDeclStmt DS HshVertexStage HshFragmentStage O b =
    Done (set_StageStmts
            [LT; LT; LT; LT; LT; mkStageStmtList [DS] [(1, O)]] b).
Proof.
  intros DS O LF LT b.
  assert (stage_ok LF) as HokF.
  { split; [done |].
    intros O' [|i] [|j] ci cj (? & H1 & _) (? & H2 & _); simpl in *; done. }
  assert (stage_ok LT) as HokT.
  { split; [done |]. intros O' i j ci cj (? & H1 & _). done. }
  destruct (lifted_declaration_reference_counts b DS O HshVertexStage
              HshFragmentStage LF LT)
    as (LT' & LF' & _ & Hlift & _ & _ & _ & Hpush & Hdrop & _);
    [done | done | done | done | done | done |].
  rewrite Hlift.
  rewrite Hpush by (intros i c (? & H1 & _); done).
  specialize (Hdrop 0%nat 1).
  destruct Hdrop as (H1 & H2 & _);
    [by exists (DeclStmt 8%nat (LocalVar 5%nat)) | done |].
  destruct LF' as [S' C']. simpl in H1, H2. subst S' C'. reflexivity.
Defined.

(** ** The sampler table *)

Definition samplerConfigs (b : StagesBuilder) : list SamplerConfig :=
  Config <$> Samplers b.

(** A sample call that [registerSampleCall] takes to the sampler table: it
    is performed on a texture parameter of stage [TexStage], is not among
    the calls [StageCalls] of that stage yet, and its sampler argument is a
    constant of the right form, with the configuration [cfg]. *)
Definition sampleRequest (C : SampleCallSite) (b : StagesBuilder)
    (TexStage TexIdx : Z) (StageCalls : list SampleCall)
    (cfg : SamplerConfig) : Prop :=
  TextureParm C = Some (TexStage, TexIdx)
  /\ array_get (SampleCalls b) TexStage = Done StageCalls
  /\ (forall Call, Call ∈ StageCalls -> SampleExpr Call <> CallPtr C)
  /\ exists Res, SamplerArg C = Some Res
                 /\ ValidateSamplerStruct Res = true
                 /\ SamplerConfig_of Res = cfg.

(** The call recorded for a request. *)
Definition recordedCall (C : SampleCallSite) (TexIdx : Z) (Search : nat)
    : SampleCall :=
  mkSampleCall (CallPtr C) (unsigned TexIdx) (unsigned (Z.of_nat Search)).

Lemma sampleRequest_unfold (C : SampleCallSite) (b : StagesBuilder)
    (TexStage TexIdx : Z) (StageCalls : list SampleCall)
    (cfg : SamplerConfig) :
  sampleRequest C b TexStage TexIdx StageCalls cfg ->
  registerSampleCall C b =
    match list_find (fun S => Config S = cfg) (Samplers b) with
    | None =>
        if Z.of_nat (length (Samplers b)) =? HSH_MAX_SAMPLERS then
          Done (set_Context
                  (report (SamplerArgPtr C) SamplerOverflow (Context b)) b)
        else
          Done (set_SampleCalls
                  (array_set (SampleCalls b) TexStage
                     (StageCalls ++
                        [recordedCall C TexIdx (length (Samplers b))]))
                  (set_Samplers
                     (Samplers b ++ [mkSamplerRecord cfg (StageBit TexStage)])
                     b))
    | Some (i, _) =>
        Done (set_SampleCalls
                (array_set (SampleCalls b) TexStage
                   (StageCalls ++ [recordedCall C TexIdx i]))
                (set_Samplers
                   (alter (fun S =>
                             mkSamplerRecord (Config S)
                               (Z.lor (SamplerUseStages S)
                                  (StageBit TexStage)))
                      i (Samplers b)) b))
    end.
Proof.
  intros (HT & HS & Hnew & Res & HA & HV & <-).
  unfold registerSampleCall. rewrite HT, HS. simpl.
  assert (existsb (fun Call => bool_decide (SampleExpr Call = CallPtr C))
            StageCalls = false) as ->.
  { apply not_true_is_false. intros (Call & Hin & Heq)%existsb_exists.
    apply bool_decide_eq_true in Heq.
    by apply (Hnew Call); [apply list_elem_of_In |]. }
  rewrite HA, HV. simpl.
  destruct (list_find _ _) as [[i S]|]; [done |].
  by destruct (_ =? _).
Qed.

Lemma registerSampleCall_configs (C : SampleCallSite) (b b' : StagesBuilder) :
  registerSampleCall C b = Done b' ->
  samplerConfigs b' = samplerConfigs b
  \/ exists cfg, (cfg ∉ samplerConfigs b)
                 /\ samplerConfigs b' = samplerConfigs b ++ [cfg].
Proof.
  unfold registerSampleCall.
  destruct (TextureParm C) as [[TexStage TexIdx]|]; [| intros [= <-]; by left].
  destruct (array_get _ _) as [StageCalls| |]; simpl; [| done | done].
  destruct (existsb _ _); [intros [= <-]; by left |].
  destruct (SamplerArg C) as [Res|]; [| intros [= <-]; by left].
  destruct (negb _); [intros [= <-]; by left |].
  destruct (list_find _ _) as [[i S]|] eqn:Hfind.
  - intros [= <-]. left. unfold samplerConfigs. simpl.
    apply list_find_Some in Hfind as (Hi & _ & _).
    apply list_eq. intros j. rewrite !list_lookup_fmap.
    destruct (decide (j = i)) as [-> |Hne].
    + rewrite list_lookup_alter_eq, Hi. done.
    + by rewrite list_lookup_alter_ne.
  - destruct (_ =? _); intros [= <-]; [by left |].
    right. exists (SamplerConfig_of Res). split.
    + apply list_find_None in Hfind. rewrite Forall_forall in Hfind.
      intros (S & HS & Hin)%list_elem_of_fmap. by apply (Hfind S).
    + unfold samplerConfigs. simpl. by rewrite fmap_app.
Qed.

Lemma registerSampleCall_NoDup (C : SampleCallSite) (b b' : StagesBuilder) :
  registerSampleCall C b = Done b' ->
  NoDup (samplerConfigs b) -> NoDup (samplerConfigs b').
Proof.
  intros [-> |(cfg & Hnin & ->)]%registerSampleCall_configs Hnd; [done |].
  apply NoDup_app. repeat split; [done | | apply NoDup_singleton].
  by intros x Hx ->%list_elem_of_singleton.
Qed.

(** A sequence of calls of [registerSampleCall]. *)
Fixpoint registerSampleCalls (calls : list SampleCallSite) (b : StagesBuilder)
    : Outcome StagesBuilder :=
  match calls with
  | [] => Done b
  | C :: calls' =>
      (b' ← registerSampleCall C b; registerSampleCalls calls' b')
  end.

Lemma registerSampleCalls_NoDup (calls : list SampleCallSite)
    (b b' : StagesBuilder) :
  registerSampleCalls calls b = Done b' ->
  NoDup (samplerConfigs b) -> NoDup (samplerConfigs b').
Proof.
  revert b. induction calls as [|C calls IH]; intros b; simpl.
  - by intros [= <-].
  - destruct (registerSampleCall C b) as [b1| |] eqn:H1; simpl; try done.
    intros H2 Hnd. apply (IH b1 H2). by eapply registerSampleCall_NoDup.
Qed.

Lemma registerSampleCall_known (C : SampleCallSite) (b : StagesBuilder)
    (TexStage TexIdx : Z) (StageCalls : list SampleCall)
    (cfg : SamplerConfig) :
  sampleRequest C b TexStage TexIdx StageCalls cfg ->
  cfg ∈ samplerConfigs b ->
  exists i S,
    Samplers b !! i = Some S /\ Config S = cfg
    /\ registerSampleCall C b =
         Done (set_SampleCalls
                 (array_set (SampleCalls b) TexStage
                    (StageCalls ++ [recordedCall C TexIdx i]))
                 (set_Samplers
                    (<[i := mkSamplerRecord cfg
                              (Z.lor (SamplerUseStages S)
                                 (StageBit TexStage))]> (Samplers b)) b)).
Proof.
  intros Hreq Hin. rewrite (sampleRequest_unfold _ _ _ _ _ _ Hreq).
  destruct (list_find _ _) as [[i S]|] eqn:Hfind.
  - apply list_find_Some in Hfind as (Hi & HS & _).
    exists i, S. split; [done |]. split; [done |].
    do 3 f_equal. apply list_eq. intros j.
    destruct (decide (j = i)) as [-> |Hne].
    + rewrite list_lookup_alter_eq, Hi. simpl.
      rewrite list_lookup_insert_eq by (by eapply lookup_lt_Some).
      by rewrite HS.
    + by rewrite list_lookup_alter_ne, list_lookup_insert_ne.
  - apply list_find_None in Hfind. rewrite Forall_forall in Hfind.
    apply list_elem_of_fmap in Hin as (S & -> & HS).
    by destruct (Hfind S HS).
Qed.

Lemma registerSampleCall_fresh (C : SampleCallSite) (b : StagesBuilder)
    (TexStage TexIdx : Z) (StageCalls : list SampleCall)
    (cfg : SamplerConfig) :
  sampleRequest C b TexStage TexIdx StageCalls cfg ->
  cfg ∉ samplerConfigs b ->
  registerSampleCall C b =
    if Z.of_nat (length (Samplers b)) =? HSH_MAX_SAMPLERS then
      Done (set_Context
              (report (SamplerArgPtr C) SamplerOverflow (Context b)) b)
    else
      Done (set_SampleCalls
              (array_set (SampleCalls b) TexStage
                 (StageCalls ++
                    [recordedCall C TexIdx (length (Samplers b))]))
              (set_Samplers
                 (Samplers b ++ [mkSamplerRecord cfg (StageBit TexStage)])
                 b)).
Proof.
  intros Hreq Hnin. rewrite (sampleRequest_unfold _ _ _ _ _ _ Hreq).
  destruct (list_find _ _) as [[i S]|] eqn:Hfind; [| done].
  apply list_find_Some in Hfind as (Hi & HS & _).
  destruct Hnin. apply list_elem_of_fmap. exists S. split; [done |].
  by eapply list_elem_of_lookup_2.
Qed.

Lemma StageBit_lor_covers (s1 s2 : Z) :
  0 <= s1 < 32 -> 0 <= s2 < 32 ->
  Z.testbit (Z.lor (StageBit s1) (StageBit s2)) s1 = true
  /\ Z.testbit (Z.lor (StageBit s1) (StageBit s2)) s2 = true.
Proof.
  intros H1 H2. rewrite !Z.lor_spec, !StageBit_testbit by lia.
  split.
  - by rewrite (bool_decide_eq_true_2 (s1 = s1)).
  - rewrite (bool_decide_eq_true_2 (s2 = s2)) by done. apply orb_true_r.
Qed.

(** C6.  In a builder reached from a new one by calls of
    [registerSampleCall], no two records of the sampler table have the same
    configuration.  Let a sample call with the constant configuration [cfg]
    on a texture of stage [TexStage] be registered there.  If a record has
    this configuration, the table keeps its size and that record's mask
    becomes the bitwise or of its mask and the bit of [TexStage].  If no
    record has it and the table holds [HSH_MAX_SAMPLERS] records, an error
    is reported at the sampler argument, and the table and the recorded
    calls stay as they are.  If no record has it and there is room, one
    record is appended, and registering a second call with the same
    configuration, on a texture of stage [TexStage2], leaves this one
    record, with a mask that has the bits of both stages. *)
Theorem sampler_table_deduplicated (calls : list SampleCallSite)
    (C0 : ASTContext) (U0 : Z) (b : StagesBuilder) (C : SampleCallSite)
    (TexStage TexIdx : Z) (StageCalls : list SampleCall)
    (cfg : SamplerConfig) :
  registerSampleCalls calls (StagesBuilder_new C0 U0) = Done b ->
  sampleRequest C b TexStage TexIdx StageCalls cfg ->
  NoDup (samplerConfigs b)
  /\ (cfg ∈ samplerConfigs b ->
        exists i S b',
          Samplers b !! i = Some S /\ Config S = cfg
          /\ registerSampleCall C b = Done b'
          /\ Samplers b' =
               <[i := mkSamplerRecord cfg
                        (Z.lor (SamplerUseStages S) (StageBit TexStage))]>
                 (Samplers b)
          /\ length (Samplers b') = length (Samplers b))
  /\ (cfg ∉ samplerConfigs b ->
      Z.of_nat (length (Samplers b)) = HSH_MAX_SAMPLERS ->
        exists b',
          registerSampleCall C b = Done b'
          /\ Samplers b' = Samplers b /\ SampleCalls b' = SampleCalls b
          /\ Diags (Context b') =
               Diags (Context b)
                 ++ [mkDiag Error SamplerOverflow (SamplerArgPtr C)]
          /\ hasErrorOccurred (Diags (Context b')) = true)
  /\ (cfg ∉ samplerConfigs b ->
      Z.of_nat (length (Samplers b)) <> HSH_MAX_SAMPLERS ->
        exists b1,
          registerSampleCall C b = Done b1
          /\ Samplers b1 =
               Samplers b ++ [mkSamplerRecord cfg (StageBit TexStage)]
          /\ forall C2 TexStage2 TexIdx2 StageCalls2,
               sampleRequest C2 b1 TexStage2 TexIdx2 StageCalls2 cfg ->
               exists b2,
                 registerSampleCall C2 b1 = Done b2
                 /\ Samplers b2 =
                      Samplers b ++
                        [mkSamplerRecord cfg
                           (Z.lor (StageBit TexStage) (StageBit TexStage2))]
                 /\ (0 <= TexStage < HshMaxStage ->
                     0 <= TexStage2 < HshMaxStage ->
                       Z.testbit (Z.lor (StageBit TexStage)
                                    (StageBit TexStage2)) TexStage = true
                       /\ Z.testbit (Z.lor (StageBit TexStage)
                                       (StageBit TexStage2)) TexStage2
                          = true)).
Proof.
  intros Hreach Hreq.
  assert (NoDup (samplerConfigs b)) as Hnd.
  { eapply registerSampleCalls_NoDup; [done |]. apply NoDup_nil_2. }
  split; [done |]. split; [| split].
  - intros Hin.
    destruct (registerSampleCall_known _ _ _ _ _ _ Hreq Hin)
      as (i & S & Hi & HS & Hrun).
    exists i, S. eexists. split; [done |]. split; [done |].
    split; [done |]. simpl. split; [done |]. by rewrite length_insert.
  - intros Hnin Hfull.
    rewrite (registerSampleCall_fresh _ _ _ _ _ _ Hreq Hnin).
    rewrite (proj2 (Z.eqb_eq _ _) Hfull).
    eexists. split; [done |]. simpl. repeat split.
    unfold hasErrorOccurred. apply bool_decide_eq_true.
    apply Exists_exists.
    exists (mkDiag Error SamplerOverflow (SamplerArgPtr C)).
    split; [| reflexivity].
    apply elem_of_app. right. by apply list_elem_of_singleton.
  - intros Hnin Hroom.
    rewrite (registerSampleCall_fresh _ _ _ _ _ _ Hreq Hnin).
    rewrite (proj2 (Z.eqb_neq _ _) Hroom).
    eexists. split; [done |]. simpl. split; [done |].
    intros C2 TexStage2 TexIdx2 StageCalls2 Hreq2.
    destruct (registerSampleCall_known _ _ _ _ _ _ Hreq2)
      as (i & S & Hi & HS & Hrun).
    { unfold samplerConfigs. simpl. rewrite fmap_app.
      apply elem_of_app. right. by apply list_elem_of_singleton. }
    simpl in Hi.
    assert (i = length (Samplers b) /\ S = mkSamplerRecord cfg
                                              (StageBit TexStage))
      as [-> ->].
    { destruct (decide (i < length (Samplers b))%nat) as [Hlt|Hge].
      - rewrite lookup_app_l in Hi by done. destruct Hnin.
        apply list_elem_of_fmap. exists S. split; [done |].
        by eapply list_elem_of_lookup_2.
      - rewrite lookup_app_r in Hi by lia.
        destruct (i - length (Samplers b))%nat as [|n] eqn:Hn;
          simpl in Hi; simplify_eq.
        split; [lia | done]. }
    eexists. split; [done |]. simpl. split.
    + rewrite insert_app_r_alt by done. by rewrite Nat.sub_diag.
    + intros H1 H2. apply StageBit_lor_covers; unfold HshMaxStage in *; lia.
Qed.

Lemma sampler_table_deduplicated_witness :
  let b := StagesBuilder_new (mkASTContext 0%nat []) 35 in
  let C1 :=
    mkSampleCallSite 1%nat 2%nat (Some (HshFragmentStage, 0))
      (Some (APStruct [APInt HSF_Nearest; APInt HSW_Clamp])) in
  let C2 :=
    mkSampleCallSite 3%nat 4%nat (Some (HshVertexStage, 0))
      (Some (APStruct [APInt HSF_Nearest; APInt HSW_Clamp])) in
  exists b1 b2,
    registerSampleCall C1 b = Done b1
    /\ registerSampleCall C2 b1 = Done b2
    /\ Samplers b2 =
         [mkSamplerRecord (mkSamplerConfig HSF_Nearest HSW_Clamp) 34].
Proof.
  intros b C1 C2.
  assert (sampleRequest C1 b HshFragmentStage 0 []
            (mkSamplerConfig HSF_Nearest HSW_Clamp)) as Hreq.
  { split; [done |]. split; [done |]. split.
    - intros Call Hin. by apply elem_of_nil in Hin.
    - by eexists. }
  destruct (sampler_table_deduplicated [] (mkASTContext 0%nat []) 35 b C1
              HshFragmentStage 0 [] (mkSamplerConfig HSF_Nearest HSW_Clamp)
              eq_refl Hreq) as (_ & _ & _ & Hnew).
  destruct Hnew as (b1 & H1 & HS1 & Hsecond).
  { intros Hin. by apply elem_of_nil in Hin. }
  { done. }
  assert (b1 = set_SampleCalls
                 (array_set (SampleCalls b) HshFragmentStage
                    [recordedCall C1 0 0])
                 (set_Samplers
                    [mkSamplerRecord (mkSamplerConfig HSF_Nearest HSW_Clamp)
                       (StageBit HshFragmentStage)] b)) as Hb1.
  { vm_compute in H1. injection H1 as <-. reflexivity. }
  destruct (Hsecond C2 HshVertexStage 0 []) as (b2 & H2 & HS2 & _).
  { rewrite Hb1. split; [done |]. split; [done |]. split.
    - intros Call Hin. by apply elem_of_nil in Hin.
    - by eexists. }
  exists b1, b2. split; [done |]. split; [done |]. exact HS2.
Defined.

(** ** Fields of an interface record *)

(** The comparison of the witnesses below: two references to the same
    declaration, as Clang's comparison equates them. *)
Definition sameDeclRef (E1 E2 : Expr) : bool :=
  match E1, E2 with
  | DeclRefExpr _ d1, DeclRefExpr _ d2 => bool_decide (d1 = d2)
  | _, _ => false
  end.

Section RecordFacts.

Variable same : Expr -> Expr -> bool.

(** The field a record holds for an expression. *)
Definition fieldFor (R : InterfaceRecord) (E : Expr) : option FieldDecl :=
  snd <$> find (fun P => isSameComparisonOperand same P.1 E) (Fields R).

(** A sequence of requests to a record, each an expression and the flag
    [IgnoreExisting]. *)
Fixpoint requestFields (reqs : list (Expr * bool)) (R : InterfaceRecord)
    : Outcome InterfaceRecord :=
  match reqs with
  | [] => Done R
  | req :: reqs' =>
      ('(_, R') ← getFieldForExpr same R req.1 req.2; requestFields reqs' R')
  end.

Lemma isSameComparisonOperand_refl (E : Expr) :
  isSameComparisonOperand same E E = true.
Proof.
  unfold isSameComparisonOperand. by rewrite bool_decide_eq_true_2.
Qed.

Lemma find_app_None {A} (f : A -> bool) (l1 l2 : list A) :
  find f l1 = None -> find f (l1 ++ l2) = find f l2.
Proof.
  induction l1 as [|x l1 IH]; simpl; [done |]. destruct (f x); [done | auto].
Qed.

Lemma find_app_Some {A} (f : A -> bool) (l1 l2 : list A) (x : A) :
  find f l1 = Some x -> find f (l1 ++ l2) = Some x.
Proof.
  induction l1 as [|y l1 IH]; simpl; [done |]. destruct (f y); [done | auto].
Qed.

Lemma getFieldForExpr_held (R : InterfaceRecord) (E : Expr) (F : FieldDecl)
    (IgnoreExisting : bool) :
  fieldFor R E = Some F ->
  getFieldForExpr same R E IgnoreExisting =
    Done (if IgnoreExisting then None else Some F, R).
Proof.
  unfold fieldFor, getFieldForExpr.
  destruct (find _ _) as [P|]; simpl; [| done]. by intros [= <-].
Qed.

Lemma getFieldForExpr_new (R : InterfaceRecord) (E : Expr)
    (decls : list FieldDecl) (IgnoreExisting : bool) :
  fieldFor R E = None -> RecordDecl R = Some decls ->
  let FD := mkFieldDecl (SStage R) (DStage R) (length (Fields R)) in
  let R' := mkInterfaceRecord (Some (decls ++ [FD])) (Fields R ++ [(E, FD)])
              (Producer R) (Consumer R) (SStage R) (DStage R) in
  getFieldForExpr same R E IgnoreExisting = Done (Some FD, R')
  /\ fieldFor R' E = Some FD.
Proof.
  unfold fieldFor, getFieldForExpr.
  destruct (find _ _) as [P|] eqn:Hfind; simpl; [done |].
  intros _ ->. split; [done |].
  rewrite find_app_None by done. simpl.
  by rewrite isSameComparisonOperand_refl.
Qed.

(** Whatever the flag, a request leaves the fields as they are or appends
    one, and afterwards the record holds a field for the expression. *)
Lemma getFieldForExpr_effect (R R' : InterfaceRecord) (E : Expr)
    (IgnoreExisting : bool) (o : option FieldDecl) :
  getFieldForExpr same R E IgnoreExisting = Done (o, R') ->
  (exists F, fieldFor R E = Some F /\ R' = R
             /\ o = if IgnoreExisting then None else Some F)
  \/ (exists F, fieldFor R E = None /\ Fields R' = Fields R ++ [(E, F)]
                /\ fieldFor R' E = Some F /\ o = Some F
                /\ F = mkFieldDecl (SStage R) (DStage R) (length (Fields R))).
Proof.
  intros Hget. destruct (fieldFor R E) as [F|] eqn:Hheld.
  - rewrite (getFieldForExpr_held _ _ _ _ Hheld) in Hget.
    injection Hget as <- <-. left. by exists F.
  - destruct (RecordDecl R) as [decls|] eqn:Hdecl.
    + destruct (getFieldForExpr_new R E decls IgnoreExisting Hheld Hdecl)
        as [Hnew Hfor].
      rewrite Hnew in Hget. injection Hget as <- <-.
      right. eexists. repeat split; done.
    + unfold fieldFor in Hheld. unfold getFieldForExpr in Hget.
      destruct (find _ _); simpl in *; [done |]. by rewrite Hdecl in Hget.
Qed.

(** The first element of a list that [f] holds of. *)
Lemma find_first {A} (f : A -> bool) (l : list A) (x : A) :
  find f l = Some x ->
  exists i, l !! i = Some x /\ f x = true
            /\ forall j y, (j < i)%nat -> l !! j = Some y -> f y = false.
Proof.
  induction l as [|a l IH]; simpl; [done |].
  destruct (f a) eqn:Hfa.
  - intros [= ->]. exists 0%nat. repeat split; try done. intros j y Hj. lia.
  - intros Hfind. destruct (IH Hfind) as (i & Hi & Hfx & Hmin).
    exists (S i). repeat split; try done.
    intros [|j] y Hj Hy; simpl in *; [by simplify_eq |].
    apply (Hmin j); [lia | done].
Qed.

Lemma find_absent {A} (f : A -> bool) (l : list A) (x : A) :
  find f l = None -> x ∈ l -> f x = false.
Proof.
  induction l as [|a l IH]; simpl; [by intros _ ?%elem_of_nil |].
  destruct (f a) eqn:Hfa; [done |].
  intros Hfind [-> |Hin]%elem_of_cons; auto.
Qed.

Lemma fieldFor_None (R : InterfaceRecord) (E : Expr) (P : Expr * FieldDecl) :
  fieldFor R E = None -> P ∈ Fields R ->
  isSameComparisonOperand same P.1 E = false.
Proof.
  unfold fieldFor. destruct (find _ _) eqn:Hfind; [done |].
  intros _ Hin. by apply (find_absent _ _ _ Hfind).
Qed.

(** No two entries of a record are for the same expression: no entry is the
    same, for [isSameComparisonOperand], as an entry after it. *)
Definition distinctFields (R : InterfaceRecord) : Prop :=
  forall i j Pi Pj, (i < j)%nat ->
    Fields R !! i = Some Pi -> Fields R !! j = Some Pj ->
    isSameComparisonOperand same Pi.1 Pj.1 = false.

Lemma getFieldForExpr_distinct (R R' : InterfaceRecord) (E : Expr)
    (IgnoreExisting : bool) (o : option FieldDecl) :
  distinctFields R ->
  getFieldForExpr same R E IgnoreExisting = Done (o, R') ->
  distinctFields R'.
Proof.
  intros Hd Hget.
  destruct (getFieldForExpr_effect _ _ _ _ _ Hget)
    as [(F & _ & -> & _)|(F & Hnone & HFields & _)]; [done |].
  intros i j Pi Pj Hij Hi Hj. rewrite HFields in Hi, Hj.
  destruct (decide (j < length (Fields R))%nat) as [Hlt|Hge].
  - rewrite lookup_app_l in Hi by lia. rewrite lookup_app_l in Hj by lia.
    by apply (Hd i j).
  - rewrite lookup_app_r in Hj by lia.
    apply list_lookup_singleton_Some in Hj as [Hj0 <-]. simpl.
    rewrite lookup_app_l in Hi by lia.
    apply (fieldFor_None R E Pi Hnone). by eapply list_elem_of_lookup_2.
Qed.

Lemma requestFields_distinct (reqs : list (Expr * bool))
    (R R' : InterfaceRecord) :
  distinctFields R -> requestFields reqs R = Done R' -> distinctFields R'.
Proof.
  revert R. induction reqs as [|[E f] reqs IH]; intros R Hd; simpl.
  - by intros [= <-].
  - destruct (getFieldForExpr same R E f) as [[o R1]| |] eqn:Hget;
      simpl; try done.
    apply IH. by eapply getFieldForExpr_distinct.
Qed.

(** After a sequence of requests the record holds a field for every
    expression requested. *)
Lemma requestFields_held (reqs : list (Expr * bool)) (R R' : InterfaceRecord) :
  requestFields reqs R = Done R' ->
  (forall E, is_Some (fieldFor R E) -> is_Some (fieldFor R' E))
  /\ forall req, req ∈ reqs -> is_Some (fieldFor R' req.1).
Proof.
  revert R. induction reqs as [|[E f] reqs IH]; intros R; simpl.
  - intros [= <-]. split; [done |]. intros req Hin.
    by apply elem_of_nil in Hin.
  - destruct (getFieldForExpr same R E f) as [[o R1]| |] eqn:Hget;
      simpl; try done.
    intros Hrest. destruct (IH R1 Hrest) as [Hkeep Hall].
    assert (forall E', is_Some (fieldFor R E') -> is_Some (fieldFor R1 E'))
      as Hstep.
    { intros E' [F' HF'].
      destruct (getFieldForExpr_effect _ _ _ _ _ Hget)
        as [(F & _ & -> & _)|(F & _ & HFields & _)]; [by exists F' |].
      exists F'. unfold fieldFor in *. rewrite HFields.
      destruct (find _ (Fields R)) as [P|] eqn:Hfind; [| done].
      by rewrite (find_app_Some _ _ _ _ Hfind). }
    split; [auto |].
    intros req [-> |Hin]%elem_of_cons; [| auto]. simpl.
    apply Hkeep.
    destruct (getFieldForExpr_effect _ _ _ _ _ Hget)
      as [(F & HF & -> & _)|(F & _ & _ & HF & _)]; by exists F.
Qed.

Section Equivalence.

Hypothesis same_sym : forall E1 E2, same E1 E2 = same E2 E1.
Hypothesis same_trans :
  forall E1 E2 E3, same E1 E2 = true -> same E2 E3 = true ->
                   same E1 E3 = true.

Lemma isSameComparisonOperand_sym (E1 E2 : Expr) :
  isSameComparisonOperand same E1 E2 = isSameComparisonOperand same E2 E1.
Proof.
  unfold isSameComparisonOperand. rewrite (same_sym E1 E2). f_equal.
  apply bool_decide_ext. split; by intros ->.
Qed.

Lemma isSameComparisonOperand_trans (E1 E2 E3 : Expr) :
  isSameComparisonOperand same E1 E2 = true ->
  isSameComparisonOperand same E2 E3 = true ->
  isSameComparisonOperand same E1 E3 = true.
Proof.
  unfold isSameComparisonOperand.
  intros [->%bool_decide_eq_true|H12]%orb_true_iff; [done |].
  intros [<-%bool_decide_eq_true|H23]%orb_true_iff.
  - by rewrite H12, orb_true_r.
  - by rewrite (same_trans _ _ _ H12 H23), orb_true_r.
Qed.

Lemma isSameComparisonOperand_congr (E1 E2 P : Expr) :
  isSameComparisonOperand same E1 E2 = true ->
  isSameComparisonOperand same P E1 = isSameComparisonOperand same P E2.
Proof.
  intros H12.
  destruct (isSameComparisonOperand same P E1) eqn:H1.
  - symmetry. by eapply isSameComparisonOperand_trans.
  - destruct (isSameComparisonOperand same P E2) eqn:H2; [| done].
    rewrite isSameComparisonOperand_sym in H12.
    by rewrite (isSameComparisonOperand_trans _ _ _ H2 H12) in H1.
Qed.

Lemma fieldFor_congr (R : InterfaceRecord) (E1 E2 : Expr) :
  isSameComparisonOperand same E1 E2 = true ->
  fieldFor R E1 = fieldFor R E2.
Proof.
  intros H12. unfold fieldFor. f_equal.
  induction (Fields R) as [|P l IH]; simpl; [done |].
  by rewrite (isSameComparisonOperand_congr _ _ _ H12), IH.
Qed.

(** In a record without two entries for the same expression, the first
    entry that is the same as [E2] is the entry of [E1], when [E1] is the
    same as [E2]. *)
Lemma distinctFields_first (R : InterfaceRecord) (E1 E2 : Expr)
    (F1 : FieldDecl) (P : Expr * FieldDecl) :
  distinctFields R -> (E1, F1) ∈ Fields R ->
  isSameComparisonOperand same E1 E2 = true ->
  find (fun P => isSameComparisonOperand same P.1 E2) (Fields R) = Some P ->
  P = (E1, F1).
Proof.
  intros Hd Hin H12 Hfind.
  destruct (find_first _ _ _ Hfind) as (i & Hi & HP & Hmin).
  apply list_elem_of_lookup_1 in Hin as [k Hk].
  destruct (Nat.lt_trichotomy k i) as [Hlt|[-> |Hgt]].
  - specialize (Hmin k _ Hlt Hk). simpl in Hmin. congruence.
  - congruence.
  - specialize (Hd i k P (E1, F1) Hgt Hi Hk). simpl in Hd.
    rewrite isSameComparisonOperand_sym in H12.
    by rewrite (isSameComparisonOperand_trans _ _ _ HP H12) in Hd.
Qed.

End Equivalence.

(** A request leaves the field a record holds for an expression as it
    is. *)
Lemma getFieldForExpr_keeps (R R' : InterfaceRecord) (E E' : Expr)
    (IgnoreExisting : bool) (o : option FieldDecl) (F' : FieldDecl) :
  getFieldForExpr same R E IgnoreExisting = Done (o, R') ->
  fieldFor R E' = Some F' -> fieldFor R' E' = Some F'.
Proof.
  intros Hget HF'.
  destruct (getFieldForExpr_effect _ _ _ _ _ Hget)
    as [(F & _ & -> & _)|(F & _ & HFields & _)]; [done |].
  unfold fieldFor in *. rewrite HFields.
  destruct (find _ (Fields R)) as [P|] eqn:Hfind; [| done].
  by rewrite (find_app_Some _ _ _ _ Hfind).
Qed.

Lemma requestFields_keeps (reqs : list (Expr * bool))
    (R R' : InterfaceRecord) (E : Expr) (F : FieldDecl) :
  requestFields reqs R = Done R' ->
  fieldFor R E = Some F -> fieldFor R' E = Some F.
Proof.
  revert R. induction reqs as [|[E' f] reqs IH]; intros R; simpl.
  - by intros [= <-].
  - destruct (getFieldForExpr same R E' f) as [[o R1]| |] eqn:Hget;
      simpl; try done.
    intros Hrest HF. apply (IH R1 Hrest).
    by eapply getFieldForExpr_keeps.
Qed.

Lemma requestFields_app (reqs1 reqs2 : list (Expr * bool))
    (R R1 R2 : InterfaceRecord) :
  requestFields reqs1 R = Done R1 -> requestFields reqs2 R1 = Done R2 ->
  requestFields (reqs1 ++ reqs2) R = Done R2.
Proof.
  revert R. induction reqs1 as [|[E f] reqs1 IH]; intros R; simpl.
  - by intros [= <-].
  - destruct (getFieldForExpr same R E f) as [[o R']| |]; simpl; try done.
    apply IH.
Qed.

(** A request that adds a field is for an expression that is not the same
    as any requested before. *)
Lemma requestFields_new (reqs : list (Expr * bool))
    (R0 R R' : InterfaceRecord) (E : Expr) (flag : bool)
    (o : option FieldDecl) :
  (forall A B, same A B = same B A) ->
  (forall A B C, same A B = true -> same B C = true -> same A C = true) ->
  requestFields reqs R0 = Done R ->
  getFieldForExpr same R E flag = Done (o, R') ->
  length (Fields R') <> length (Fields R) ->
  (forall req, req ∈ reqs -> isSameComparisonOperand same req.1 E = false)
  /\ exists F, o = Some F /\ Fields R' = Fields R ++ [(E, F)].
Proof.
  intros Hsym Htrans Hreqs Hget Hgrow.
  destruct (getFieldForExpr_effect _ _ _ _ _ Hget)
    as [(F & _ & -> & _)|(F & Hnone & HFields & _ & -> & _)]; [done |].
  split; [| by exists F].
  intros req Hreq.
  destruct (requestFields_held _ _ _ Hreqs) as [_ Hall].
  destruct (Hall req Hreq) as [F' HF'].
  destruct (isSameComparisonOperand same req.1 E) eqn:Hsame; [| done].
  rewrite (fieldFor_congr Hsym Htrans R _ _ Hsame) in HF'. congruence.
Qed.

End RecordFacts.

Lemma Expr_isSameComparisonOperand_sym (E1 E2 : Expr) :
  Expr_isSameComparisonOperand E1 E2 = Expr_isSameComparisonOperand E2 E1.
Proof.
  unfold Expr_isSameComparisonOperand. apply bool_decide_ext.
  split; by intros ->.
Qed.

Lemma Expr_isSameComparisonOperand_trans (E1 E2 E3 : Expr) :
  Expr_isSameComparisonOperand E1 E2 = true ->
  Expr_isSameComparisonOperand E2 E3 = true ->
  Expr_isSameComparisonOperand E1 E3 = true.
Proof.
  unfold Expr_isSameComparisonOperand.
  intros H12%bool_decide_eq_true H23%bool_decide_eq_true.
  apply bool_decide_eq_true. congruence.
Qed.

(** With the comparison of trees, one node is the same as itself anyway:
    [InterfaceRecord::isSameComparisonOperand] is the comparison of
    trees. *)
Lemma isSameComparisonOperand_trees (E1 E2 : Expr) :
  isSameComparisonOperand Expr_isSameComparisonOperand E1 E2 = true
  <-> withoutAddresses E1 = withoutAddresses E2.
Proof.
  unfold isSameComparisonOperand, Expr_isSameComparisonOperand.
  rewrite orb_true_iff, !bool_decide_eq_true. split; [| by right].
  by intros [-> |H].
Qed.

(** C3.  Let a record be filled from no fields by requests, let a request
    for [E1] be made of it, other requests after it, and let [E2] be
    structurally identical to [E1]: the same tree of values, at whatever
    addresses.  Then the record holds a field for [E1] from the request
    for [E1] on, which this request has returned unless it was made with
    [IgnoreExisting] for an expression held already; a request for [E2]
    returns this field (nothing when it is made with [IgnoreExisting], as
    the producer side makes it) and leaves the record, and with it the
    number of its fields, as it is.  And a request that adds a field to
    the record is for an expression that is not structurally identical to
    any expression requested before; the field is added at the end. *)
Theorem interface_field_reused (reqs more : list (Expr * bool))
    (R0 R R1 R2 : InterfaceRecord) (E1 E2 : Expr) (flag1 : bool)
    (o1 : option FieldDecl) :
  Fields R0 = [] ->
  requestFields Expr_isSameComparisonOperand reqs R0 = Done R ->
  getFieldForExpr Expr_isSameComparisonOperand R E1 flag1 = Done (o1, R1) ->
  requestFields Expr_isSameComparisonOperand more R1 = Done R2 ->
  withoutAddresses E1 = withoutAddresses E2 ->
  (exists F,
     fieldFor Expr_isSameComparisonOperand R1 E1 = Some F
     /\ (o1 = Some F
         \/ (o1 = None /\ flag1 = true
             /\ fieldFor Expr_isSameComparisonOperand R E1 = Some F))
     /\ getFieldForExpr Expr_isSameComparisonOperand R2 E2 false
        = Done (Some F, R2)
     /\ getFieldForExpr Expr_isSameComparisonOperand R2 E2 true
        = Done (None, R2))
  /\ (forall E flag o R3,
        getFieldForExpr Expr_isSameComparisonOperand R2 E flag
          = Done (o, R3) ->
        length (Fields R3) <> length (Fields R2) ->
        (forall req, req ∈ reqs ++ (E1, flag1) :: more ->
                     withoutAddresses req.1 <> withoutAddresses E)
        /\ exists F, o = Some F /\ Fields R3 = Fields R2 ++ [(E, F)]).
Proof.
  intros H0 Hreqs Hget1 Hmore Hsame.
  pose proof Expr_isSameComparisonOperand_sym as Hsym.
  pose proof Expr_isSameComparisonOperand_trans as Htrans.
  split.
  - assert (exists F,
              fieldFor Expr_isSameComparisonOperand R1 E1 = Some F
              /\ (o1 = Some F
                  \/ (o1 = None /\ flag1 = true
                      /\ fieldFor Expr_isSameComparisonOperand R E1
                         = Some F))) as (F & HF & Ho).
    { destruct (getFieldForExpr_effect _ _ _ _ _ _ Hget1)
        as [(F & HF & -> & ->)|(F & _ & _ & HF & -> & _)].
      - exists F. split; [done |]. destruct flag1; [by right | by left].
      - exists F. split; [done |]. by left. }
    exists F. split; [done |]. split; [done |].
    pose proof (requestFields_keeps _ _ _ _ _ _ Hmore HF) as HF2.
    rewrite (fieldFor_congr _ Hsym Htrans R2 E1 E2) in HF2
      by (by apply isSameComparisonOperand_trees).
    by rewrite !(getFieldForExpr_held _ _ _ _ _ HF2).
  - intros E flag o R3 Hget Hgrow.
    assert (requestFields Expr_isSameComparisonOperand
              (reqs ++ (E1, flag1) :: more) R0 = Done R2) as Hall.
    { apply (requestFields_app _ _ _ _ R); [done |]. simpl.
      by rewrite Hget1. }
    destruct (requestFields_new _ _ _ _ _ _ _ _ Hsym Htrans Hall Hget Hgrow)
      as [Hnone Hadd].
    split; [| done]. intros req Hreq Heq.
    apply isSameComparisonOperand_trees in Heq.
    by rewrite (Hnone req Hreq) in Heq.
Qed.

Lemma interface_field_reused_witness :
  let R0 := initializeRecord InterfaceRecord_new HshVertexStage
              HshFragmentStage in
  let E1 := BinaryOperator 9%nat BO_Mul (DeclRefExpr 7%nat (ParmVar 3%nat))
              (IntegerLiteral 8%nat 2) in
  let E2 := BinaryOperator 19%nat BO_Mul (DeclRefExpr 17%nat (ParmVar 3%nat))
              (IntegerLiteral 18%nat 2) in
  let F := mkFieldDecl HshVertexStage HshFragmentStage 0 in
  exists R,
    getFieldForExpr Expr_isSameComparisonOperand R0 E1 false
      = Done (Some F, R)
    /\ getFieldForExpr Expr_isSameComparisonOperand R E2 false
       = Done (Some F, R)
    /\ getFieldForExpr Expr_isSameComparisonOperand R E2 true
       = Done (None, R)
    /\ length (Fields R) = 1%nat.
Proof.
  intros R0 E1 E2 F.
  set (R := mkInterfaceRecord (Some [F]) [(E1, F)]
              (Some (ProducerVar HshVertexStage HshFragmentStage))
              (Some (ConsumerVar HshVertexStage HshFragmentStage))
              HshVertexStage HshFragmentStage).
  destruct (interface_field_reused [] [] R0 R0 R R E1 E2 false (Some F)
              eq_refl eq_refl eq_refl eq_refl eq_refl)
    as [(F' & HF' & _ & Hget & Hignore) _].
  assert (F' = F) as ->.
  { vm_compute in HF'. injection HF' as <-. reflexivity. }
  exists R. split; [reflexivity |]. split; [exact Hget |].
  split; [exact Hignore | reflexivity].
Defined.

(** ** Promotion of a value across stages *)

Lemma set_InterStageRecords_id (b : StagesBuilder) (C : ASTContext) :
  set_Context C (set_InterStageRecords (InterStageRecords b) b)
  = set_Context C b.
Proof. by destruct b. Qed.

Lemma set_HostToStageRecords_id (b : StagesBuilder) (C : ASTContext) :
  set_Context C (set_HostToStageRecords (HostToStageRecords b) b)
  = set_Context C b.
Proof. by destruct b. Qed.

Lemma set_Context_id (b : StagesBuilder) : set_Context (Context b) b = b.
Proof. by destruct b. Qed.

Lemma array_set_id {A} (arr : list A) (i : Z) (a : A) :
  array_get arr i = Done a -> array_set arr i a = arr.
Proof.
  intros [_ Hi]%array_get_Done. unfold array_set. by apply list_insert_id.
Qed.

(** Every statement in the stage lists was allocated before the next free
    address. *)
Definition fresh_ok (b : StagesBuilder) : Prop :=
  forall L St, L ∈ StageStmts b -> St ∈ Stmts L ->
               (StmtPtr St < NextPtr (Context b))%nat.

(** The record of every used stage from the control stage on, and the host
    record of every used stage from the vertex stage on, has been
    initialized, as the constructor leaves them. *)
Definition records_ok (b : StagesBuilder) : Prop :=
  (forall D R, StageUsed (UseStages b) D = true -> HshControlStage <= D ->
               array_get (InterStageRecords b) D = Done R ->
               is_Some (RecordDecl R) /\ is_Some (Producer R)
               /\ is_Some (Consumer R))
  /\ (forall D R, StageUsed (UseStages b) D = true -> HshVertexStage <= D ->
                  array_get (HostToStageRecords b) D = Done R ->
                  is_Some (RecordDecl R) /\ is_Some (Producer R)
                  /\ is_Some (Consumer R)).

(** The statement [LHS = RHS] allocated at [p]. *)
Definition assignment (p : Ptr) (LHS RHS : Expr) : Stmt :=
  ExprStmt (BinaryOperator p BO_Assign LHS RHS).

(** The member expression on a reference to [V], with the addresses
    [createFieldReference] gives the two nodes when the next free address
    is [p]. *)
Definition fieldReference (p : Ptr) (V : VarDecl) (F : FieldDecl) : Expr :=
  MemberExpr (S p) (DeclRefExpr p V) F.

Definition allocated (n : nat) (C : ASTContext) : ASTContext :=
  mkASTContext (n + NextPtr C)%nat (Diags C).

Lemma fresh_ok_set_Context (b : StagesBuilder) (n : nat) :
  fresh_ok b -> fresh_ok (set_Context (allocated n (Context b)) b).
Proof.
  intros Hf L St HL HSt. specialize (Hf L St HL HSt). simpl in *. lia.
Qed.

Lemma addAssignment_fresh (LHS RHS : Expr) (Stage : Z) (b : StagesBuilder)
    (L : StageStmtList) :
  fresh_ok b -> array_get (StageStmts b) Stage = Done L ->
  addAssignment LHS RHS Stage b =
    Done (set_StageStmts
            (array_set (StageStmts b) Stage
               (pushStageStmt (assignment (NextPtr (Context b)) LHS RHS)
                  None L))
            (set_Context (allocated 1 (Context b)) b)).
Proof.
  intros Hf HL. unfold addAssignment, allocate, addStageStmt. simpl.
  rewrite HL. simpl. unfold addStageStmt_list. simpl.
  rewrite bool_decide_eq_false_2; [done |].
  intros Hin. apply array_get_Done in HL as [_ HL].
  apply list_elem_of_lookup_2 in HL.
  specialize (Hf L _ HL Hin). simpl in Hf. lia.
Qed.

Lemma fresh_ok_push (b : StagesBuilder) (Stage : Z) (L : StageStmtList)
    (p : Ptr) (LHS RHS : Expr) (n : nat) :
  fresh_ok b -> array_get (StageStmts b) Stage = Done L ->
  (NextPtr (Context b) <= p < n + NextPtr (Context b))%nat ->
  fresh_ok (set_StageStmts
              (array_set (StageStmts b) Stage
                 (pushStageStmt (assignment p LHS RHS) None L))
              (set_Context (allocated n (Context b)) b)).
Proof.
  intros Hf HL Hp L' St HL' HSt. simpl in *.
  apply array_get_Done in HL as [_ HL].
  apply list_elem_of_lookup_1 in HL' as [j Hj]. unfold array_set in Hj.
  destruct (decide (j = Z.to_nat Stage)) as [-> |Hne].
  - rewrite list_lookup_insert_eq in Hj by (by eapply lookup_lt_Some).
    injection Hj as <-. simpl in HSt.
    apply elem_of_app in HSt as [HSt|HSt%list_elem_of_singleton].
    + apply list_elem_of_lookup_2 in HL. specialize (Hf L St HL HSt). lia.
    + subst St. simpl. lia.
  - rewrite list_lookup_insert_ne in Hj by done.
    apply list_elem_of_lookup_2 in Hj. specialize (Hf L' St Hj HSt). lia.
Qed.

Section PromotionFacts.

Variable same : Expr -> Expr -> bool.

Lemma createFieldReference_held (R : InterfaceRecord) (E : Expr)
    (F : FieldDecl) (V : VarDecl) (C : ASTContext) :
  fieldFor same R E = Some F ->
  createFieldReference same R E (Some V) true C = Done (None, R, C)
  /\ createFieldReference same R E (Some V) false C =
       Done (Some (fieldReference (NextPtr C) V F), R, allocated 2 C).
Proof.
  intros HF. unfold createFieldReference.
  by rewrite !(getFieldForExpr_held same _ _ _ _ HF).
Qed.

Lemma createFieldReference_new (R : InterfaceRecord) (E : Expr)
    (decls : list FieldDecl) (V : VarDecl) (C : ASTContext) (flag : bool) :
  fieldFor same R E = None -> RecordDecl R = Some decls ->
  let FD := mkFieldDecl (SStage R) (DStage R) (length (Fields R)) in
  let R' := mkInterfaceRecord (Some (decls ++ [FD])) (Fields R ++ [(E, FD)])
              (Producer R) (Consumer R) (SStage R) (DStage R) in
  createFieldReference same R E (Some V) flag C =
    Done (Some (fieldReference (NextPtr C) V FD), R', allocated 2 C).
Proof.
  intros HF Hdecl FD R'. unfold createFieldReference.
  by rewrite (proj1 (getFieldForExpr_new same R E decls flag HF Hdecl)).
Qed.

End PromotionFacts.

(** The used stages among the [n] stages from [D] on, in order: the stages
    at which the loop of [VisitExpr] makes a hop. *)
Fixpoint usedStages (U : Z) (n : nat) (D : Z) : list Z :=
  match n with
  | O => []
  | S n' =>
      if StageUsed U D then D :: usedStages U n' (D + 1)
      else usedStages U n' (D + 1)
  end.

(** The consecutive pairs of used stages on the path from [From] to [To],
    [From] included whether it is used or not. *)
Definition hops (U From To : Z) : list (Z * Z) :=
  let path := usedStages U (Z.to_nat (To - From)) (From + 1) in
  zip (From :: path) path.

Lemma usedStages_bounds (U : Z) (n : nat) (D D' : Z) :
  D' ∈ usedStages U n D ->
  D <= D' < D + Z.of_nat n /\ StageUsed U D' = true.
Proof.
  revert D. induction n as [|n IH]; intros D; simpl.
  - intros Hin. by apply elem_of_nil in Hin.
  - destruct (StageUsed U D) eqn:HU.
    + intros [-> |Hin]%elem_of_cons; [split; [lia | done] |].
      destruct (IH _ Hin). split; [lia | done].
    + intros Hin. destruct (IH _ Hin). split; [lia | done].
Qed.

Section RelayFacts.

Variable same : Expr -> Expr -> bool.

(** The hop from stage [S] to stage [D] has been made for [E] between the
    builders [b] and [b']: the record of [D], which held no field for [E],
    has one more field, for [E]; and the list of [S] has one more
    statement, which assigns to this field of the producer variable of the
    record, from [E] itself when [S] is [From], and otherwise from the
    field that the record of [S] holds for [E], read from its consumer
    variable. *)
Definition carries (b b' : StagesBuilder) (E : Expr) (From S D : Z) : Prop :=
  exists RD RD' FD VP LS p pp src,
    array_get (InterStageRecords b) D = Done RD
    /\ fieldFor same RD E = None
    /\ array_get (InterStageRecords b') D = Done RD'
    /\ Fields RD' = Fields RD ++ [(E, FD)]
    /\ fieldFor same RD' E = Some FD
    /\ Producer RD' = Some VP
    /\ array_get (StageStmts b) S = Done LS
    /\ array_get (StageStmts b') S =
         Done (pushStageStmt (assignment p (fieldReference pp VP FD) src)
                 None LS)
    /\ (S = From -> src = E)
    /\ (S <> From ->
          exists RS' FS VC pc,
            array_get (InterStageRecords b') S = Done RS'
            /\ fieldFor same RS' E = Some FS
            /\ Consumer RS' = Some VC
            /\ src = fieldReference pc VC FS).

Lemma VisitExpr_hop_first (E : Expr) (From S D : Z) (b : StagesBuilder)
    (RS RD : InterfaceRecord) (decls : list FieldDecl) (VP : VarDecl)
    (LS : StageStmtList) :
  S <> D -> 0 <= S -> 0 <= D ->
  array_get (InterStageRecords b) S = Done RS ->
  array_get (InterStageRecords b) D = Done RD ->
  fieldFor same RD E = None -> RecordDecl RD = Some decls ->
  Producer RD = Some VP ->
  array_get (StageStmts b) S = Done LS -> fresh_ok b ->
  (S <> From ->
     exists FS VC, fieldFor same RS E = Some FS /\ Consumer RS = Some VC) ->
  let FD := mkFieldDecl (SStage RD) (DStage RD) (length (Fields RD)) in
  let RD' := mkInterfaceRecord (Some (decls ++ [FD])) (Fields RD ++ [(E, FD)])
               (Producer RD) (Consumer RD) (SStage RD) (DStage RD) in
  exists b' p pp src,
    VisitExpr_hop same E From S D b = Done b'
    /\ InterStageRecords b' = array_set (InterStageRecords b) D RD'
    /\ StageStmts b' =
         array_set (StageStmts b) S
           (pushStageStmt (assignment p (fieldReference pp VP FD) src)
              None LS)
    /\ UseStages b' = UseStages b
    /\ HostToStageRecords b' = HostToStageRecords b
    /\ fresh_ok b'
    /\ (S = From -> src = E)
    /\ (S <> From ->
          exists FS VC pc,
            fieldFor same RS E = Some FS /\ Consumer RS = Some VC
            /\ src = fieldReference pc VC FS).
Proof.
  intros Hne HS0 HD0 HRS HRD Hnone Hdecl HVP HLS Hfresh Hsrc FD RD'.
  unfold VisitExpr_hop. rewrite HRS. simpl.
  unfold interProducerReference, createProducerFieldReference.
  rewrite HRD. simpl. rewrite HVP.
  rewrite (createFieldReference_new same RD E decls VP (Context b) true
             Hnone Hdecl).
  simpl. fold FD. fold RD'.
  set (b1 := set_Context (allocated 2 (Context b))
               (set_InterStageRecords
                  (array_set (InterStageRecords b) D RD') b)).
  assert (fresh_ok b1) as Hfresh1.
  { intros L St HL HSt. specialize (Hfresh L St HL HSt). simpl. lia. }
  destruct (Z.eqb_spec S From) as [HSF|HSF].
  - rewrite (addAssignment_fresh _ _ S b1 LS Hfresh1 HLS).
    eexists _, _, _, _. split; [done |]. simpl.
    repeat split; try done.
    apply (fresh_ok_push b1 S LS _ _ _ 1 Hfresh1 HLS). simpl. lia.
  - destruct (Hsrc HSF) as (FS & VC & HFS & HVC).
    unfold allocate, interConsumerReference, createConsumerFieldReference.
    assert (array_get (InterStageRecords b1) S = Done RS) as HRS1.
    { simpl. by rewrite array_get_set_ne. }
    cbn [InterStageRecords set_Context Context].
    cbn [InterStageRecords set_Context Context] in HRS1.
    rewrite HRS1. simpl. rewrite HVC.
    rewrite (proj2 (createFieldReference_held same RS E FS VC _ HFS)).
    simpl.
    assert (array_set (array_set (InterStageRecords b) D RD') S RS
            = array_set (InterStageRecords b) D RD') as ->
      by (exact (array_set_id _ _ _ HRS1)).
    unfold addStageStmt. simpl. rewrite HLS. simpl.
    unfold addStageStmt_list. simpl.
    rewrite bool_decide_eq_false_2.
    2:{ intros Hin. apply array_get_Done in HLS as [_ HLS].
        apply list_elem_of_lookup_2 in HLS.
        specialize (Hfresh LS _ HLS Hin). simpl in Hfresh. lia. }
    simpl.
    eexists _, (2 + NextPtr (Context b))%nat, _, _. split; [done |]. simpl.
    repeat split; try done.
    + exact (fresh_ok_push b S LS (2 + NextPtr (Context b))%nat _ _ 5 Hfresh
               HLS ltac:(simpl; lia)).
    + intros _. by exists FS, VC, (3 + NextPtr (Context b))%nat.
Qed.

(** The hop from stage [S] to stage [D] finds [E] carried already: the
    record of [D] holds a field for [E] and stays as it is, and so does the
    list of [S]. *)
Definition reuses (b b' : StagesBuilder) (E : Expr) (S D : Z) : Prop :=
  exists RD F,
    array_get (InterStageRecords b) D = Done RD
    /\ fieldFor same RD E = Some F
    /\ array_get (InterStageRecords b') D = Done RD
    /\ array_get (StageStmts b') S = array_get (StageStmts b) S.

Lemma VisitExpr_hop_held (E : Expr) (From S D : Z) (b : StagesBuilder)
    (RS RD : InterfaceRecord) (F : FieldDecl) (VP : VarDecl) :
  array_get (InterStageRecords b) S = Done RS ->
  array_get (InterStageRecords b) D = Done RD ->
  fieldFor same RD E = Some F -> Producer RD = Some VP ->
  VisitExpr_hop same E From S D b = Done b.
Proof.
  intros HRS HRD HF HVP. unfold VisitExpr_hop. rewrite HRS. simpl.
  unfold interProducerReference, createProducerFieldReference.
  rewrite HRD. simpl. rewrite HVP.
  rewrite (proj1 (createFieldReference_held same RD E F VP _ HF)). simpl.
  rewrite (array_set_id _ _ _ HRD). by destruct b.
Qed.

End RelayFacts.

Lemma array_get_total {A} (arr : list A) (i : Z) :
  0 <= i < Z.of_nat (length arr) -> exists a, array_get arr i = Done a.
Proof.
  intros Hi. destruct (lookup_lt_is_Some_2 arr (Z.to_nat i)) as [a Ha];
    [lia |].
  exists a. apply array_get_Done. split; [lia | done].
Qed.

Lemma array_set_length {A} (arr : list A) (i : Z) (a : A) :
  length (array_set arr i a) = length arr.
Proof. apply length_insert. Qed.

Lemma usedStages_last (U : Z) (n : nat) (D To : Z) :
  StageUsed U To = true -> To = D + Z.of_nat n - 1 -> (0 < n)%nat ->
  last (usedStages U n D) = Some To.
Proof.
  revert D. induction n as [|n IH]; intros D HU HTo Hn; [lia |].
  simpl. destruct n as [|n].
  - assert (To = D) as -> by lia. rewrite HU. done.
  - specialize (IH (D + 1) HU ltac:(lia) ltac:(lia)).
    destruct (StageUsed U D); [| done].
    rewrite last_cons, IH. done.
Qed.

Section LoopFacts.

Variable same : Expr -> Expr -> bool.

Lemma carries_frame (b0 b b1 b' : StagesBuilder) (E : Expr)
    (From S D : Z) :
  array_get (InterStageRecords b0) D = array_get (InterStageRecords b) D ->
  array_get (StageStmts b0) S = array_get (StageStmts b) S ->
  array_get (InterStageRecords b') D = array_get (InterStageRecords b1) D ->
  array_get (InterStageRecords b') S = array_get (InterStageRecords b1) S ->
  array_get (StageStmts b') S = array_get (StageStmts b1) S ->
  carries same b b1 E From S D -> carries same b0 b' E From S D.
Proof.
  intros H1 H2 H3 H4 H5
    (RD & RD' & FD & VP & LS & p & pp & src & HRD & Hnone & HRD' & HF & HFD
     & HVP & HLS & Hpush & Hfrom & Hnfrom).
  exists RD, RD', FD, VP, LS, p, pp, src.
  rewrite H1, H2, H3, H5. repeat split; try done.
  intros Hne. destruct (Hnfrom Hne) as (RS' & FS & VC & pc & ? & ? & ? & ?).
  exists RS', FS, VC, pc. by rewrite H4.
Qed.

Lemma reuses_frame (b0 b b' : StagesBuilder) (E : Expr) (S D : Z) :
  array_get (InterStageRecords b0) D = array_get (InterStageRecords b) D ->
  array_get (StageStmts b0) S = array_get (StageStmts b) S ->
  reuses same b b' E S D -> reuses same b0 b' E S D.
Proof.
  intros H1 H2 (RD & F & HRD & HF & HRD' & HS).
  exists RD, F. by rewrite H1, H2.
Qed.

(** The hops of the loop lie ahead of the stage it has come to. *)
Lemma hops_ahead (U : Z) (n : nat) (D S' D' : Z) :
  let path := usedStages U n (D + 1) in
  (S', D') ∈ zip (D :: path) path -> D <= S' /\ D < D'.
Proof.
  intros path Hin.
  assert (forall T, T ∈ path -> D < T) as Hpath.
  { intros T HT. pose proof (usedStages_bounds _ _ _ _ HT). lia. }
  split.
  - apply elem_of_zip_l in Hin.
    apply elem_of_cons in Hin as [-> |Hin]; [lia |].
    specialize (Hpath _ Hin). lia.
  - apply elem_of_zip_r in Hin. auto.
Qed.

Lemma VisitExpr_loop_relay (E : Expr) (From : Z) (n : nat) :
  forall (D S : Z) (b : StagesBuilder),
    0 <= S < D -> HshControlStage <= D ->
    D + Z.of_nat n <= HshMaxStage ->
    length (InterStageRecords b) = Z.to_nat HshMaxStage ->
    length (StageStmts b) = Z.to_nat HshMaxStage ->
    records_ok b -> fresh_ok b ->
    (S <> From ->
       exists RS FS VC,
         array_get (InterStageRecords b) S = Done RS
         /\ fieldFor same RS E = Some FS /\ Consumer RS = Some VC) ->
    let path := usedStages (UseStages b) n D in
    exists b',
      VisitExpr_loop same E From n D S b = Done b'
      /\ UseStages b' = UseStages b
      /\ HostToStageRecords b' = HostToStageRecords b
      /\ fresh_ok b'
      /\ (forall D', 0 <= D' -> D' ∉ path ->
            array_get (InterStageRecords b') D'
            = array_get (InterStageRecords b) D')
      /\ (forall S', 0 <= S' -> (forall D', (S', D') ∉ zip (S :: path) path) ->
            array_get (StageStmts b') S' = array_get (StageStmts b) S')
      /\ (forall S' D', (S', D') ∈ zip (S :: path) path ->
            carries same b b' E From S' D' \/ reuses same b b' E S' D')
      /\ (default S (last path) <> From ->
            exists RT FT VC,
              array_get (InterStageRecords b') (default S (last path))
              = Done RT
              /\ fieldFor same RT E = Some FT /\ Consumer RT = Some VC)
      /\ (length (InterStageRecords b') = Z.to_nat HshMaxStage
          /\ length (StageStmts b') = Z.to_nat HshMaxStage
          /\ records_ok b').
Proof.
  induction n as [|n IH];
    intros D S b HS HD Hn HlenR HlenS Hrec Hfresh Hsrc path.
  - exists b. simpl.
    split; [done |]. split; [done |]. split; [done |]. split; [done |].
    split; [done |]. split; [done |]. split; [| done].
    intros S' D' Hin. by apply elem_of_nil in Hin.
  - subst path. simpl in *. destruct (StageUsed (UseStages b) D) eqn:HU.
    + unfold HshMaxStage in *.
      destruct (array_get_total (InterStageRecords b) D) as [RD HRD];
        [lia |].
      destruct (array_get_total (InterStageRecords b) S) as [RS HRS];
        [lia |].
      destruct (array_get_total (StageStmts b) S) as [LS HLS]; [lia |].
      destruct (proj1 Hrec D RD HU HD HRD)
        as ([decls Hdecl] & [VP HVP] & [VC HVC]).
      set (path' := usedStages (UseStages b) n (D + 1)).
      assert (forall D', D' ∈ path' -> D < D') as Hpath.
      { intros D' Hin. pose proof (usedStages_bounds _ _ _ _ Hin). lia. }
      pose proof (hops_ahead (UseStages b) n D) as Hzip. fold path' in Hzip.
      simpl in Hzip.
      destruct (fieldFor same RD E) as [F|] eqn:HheldD.
      * (* the record of [D] holds a field for [E] *)
        rewrite (VisitExpr_hop_held same E From S D b RS RD F VP HRS HRD
                   HheldD HVP). simpl.
        destruct (IH (D + 1) D b) as
          (b' & Hloop & HU' & HH' & Hfresh' & HRf & HSf & Hcar & Hlast & Hinv);
          try done; try lia.
        { intros _. by exists RD, F, VC. }
        fold path' in HRf, HSf, Hcar, Hlast.
        exists b'. split; [done |]. split; [done |]. split; [done |].
        split; [done |]. split; [| split; [| split; [| split; [| done]]]].
        -- intros D' H0 Hnin. apply not_elem_of_cons in Hnin as [Hne Hnin].
           by apply HRf.
        -- intros S' H0 Hnohop. apply HSf; [done |].
           intros D' Hin. apply (Hnohop D'). by apply list_elem_of_further.
        -- intros S' D' [Heq|Hin]%elem_of_cons.
           ++ injection Heq as -> ->. right. exists RD, F.
              split; [done |]. split; [done |]. split.
              { rewrite HRf; [done | lia |].
                intros Hin. specialize (Hpath _ Hin). lia. }
              apply HSf; [lia |].
              intros D' Hin. destruct (Hzip _ _ Hin). lia.
           ++ by apply Hcar.
        -- rewrite last_cons. by destruct (last path').
      * (* the record of [D] holds no field for [E] yet *)
        assert (S <> From ->
                exists FS VC0, fieldFor same RS E = Some FS
                               /\ Consumer RS = Some VC0) as Hsrc'.
        { intros Hne. destruct (Hsrc Hne) as (RS0 & FS & VC0 & H1 & H2 & H3).
          rewrite HRS in H1. injection H1 as <-. by exists FS, VC0. }
        destruct (VisitExpr_hop_first same E From S D b RS RD decls VP LS)
          as (b1 & p & pp & src & Hhop & HR1 & HS1 & HU1 & HH1 & Hfresh1
              & Hfrom & Hnfrom); try done; try lia.
        set (FD := mkFieldDecl (SStage RD) (DStage RD) (length (Fields RD)))
          in *.
        set (RD' := mkInterfaceRecord (Some (decls ++ [FD]))
                      (Fields RD ++ [(E, FD)]) (Producer RD) (Consumer RD)
                      (SStage RD) (DStage RD)) in *.
        assert (array_get (InterStageRecords b1) D = Done RD') as HRD1.
        { rewrite HR1. by eapply array_get_set_eq. }
        assert (forall D', 0 <= D' -> D' <> D ->
                  array_get (InterStageRecords b1) D'
                  = array_get (InterStageRecords b) D') as HRframe.
        { intros D' H0 Hne. rewrite HR1. apply array_get_set_ne; lia. }
        assert (forall S', 0 <= S' -> S' <> S ->
                  array_get (StageStmts b1) S' = array_get (StageStmts b) S')
          as HSframe.
        { intros S' H0 Hne. rewrite HS1. apply array_get_set_ne; lia. }
        assert (fieldFor same RD' E = Some FD) as HFD.
        { apply (getFieldForExpr_new same RD E decls true HheldD Hdecl). }
        destruct (IH (D + 1) D b1) as
          (b' & Hloop & HU' & HH' & Hfresh' & HRf & HSf & Hcar & Hlast & Hinv).
        -- lia.
        -- lia.
        -- lia.
        -- rewrite HR1, array_set_length. done.
        -- rewrite HS1, array_set_length. done.
        -- destruct Hrec as [Hrec1 Hrec2]. split.
           ++ intros D' R' HU'' HD' HR'. rewrite HU1 in HU''.
              destruct (decide (D' = D)) as [-> |Hne].
              ** rewrite HRD1 in HR'. injection HR' as <-. simpl.
                 rewrite HVP, HVC. eauto.
              ** rewrite HRframe in HR' by (unfold HshControlStage in *; lia).
                 eauto.
           ++ intros D' R' HU'' HD' HR'. rewrite HU1 in HU''.
              rewrite HH1 in HR'. eauto.
        -- done.
        -- intros _. exists RD', FD, VC. done.
        -- rewrite HU1 in *. fold path' in HRf, HSf, Hcar, Hlast.
           exists b'. rewrite Hhop. simpl. split; [done |].
           split; [congruence |]. split; [congruence |]. split; [done |].
           split; [| split; [| split; [| split; [| done]]]].
           ++ intros D' H0 Hnin. apply not_elem_of_cons in Hnin as [Hne Hnin].
              rewrite HRf by done. by apply HRframe.
           ++ intros S' H0 Hnohop.
              assert (S' <> S) as Hne.
              { intros ->. apply (Hnohop D). apply list_elem_of_here. }
              rewrite HSf; [by apply HSframe | done |].
              intros D' Hin. apply (Hnohop D'). by apply list_elem_of_further.
           ++ intros S' D' [Heq|Hin]%elem_of_cons.
              ** injection Heq as -> ->. left.
                 exists RD, RD', FD, VP, LS, p, pp, src.
                 split; [done |]. split; [done |]. split.
                 { rewrite HRf; [done | lia |].
                   intros Hin. specialize (Hpath _ Hin). lia. }
                 split; [done |]. split; [done |]. split; [done |].
                 split; [done |]. split.
                 { rewrite HSf; [| lia |].
                   - rewrite HS1. by eapply array_get_set_eq.
                   - intros D' Hin. destruct (Hzip _ _ Hin). lia. }
                 split; [done |].
                 intros Hne.
                 destruct (Hnfrom Hne) as (FS & VC0 & pc & ? & ? & ?).
                 exists RS, FS, VC0, pc. split; [| done].
                 rewrite HRf; [| lia |].
                 --- rewrite HRframe by lia. done.
                 --- intros Hin. specialize (Hpath _ Hin). lia.
              ** destruct (Hzip _ _ Hin) as [HS' HD'].
                 destruct (Hcar _ _ Hin) as [Hc|Hr].
                 --- left. apply (carries_frame b b1 b' b'); try done.
                     +++ symmetry. apply HRframe; lia.
                     +++ symmetry. apply HSframe; lia.
                 --- right. apply (reuses_frame b b1 b'); try done.
                     +++ symmetry. apply HRframe; lia.
                     +++ symmetry. apply HSframe; lia.
           ++ rewrite last_cons. by destruct (last path').
    + destruct (IH (D + 1) S b) as
        (b' & Hloop & HU' & HH' & Hfresh' & HRf & HSf & Hcar & Hlast & Hinv);
        try done; try lia.
      exists b'. done.
Qed.

End LoopFacts.

(** A builder as the constructor leaves it and as [VisitExpr] keeps it: the
    three arrays have one entry per stage, the records of the used stages
    are initialized, and every statement was allocated before the next
    free address. *)
Definition builder_ok (b : StagesBuilder) : Prop :=
  length (HostToStageRecords b) = Z.to_nat HshMaxStage
  /\ length (InterStageRecords b) = Z.to_nat HshMaxStage
  /\ length (StageStmts b) = Z.to_nat HshMaxStage
  /\ records_ok b /\ fresh_ok b.

Lemma initHostRecords_length (U : Z) (n : nat) (D : Z)
    (Rs : list InterfaceRecord) :
  length (initHostRecords U n D Rs) = length Rs.
Proof.
  revert D Rs. induction n as [|n IH]; intros D Rs; simpl; [done |].
  rewrite IH. destruct (StageUsed U D); [apply length_alter | done].
Qed.

Lemma initInterRecords_length (U : Z) (n : nat) (D S : Z)
    (Rs : list InterfaceRecord) :
  length (initInterRecords U n D S Rs) = length Rs.
Proof.
  revert D S Rs. induction n as [|n IH]; intros D S Rs; simpl; [done |].
  destruct (StageUsed U D); rewrite IH; [apply length_alter | done].
Qed.

Lemma initHostRecords_below (U : Z) (n : nat) (D : Z)
    (Rs : list InterfaceRecord) (i : nat) :
  0 <= D -> (i < Z.to_nat D)%nat ->
  initHostRecords U n D Rs !! i = Rs !! i.
Proof.
  revert D Rs. induction n as [|n IH]; intros D Rs HD Hi; simpl; [done |].
  rewrite IH by lia.
  destruct (StageUsed U D); [| done]. apply list_lookup_alter_ne. lia.
Qed.

Lemma initHostRecords_used (U : Z) (n : nat) (D : Z)
    (Rs : list InterfaceRecord) (D' : Z) (R : InterfaceRecord) :
  0 <= D -> D <= D' < D + Z.of_nat n -> StageUsed U D' = true ->
  initHostRecords U n D Rs !! Z.to_nat D' = Some R ->
  exists R0, R = initializeRecord R0 HshHostStage D'.
Proof.
  revert D Rs. induction n as [|n IH]; intros D Rs HD HD' HU HR; [lia |].
  simpl in HR. destruct (decide (D' = D)) as [-> |Hne].
  - rewrite initHostRecords_below in HR by lia. rewrite HU in HR.
    rewrite list_lookup_alter_eq in HR.
    destruct (Rs !! Z.to_nat D) as [R0|]; [| done].
    injection HR as <-. by exists R0.
  - apply (IH (D + 1) _ ltac:(lia) ltac:(lia) HU HR).
Qed.

Lemma initInterRecords_below (U : Z) (n : nat) (D S : Z)
    (Rs : list InterfaceRecord) (i : nat) :
  0 <= D -> (i < Z.to_nat D)%nat ->
  initInterRecords U n D S Rs !! i = Rs !! i.
Proof.
  revert D S Rs. induction n as [|n IH]; intros D S Rs HD Hi; simpl; [done |].
  destruct (StageUsed U D); rewrite IH by lia; [| done].
  apply list_lookup_alter_ne. lia.
Qed.

Lemma initInterRecords_used (U : Z) (n : nat) (D S : Z)
    (Rs : list InterfaceRecord) (D' : Z) (R : InterfaceRecord) :
  0 <= D -> D <= D' < D + Z.of_nat n -> StageUsed U D' = true ->
  initInterRecords U n D S Rs !! Z.to_nat D' = Some R ->
  exists R0 S', R = initializeRecord R0 S' D'.
Proof.
  revert D S Rs. induction n as [|n IH]; intros D S Rs HD HD' HU HR; [lia |].
  simpl in HR. destruct (decide (D' = D)) as [-> |Hne].
  - rewrite HU in HR. rewrite initInterRecords_below in HR by lia.
    rewrite list_lookup_alter_eq in HR.
    destruct (Rs !! Z.to_nat D) as [R0|]; [| done].
    injection HR as <-. by exists R0, S.
  - destruct (StageUsed U D);
      apply (IH (D + 1) _ _ ltac:(lia) ltac:(lia) HU HR).
Qed.

Lemma StagesBuilder_new_ok (C : ASTContext) (U : Z) :
  builder_ok (StagesBuilder_new C U).
Proof.
  split; [| split; [| split; [| split]]].
  - unfold StagesBuilder_new. cbn [HostToStageRecords].
    by rewrite initHostRecords_length.
  - unfold StagesBuilder_new. cbn [InterStageRecords].
    by rewrite initInterRecords_length.
  - done.
  - split.
    + intros D R HU HD [H0 HR]%array_get_Done.
      pose proof (lookup_lt_Some _ _ _ HR) as Hlt.
      unfold StagesBuilder_new in Hlt, HR. cbn [InterStageRecords] in Hlt, HR.
      rewrite initInterRecords_length in Hlt. simpl in Hlt.
      unfold HshControlStage, HshMaxStage in *.
      apply initInterRecords_used in HR as (R0 & S' & ->);
        [simpl; eauto | lia | lia | done].
    + intros D R HU HD [H0 HR]%array_get_Done.
      pose proof (lookup_lt_Some _ _ _ HR) as Hlt.
      unfold StagesBuilder_new in Hlt, HR. cbn [HostToStageRecords] in Hlt, HR.
      rewrite initHostRecords_length in Hlt. simpl in Hlt.
      unfold HshVertexStage, HshMaxStage in *.
      apply initHostRecords_used in HR as (R0 & ->);
        [simpl; eauto | lia | lia | done].
  - intros L St HL HSt. unfold StagesBuilder_new in HL.
    cbn [StageStmts] in HL.
    apply elem_of_replicate in HL as [-> _]. by apply elem_of_nil in HSt.
Qed.

Section PromotionTheorem.

Variable same : Expr -> Expr -> bool.

(** C1, amended.  Let [E] be handed to [VisitExpr] to be carried from stage
    [From] to a used, strictly later stage [To].  If [From] is not the host
    stage, then for every consecutive pair [(S, D)] of used stages on the
    path from [From] to [To], either the record of [D] held no field for
    [E]: then it gets one, and the list of [S] gets, at its end, an
    assignment to this field of the record's producer variable, from [E]
    itself at the first pair and from the consumer field of the pair before
    at the others; or the record of [D] held a field for [E] already: then
    the record stays as it is and so does the list of [S].  The lists of
    the other stages and the host records stay as they are, and the result
    reads the field of the record of [To] from its consumer variable.  If
    [From] is the host stage, only the host record of [To] and the host
    list can change: when the record held no field for [E], it gets one and
    the host list gets the assignment of [E] to this field of the record's
    producer variable; when it held one, neither changes; and the result
    reads the field from the record's consumer variable.  Either way the
    builder is left in order again ([builder_ok]), with the same stages in
    use. *)
Theorem promotion_relay (b : StagesBuilder) (E : Expr) (From To : Z) :
  builder_ok b ->
  HshHostStage <= From < To -> To < HshMaxStage ->
  StageUsed (UseStages b) To = true ->
  exists Ref b',
    VisitExpr same E From To b = Done (Ref, b')
    /\ builder_ok b' /\ UseStages b' = UseStages b
    /\ (From <> HshHostStage ->
          (forall S D, (S, D) ∈ hops (UseStages b) From To ->
                       carries same b b' E From S D
                       \/ reuses same b b' E S D)
          /\ (forall S, 0 <= S ->
                (forall D, (S, D) ∉ hops (UseStages b) From To) ->
                array_get (StageStmts b') S = array_get (StageStmts b) S)
          /\ HostToStageRecords b' = HostToStageRecords b
          /\ exists RT FT VC p,
               array_get (InterStageRecords b') To = Done RT
               /\ fieldFor same RT E = Some FT /\ Consumer RT = Some VC
               /\ Ref = fieldReference p VC FT)
    /\ (From = HshHostStage ->
          exists RD VP VC LS,
            array_get (HostToStageRecords b) To = Done RD
            /\ Producer RD = Some VP /\ Consumer RD = Some VC
            /\ array_get (StageStmts b) HshHostStage = Done LS
            /\ InterStageRecords b' = InterStageRecords b
            /\ (forall D, 0 <= D -> D <> To ->
                  array_get (HostToStageRecords b') D
                  = array_get (HostToStageRecords b) D)
            /\ (forall S, 0 <= S -> S <> HshHostStage ->
                  array_get (StageStmts b') S = array_get (StageStmts b) S)
            /\ (fieldFor same RD E = None ->
                  exists RD' FD p pp pc,
                    array_get (HostToStageRecords b') To = Done RD'
                    /\ Fields RD' = Fields RD ++ [(E, FD)]
                    /\ Producer RD' = Some VP /\ Consumer RD' = Some VC
                    /\ array_get (StageStmts b') HshHostStage =
                         Done (pushStageStmt
                                 (assignment p (fieldReference pp VP FD) E)
                                 None LS)
                    /\ Ref = fieldReference pc VC FD)
            /\ (forall F, fieldFor same RD E = Some F ->
                  HostToStageRecords b' = HostToStageRecords b
                  /\ StageStmts b' = StageStmts b
                  /\ exists pc, Ref = fieldReference pc VC F)).
Proof.
  intros (HlenH & HlenR & HlenS & Hrec & Hfresh) HFrom HTo HU.
  unfold HshHostStage, HshMaxStage in *. unfold VisitExpr.
  assert ((From =? To) || (From =? HshNoStage) || (To =? HshNoStage) = false)
    as ->.
  { unfold HshNoStage.
    rewrite (proj2 (Z.eqb_neq From To)), (proj2 (Z.eqb_neq From (-1))),
      (proj2 (Z.eqb_neq To (-1))) by lia. done. }
  unfold HshHostStage.
  destruct (Z.eqb_spec From 0) as [-> |HFne]; simpl.
  - destruct (array_get_total (HostToStageRecords b) To) as [RD HRD];
      [lia |].
    destruct (array_get_total (StageStmts b) 0) as [LS HLS]; [lia |].
    destruct (proj2 Hrec To RD HU ltac:(unfold HshVertexStage; lia) HRD)
      as ([decls Hdecl] & [VP HVP] & [VC HVC]).
    unfold hostProducerReference, createProducerFieldReference.
    rewrite HRD. simpl. rewrite HVP.
    destruct (fieldFor same RD E) as [F|] eqn:Hheld.
    + (* the host record of [To] holds a field for [E] *)
      rewrite (proj1 (createFieldReference_held same RD E F VP _ Hheld)).
      simpl. rewrite (array_set_id _ _ _ HRD).
      unfold hostConsumerReference, createConsumerFieldReference. simpl.
      rewrite HRD. simpl. rewrite HVC.
      rewrite (proj2 (createFieldReference_held same RD E F VC _ Hheld)).
      simpl. rewrite (array_set_id _ _ _ HRD).
      eexists _, _. split; [done |]. split.
      { split; [done |]. split; [done |]. split; [done |].
        split; [exact Hrec |].
        intros L St HL HSt. specialize (Hfresh L St HL HSt). simpl. lia. }
      split; [done |]. split; [done |].
      intros _. exists RD, VP, VC, LS. simpl. rewrite Hheld.
      split; [done |]. split; [done |]. split; [done |]. split; [done |].
      split; [done |]. split; [done |]. split; [done |]. split; [done |].
      intros F' [= <-]. split; [done |]. split; [done |]. by eexists.
    + (* the host record of [To] holds no field for [E] yet *)
      rewrite (createFieldReference_new same RD E decls VP (Context b) true
                 Hheld Hdecl). simpl.
      set (FD := mkFieldDecl (SStage RD) (DStage RD) (length (Fields RD))).
      set (RD' := mkInterfaceRecord (Some (decls ++ [FD]))
                    (Fields RD ++ [(E, FD)]) (Producer RD) (Consumer RD)
                    (SStage RD) (DStage RD)).
      set (b1 := set_Context _ _).
      assert (fresh_ok b1) as Hfresh1.
      { intros L St HL HSt. specialize (Hfresh L St HL HSt). simpl. lia. }
      rewrite (addAssignment_fresh _ _ 0 b1 LS Hfresh1 HLS). simpl.
      unfold hostConsumerReference, createConsumerFieldReference. simpl.
      rewrite (array_get_set_eq _ _ _ RD' HRD). simpl. rewrite HVC.
      assert (fieldFor same RD' E = Some FD) as HFD.
      { apply (getFieldForExpr_new same RD E decls true Hheld Hdecl). }
      rewrite (proj2 (createFieldReference_held same RD' E FD VC _ HFD)).
      simpl. eexists _, _. split; [done |]. split.
      { split; [| split; [| split; [| split]]]; simpl.
        - by rewrite !array_set_length.
        - done.
        - by rewrite array_set_length.
        - destruct Hrec as [Hrec1 Hrec2]. split; [exact Hrec1 |].
          intros D R HUD HD HR. simpl in HUD, HR.
          unfold array_set in HR. rewrite list_insert_insert_eq in HR.
          fold (array_set (HostToStageRecords b) To RD') in HR.
          destruct (decide (D = To)) as [-> |Hne].
          + rewrite (array_get_set_eq _ _ _ RD' HRD) in HR.
            injection HR as <-. simpl. rewrite HVP, HVC. eauto.
          + rewrite array_get_set_ne in HR
              by (unfold HshVertexStage in *; lia).
            eauto.
        - intros L St HL HSt. simpl in HL.
          pose proof (fresh_ok_push b1 0 LS (NextPtr (Context b1)) _ E 1
                        Hfresh1 HLS ltac:(lia) L St HL HSt) as Hp.
          simpl in Hp. simpl. lia. }
      split; [done |]. split; [done |].
      intros _. exists RD, VP, VC, LS. simpl. rewrite Hheld.
      split; [done |]. split; [done |]. split; [done |]. split; [done |].
      split; [done |]. split.
      { intros D HD0 HDne. unfold array_set. rewrite list_insert_insert_eq.
        apply array_get_set_ne; lia. }
      split.
      { intros S HS0 HSne. apply array_get_set_ne; lia. }
      split; [| done].
      intros _. exists RD', FD. eexists _, _, _.
      split.
      { unfold array_set. rewrite list_insert_insert_eq.
        by eapply array_get_set_eq. }
      split; [done |]. split; [done |]. split; [done |]. split; [| done].
      by eapply array_get_set_eq.
  - destruct (VisitExpr_loop_relay same E From (Z.to_nat (To - From))
                (From + 1) From b)
      as (b1 & Hloop & HU1 & HH1 & Hfresh1 & HRf & HSf & Hcar & Hlast
          & HlenR1 & HlenS1 & Hrec1);
      try done; unfold HshControlStage, HshMaxStage; try lia.
    rewrite Hloop. simpl.
    rewrite (usedStages_last (UseStages b) _ (From + 1) To) in Hlast
      by (try done; lia).
    simpl in Hlast. destruct Hlast as (RT & FT & VC & HRT & HFT & HVC);
      [lia |].
    unfold interConsumerReference, createConsumerFieldReference.
    rewrite HRT. simpl. rewrite HVC.
    rewrite (proj2 (createFieldReference_held same RT E FT VC _ HFT)).
    simpl. rewrite (array_set_id _ _ _ HRT).
    eexists _, _. split; [done |]. split.
    { split; [simpl; by rewrite HH1 |]. split; [done |]. split; [done |].
      split; [exact Hrec1 |].
      intros L St HL HSt. specialize (Hfresh1 L St HL HSt). simpl. lia. }
    split; [done |]. split; [| done].
    intros _. simpl. split; [| split; [| split]].
    + intros S D Hin. destruct (Hcar S D Hin) as [Hc|Hr].
      * left. by apply (carries_frame same b b b1).
      * right. destruct Hr as (RD & F & ? & ? & ? & ?). by exists RD, F.
    + intros S HS0 Hno. by apply HSf.
    + done.
    + by exists RT, FT, VC, (NextPtr (Context b1)).
Qed.

End PromotionTheorem.

Lemma promotion_relay_witness :
  let b := StagesBuilder_new (mkASTContext 100%nat []) 63 in
  let E := DeclRefExpr 7%nat (ParmVar 3%nat) in
  exists Ref b',
    VisitExpr sameDeclRef E HshVertexStage HshFragmentStage b
    = Done (Ref, b')
    /\ hops 63 HshVertexStage HshFragmentStage
       = [(1, 2); (2, 3); (3, 4); (4, 5)]
    /\ forall S D,
         (S, D) ∈ hops 63 HshVertexStage HshFragmentStage ->
         carries sameDeclRef b b' E HshVertexStage S D
         \/ reuses sameDeclRef b b' E S D.
Proof.
  intros b E.
  destruct (promotion_relay sameDeclRef b E HshVertexStage
              HshFragmentStage) as (Ref & b' & Hrun & _ & _ & Hinter & _).
  - apply StagesBuilder_new_ok.
  - done.
  - done.
  - done.
  - exists Ref, b'. split; [done |]. split; [done |].
    by apply Hinter.
Defined.

(** C1 as stated fails when the value has been carried before: a second
    call of [VisitExpr] for the same node, from the vertex stage to the
    fragment stage, finds the field in the record of the one pair of used
    stages and appends no assignment, to no stage. *)
Lemma promotion_repeated_request :
  let b := StagesBuilder_new (mkASTContext 100%nat []) 35 in
  let E := DeclRefExpr 7%nat (ParmVar 3%nat) in
  exists Ref1 b1 Ref2 b2,
    VisitExpr sameDeclRef E HshVertexStage HshFragmentStage b
    = Done (Ref1, b1)
    /\ VisitExpr sameDeclRef E HshVertexStage HshFragmentStage b1
       = Done (Ref2, b2)
    /\ hops (UseStages b1) HshVertexStage HshFragmentStage
       = [(HshVertexStage, HshFragmentStage)]
    /\ StageStmts b2 = StageStmts b1
    /\ ~ (exists St L,
            array_get (StageStmts b1) HshVertexStage = Done L
            /\ array_get (StageStmts b2) HshVertexStage
               = Done (pushStageStmt St None L)).
Proof.
  intros b E. eexists _, _, _, _.
  split; [lazy; reflexivity |]. split; [lazy; reflexivity |].
  split; [reflexivity |]. split; [reflexivity |].
  intros (St & L & HL & HL'). vm_compute in HL, HL'.
  injection HL as <-. by injection HL'.
Qed.

(** ** References within one stage *)

(** Induction over the expressions as [Visit] goes through them: the
    operand of a looked-through node and the arguments of a construct
    expression. *)
Lemma Expr_visit_ind (P : Expr -> Prop) :
  (forall p v, P (IntegerLiteral p v)) ->
  (forall p v, P (FloatingLiteral p v)) ->
  (forall p d, P (DeclRefExpr p d)) ->
  (forall p base member, P (MemberExpr p base member)) ->
  (forall p op lhs rhs, P (BinaryOperator p op lhs rhs)) ->
  (forall p k args, P (CallExpr p k args)) ->
  (forall p inits, P (InitListExpr p inits)) ->
  (forall p t ctor args, Forall P args -> P (CXXConstructExpr p t ctor args)) ->
  (forall p c sub, P sub -> P (IgnoredExpr p c sub)) ->
  forall E, P E.
Proof.
  intros H1 H2 H3 H4 H5 H6 H7 H8 H9.
  fix IH 1. intros [p v|p v|p d|p base m|p op l r|p k args|p inits
                    |p t ctor args|p c sub].
  - apply H1.
  - apply H2.
  - apply H3.
  - apply H4.
  - apply H5.
  - apply H6.
  - apply H7.
  - apply H8. induction args as [|A args IHargs]; constructor.
    + apply IH.
    + apply IHargs.
  - apply H9. apply IH.
Qed.

Lemma set_StageStmts_id (b : StagesBuilder) :
  set_StageStmts (StageStmts b) b = b.
Proof. by destruct b. Qed.

Lemma set_StageStmts_twice (L1 L2 : list StageStmtList) (b : StagesBuilder) :
  set_StageStmts L2 (set_StageStmts L1 b) = set_StageStmts L2 b.
Proof. done. Qed.

Lemma array_set_twice {A} (arr : list A) (i : Z) (a1 a2 : A) :
  array_set (array_set arr i a1) i a2 = array_set arr i a2.
Proof. unfold array_set. apply list_insert_insert_eq. Qed.

Lemma delete_last {A} (l : list A) (x : A) : delete (length l) (l ++ [x]) = l.
Proof. induction l as [|y l IH]; simpl; [done | by rewrite IH]. Qed.

(** Adding one to a count and taking one from it gives the count back, and
    never zero, when the count is a positive [unsigned]. *)
Lemma unsigned_succ_pred (c : Z) :
  0 < c < 2 ^ 32 -> unsigned (unsigned (c + 1) - 1) = c.
Proof.
  intros Hc. unfold unsigned.
  destruct (decide (c = 2 ^ 32 - 1)) as [-> |Hne]; [done |].
  rewrite (Z.mod_small (c + 1)) by lia.
  replace (c + 1 - 1) with c by lia. apply Z.mod_small. lia.
Qed.

Lemma findDeclRef_counts (O : option VarDecl) (Ss : list Stmt)
    (Cs Cs' : list (Z * option VarDecl)) (k : nat) :
  Cs'.*2 = Cs.*2 -> findDeclRef O Ss Cs' k = findDeclRef O Ss Cs k.
Proof.
  revert Cs Cs' k. induction Ss as [|St Ss IH]; intros Cs Cs' k; [done |].
  destruct Cs as [|[c d] Cs], Cs' as [|[c' d'] Cs']; simpl; try done.
  intros [= -> Hrest]. by rewrite (IH Cs Cs').
Qed.

Lemma findDeclRef_push (O : option VarDecl) (Ss : list Stmt)
    (Cs : list (Z * option VarDecl)) (k : nat) (DS : Stmt) (c : Z) :
  length Ss = length Cs -> isa_DeclStmt DS = true ->
  findDeclRef O Ss Cs k = Done None ->
  findDeclRef O (Ss ++ [DS]) (Cs ++ [(c, O)]) k
    = Done (Some (k + length Ss)%nat).
Proof.
  intros Hlen Hisa. revert Cs k Hlen.
  induction Ss as [|St Ss IH]; intros [|[c' d] Cs] k Hlen; simpl in *;
    try done.
  - intros _. rewrite Hisa, bool_decide_eq_true_2 by done. simpl.
    by rewrite Nat.add_0_r.
  - destruct (isa_DeclStmt St && bool_decide (d = O)); [done |].
    intros Hf. rewrite (IH Cs (S k)) by (done || lia). do 2 f_equal. lia.
Qed.

(** Lifting a declaration statement from a stage to the same stage changes
    nothing, when the two vectors of the list of the stage are in step and
    the count of the declaration from the same variable, if there is one,
    is a positive [unsigned]: the count that [addStageStmt] adds, or the
    statement it appends, is taken back. *)
Lemma liftDeclStmt_within (b : StagesBuilder) (DS : Stmt)
    (O : option VarDecl) (Stage : Z) (L : StageStmtList) :
  isa_DeclStmt DS = true ->
  array_get (StageStmts b) Stage = Done L ->
  length (Stmts L) = length (StmtDeclRefCount L) ->
  (forall i c, declAt L O i c -> 0 < c < 2 ^ 32) ->
  liftDeclStmt DS Stage Stage O b = Done b.
Proof.
  intros Hisa HL Hlen Hcount.
  unfold liftDeclStmt, addStageStmt. rewrite HL. simpl.
  unfold addStageStmt_list. rewrite Hisa.
  destruct (findDeclRef_Done O (Stmts L) (StmtDeclRefCount L) 0 Hlen)
    as [(i & c & St & Hf & HS & HisaS & HC & _) | [Hf _]];
    rewrite Hf; simpl.
  - rewrite (array_get_set_eq _ _ L) by done. simpl.
    unfold dropDeclRef_list. simpl.
    rewrite (findDeclRef_counts O _ (StmtDeclRefCount L)), Hf; simpl.
    2:{ apply list_eq. intros j. rewrite !list_lookup_fmap.
        destruct (decide (j = i)) as [-> |Hne].
        - rewrite list_lookup_alter_eq, HC. done.
        - by rewrite list_lookup_alter_ne. }
    rewrite list_lookup_alter_eq, HC. simpl.
    assert (declAt L O i c) as Hat by (by exists St).
    rewrite (unsigned_succ_pred c (Hcount i c Hat)).
    rewrite (proj2 (Z.eqb_neq c 0)) by (pose proof (Hcount i c Hat); lia).
    simpl. rewrite set_StageStmts_twice, array_set_twice.
    assert (<[i := (c, O)]>
              (alter (fun RefCount => (unsigned (RefCount.1 + 1), RefCount.2))
                 i (StmtDeclRefCount L)) = StmtDeclRefCount L) as ->.
    { apply list_eq. intros j. destruct (decide (j = i)) as [-> |Hne].
      - rewrite list_lookup_insert_eq; [done |].
        rewrite length_alter. by eapply lookup_lt_Some.
      - rewrite list_lookup_insert_ne, list_lookup_alter_ne by done. done. }
    assert (mkStageStmtList (Stmts L) (StmtDeclRefCount L) = L) as ->
      by (by destruct L).
    by rewrite array_set_id, set_StageStmts_id.
  - rewrite (array_get_set_eq _ _ L) by done. simpl.
    unfold dropDeclRef_list, pushStageStmt. simpl.
    rewrite (findDeclRef_push O _ _ 0 DS 1 Hlen Hisa Hf). simpl.
    rewrite (list_lookup_middle (StmtDeclRefCount L) [] (1, O)) by done.
    simpl. rewrite set_StageStmts_twice, array_set_twice.
    rewrite delete_last. rewrite Hlen, delete_last.
    assert (mkStageStmtList (Stmts L) (StmtDeclRefCount L) = L) as ->
      by (by destruct L).
    by rewrite array_set_id, set_StageStmts_id.
Qed.

(** The finder and [IgnoreParenCasts]. *)

Section FinderFacts.

Variable isAssignmentOp : BinaryOperatorKind -> bool.
Variable isAssignmentOperator : OverloadedOperatorKind -> bool.
Variable skipped : Ptr -> IgnoredClass -> bool.

#[local] Abbreviation DoVisitExpr' :=
  (LastAssignmentFinder.DoVisitExpr isAssignmentOp isAssignmentOperator
     skipped).

(** [DoVisit] on an expression compares it with [End] and goes on as
    [Visit] does on what [IgnoreParenCasts] makes of it. *)
Lemma DoVisitExpr_compare (E : Expr) (st : LastAssignmentFinder.State) :
  DoVisitExpr' true E st =
    if bool_decide (LastAssignmentFinder.End_ st = Some (ExprPtr E))
    then Done (false, st)
    else DoVisitExpr' false E st.
Proof. destruct E; simpl; by case_bool_decide. Qed.

Lemma DoVisitExpr_IgnoreParenCasts (E : Expr)
    (st : LastAssignmentFinder.State) :
  DoVisitExpr' false E st =
    DoVisitExpr' false (LastAssignmentFinder.IgnoreParenCasts skipped E) st.
Proof.
  induction E as [p v|p v|p d|p base m|p op l r|p k args|p inits
                  |p t ctor args _|p c sub IH]
    using Expr_visit_ind; try done.
  simpl. destruct (skipped p c) eqn:Hs; [done |]. simpl. by rewrite Hs.
Qed.

End FinderFacts.

(** The expressions whose visit goes through no reference to a variable
    that is not a parameter, and so through no assignment. *)
Fixpoint embedded (E : Expr) : bool :=
  match E with
  | IgnoredExpr _ _ sub => embedded sub
  | CXXConstructExpr _ _ _ args => forallb embedded args
  | DeclRefExpr _ (ParmVar _) => true
  | DeclRefExpr _ _ => false
  | _ => true
  end.

(** The expressions [Visit] hands to [VisitExpr]. *)
Definition baseCase (E : Expr) : bool :=
  match E with
  | IgnoredExpr _ _ _ | CXXConstructExpr _ _ _ _ => false
  | DeclRefExpr _ (ParmVar _) => true
  | DeclRefExpr _ _ => false
  | _ => true
  end.

(** An expression without the nodes [Visit] looks through, and without the
    addresses of the construct expressions, which [Visit] creates anew as
    temporary object expressions. *)
Fixpoint shape (E : Expr) : Expr :=
  match E with
  | IgnoredExpr _ _ sub => shape sub
  | CXXConstructExpr _ _ ctor args =>
      CXXConstructExpr 0%nat true ctor (map shape args)
  | _ => E
  end.

(** Two builders have the same records and tables: they differ at most in
    the context, in the statements of the stages, in the finder
    information and in what the visitors of declarations keep. *)
Definition same_tables (b b' : StagesBuilder) : Prop :=
  UseStages b' = UseStages b
  /\ HostToStageRecords b' = HostToStageRecords b
  /\ InterStageRecords b' = InterStageRecords b
  /\ SampleCalls b' = SampleCalls b
  /\ Textures b' = Textures b
  /\ Samplers b' = Samplers b.

(** The two vectors of the list of the stage [Stage], if it is a stage, are
    in step, and the counts of its declarations are positive [unsigned]s:
    what [addStageStmt] and [liftDeclStmt] keep of the lists they fill. *)
Definition lists_ok (Stage : Z) (b : StagesBuilder) : Prop :=
  forall L, array_get (StageStmts b) Stage = Done L ->
            length (Stmts L) = length (StmtDeclRefCount L)
            /\ forall O i c, declAt L O i c -> 0 < c < 2 ^ 32.

(** What a visit within the stage [Stage] keeps of a builder: the records
    and tables, the finder information, and the statements of the stages
    when the list of [Stage] is as [lists_ok] has it. *)
Definition kept (Stage : Z) (b b' : StagesBuilder) : Prop :=
  same_tables b b'
  /\ AssignFindInfo b' = AssignFindInfo b
  /\ (lists_ok Stage b -> StageStmts b' = StageStmts b).

Lemma kept_refl (Stage : Z) (b : StagesBuilder) : kept Stage b b.
Proof. by repeat split. Qed.

Lemma kept_trans (Stage : Z) (b1 b2 b3 : StagesBuilder) :
  kept Stage b1 b2 -> kept Stage b2 b3 -> kept Stage b1 b3.
Proof.
  intros [(?&?&?&?&?&?) [HA1 HS1]] [(?&?&?&?&?&?) [HA2 HS2]].
  split; [repeat split; congruence |]. split; [congruence |].
  intros Hok. rewrite <- (HS1 Hok). apply HS2.
  intros L HL. apply Hok. by rewrite <- (HS1 Hok).
Qed.

(** A step that leaves the records, the tables, the finder information and
    the statements of the stages as they are. *)
Lemma kept_step (Stage : Z) (b b' : StagesBuilder) :
  same_tables b b' -> AssignFindInfo b' = AssignFindInfo b ->
  StageStmts b' = StageStmts b -> kept Stage b b'.
Proof. by intros ? ? ?. Qed.

Section SameStageFacts.

Variable same : Expr -> Expr -> bool.
Variable isAssignmentOp : BinaryOperatorKind -> bool.
Variable isAssignmentOperator : OverloadedOperatorKind -> bool.
Variable skipped : Ptr -> IgnoredClass -> bool.

#[local] Abbreviation VisitOfExpr' :=
  (VisitOfExpr same isAssignmentOp isAssignmentOperator skipped).
#[local] Abbreviation DoVisitExprRange' :=
  (DoVisitExprRange same isAssignmentOp isAssignmentOperator skipped).
#[local] Abbreviation VisitOfStmt' :=
  (VisitOfStmt same isAssignmentOp isAssignmentOperator skipped).
#[local] Abbreviation VisitDeclStmt' :=
  (VisitDeclStmt same isAssignmentOp isAssignmentOperator skipped).
#[local] Abbreviation VisitDeclRefExpr' :=
  (VisitDeclRefExpr same isAssignmentOp isAssignmentOperator skipped).
#[local] Abbreviation Visit' :=
  (Visit same isAssignmentOp isAssignmentOperator skipped).
#[local] Abbreviation createInterStageReferenceExpr' :=
  (createInterStageReferenceExpr same isAssignmentOp isAssignmentOperator
     skipped).

Lemma VisitExpr_same_stage (E : Expr) (From To : Z) (b : StagesBuilder) :
  From = To \/ From = HshNoStage \/ To = HshNoStage ->
  VisitExpr same E From To b = Done (E, b).
Proof.
  intros Hst. unfold VisitExpr.
  assert ((From =? To) || (From =? HshNoStage) || (To =? HshNoStage) = true)
    as ->; [| done].
  destruct Hst as [-> |[-> | ->]].
  - by rewrite Z.eqb_refl.
  - by rewrite Z.eqb_refl, orb_true_r.
  - by rewrite Z.eqb_refl, orb_true_r.
Qed.

Lemma VisitOfExpr_CXXConstructExpr
    (VisitAssign : BodyStmt -> Z -> Z -> StagesBuilder ->
                   Outcome (Expr * StagesBuilder))
    (p : Ptr) (t : bool) (ctor : Ptr) (args : list Expr) (From To : Z)
    (b : StagesBuilder) :
  VisitOfExpr' VisitAssign (CXXConstructExpr p t ctor args) From To b =
    ('(Arguments, b1) ← DoVisitExprRange' VisitAssign args From To b;
     let '(p', C) := allocate (Context b1) in
     Done (CXXConstructExpr p' true ctor Arguments, set_Context C b1)).
Proof.
  simpl. f_equal. revert b.
  induction args as [|A args IH]; intros b; [done |].
  simpl.
  destruct (VisitOfExpr' VisitAssign A From To b) as [[A' b1]| |]; simpl;
    try done.
  by rewrite IH.
Qed.

(** [liftDeclStmt] for two stages that are equal, or one of which is
    [HshNoStage]: from a stage to itself it changes nothing, and it does
    not return when one of the two is no stage. *)
Lemma liftDeclStmt_kept (DS : Stmt) (From To : Z) (O : option VarDecl)
    (b b' : StagesBuilder) :
  From = To \/ From = HshNoStage \/ To = HshNoStage ->
  isa_DeclStmt DS = true ->
  liftDeclStmt DS From To O b = Done b' -> kept From b b'.
Proof.
  intros Hst Hisa Hlift.
  assert (same_tables b b' /\ AssignFindInfo b' = AssignFindInfo b)
    as [Htab HAFI].
  { unfold liftDeclStmt, addStageStmt in Hlift.
    repeat (first [ progress simplify_eq/=
                  | match goal with
                    | H : context [mbind _ ?m] |- _ => destruct m eqn:?
                    end ]).
    by repeat split. }
  split; [done |]. split; [done |]. intros Hok.
  assert (forall b0 : StagesBuilder,
            array_get (StageStmts b0) HshNoStage = Undefined) as Hno by done.
  unfold liftDeclStmt in Hlift.
  destruct (addStageStmt DS To O b) as [b1| |] eqn:Hadd; simpl in Hlift;
    try done.
  assert (exists LT, array_get (StageStmts b) To = Done LT) as [LT HLT].
  { unfold addStageStmt in Hadd.
    destruct (array_get (StageStmts b) To) as [LT| |]; try done.
    by exists LT. }
  destruct Hst as [-> |[-> | ->]].
  - destruct (Hok LT HLT) as [HLok Hcount].
    pose proof (liftDeclStmt_within b DS O To LT Hisa HLT HLok (Hcount O))
      as Hsame.
    unfold liftDeclStmt in Hsame. rewrite Hadd in Hsame. simpl in Hsame.
    rewrite Hsame in Hlift. by injection Hlift as <-.
  - by rewrite Hno in Hlift.
  - by rewrite Hno in HLT.
Qed.

Section Visitors.

Variable From To : Z.
Hypothesis Hst : From = To \/ From = HshNoStage \/ To = HshNoStage.

Variable VisitAssign :
  BodyStmt -> Z -> Z -> StagesBuilder -> Outcome (Expr * StagesBuilder).
Hypothesis VisitAssign_kept :
  forall A b Res b', VisitAssign A From To b = Done (Res, b') ->
                     kept From b b'.

Lemma findLastAssignment_kept (VD VD' : VarDecl) (Assign : option BodyStmt)
    (NextCompoundChild : option Ptr) (b b' : StagesBuilder) :
  findLastAssignment isAssignmentOp isAssignmentOperator skipped VD From b
    = Done (VD', Assign, NextCompoundChild, b') ->
  exists C, b' = set_Context C b.
Proof.
  unfold findLastAssignment. intros H.
  repeat (first [ case_match | progress simplify_eq/=
                | match goal with
                  | H : context [mbind _ ?m] |- _ => destruct m eqn:?
                  end ]); by eexists.
Qed.

Lemma VisitDeclRefExpr_kept (DeclRef : Expr) (VD : VarDecl)
    (b b' : StagesBuilder) (Res : Expr) :
  VisitDeclRefExpr' VisitAssign DeclRef VD From To b = Done (Res, b') ->
  kept From b b'.
Proof.
  unfold VisitDeclRefExpr. intros H.
  assert (forall p, VD <> ParmVar p ->
            ('(VD', Assign, NextCompoundChild, b1) ←
               findLastAssignment isAssignmentOp isAssignmentOperator skipped
                 VD From (set_OrigVarDecl (Some VD) b);
             match Assign with
             | Some A =>
                 let Saved := AssignFindInfo b1 in
                 '(Res, b2) ←
                   VisitAssign A From To
                     (set_AssignFindInfo
                        (mkAssignmentFinderInfo (Body Saved)
                           NextCompoundChild (Some VD')) b1);
                 Done (Res,
                       set_AssignFindInfo
                         (mkAssignmentFinderInfo (Body (AssignFindInfo b2))
                            (LastCompoundChild Saved)
                            (SelectedVarDecl Saved)) b2)
             | None => Undefined
             end) = Done (Res, b') -> kept From b b') as Hchase.
  { clear H. intros p _ H.
    destruct (findLastAssignment _ _ _ VD From _)
      as [[[[VD' Assign] NCC] b1]| |] eqn:Hfind; simpl in H; try done.
    destruct (findLastAssignment_kept _ _ _ _ _ _ Hfind) as [C ->].
    destruct Assign as [A|]; [| done]. simpl in H.
    destruct (VisitAssign A From To _) as [[Res' b2]| |] eqn:HV;
      simpl in H; try done.
    injection H as -> <-.
    destruct (VisitAssign_kept _ _ _ _ HV) as [(?&?&?&?&?&?) [HA HS]].
    simpl in *. split; [by repeat split |]. split.
    - rewrite HA. simpl. by destruct (AssignFindInfo b).
    - intros Hok. by apply HS. }
  destruct VD as [p|p|S D|S D]; try (by apply (Hchase O)).
  rewrite VisitExpr_same_stage in H by done. injection H as _ <-.
  apply kept_refl.
Qed.

Lemma VisitOfExpr_kept (E : Expr) :
  forall b Res b',
    VisitOfExpr' VisitAssign E From To b = Done (Res, b') -> kept From b b'.
Proof.
  induction E as [p v|p v|p d|p base m|p op l r|p k args|p inits
                  |p t ctor args IHargs|p c sub IHsub]
    using Expr_visit_ind; intros b Res b';
    try (simpl VisitOfExpr; rewrite VisitExpr_same_stage by done;
         intros [= _ <-]; apply kept_refl).
  - simpl. apply VisitDeclRefExpr_kept.
  - rewrite VisitOfExpr_CXXConstructExpr.
    assert (forall b args' b1,
              DoVisitExprRange' VisitAssign args From To b = Done (args', b1)
              -> kept From b b1) as Hrange.
    { clear p t ctor b Res b'.
      induction IHargs as [|A args IHA _ IHrest]; intros b args' b1; simpl.
      - intros [= _ <-]. apply kept_refl.
      - destruct (VisitOfExpr' VisitAssign A From To b) as [[A' b2]| |]
          eqn:HA; simpl; try done.
        destruct (DoVisitExprRange' VisitAssign args From To b2)
          as [[Res b3]| |] eqn:HR; simpl; try done.
        intros [= _ <-]. eapply kept_trans; [by eapply IHA |].
        by eapply IHrest. }
    destruct (DoVisitExprRange' VisitAssign args From To b)
      as [[args' b1]| |] eqn:HR; simpl; try done.
    intros [= _ <-]. eapply kept_trans; [by eapply Hrange |].
    by apply kept_step.
  - simpl. apply IHsub.
Qed.

Lemma registerReplacedAssign_kept (OldAssign : Ptr) (NewAssign : BodyStmt)
    (b b' : StagesBuilder) :
  registerReplacedAssign OldAssign NewAssign To b = Done b' ->
  kept From b b'.
Proof.
  unfold registerReplacedAssign.
  destruct (array_get _ To); simpl; try done.
  intros [= <-]. by apply kept_step.
Qed.

Lemma VisitDeclStmt_kept (p : Ptr) (group : list Decl) (b b' : StagesBuilder)
    (Res : Expr) :
  VisitDeclStmt' VisitAssign p group From To b = Done (Res, b') ->
  kept From b b'.
Proof.
  unfold VisitDeclStmt.
  destruct (find _ group) as [[VD Init|]|]; try done.
  unfold allocate. cbn [fst snd].
  set (b0 := set_Context _ b).
  assert (kept From b b0) as H0 by (by apply kept_step).
  assert (forall NInit b1,
            match Init with
            | Some Init0 =>
                '(Init', b1) ← VisitOfExpr' VisitAssign Init0 From To b0;
                Done (Some Init', b1)
            | None => Done (None, b0)
            end = Done (NInit, b1) -> kept From b0 b1) as HInit.
  { intros NInit b1. destruct Init as [Init0|].
    - destruct (VisitOfExpr' VisitAssign Init0 From To b0) as [[I' b2]| |]
        eqn:HV; simpl; try done.
      intros [= _ <-]. by eapply VisitOfExpr_kept.
    - intros [= _ <-]. apply kept_refl. }
  destruct (match Init with Some _ => _ | None => _ end)
    as [[NInit b1]| |] eqn:HI; simpl; try done.
  destruct (registerReplacedAssign p _ To b1) as [b2| |] eqn:HR; simpl;
    try done.
  destruct (liftDeclStmt _ From To _ b2) as [b3| |] eqn:HL; simpl;
    try done.
  intros [= _ <-].
  eapply kept_trans; [exact H0 |].
  eapply kept_trans; [exact (HInit _ _ eq_refl) |].
  eapply kept_trans; [by eapply registerReplacedAssign_kept |].
  eapply kept_trans;
    [eapply liftDeclStmt_kept; [exact Hst | | exact HL]; reflexivity |].
  by apply kept_step.
Qed.

Lemma VisitOfStmt_kept (S : BodyStmt) (b b' : StagesBuilder) (Res : Expr) :
  VisitOfStmt' VisitAssign S From To b = Done (Res, b') -> kept From b b'.
Proof.
  destruct S as [p body|p group|p|p [E|]|E|p]; simpl; try done.
  - apply VisitDeclStmt_kept.
  - apply VisitOfExpr_kept.
  - apply VisitOfExpr_kept.
Qed.

(** The visit of an expression that goes through no assignment returns,
    whatever the visit of an assignment does. *)
Lemma VisitOfExpr_embedded (E : Expr) :
  embedded E = true ->
  forall b,
    exists E' b',
      VisitOfExpr' VisitAssign E From To b = Done (E', b')
      /\ shape E' = shape E
      /\ (baseCase E = true -> E' = E /\ b' = b).
Proof.
  induction E as [p v|p v|p d|p base m|p op l r|p k args|p inits
                  |p t ctor args IHargs|p c sub IHsub]
    using Expr_visit_ind; intros Hemb b;
    try (eexists; exists b; simpl VisitOfExpr;
         rewrite VisitExpr_same_stage by done;
         split; [reflexivity |]; done).
  - destruct d as [q|q|S D|S D]; try done.
    eexists. exists b. simpl. rewrite VisitExpr_same_stage by done.
    split; [reflexivity |]. done.
  - rewrite VisitOfExpr_CXXConstructExpr. simpl in Hemb.
    assert (exists args' b1,
              DoVisitExprRange' VisitAssign args From To b = Done (args', b1)
              /\ map shape args' = map shape args)
      as (args' & b1 & Hrange & Hshape).
    { clear p t ctor. revert b.
      induction IHargs as [|A args IHA _ IHrest]; intros b.
      - by exists [], b.
      - simpl in Hemb. apply andb_true_iff in Hemb as [HA Hargs].
        destruct (IHA HA b) as (A' & b1 & HVA & Hsh1 & _).
        destruct (IHrest Hargs b1) as (args' & b2 & Hr & Hsh2).
        exists (A' :: args'), b2. simpl. rewrite HVA. simpl. rewrite Hr.
        split; [done |]. simpl. by rewrite Hsh1, Hsh2. }
    rewrite Hrange. simpl. eexists _, _. split; [done |].
    split; [| done]. simpl. by rewrite Hshape.
  - simpl in Hemb. destruct (IHsub Hemb b) as (E' & b' & HV & Hsh & _).
    exists E', b'. done.
Qed.

End Visitors.

Lemma Visit_kept (From To : Z) (depth : nat) :
  From = To \/ From = HshNoStage \/ To = HshNoStage ->
  forall S b Res b',
    Visit' depth S From To b = Done (Res, b') -> kept From b b'.
Proof.
  intros Hst. induction depth as [|depth IH]; intros S b Res b'; simpl.
  - by apply VisitOfStmt_kept.
  - by apply VisitOfStmt_kept.
Qed.

Lemma Visit_embedded (From To : Z) (depth : nat) (E : Expr)
    (b : StagesBuilder) :
  From = To \/ From = HshNoStage \/ To = HshNoStage ->
  embedded E = true ->
  exists E' b',
    Visit' depth (ExprOf E) From To b = Done (E', b')
    /\ shape E' = shape E
    /\ (baseCase E = true -> E' = E /\ b' = b).
Proof.
  intros Hst Hemb. destruct depth as [|depth]; simpl.
  - by apply VisitOfExpr_embedded.
  - by apply VisitOfExpr_embedded.
Qed.

(** C4, amended.  Let the stages [From] and [To] be equal, or one of them
    be [HshNoStage].  Whenever [createInterStageReferenceExpr] returns, it
    has created no field in any record, the records and the tables of the
    builder are what they were, and so are the statements of every stage
    when the two vectors of the list of the stage [From] are in step and
    its reference counts are positive [unsigned]s: what [liftDeclStmt]
    adds to the stage for a declaration it takes from the stage again.  An
    expression of a class without a visitor of its own, and a reference to
    a parameter, is returned as it is, the same node, and nothing is
    allocated.  The call returns for every expression whose visit goes
    through no reference to a variable that is not a parameter, the result
    being the expression up to the looked-through nodes, which give what
    their operand gives, and the addresses of the construct expressions,
    which are created anew. *)
Theorem same_stage_reference (depth : nat) (E : Expr) (From To : Z)
    (AFI : AssignmentFinderInfo) (b : StagesBuilder) :
  From = To \/ From = HshNoStage \/ To = HshNoStage ->
  (forall E' b',
     createInterStageReferenceExpr' depth E From To AFI b = Done (E', b') ->
     HostToStageRecords b' = HostToStageRecords b
     /\ InterStageRecords b' = InterStageRecords b
     /\ same_tables b b'
     /\ AssignFindInfo b' = AFI
     /\ (lists_ok From b -> StageStmts b' = StageStmts b))
  /\ (baseCase E = true ->
        createInterStageReferenceExpr' depth E From To AFI b
          = Done (E, set_AssignFindInfo AFI b))
  /\ (embedded E = true ->
        exists E' b',
          createInterStageReferenceExpr' depth E From To AFI b
            = Done (E', b')
          /\ shape E' = shape E).
Proof.
  intros Hst. unfold createInterStageReferenceExpr. split; [| split].
  - intros E' b' HV.
    destruct (Visit_kept From To depth Hst _ _ _ _ HV)
      as [Htab [HAFI HSS]].
    pose proof Htab as (?&?&?&?&?&?). simpl in *.
    split; [done |]. split; [done |]. split; [by repeat split |].
    split; [done |]. exact HSS.
  - intros Hbase.
    assert (embedded E = true) as Hemb
      by (destruct E as [| |p [| | |]| | | | | |]; done).
    destruct (Visit_embedded From To depth E (set_AssignFindInfo AFI b)
                Hst Hemb) as (E' & b' & -> & _ & HB).
    by destruct (HB Hbase) as [-> ->].
  - intros Hemb.
    destruct (Visit_embedded From To depth E (set_AssignFindInfo AFI b)
                Hst Hemb) as (E' & b' & -> & Hsh & _).
    by exists E', b'.
Qed.

End SameStageFacts.

(** The bound on the depth of a visit is a bound only: a visit that returns
    at a depth returns the same at every greater depth. *)
Section DepthFacts.

Variable same : Expr -> Expr -> bool.
Variable isAssignmentOp : BinaryOperatorKind -> bool.
Variable isAssignmentOperator : OverloadedOperatorKind -> bool.
Variable skipped : Ptr -> IgnoredClass -> bool.

#[local] Abbreviation VisitOfExpr' :=
  (VisitOfExpr same isAssignmentOp isAssignmentOperator skipped).
#[local] Abbreviation DoVisitExprRange' :=
  (DoVisitExprRange same isAssignmentOp isAssignmentOperator skipped).
#[local] Abbreviation VisitOfStmt' :=
  (VisitOfStmt same isAssignmentOp isAssignmentOperator skipped).
#[local] Abbreviation VisitDeclStmt' :=
  (VisitDeclStmt same isAssignmentOp isAssignmentOperator skipped).
#[local] Abbreviation VisitDeclRefExpr' :=
  (VisitDeclRefExpr same isAssignmentOp isAssignmentOperator skipped).
#[local] Abbreviation Visit' :=
  (Visit same isAssignmentOp isAssignmentOperator skipped).

Variable V1 V2 :
  BodyStmt -> Z -> Z -> StagesBuilder -> Outcome (Expr * StagesBuilder).
Hypothesis V1_V2 :
  forall A From To b r, V1 A From To b = Done r -> V2 A From To b = Done r.

Lemma VisitDeclRefExpr_mono (DeclRef : Expr) (VD : VarDecl) (From To : Z)
    (b : StagesBuilder) (r : Expr * StagesBuilder) :
  VisitDeclRefExpr' V1 DeclRef VD From To b = Done r ->
  VisitDeclRefExpr' V2 DeclRef VD From To b = Done r.
Proof.
  unfold VisitDeclRefExpr. destruct VD as [p|p|S D|S D]; try done;
    (destruct (findLastAssignment _ _ _ _ From _)
       as [[[[VD' [A|]] NCC] b1]| |]; simpl; try done;
     destruct (V1 A From To _) as [[Res b2]| |] eqn:HV; simpl; try done;
     by rewrite (V1_V2 _ _ _ _ _ HV)).
Qed.

Lemma VisitOfExpr_mono (E : Expr) (From To : Z) :
  forall b r,
    VisitOfExpr' V1 E From To b = Done r ->
    VisitOfExpr' V2 E From To b = Done r.
Proof.
  induction E as [p v|p v|p d|p base m|p op l r0|p k args|p inits
                  |p t ctor args IHargs|p c sub IHsub]
    using Expr_visit_ind; intros b r; try done.
  - simpl. apply VisitDeclRefExpr_mono.
  - rewrite !VisitOfExpr_CXXConstructExpr.
    assert (forall b r,
              DoVisitExprRange' V1 args From To b = Done r ->
              DoVisitExprRange' V2 args From To b = Done r) as Hrange.
    { clear p t ctor b r.
      induction IHargs as [|A args IHA _ IHrest]; intros b r; simpl;
        [done |].
      destruct (VisitOfExpr' V1 A From To b) as [[A' b1]| |] eqn:HA;
        simpl; try done.
      rewrite (IHA _ _ HA). simpl.
      destruct (DoVisitExprRange' V1 args From To b1) as [[Res b2]| |]
        eqn:HR; simpl; try done.
      by rewrite (IHrest _ _ HR). }
    destruct (DoVisitExprRange' V1 args From To b) as [[args' b1]| |]
      eqn:HR; simpl; try done.
    by rewrite (Hrange _ _ HR).
  - simpl. apply IHsub.
Qed.

Lemma VisitDeclStmt_mono (p : Ptr) (group : list Decl) (From To : Z)
    (b : StagesBuilder) (r : Expr * StagesBuilder) :
  VisitDeclStmt' V1 p group From To b = Done r ->
  VisitDeclStmt' V2 p group From To b = Done r.
Proof.
  unfold VisitDeclStmt.
  destruct (find _ group) as [[VD [Init0|]|]|]; try done.
  unfold allocate. cbn [fst snd].
  destruct (VisitOfExpr' V1 Init0 From To _) as [[Init' b1]| |] eqn:HV;
    [| by simpl | by simpl].
  by rewrite (VisitOfExpr_mono _ _ _ _ _ HV).
Qed.

Lemma VisitOfStmt_mono (S : BodyStmt) (From To : Z) (b : StagesBuilder)
    (r : Expr * StagesBuilder) :
  VisitOfStmt' V1 S From To b = Done r ->
  VisitOfStmt' V2 S From To b = Done r.
Proof.
  destruct S as [p body|p group|p|p [E|]|E|p]; simpl; try done.
  - apply VisitDeclStmt_mono.
  - apply VisitOfExpr_mono.
  - apply VisitOfExpr_mono.
Qed.

End DepthFacts.

Lemma Visit_deeper (same : Expr -> Expr -> bool)
    (isAssignmentOp : BinaryOperatorKind -> bool)
    (isAssignmentOperator : OverloadedOperatorKind -> bool)
    (skipped : Ptr -> IgnoredClass -> bool) (depth more : nat) :
  forall S From To b r,
    Visit same isAssignmentOp isAssignmentOperator skipped depth S From To b
      = Done r ->
    Visit same isAssignmentOp isAssignmentOperator skipped (depth + more) S
      From To b = Done r.
Proof.
  induction depth as [|depth IH]; intros S From To b r.
  - destruct more as [|more]; [done |]. simpl.
    by apply VisitOfStmt_mono.
  - simpl. by apply VisitOfStmt_mono.
Qed.

(** Clang's assignment operators and the nodes [IgnoreParenCasts] goes on
    from, for the runs below: the assignment and the compound assignments,
    and the casts and full expressions among the looked-through classes. *)
Definition assignmentOp (op : BinaryOperatorKind) : bool :=
  match op with
  | BO_Assign | BO_MulAssign | BO_DivAssign | BO_RemAssign | BO_AddAssign
  | BO_SubAssign | BO_ShlAssign | BO_ShrAssign | BO_AndAssign | BO_XorAssign
  | BO_OrAssign => true
  | _ => false
  end.

Definition assignmentOperator (op : OverloadedOperatorKind) : bool :=
  match op with
  | OO_Equal | OO_StarEqual | OO_SlashEqual | OO_PercentEqual | OO_PlusEqual
  | OO_MinusEqual | OO_LessLessEqual | OO_GreaterGreaterEqual | OO_AmpEqual
  | OO_CaretEqual | OO_PipeEqual => true
  | _ => false
  end.

Definition castsSkipped (p : Ptr) (c : IgnoredClass) : bool :=
  match c with
  | UnaryOperatorClass => false
  | _ => true
  end.

Lemma same_stage_reference_witness :
  let Init := CXXConstructExpr 3%nat false 50%nat
                [DeclRefExpr 4%nat (ParmVar 30%nat)] in
  let X := DeclRefExpr 7%nat (LocalVar 20%nat) in
  let Use := BinaryOperator 5%nat BO_Assign (DeclRefExpr 6%nat (ParmVar 31%nat))
               X in
  let B := CompoundStmt 1%nat
             [DeclGroupStmt 2%nat [VarDeclOf (LocalVar 20%nat) (Some Init)];
              ExprOf Use] in
  let AFI := mkAssignmentFinderInfo (Some B) (Some 5%nat) None in
  let b := StagesBuilder_new (mkASTContext 100%nat []) 35 in
  exists b',
    createInterStageReferenceExpr sameDeclRef assignmentOp assignmentOperator
      castsSkipped 1 X HshVertexStage HshVertexStage AFI b
    = Done (DeclRefExpr 103%nat (LocalVar 100%nat), b')
    /\ ReplacedAssigns b' !! 2%nat =
         Some [None;
               Some (DeclGroupStmt 101%nat
                       [VarDeclOf (LocalVar 100%nat)
                          (Some (CXXConstructExpr 102%nat true 50%nat
                                   [DeclRefExpr 4%nat (ParmVar 30%nat)]))]);
               None; None; None; None]
    /\ StageStmts b' = StageStmts b
    /\ InterStageRecords b' = InterStageRecords b
    /\ HostToStageRecords b' = HostToStageRecords b
    /\ AssignFindInfo b' = AFI.
Proof.
  intros Init X Use B AFI b.
  assert (exists b',
            createInterStageReferenceExpr sameDeclRef assignmentOp
              assignmentOperator castsSkipped 1 X HshVertexStage
              HshVertexStage AFI b
            = Done (DeclRefExpr 103%nat (LocalVar 100%nat), b')
            /\ ReplacedAssigns b' !! 2%nat =
                 Some [None;
                       Some (DeclGroupStmt 101%nat
                               [VarDeclOf (LocalVar 100%nat)
                                  (Some (CXXConstructExpr 102%nat true 50%nat
                                           [DeclRefExpr 4%nat
                                              (ParmVar 30%nat)]))]);
                       None; None; None; None])
    as (b' & Hrun & HRA).
  { eexists. split; [vm_compute; reflexivity | reflexivity]. }
  destruct (same_stage_reference sameDeclRef assignmentOp assignmentOperator
              castsSkipped 1 X HshVertexStage HshVertexStage AFI b)
    as [Hkept _]; [by left |].
  destruct (Hkept _ _ Hrun) as (HH & HI & _ & HA & HS).
  exists b'. split; [exact Hrun |]. split; [exact HRA |].
  split; [| by repeat split].
  apply HS. intros L HL. vm_compute in HL. injection HL as <-.
  split; [done |]. intros O i c (St & HSt & _). by destruct i.
Defined.

(** C4 as stated fails for the expressions with a visitor of their own.  At
    the vertex stage as source and target, a construct expression comes
    back as another node, and a unary operator comes back as its operand. *)
Lemma same_stage_reference_changed :
  let b := StagesBuilder_new (mkASTContext 100%nat []) 35 in
  let AFI := mkAssignmentFinderInfo None None None in
  let X := DeclRefExpr 7%nat (ParmVar 3%nat) in
  let E1 := CXXConstructExpr 9%nat true 2%nat [X; IntegerLiteral 8%nat 1] in
  let E2 := IgnoredExpr 9%nat UnaryOperatorClass X in
  (exists E' b',
     createInterStageReferenceExpr sameDeclRef assignmentOp
       assignmentOperator castsSkipped 0 E1 HshVertexStage HshVertexStage
       AFI b = Done (E', b')
     /\ E' = CXXConstructExpr 100%nat true 2%nat [X; IntegerLiteral 8%nat 1]
     /\ E' <> E1)
  /\ (exists E' b',
        createInterStageReferenceExpr sameDeclRef assignmentOp
          assignmentOperator castsSkipped 0 E2 HshVertexStage
          HshVertexStage AFI b = Done (E', b')
        /\ E' = X /\ E' <> E2).
Proof.
  intros b AFI X E1 E2. split; eexists _, _.
  - split; [lazy; reflexivity |]. split; [reflexivity | done].
  - split; [lazy; reflexivity |]. split; [reflexivity | done].
Qed.

(** ** Parameter validation *)

(** Modelled from the spec: the table of ShaderInterface.def, which is not
    part of the sources at hand.  The position output belongs to the vertex
    stage and the color target outputs to the fragment stage; buffers and
    textures are inputs of their declared stage; a parameter without any of
    these attributes is a uniform capture of the host. *)
Definition ShaderInterface_spec
    : list (AttrKind * HshStage * HshInterfaceDirection) :=
  [(HshPositionAttr, HshVertexStage, HshOutput);
   (HshColorTargetAttr, HshFragmentStage, HshOutput);
   (HshVertexBufferAttr, HshVertexStage, HshInput);
   (HshInstanceBufferAttr, HshVertexStage, HshInput);
   (HshVertexTextureAttr, HshVertexStage, HshInput);
   (HshFragmentTextureAttr, HshFragmentStage, HshInput)].

Section RunFacts.

Variable ShaderInterface :
  list (AttrKind * HshStage * HshInterfaceDirection).
Variable generate : ParmTables -> GenerateConsumer -> GenerateConsumer.

#[local] Abbreviation checkParameters' := (checkParameters ShaderInterface).
#[local] Abbreviation checkParameter' := (checkParameter ShaderInterface).
#[local] Abbreviation run' := (run ShaderInterface generate).

Lemma checkParameters_app (Params1 Params2 : list ParmVarDecl)
    (T : ParmTables) (Diags : list Diagnostic) :
  checkParameters' (Params1 ++ Params2) T Diags =
    match checkParameters' Params1 T Diags with
    | Done (Some T', Diags') => checkParameters' Params2 T' Diags'
    | Done (None, Diags') => Done (None, Diags')
    | Undefined => Undefined
    | NotEmbedded => NotEmbedded
    end.
Proof.
  revert T Diags. induction Params1 as [|P Params1 IH]; intros T Diags;
    simpl; [done |].
  destruct (checkParameter' P T Diags) as [[[ok T'] Diags']| |]; simpl;
    [| done | done].
  destruct ok; simpl; [apply IH | done].
Qed.

(** [run] returns at the first parameter whose checks return [false]. *)
Lemma run_stops (Params1 Params2 : list ParmVarDecl) (Param : ParmVarDecl)
    (T T' : ParmTables) (Diags1 Diags2 : list Diagnostic)
    (G : GenerateConsumer) :
  checkParameters' Params1 ParmTables_new (RunDiags G)
    = Done (Some T, Diags1) ->
  checkParameter' Param T Diags1 = Done (false, T', Diags2) ->
  run' (Params1 ++ Param :: Params2) G =
    Done (mkGenerateConsumer (SeenHashes G) (AnonOS G) (OS G) Diags2).
Proof.
  intros H1 H2. unfold run. rewrite checkParameters_app, H1. simpl.
  by rewrite H2.
Qed.

(** Undefined behaviour in the checks of a parameter is undefined behaviour
    of [run]. *)
Lemma run_undefined (Params1 Params2 : list ParmVarDecl)
    (Param : ParmVarDecl) (T : ParmTables) (Diags1 : list Diagnostic)
    (G : GenerateConsumer) :
  checkParameters' Params1 ParmTables_new (RunDiags G)
    = Done (Some T, Diags1) ->
  checkParameter' Param T Diags1 = Undefined ->
  run' (Params1 ++ Param :: Params2) G = Undefined.
Proof.
  intros H1 H2. unfold run. rewrite checkParameters_app, H1. simpl.
  by rewrite H2.
Qed.

Lemma elem_of_ReportCustom (at_ : Ptr) (msg : DiagMessage) (level : DiagLevel)
    (Diags : list Diagnostic) (d : Diagnostic) :
  d ∈ ReportCustom at_ msg level Diags <-> d ∈ Diags \/ d = mkDiag level msg at_.
Proof.
  unfold ReportCustom. rewrite elem_of_app, list_elem_of_singleton. done.
Qed.

Lemma CheckHshRecordCompatibility_keeps (fields : list RecordField)
    (Diags : list Diagnostic) (d : Diagnostic) :
  d ∈ Diags -> d ∈ (CheckHshRecordCompatibility fields Diags).2.
Proof.
  revert Diags. induction fields as [|FD fields IH]; intros Diags Hin;
    simpl; [done |].
  destruct (CheckHshFieldTypeCompatibility FD Diags) as [ok Diags1] eqn:H1.
  assert (d ∈ Diags1) as Hin1.
  { unfold CheckHshFieldTypeCompatibility in H1.
    repeat (case_match; simplify_eq); try done;
      apply elem_of_ReportCustom; by left. }
  specialize (IH Diags1 Hin1).
  by destruct (CheckHshRecordCompatibility fields Diags1).
Qed.

(** The checks before the read keep the diagnostics there were, report a
    type that is no record, and report an index outside the range. *)
Lemma CheckVertexBufferParm_checks_reports (PVD : ParmVarDecl) (Res : Z)
    (Diags : list Diagnostic) :
  let c := CheckVertexBufferParm_checks PVD Res Diags in
  (forall d, d ∈ Diags -> d ∈ c.2)
  /\ (StructureOrClass (ParmTypeOf PVD) = None ->
        mkDiag Error BadVertexBufferType (ParmPtr PVD) ∈ c.2 /\ c.1 = false)
  /\ (Res < 0 \/ HSH_MAX_VERTEX_BUFFERS <= Res ->
        mkDiag Error VertexBufferOutOfRange (ParmPtr PVD) ∈ c.2
        /\ c.1 = false).
Proof.
  unfold CheckVertexBufferParm_checks.
  set (c1 := match StructureOrClass (ParmTypeOf PVD) with
             | Some fields => CheckHshRecordCompatibility fields Diags
             | None => (false, ReportCustom (ParmPtr PVD) BadVertexBufferType
                                 Error Diags)
             end).
  assert (forall d, d ∈ Diags -> d ∈ c1.2) as Hk1.
  { intros d Hd. unfold c1. destruct (StructureOrClass _).
    - by apply CheckHshRecordCompatibility_keeps.
    - apply elem_of_ReportCustom. by left. }
  assert (StructureOrClass (ParmTypeOf PVD) = None ->
          mkDiag Error BadVertexBufferType (ParmPtr PVD) ∈ c1.2
          /\ c1.1 = false) as Ht1.
  { intros HN. unfold c1. rewrite HN. simpl. split; [| done].
    apply elem_of_ReportCustom. by right. }
  destruct c1 as [Ret1 Diags1]. simpl in Hk1, Ht1.
  destruct ((Res <? 0) || (HSH_MAX_VERTEX_BUFFERS <=? Res)) eqn:Hrange; simpl.
  - split; [| split].
    + intros d Hd. rewrite elem_of_ReportCustom. auto.
    + intros HN. rewrite elem_of_ReportCustom. destruct (Ht1 HN). auto.
    + intros _. rewrite elem_of_ReportCustom. auto.
  - split; [done |]. split; [done |]. intros Hout.
    apply orb_false_iff in Hrange as [H1%Z.ltb_ge H2%Z.leb_gt]. lia.
Qed.

(** When the read finds the array, [CheckVertexBufferParm] returns, having
    made the check of the type and the check of the index taken whatever
    the earlier one gave, and having reported every one that fails. *)
Lemma CheckVertexBufferParm_reports (PVD : ParmVarDecl) (Res : Z)
    (T : ParmTables) (Diags : list Diagnostic)
    (Other : option ParmVarDecl) :
  readVertexBufferParm T Res = Done Other ->
  exists r, CheckVertexBufferParm PVD Res T Diags = Done r
    /\ (forall d, d ∈ Diags -> d ∈ r.2)
    /\ (StructureOrClass (ParmTypeOf PVD) = None ->
          mkDiag Error BadVertexBufferType (ParmPtr PVD) ∈ r.2
          /\ r.1.1 = false)
    /\ (forall OtherPVD, Other = Some OtherPVD ->
          mkDiag Error VertexBufferDuplicate (ParmPtr PVD) ∈ r.2
          /\ r.1.1 = false).
Proof.
  intros Hread. unfold CheckVertexBufferParm.
  destruct (CheckVertexBufferParm_checks_reports PVD Res Diags)
    as (Hk & Ht & _).
  destruct (CheckVertexBufferParm_checks PVD Res Diags) as [Ret2 Diags2].
  simpl in Hk, Ht. rewrite Hread. simpl.
  destruct Other as [OtherPVD|]; simpl.
  - eexists. split; [done |]. simpl. split; [| split].
    + intros d Hd. rewrite !elem_of_ReportCustom. auto.
    + intros HN. rewrite !elem_of_ReportCustom. destruct (Ht HN). auto.
    + intros ? _. rewrite !elem_of_ReportCustom. auto.
  - destruct Ret2; simpl; eexists; (split; [done |]); simpl;
      (split; [done |]); (split; [| done]).
    + intros HN. by destruct (Ht HN).
    + intros HN. by destruct (Ht HN).
Qed.

Lemma checkParameter_buffer (Param : ParmVarDecl) (VB : HshAttr)
    (T : ParmTables) (Diags : list Diagnostic) :
  DetermineParmVarDirection ShaderInterface Param = HshInput ->
  getAttr HshVertexBufferAttr Param = Some VB
  \/ (getAttr HshVertexBufferAttr Param = None
      /\ getAttr HshInstanceBufferAttr Param = Some VB) ->
  checkParameter' Param T Diags =
    CheckVertexBufferParm Param (AttrIndex VB) T Diags.
Proof.
  intros Hdir Hattr. unfold checkParameter. rewrite Hdir. simpl.
  destruct Hattr as [-> |[-> ->]]; done.
Qed.

(** The checks leave [VertexBufferParms] an array of the size it has. *)
Lemma checkParameter_buffers_length (Param : ParmVarDecl) (T T' : ParmTables)
    (Diags Diags' : list Diagnostic) (ok : bool) :
  checkParameter' Param T Diags = Done (ok, T', Diags') ->
  length (VertexBufferParms T') = length (VertexBufferParms T).
Proof.
  unfold checkParameter, CheckVertexBufferParm, CheckTextureParm,
    CheckColorTargetParm.
  intros H.
  repeat (first [ case_match | progress simplify_eq/=
                | match goal with
                  | H : context [mbind _ ?m] |- _ => destruct m eqn:?
                  end ]);
    try done; by rewrite ?length_insert.
Qed.

Lemma checkParameters_buffers_length (Params : list ParmVarDecl)
    (T T' : ParmTables) (Diags Diags' : list Diagnostic) :
  checkParameters' Params T Diags = Done (Some T', Diags') ->
  length (VertexBufferParms T') = length (VertexBufferParms T).
Proof.
  revert T Diags. induction Params as [|P Params IH]; intros T Diags; simpl.
  - by intros [= -> _].
  - destruct (checkParameter' P T Diags) as [[[ok T1] Diags1]| |] eqn:HP;
      simpl; [| done | done].
    destruct ok; simpl; [| done]. intros H.
    rewrite (IH _ _ H). by eapply checkParameter_buffers_length.
Qed.

(** C7.  Let the parameters before a vertex buffer parameter (one with the
    vertex buffer or the instance buffer attribute, an input by
    ShaderInterface.def) pass their checks, and let the index of its
    attribute be outside [0, HSH_MAX_VERTEX_BUFFERS), as 32 is.  The checks
    before the read report the range error and give [false]; the lambda
    then reads [VertexBufferParms] at the index all the same, outside the
    array, which is undefined behaviour, and so is [run] whatever
    parameters follow. *)
Theorem vertex_buffer_slot_out_of_range (Params1 Params2 : list ParmVarDecl)
    (Param : ParmVarDecl) (VB : HshAttr) (T : ParmTables)
    (Diags1 : list Diagnostic) (G : GenerateConsumer) :
  checkParameters' Params1 ParmTables_new (RunDiags G)
    = Done (Some T, Diags1) ->
  DetermineParmVarDirection ShaderInterface Param = HshInput ->
  getAttr HshVertexBufferAttr Param = Some VB
  \/ (getAttr HshVertexBufferAttr Param = None
      /\ getAttr HshInstanceBufferAttr Param = Some VB) ->
  AttrIndex VB < 0 \/ HSH_MAX_VERTEX_BUFFERS <= AttrIndex VB ->
  let c := CheckVertexBufferParm_checks Param (AttrIndex VB) Diags1 in
  mkDiag Error VertexBufferOutOfRange (ParmPtr Param) ∈ c.2
  /\ c.1 = false
  /\ readVertexBufferParm T (AttrIndex VB) = Undefined
  /\ CheckVertexBufferParm Param (AttrIndex VB) T Diags1 = Undefined
  /\ run' (Params1 ++ Param :: Params2) G = Undefined.
Proof.
  intros H1 Hdir Hattr Hrange c.
  destruct (CheckVertexBufferParm_checks_reports Param (AttrIndex VB) Diags1)
    as (_ & _ & Hout).
  destruct (Hout Hrange) as [Hin Hfalse].
  assert (readVertexBufferParm T (AttrIndex VB) = Undefined) as Hread.
  { unfold readVertexBufferParm, array_get.
    rewrite (checkParameters_buffers_length _ _ _ _ _ H1).
    cbn [VertexBufferParms ParmTables_new]. rewrite length_replicate.
    case_match; [| done].
    apply andb_true_iff in H as [Ha%Z.leb_le Hb%Z.ltb_lt].
    unfold HSH_MAX_VERTEX_BUFFERS in *. lia. }
  assert (CheckVertexBufferParm Param (AttrIndex VB) T Diags1 = Undefined)
    as Hcheck.
  { unfold CheckVertexBufferParm.
    destruct (CheckVertexBufferParm_checks Param (AttrIndex VB) Diags1).
    by rewrite Hread. }
  repeat split; try done.
  apply (run_undefined _ _ _ _ _ _ H1).
  by rewrite (checkParameter_buffer Param VB T Diags1 Hdir Hattr).
Qed.

(** C8, amended.  [run] returns at the first parameter whose checks return
    a failure: the diagnostics are those reported up to and for this
    parameter, the remainder of [run] is not entered, and the parameters
    after it are not checked, so that what they are makes no difference.
    Within a vertex buffer parameter whose index is within
    [0, HSH_MAX_VERTEX_BUFFERS), the check of the type and the check of the
    index already taken are both made, whatever the first gave, and each
    one that fails is reported. *)
Theorem parameter_checks_stop_at_first_failure
    (Params1 Params2 Params2' : list ParmVarDecl) (Param : ParmVarDecl)
    (T T' : ParmTables) (Diags1 Diags2 : list Diagnostic)
    (G : GenerateConsumer) :
  checkParameters' Params1 ParmTables_new (RunDiags G)
    = Done (Some T, Diags1) ->
  checkParameter' Param T Diags1 = Done (false, T', Diags2) ->
  run' (Params1 ++ Param :: Params2) G =
    Done (mkGenerateConsumer (SeenHashes G) (AnonOS G) (OS G) Diags2)
  /\ run' (Params1 ++ Param :: Params2') G
     = run' (Params1 ++ Param :: Params2) G
  /\ forall (PVD : ParmVarDecl) (Res : Z) (Diags0 : list Diagnostic),
       0 <= Res < HSH_MAX_VERTEX_BUFFERS ->
       exists r, CheckVertexBufferParm PVD Res T Diags0 = Done r
         /\ (forall d, d ∈ Diags0 -> d ∈ r.2)
         /\ (StructureOrClass (ParmTypeOf PVD) = None ->
               mkDiag Error BadVertexBufferType (ParmPtr PVD) ∈ r.2
               /\ r.1.1 = false)
         /\ (forall OtherPVD,
               VertexBufferParms T !! Z.to_nat Res = Some (Some OtherPVD) ->
               mkDiag Error VertexBufferDuplicate (ParmPtr PVD) ∈ r.2
               /\ r.1.1 = false).
Proof.
  intros H1 H2. split; [by eapply run_stops |]. split.
  - by rewrite !(run_stops _ _ _ _ _ _ _ _ H1 H2).
  - intros PVD Res Diags0 HRes.
    pose proof (checkParameters_buffers_length _ _ _ _ _ H1) as Hlen.
    cbn [VertexBufferParms ParmTables_new] in Hlen.
    rewrite length_replicate in Hlen.
    destruct (lookup_lt_is_Some_2 (VertexBufferParms T) (Z.to_nat Res))
      as [Other HOther].
    { rewrite Hlen. unfold HSH_MAX_VERTEX_BUFFERS in *. lia. }
    assert (readVertexBufferParm T Res = Done Other) as Hread.
    { unfold readVertexBufferParm, array_get. rewrite Hlen, HOther.
      case_match; [done |].
      apply andb_false_iff in H as [Ha%Z.leb_gt|Hb%Z.ltb_ge];
        unfold HSH_MAX_VERTEX_BUFFERS in *; lia. }
    destruct (CheckVertexBufferParm_reports PVD Res T Diags0 Other Hread)
      as (r & Hr & Hk & Ht & Hd).
    exists r. split; [done |]. split; [done |]. split; [done |].
    intros OtherPVD HO. apply (Hd OtherPVD). congruence.
Qed.

End RunFacts.

Lemma vertex_buffer_slot_out_of_range_witness :
  let Param :=
    mkParmVarDecl 5%nat "v"
      (mkParmType HBT_None
         (Some [mkRecordField 6%nat HBT_float3 OtherType]))
      [mkHshAttr HshVertexBufferAttr 32] in
  let generate := fun (_ : ParmTables) (G : GenerateConsumer) =>
    mkGenerateConsumer (SeenHashes G) (AnonOS G ++ [ShaderObjectRef 0])
      (OS G) (RunDiags G) in
  let G := mkGenerateConsumer ∅ [] [] [] in
  CheckVertexBufferParm_checks Param 32 []
    = (false, [mkDiag Error VertexBufferOutOfRange 5%nat])
  /\ run ShaderInterface_spec generate [Param] G = Undefined.
Proof.
  intros Param generate G.
  destruct (vertex_buffer_slot_out_of_range ShaderInterface_spec
              generate [] [] Param
              (mkHshAttr HshVertexBufferAttr 32) ParmTables_new [] G)
    as (_ & _ & _ & _ & Hrun).
  - reflexivity.
  - reflexivity.
  - by left.
  - right. vm_compute. congruence.
  - split; [reflexivity | exact Hrun].
Defined.

(** The sibling check of a color target returns before it touches its
    array: with the index 8, one past the last, [run] reports the range
    error and returns, and nothing is written. *)
Lemma color_target_slot_out_of_range :
  let Param :=
    mkParmVarDecl 5%nat "c" (mkParmType HBT_float4 None)
      [mkHshAttr HshColorTargetAttr 8] in
  let generate := fun (_ : ParmTables) (G : GenerateConsumer) =>
    mkGenerateConsumer (SeenHashes G) (AnonOS G ++ [ShaderObjectRef 0])
      (OS G) (RunDiags G) in
  let G := mkGenerateConsumer ∅ [] [] [] in
  run ShaderInterface_spec generate [Param] G
  = Done (mkGenerateConsumer ∅ [] []
            [mkDiag Error ColorTargetOutOfRange 5%nat]).
Proof. reflexivity. Qed.

Lemma parameter_checks_stop_at_first_failure_witness :
  let ok := mkParmType HBT_None
              (Some [mkRecordField 6%nat HBT_float3 OtherType]) in
  let bad := mkParmType HBT_None None in
  let A := mkParmVarDecl 1%nat "a" ok [mkHshAttr HshVertexBufferAttr 3] in
  let B := mkParmVarDecl 2%nat "b" bad [mkHshAttr HshVertexBufferAttr 4] in
  let C := mkParmVarDecl 3%nat "c" bad [mkHshAttr HshVertexBufferAttr 5] in
  let G := mkGenerateConsumer ∅ [] [] [] in
  run ShaderInterface_spec (fun _ G => G) [A; B; C] G
  = Done (mkGenerateConsumer ∅ [] []
            [mkDiag Error BadVertexBufferType 2%nat]).
Proof.
  intros ok bad A B C G.
  destruct (parameter_checks_stop_at_first_failure ShaderInterface_spec
              (fun _ G => G) [A] [C] []
              B
              (mkParmTables 1
                 (<[3%nat := Some A]>
                    (replicate (Z.to_nat HSH_MAX_VERTEX_BUFFERS) None))
                 (replicate (Z.to_nat HshMaxStage)
                    (replicate (Z.to_nat HSH_MAX_TEXTURES) None))
                 (replicate (Z.to_nat HSH_MAX_COLOR_TARGETS) None))
              (mkParmTables 1
                 (<[3%nat := Some A]>
                    (replicate (Z.to_nat HSH_MAX_VERTEX_BUFFERS) None))
                 (replicate (Z.to_nat HshMaxStage)
                    (replicate (Z.to_nat HSH_MAX_TEXTURES) None))
                 (replicate (Z.to_nat HSH_MAX_COLOR_TARGETS) None))
              [] [mkDiag Error BadVertexBufferType 2%nat] G)
    as (Hrun & _).
  - reflexivity.
  - reflexivity.
  - exact Hrun.
Defined.

(** C8 as stated fails on both counts.  Of three vertex buffer parameters,
    the second is not of a record type and takes the index of the first,
    and the third is not of a record type either: both failures of the
    second are reported, not only the first of them, and [run] returns
    there, so that the failure of the third is not reported. *)
Lemma parameter_checks_report_all_of_first :
  let ok := mkParmType HBT_None
              (Some [mkRecordField 6%nat HBT_float3 OtherType]) in
  let bad := mkParmType HBT_None None in
  let A := mkParmVarDecl 1%nat "a" ok [mkHshAttr HshVertexBufferAttr 3] in
  let B := mkParmVarDecl 2%nat "b" bad [mkHshAttr HshVertexBufferAttr 3] in
  let C := mkParmVarDecl 3%nat "c" bad [mkHshAttr HshVertexBufferAttr 4] in
  let G := mkGenerateConsumer ∅ [] [] [] in
  run ShaderInterface_spec (fun _ G => G) [A; B; C] G
  = Done (mkGenerateConsumer ∅ [] []
            [mkDiag Error BadVertexBufferType 2%nat;
             mkDiag Error VertexBufferDuplicate 2%nat;
             mkDiag Note PreviousBufferIndexHere 1%nat]).
Proof. reflexivity. Qed.

(** * Further properties *)

(** ** Stages in use *)

Lemma nextUsedStage_loop_spec (U : Z) (n : nat) (D : Z) :
  let R := nextUsedStage_loop U n D in
  (R = HshNoStage
   /\ forall X, D <= X < D + Z.of_nat n -> StageUsed U X = false)
  \/ (D <= R < D + Z.of_nat n /\ StageUsed U R = true
      /\ forall X, D <= X < R -> StageUsed U X = false).
Proof.
  revert D. induction n as [|n IH]; intros D; simpl.
  - left. split; [done |]. intros X HX. lia.
  - destruct (StageUsed U D) eqn:HU.
    + right. split; [lia |]. split; [done |]. intros X HX. lia.
    + destruct (IH (D + 1)) as [[HR Hnone]|(HR & HUR & Hnone)].
      * left. split; [done |]. intros X HX.
        destruct (decide (X = D)) as [-> |Hne]; [done |]. apply Hnone. lia.
      * right. split; [lia |]. split; [done |]. intros X HX.
        destruct (decide (X = D)) as [-> |Hne]; [done |]. apply Hnone. lia.
Qed.

Lemma previousUsedStage_loop_spec (U : Z) (n : nat) (D : Z) :
  let R := previousUsedStage_loop U n D in
  (R = HshNoStage
   /\ forall X, D - Z.of_nat n < X <= D -> StageUsed U X = false)
  \/ (D - Z.of_nat n < R <= D /\ StageUsed U R = true
      /\ forall X, R < X <= D -> StageUsed U X = false).
Proof.
  revert D. induction n as [|n IH]; intros D; simpl.
  - left. split; [done |]. intros X HX. lia.
  - destruct (StageUsed U D) eqn:HU.
    + right. split; [lia |]. split; [done |]. intros X HX. lia.
    + destruct (IH (D - 1)) as [[HR Hnone]|(HR & HUR & Hnone)].
      * left. split; [done |]. intros X HX.
        destruct (decide (X = D)) as [-> |Hne]; [done |]. apply Hnone. lia.
      * right. split; [lia |]. split; [done |]. intros X HX.
        destruct (decide (X = D)) as [-> |Hne]; [done |]. apply Hnone. lia.
Qed.

Lemma nextUsedStage_spec (U Stage : Z) :
  Stage <= HshMaxStage ->
  let R := nextUsedStage U Stage in
  (R = HshNoStage
   /\ forall X, Stage < X < HshMaxStage -> StageUsed U X = false)
  \/ (Stage < R < HshMaxStage /\ StageUsed U R = true
      /\ forall X, Stage < X < R -> StageUsed U X = false).
Proof.
  intros HS R. unfold R, nextUsedStage.
  destruct (nextUsedStage_loop_spec U
              (Z.to_nat (HshMaxStage - (Stage + 1))) (Stage + 1))
    as [[HR Hnone]|(HR & HUR & Hnone)].
  - left. split; [done |]. intros X HX. apply Hnone. lia.
  - right. split; [lia |]. split; [done |]. intros X HX. apply Hnone. lia.
Qed.

Lemma previousUsedStage_spec (U Stage : Z) :
  let R := previousUsedStage U Stage in
  (R = HshNoStage
   /\ forall X, HshVertexStage <= X < Stage -> StageUsed U X = false)
  \/ (HshVertexStage <= R < Stage /\ StageUsed U R = true
      /\ forall X, R < X < Stage -> StageUsed U X = false).
Proof.
  intros R. unfold R, previousUsedStage.
  destruct (previousUsedStage_loop_spec U
              (Z.to_nat (Stage - HshVertexStage)) (Stage - 1))
    as [[HR Hnone]|(HR & HUR & Hnone)].
  - left. split; [done |]. intros X HX. apply Hnone. lia.
  - right. split; [lia |]. split; [done |]. intros X HX. apply Hnone. lia.
Qed.

(** X1.  [nextUsedStage] gives the nearest used stage after a stage, below
    [HshMaxStage], and [HshNoStage] exactly when there is none;
    [previousUsedStage] gives the nearest used stage before a stage, from
    the vertex stage on (the host stage is never given), and [HshNoStage]
    exactly when there is none. *)
Theorem nearest_used_stage (U Stage : Z) :
  HshNoStage <= Stage <= HshMaxStage ->
  (let R := nextUsedStage U Stage in
   (R = HshNoStage
    /\ forall X, Stage < X < HshMaxStage -> StageUsed U X = false)
   \/ (Stage < R < HshMaxStage /\ StageUsed U R = true
       /\ forall X, Stage < X < R -> StageUsed U X = false))
  /\ (let R := previousUsedStage U Stage in
      (R = HshNoStage
       /\ forall X, HshVertexStage <= X < Stage -> StageUsed U X = false)
      \/ (HshVertexStage <= R < Stage /\ StageUsed U R = true
          /\ forall X, R < X < Stage -> StageUsed U X = false)).
Proof.
  intros HS. split.
  - apply nextUsedStage_spec. lia.
  - apply previousUsedStage_spec.
Qed.

Lemma nearest_used_stage_witness :
  let R := nextUsedStage 35 HshVertexStage in
  (R = HshNoStage
   /\ forall X, HshVertexStage < X < HshMaxStage -> StageUsed 35 X = false)
  \/ (HshVertexStage < R < HshMaxStage /\ StageUsed 35 R = true
      /\ forall X, HshVertexStage < X < R -> StageUsed 35 X = false).
Proof.
  apply (nearest_used_stage 35 HshVertexStage).
  unfold HshNoStage, HshVertexStage, HshMaxStage. lia.
Defined.

(** X2.  Between used stages the two searches are inverse to each other:
    the stage before the stage after a used stage [S] is [S], and the stage
    after the stage before [S] is [S], whenever the stage in between
    exists. *)
Theorem used_stage_round_trip (U S R : Z) :
  HshVertexStage <= S < HshMaxStage -> StageUsed U S = true ->
  (nextUsedStage U S = R -> R <> HshNoStage -> previousUsedStage U R = S)
  /\ (previousUsedStage U S = R -> R <> HshNoStage ->
      nextUsedStage U R = S).
Proof.
  intros HS HU. unfold HshVertexStage, HshMaxStage, HshNoStage in *. split.
  - intros HR Hne.
    destruct (nextUsedStage_spec U S) as [[HN _]|(Hrange & HUR & Hnone)];
      [unfold HshMaxStage; lia | unfold HshNoStage in *; congruence |].
    rewrite HR in *. unfold HshMaxStage in *.
    destruct (previousUsedStage_spec U R)
      as [[_ Hnone']|(Hrange' & HUR' & Hnone')];
      unfold HshVertexStage in *.
    + rewrite Hnone' in HU by lia. done.
    + destruct (Z.lt_trichotomy (previousUsedStage U R) S) as [Hlt|[Heq|Hgt]].
      * rewrite Hnone' in HU by lia. done.
      * done.
      * rewrite Hnone in HUR' by lia. done.
  - intros HR Hne.
    destruct (previousUsedStage_spec U S)
      as [[HN _]|(Hrange & HUR & Hnone)];
      [unfold HshNoStage in *; congruence |].
    rewrite HR in *. unfold HshVertexStage in *.
    destruct (nextUsedStage_spec U R) as [[_ Hnone']|(Hrange' & HUR' & Hnone')];
      unfold HshMaxStage in *; [lia | |].
    + rewrite Hnone' in HU by lia. done.
    + destruct (Z.lt_trichotomy (nextUsedStage U R) S) as [Hlt|[Heq|Hgt]].
      * rewrite Hnone in HUR' by lia. done.
      * done.
      * rewrite Hnone' in HU by lia. done.
Qed.

Lemma used_stage_round_trip_witness :
  previousUsedStage 43 (nextUsedStage 43 HshVertexStage) = HshVertexStage
  /\ nextUsedStage 43 (previousUsedStage 43 HshFragmentStage)
     = HshFragmentStage.
Proof.
  split.
  - apply (used_stage_round_trip 43 HshVertexStage
             (nextUsedStage 43 HshVertexStage)); done.
  - apply (used_stage_round_trip 43 HshFragmentStage
             (previousUsedStage 43 HshFragmentStage)); done.
Defined.

(** ** The records the constructor declares *)

Lemma initHostRecords_at (U : Z) (n : nat) (D0 : Z)
    (Rs : list InterfaceRecord) (i : Z) (R0 : InterfaceRecord) :
  0 <= D0 -> D0 <= i < D0 + Z.of_nat n -> Rs !! Z.to_nat i = Some R0 ->
  initHostRecords U n D0 Rs !! Z.to_nat i =
    Some (if StageUsed U i then initializeRecord R0 HshHostStage i else R0).
Proof.
  revert D0 Rs. induction n as [|n IH]; intros D0 Rs HD0 Hi HR0; [lia |].
  simpl. destruct (decide (i = D0)) as [-> |Hne].
  - rewrite initHostRecords_below by lia.
    destruct (StageUsed U D0); [| done].
    by rewrite list_lookup_alter_eq, HR0.
  - apply IH; [lia | lia |].
    destruct (StageUsed U D0); [| done].
    rewrite list_lookup_alter_ne by lia. done.
Qed.

Lemma initInterRecords_at (U : Z) (n : nat) (D0 S0 : Z)
    (Rs : list InterfaceRecord) (i : Z) (R0 : InterfaceRecord) :
  0 <= D0 -> D0 <= i < D0 + Z.of_nat n -> Rs !! Z.to_nat i = Some R0 ->
  exists S',
    ((S' = S0 /\ forall X, D0 <= X < i -> StageUsed U X = false)
     \/ (D0 <= S' < i /\ StageUsed U S' = true
         /\ forall X, S' < X < i -> StageUsed U X = false))
    /\ initInterRecords U n D0 S0 Rs !! Z.to_nat i =
         Some (if StageUsed U i then initializeRecord R0 S' i else R0).
Proof.
  revert D0 S0 Rs. induction n as [|n IH]; intros D0 S0 Rs HD0 Hi HR0; [lia |].
  simpl. destruct (decide (i = D0)) as [-> |Hne].
  - exists S0. split; [left; split; [done | intros X HX; lia] |].
    destruct (StageUsed U D0).
    + rewrite initInterRecords_below by lia.
      by rewrite list_lookup_alter_eq, HR0.
    + by rewrite initInterRecords_below by lia.
  - destruct (StageUsed U D0) eqn:HU.
    + destruct (IH (D0 + 1) D0
                  (alter (fun R => initializeRecord R S0 D0) (Z.to_nat D0) Rs))
        as (S' & HS' & Hlook); [lia | lia | |].
      { rewrite list_lookup_alter_ne by lia. done. }
      exists S'. split; [| done]. right.
      destruct HS' as [[-> Hnone]|(HS' & HUS' & Hnone)].
      * split; [lia |]. split; [done |]. intros X HX. apply Hnone. lia.
      * split; [lia |]. done.
    + destruct (IH (D0 + 1) S0 Rs) as (S' & HS' & Hlook); [lia | lia | done |].
      exists S'. split; [| done].
      destruct HS' as [[-> Hnone]|(HS' & HUS' & Hnone)].
      * left. split; [done |]. intros X HX.
        destruct (decide (X = D0)) as [-> |HXne]; [done |]. apply Hnone. lia.
      * right. split; [lia |]. done.
Qed.

(** The stage that feeds the record of stage [D]: the used stage before
    [D], and the vertex stage when there is none. *)
Definition feedingStage (U D : Z) : HshStage :=
  if previousUsedStage U D =? HshNoStage then HshVertexStage
  else previousUsedStage U D.

Lemma feedingStage_nearest (U D S' : Z) :
  HshControlStage <= D ->
  (S' = HshVertexStage
   /\ forall X, HshControlStage <= X < D -> StageUsed U X = false)
  \/ (HshControlStage <= S' < D /\ StageUsed U S' = true
      /\ forall X, S' < X < D -> StageUsed U X = false) ->
  feedingStage U D = S'.
Proof.
  intros HD HS'. unfold feedingStage.
  destruct (previousUsedStage_spec U D) as [[-> Hnone]|(HR & HUR & Hnone)];
    unfold HshControlStage, HshVertexStage, HshNoStage in *; simpl.
  - destruct HS' as [[-> _]|(HS' & HUS' & _)]; [done |].
    rewrite Hnone in HUS' by lia. done.
  - set (R := previousUsedStage U D) in *.
    destruct (Z.eqb_spec R (-1)) as [Heq|Hneq]; [lia |].
    destruct HS' as [[-> Hnone']|(HS' & HUS' & Hnone')].
    + destruct (decide (R = 1)) as [|Hne]; [done |].
      rewrite Hnone' in HUR by lia. done.
    + destruct (Z.lt_trichotomy R S') as [Hlt|[Heq|Hgt]]; [| done |].
      * rewrite Hnone in HUS' by lia. done.
      * rewrite Hnone' in HUR by lia. done.
Qed.

Lemma StagesBuilder_new_inter (C : ASTContext) (U D : Z) :
  HshHostStage <= D < HshMaxStage ->
  array_get (InterStageRecords (StagesBuilder_new C U)) D =
    Done (if StageUsed U D && (HshControlStage <=? D)
          then initializeRecord InterfaceRecord_new (feedingStage U D) D
          else InterfaceRecord_new).
Proof.
  intros HD. unfold HshHostStage, HshMaxStage in *.
  assert (replicate (Z.to_nat HshMaxStage) InterfaceRecord_new
            !! Z.to_nat D = Some InterfaceRecord_new) as Hrep.
  { apply lookup_replicate_2. unfold HshMaxStage. lia. }
  apply array_get_Done. split; [lia |].
  unfold StagesBuilder_new. cbn [InterStageRecords].
  destruct (Z.leb_spec HshControlStage D) as [Hle|Hlt];
    unfold HshControlStage in *.
  - destruct (initInterRecords_at U
                (Z.to_nat (HshMaxStage - HshControlStage)) 2 HshVertexStage
                (replicate (Z.to_nat HshMaxStage) InterfaceRecord_new)
                D InterfaceRecord_new)
      as (S' & HS' & Hlook);
      [lia | unfold HshMaxStage, HshControlStage; lia | done |].
    unfold HshControlStage in Hlook. rewrite Hlook, andb_true_r.
    destruct (StageUsed U D); [| done].
    by rewrite (feedingStage_nearest U D S') by (unfold HshControlStage; done).
  - rewrite initInterRecords_below by lia. by rewrite andb_false_r.
Qed.

(** X3.  The constructor declares a host record for exactly the used
    stages from the vertex stage on, and a record between stages for
    exactly the used stages from the control stage on; the latter is
    declared as fed by the used stage before it, and by the vertex stage
    when no stage before it is used, the vertex stage itself included.
    Every other record is left as it is default-constructed. *)
Theorem constructor_records (C : ASTContext) (U D : Z) :
  HshHostStage <= D < HshMaxStage ->
  let b := StagesBuilder_new C U in
  array_get (HostToStageRecords b) D =
    Done (if StageUsed U D && (HshVertexStage <=? D)
          then initializeRecord InterfaceRecord_new HshHostStage D
          else InterfaceRecord_new)
  /\ array_get (InterStageRecords b) D =
       Done (if StageUsed U D && (HshControlStage <=? D)
             then initializeRecord InterfaceRecord_new (feedingStage U D) D
             else InterfaceRecord_new).
Proof.
  intros HD b. split; [| by apply StagesBuilder_new_inter].
  unfold HshHostStage, HshMaxStage in *.
  apply array_get_Done. split; [lia |].
  unfold b, StagesBuilder_new. cbn [HostToStageRecords].
  assert (replicate (Z.to_nat HshMaxStage) InterfaceRecord_new
            !! Z.to_nat D = Some InterfaceRecord_new) as Hrep.
  { apply lookup_replicate_2. unfold HshMaxStage. lia. }
  destruct (Z.leb_spec HshVertexStage D) as [Hle|Hlt];
    unfold HshVertexStage in *.
  - rewrite (initHostRecords_at U _ 1 _ D InterfaceRecord_new);
      [| lia | unfold HshMaxStage, HshVertexStage; lia | done].
    by rewrite andb_true_r.
  - rewrite initHostRecords_below by lia. by rewrite andb_false_r.
Qed.


Lemma constructor_records_witness :
  let b := StagesBuilder_new (mkASTContext 0%nat []) 41 in
  array_get (HostToStageRecords b) HshFragmentStage =
    Done (initializeRecord InterfaceRecord_new HshHostStage HshFragmentStage)
  /\ array_get (InterStageRecords b) HshFragmentStage =
       Done (initializeRecord InterfaceRecord_new HshEvaluationStage
               HshFragmentStage).
Proof.
  apply (constructor_records (mkASTContext 0%nat []) 41 HshFragmentStage).
  done.
Defined.

(** The pairs of [hops]: the second stage is used, and the first is the
    used stage before it on the path, or the stage the path starts from. *)
Lemma elem_of_hops (U : Z) (n : nat) (S0 D0 S D : Z) :
  (S, D) ∈ zip (S0 :: usedStages U n D0) (usedStages U n D0) ->
  D0 <= D < D0 + Z.of_nat n /\ StageUsed U D = true
  /\ ((S = S0 /\ forall X, D0 <= X < D -> StageUsed U X = false)
      \/ (D0 <= S < D /\ StageUsed U S = true
          /\ forall X, S < X < D -> StageUsed U X = false)).
Proof.
  revert S0 D0. induction n as [|n IH]; intros S0 D0; simpl.
  - intros Hin. by apply elem_of_nil in Hin.
  - destruct (StageUsed U D0) eqn:HU.
    + intros [Heq|Hin]%elem_of_cons.
      * injection Heq as -> ->. split; [lia |]. split; [done |].
        left. split; [done |]. intros X HX. lia.
      * destruct (IH D0 (D0 + 1) Hin) as (HD & HUD & Hprev).
        split; [lia |]. split; [done |]. right.
        destruct Hprev as [[-> Hnone]|(HS & HUS & Hnone)].
        -- split; [lia |]. split; [done |]. intros X HX. apply Hnone. lia.
        -- split; [lia |]. done.
    + intros Hin. destruct (IH S0 (D0 + 1) Hin) as (HD & HUD & Hprev).
      split; [lia |]. split; [done |].
      destruct Hprev as [[-> Hnone]|(HS & HUS & Hnone)].
      * left. split; [done |]. intros X HX.
        destruct (decide (X = D0)) as [-> |Hne]; [done |]. apply Hnone. lia.
      * right. split; [lia |]. done.
Qed.

(** X4.  When a value is carried on from the vertex stage, or from a used
    stage after it, every pair of stages [VisitExpr] makes a hop for is the
    pair the constructor declared the record of the second stage for: the
    record the hop writes to was declared as fed by the stage the hop
    assigns in. *)
Theorem hop_records_declared (C : ASTContext) (U From To S D : Z) :
  From = HshVertexStage
  \/ (HshVertexStage <= From /\ StageUsed U From = true) ->
  To < HshMaxStage ->
  (S, D) ∈ hops U From To ->
  array_get (InterStageRecords (StagesBuilder_new C U)) D =
    Done (initializeRecord InterfaceRecord_new S D).
Proof.
  intros HFrom HTo Hin. unfold hops in Hin.
  apply elem_of_hops in Hin as (HD & HUD & Hprev).
  assert (HshVertexStage <= From) as HF1 by (destruct HFrom; lia).
  unfold HshVertexStage, HshMaxStage in *.
  rewrite StagesBuilder_new_inter
    by (unfold HshHostStage, HshMaxStage; lia).
  rewrite HUD.
  rewrite (proj2 (Z.leb_le HshControlStage D))
    by (unfold HshControlStage; lia).
  simpl. do 2 f_equal.
  apply feedingStage_nearest; [unfold HshControlStage; lia |].
  unfold HshControlStage, HshVertexStage.
  destruct Hprev as [[-> Hnone]|(HS & HUS & Hnone)].
  - destruct HFrom as [-> |[_ HUF]].
    + left. split; [done |]. intros X HX. apply Hnone.
      unfold HshVertexStage. lia.
    + destruct (decide (From = 1)) as [-> |Hne].
      * left. split; [done |]. intros X HX. apply Hnone. lia.
      * right. split; [lia |]. split; [done |]. intros X HX.
        apply Hnone. lia.
  - right. split; [lia |]. done.
Qed.

Lemma hop_records_declared_witness :
  array_get (InterStageRecords (StagesBuilder_new (mkASTContext 0%nat []) 41))
    HshFragmentStage =
    Done (initializeRecord InterfaceRecord_new HshEvaluationStage
            HshFragmentStage).
Proof.
  apply (hop_records_declared (mkASTContext 0%nat []) 41 HshVertexStage
           HshFragmentStage HshEvaluationStage HshFragmentStage).
  - by left.
  - done.
  - vm_compute. apply list_elem_of_further, list_elem_of_here.
Defined.


(** ** Statements of a stage *)

(** X5.  Lifting a declaration statement from a stage to the same stage
    changes nothing, when the list of the stage is in order and the count of
    the declaration from the same variable, if there is one, is a positive
    [unsigned]: the count that [addStageStmt] adds, or the statement it
    appends, is taken back. *)
Theorem lift_within_stage (b : StagesBuilder) (DS : Stmt)
    (O : option VarDecl) (Stage : Z) (L : StageStmtList) :
  isa_DeclStmt DS = true ->
  array_get (StageStmts b) Stage = Done L ->
  stage_ok L ->
  (forall i c, declAt L O i c -> 0 < c < 2 ^ 32) ->
  liftDeclStmt DS Stage Stage O b = Done b.
Proof.
  intros Hisa HL Hok Hcount.
  destruct (addStageStmt_list_decl DS O L Hisa Hok)
    as (L' & Hadd & Hok' & Hinc & Hpush).
  destruct (dropDeclRef_list_decl O L' Hok')
    as (L'' & Hdrop & _ & Hdec & _).
  unfold liftDeclStmt, addStageStmt. rewrite HL. simpl. rewrite Hadd. simpl.
  rewrite (array_get_set_eq _ _ L L') by done. simpl. rewrite Hdrop. simpl.
  rewrite set_StageStmts_twice, array_set_twice.
  assert (L'' = L) as ->; [| by rewrite array_set_id, set_StageStmts_id].
  destruct (findDeclRef_Done O (Stmts L) (StmtDeclRefCount L) 0 (proj1 Hok))
    as [(i & c & St & _ & HS & HisaS & HC & _) | [_ Hnone]].
  - assert (declAt L O i c) as Hat by (by exists St).
    pose proof (Hcount i c Hat) as Hc.
    pose proof (lookup_lt_Some _ _ _ HC) as Hlt.
    pose proof (Hinc i c Hat) as ->.
    destruct (Hdec i (unsigned (c + 1))) as [_ Hnz].
    { exists St. simpl. split; [done |]. split; [done |].
      by apply list_lookup_insert_eq. }
    rewrite unsigned_succ_pred in Hnz by done. rewrite Hnz by lia. simpl.
    rewrite list_insert_insert_eq, list_insert_id by done. by destruct L.
  - assert (forall i c, ~ declAt L O i c) as Habs.
    { intros i c (St & HS & HisaS & HC). by apply (Hnone i St (c, O)). }
    pose proof (Hpush Habs) as ->.
    destruct (Hdec (length (Stmts L)) 1) as [Hz _].
    { exists DS. simpl. split; [| split; [done |]].
      - by apply list_lookup_middle.
      - rewrite (proj1 Hok). by apply list_lookup_middle. }
    destruct (Hz eq_refl) as [-> _]. simpl.
    rewrite delete_last. rewrite (proj1 Hok), delete_last. by destruct L.
Qed.

Lemma lift_within_stage_witness :
  let DS := DeclStmt 9%nat (LocalVar 4%nat) in
  let O := Some (LocalVar 3%nat) in
  let L := mkStageStmtList [DeclStmt 8%nat (LocalVar 5%nat)] [(2, O)] in
  let E := mkStageStmtList [] [] in
  let b :=
    mkStagesBuilder (mkASTContext 10%nat []) 35 [] []
      [E; L; E; E; E; E] [] [] []
      (mkAssignmentFinderInfo None None None) None ∅ in
  liftDeclStmt DS HshVertexStage HshVertexStage O b = Done b.
Proof.
  intros DS O L E b.
  apply (lift_within_stage b DS O HshVertexStage L).
  - done.
  - done.
  - split; [done |].
    intros O' [|i] [|j] ci cj (? & H1 & _) (? & H2 & _); simpl in *; done.
  - intros [|i] c (? & H1 & _ & H2); simpl in *; [| done].
    injection H2 as <-. lia.
Defined.

(** X6.  Adding a statement that is not a declaration statement to a stage
    leaves the statements of every other stage alone, keeps those of the
    stage in their order and appends the statement only when the stage does
    not hold it yet; adding it once more, for whichever variable, changes
    nothing. *)
Theorem expression_statement_added_once (b : StagesBuilder) (S : Stmt)
    (O : option VarDecl) (Stage : Z) (L : StageStmtList) :
  isa_DeclStmt S = false ->
  array_get (StageStmts b) Stage = Done L ->
  exists b' L',
    addStageStmt S Stage O b = Done b'
    /\ array_get (StageStmts b') Stage = Done L'
    /\ Stmts L' = (if bool_decide (S ∈ Stmts L) then Stmts L
                   else Stmts L ++ [S])
    /\ (length (Stmts L) = length (StmtDeclRefCount L) ->
        length (Stmts L') = length (StmtDeclRefCount L'))
    /\ (forall D, D <> Stage ->
          array_get (StageStmts b') D = array_get (StageStmts b) D)
    /\ forall O', addStageStmt S Stage O' b' = Done b'.
Proof.
  intros Hisa HL.
  pose proof (proj1 (array_get_Done _ _ _) HL) as [H0 _].
  unfold addStageStmt, addStageStmt_list. rewrite HL. simpl. rewrite Hisa.
  case_bool_decide as Hin; simpl.
  - exists b, L. rewrite array_set_id, set_StageStmts_id by done.
    split; [done |]. split; [done |]. split; [done |]. split; [done |].
    split; [done |]. intros O'. rewrite HL. simpl.
    rewrite bool_decide_eq_true_2 by done. simpl.
    by rewrite array_set_id, set_StageStmts_id.
  - eexists _, (pushStageStmt S O L). split; [done |]. simpl.
    rewrite (array_get_set_eq _ _ L) by done.
    split; [done |]. split; [done |].
    split; [intros Hlen; rewrite !length_app; simpl; lia |].
    split.
    + intros D HD. unfold array_get, array_set. rewrite length_insert.
      destruct ((0 <=? D) && (D <? Z.of_nat (length (StageStmts b)))) eqn:Hr;
        [| done].
      rewrite list_lookup_insert_ne; [done |].
      apply andb_true_iff in Hr as [?%Z.leb_le _]. lia.
    + intros O'. simpl.
      rewrite bool_decide_eq_true_2 by (apply elem_of_app; right; left).
      simpl. by rewrite array_set_twice.
Qed.

Lemma expression_statement_added_once_witness :
  let S := ExprStmt (IntegerLiteral 7%nat 1) in
  let E := mkStageStmtList [] [] in
  let b :=
    mkStagesBuilder (mkASTContext 10%nat []) 35 [] []
      [E; E; E; E; E; E] [] [] []
      (mkAssignmentFinderInfo None None None) None ∅ in
  exists b' L',
    addStageStmt S HshVertexStage None b = Done b'
    /\ array_get (StageStmts b') HshVertexStage = Done L'
    /\ Stmts L' = (if bool_decide (S ∈ Stmts E) then Stmts E
                   else Stmts E ++ [S])
    /\ (length (Stmts E) = length (StmtDeclRefCount E) ->
        length (Stmts L') = length (StmtDeclRefCount L'))
    /\ (forall D, D <> HshVertexStage ->
          array_get (StageStmts b') D = array_get (StageStmts b) D)
    /\ forall O', addStageStmt S HshVertexStage O' b' = Done b'.
Proof.
  intros S E b.
  apply (expression_statement_added_once b S None HshVertexStage E); done.
Defined.


(** ** Captures, attribute records and color targets *)

Lemma registerUsedCapture_elem (PVD : Ptr) (UC : list Ptr) (p : Ptr) :
  p ∈ registerUsedCapture PVD UC <-> p ∈ UC \/ p = PVD.
Proof.
  unfold registerUsedCapture.
  destruct (existsb _ UC) eqn:Hex.
  - apply existsb_exists in Hex as (x & Hx%list_elem_of_In & Heq).
    apply bool_decide_eq_true in Heq. subst x. split; [by left |].
    by intros [? | ->].
  - rewrite elem_of_app, list_elem_of_singleton. done.
Qed.

Lemma registerUsedCapture_NoDup (PVD : Ptr) (UC : list Ptr) :
  NoDup UC -> NoDup (registerUsedCapture PVD UC).
Proof.
  intros Hnd. unfold registerUsedCapture.
  destruct (existsb _ UC) eqn:Hex; [done |].
  apply NoDup_app. split; [done |]. split; [| apply NoDup_singleton].
  intros x Hx ->%list_elem_of_singleton.
  assert (existsb (fun EC => bool_decide (EC = PVD)) UC = true) as Hex'.
  { apply existsb_exists. exists PVD. split; [by apply list_elem_of_In |].
    by apply bool_decide_eq_true. }
  congruence.
Qed.

Lemma registerUsedCapture_sublist (PVD : Ptr) (UC Seen : list Ptr) :
  UC `sublist_of` Seen ->
  registerUsedCapture PVD UC `sublist_of` Seen ++ [PVD].
Proof.
  intros Hsub. unfold registerUsedCapture.
  destruct (existsb _ UC).
  - by apply sublist_inserts_r.
  - by apply sublist_app.
Qed.

Lemma registerUsedCaptures_inv (PVDs Seen UC : list Ptr) :
  NoDup UC -> UC `sublist_of` Seen -> (forall p, p ∈ Seen -> p ∈ UC) ->
  let UC' := foldl (fun UC PVD => registerUsedCapture PVD UC) UC PVDs in
  NoDup UC' /\ UC' `sublist_of` Seen ++ PVDs
  /\ forall p, p ∈ Seen ++ PVDs -> p ∈ UC'.
Proof.
  revert Seen UC. induction PVDs as [|PVD PVDs IH]; intros Seen UC Hnd Hsub Hin.
  - simpl. rewrite app_nil_r. done.
  - simpl. rewrite (cons_middle PVD Seen PVDs), app_assoc. apply IH.
    + by apply registerUsedCapture_NoDup.
    + by apply registerUsedCapture_sublist.
    + intros p [Hp | ->%list_elem_of_singleton]%elem_of_app;
        apply registerUsedCapture_elem; [left; by apply Hin | by right].
Qed.

(** X7.  However often and in whichever order parameters are registered as
    used captures, the vector of used captures holds every registered
    parameter once, in the order in which the parameters were registered
    first, and nothing else; registering one of them again changes
    nothing. *)
Theorem used_captures_unique (PVDs : list Ptr) :
  let UsedCaptures :=
    foldl (fun UC PVD => registerUsedCapture PVD UC) [] PVDs in
  NoDup UsedCaptures
  /\ UsedCaptures `sublist_of` PVDs
  /\ (forall p, p ∈ UsedCaptures <-> p ∈ PVDs)
  /\ (forall p, p ∈ PVDs -> registerUsedCapture p UsedCaptures = UsedCaptures).
Proof.
  destruct (registerUsedCaptures_inv PVDs [] [])
    as (Hnd & Hsub & Hin);
    [apply NoDup_nil_2 | done | by intros p ?%elem_of_nil |].
  simpl in Hsub, Hin. intros UC.
  split; [done |]. split; [done |].
  assert (forall p, p ∈ UC <-> p ∈ PVDs) as Hiff.
  { intros p. split; [| apply Hin]. intros Hp. by eapply elem_of_sublist. }
  split; [done |].
  intros p Hp%Hiff. unfold registerUsedCapture.
  assert (existsb (fun EC => bool_decide (EC = p)) UC = true) as ->; [| done].
  apply existsb_exists. exists p. split; [by apply list_elem_of_In |].
  by apply bool_decide_eq_true.
Qed.

(** The attribute record [run] makes of the vertex buffer parameter of slot
    [i]. *)
Definition attributeOf (P : ParmVarDecl) (i : Z) : AttributeRecord :=
  mkAttributeRecord (ParmName P) (StructureOrClass (ParmTypeOf P))
    (if hasAttr HshVertexBufferAttr P then PerVertex else PerInstance) i.

(** What holds of the attribute records once the slots [Pre] have been gone
    through. *)
Definition attributes_ok (Pre : list (option ParmVarDecl))
    (Rs : list AttributeRecord) : Prop :=
  NoDup (AttributeName <$> Rs)
  /\ (forall i j A B, Rs !! i = Some A -> Rs !! j = Some B -> (i < j)%nat ->
        Binding A < Binding B)
  /\ (forall A, A ∈ Rs ->
        0 <= Binding A < Z.of_nat (length Pre)
        /\ exists P, Pre !! Z.to_nat (Binding A) = Some (Some P)
                     /\ A = attributeOf P (Binding A))
  /\ (forall i P, Pre !! i = Some (Some P) ->
        exists A, A ∈ Rs /\ AttributeName A = ParmName P
                  /\ Binding A <= Z.of_nat i).

Lemma list_find_name {A} (key : A -> string) (k : string) (l : list A) :
  match list_find (fun a => key a = k) l with
  | Some (_, a) => a ∈ l /\ key a = k
  | None => k ∉ key <$> l
  end.
Proof.
  destruct (list_find _ l) as [[i a]|] eqn:Hf.
  - apply list_find_Some in Hf as (Hl & Hk & _).
    split; [by eapply list_elem_of_lookup_2 | done].
  - apply list_find_None in Hf.
    intros (a & Hk & Ha)%list_elem_of_fmap.
    rewrite Forall_forall in Hf. by apply (Hf a).
Qed.

Lemma attributes_ok_step (Pre : list (option ParmVarDecl))
    (Slot : option ParmVarDecl) (Rs : list AttributeRecord) :
  attributes_ok Pre Rs ->
  attributes_ok (Pre ++ [Slot])
    match Slot with
    | Some P =>
        registerAttributeRecord (attributeOf P (Z.of_nat (length Pre))) Rs
    | None => Rs
    end.
Proof.
  intros (Hnd & Hsort & Hback & Hforth).
  assert (forall A, A ∈ Rs ->
            0 <= Binding A < Z.of_nat (length (Pre ++ [Slot]))
            /\ exists P, (Pre ++ [Slot]) !! Z.to_nat (Binding A) = Some (Some P)
                         /\ A = attributeOf P (Binding A)) as Hback'.
  { intros A [HA (P & HP & HAP)]%Hback. rewrite length_app. simpl.
    split; [lia |]. exists P. split; [| done].
    by apply lookup_app_l_Some. }
  assert (forall i P, Pre !! i = Some (Some P) ->
            exists A, A ∈ Rs /\ AttributeName A = ParmName P
                      /\ Binding A <= Z.of_nat i) as Hforth' by done.
  destruct Slot as [P|].
  - unfold registerAttributeRecord.
    pose proof (list_find_name AttributeName
                  (AttributeName (attributeOf P (Z.of_nat (length Pre)))) Rs)
      as Hfind.
    destruct (list_find _ Rs) as [[k A]|].
    + destruct Hfind as [HA Hname].
      split; [done |]. split; [done |]. split; [done |].
      intros i P' Hi.
      destruct (decide (i < length Pre)%nat) as [Hlt|Hge].
      * rewrite lookup_app_l in Hi by done. by apply Hforth.
      * rewrite lookup_app_r in Hi by lia.
        destruct (i - length Pre)%nat as [|n] eqn:Hn; simpl in Hi; [| done].
        injection Hi as <-. exists A. split; [done |]. split; [done |].
        destruct (Hback A HA) as [? _]. lia.
    + split; [| split; [| split]].
      * rewrite fmap_app. apply NoDup_app. split; [done |].
        split; [| apply NoDup_singleton].
        by intros x Hx ->%list_elem_of_singleton.
      * intros i j A B Hi Hj Hij.
        pose proof (lookup_lt_Some _ _ _ Hj) as Hjlt.
        rewrite length_app in Hjlt. simpl in Hjlt.
        rewrite lookup_app_l in Hi by lia.
        destruct (decide (j < length Rs)%nat) as [Hlt|Hge].
        -- rewrite lookup_app_l in Hj by done. by eapply Hsort.
        -- rewrite lookup_app_r in Hj by lia.
           destruct (j - length Rs)%nat as [|n] eqn:Hn; simpl in Hj; [| done].
           injection Hj as <-. simpl.
           destruct (Hback A) as [? _]; [by eapply list_elem_of_lookup_2 |].
           lia.
      * intros A [HA | ->%list_elem_of_singleton]%elem_of_app;
          [by apply Hback' |].
        simpl. rewrite length_app. simpl. split; [lia |].
        exists P. rewrite Nat2Z.id. split; [| done].
        by apply list_lookup_middle.
      * intros i P' Hi.
        destruct (decide (i < length Pre)%nat) as [Hlt|Hge].
        -- rewrite lookup_app_l in Hi by done.
           destruct (Hforth _ _ Hi) as (A & HA & HAn & HAb).
           exists A. split; [apply elem_of_app; by left | done].
        -- rewrite lookup_app_r in Hi by lia.
           destruct (i - length Pre)%nat as [|n] eqn:Hn; simpl in Hi; [| done].
           injection Hi as <-. eexists. split; [apply elem_of_app; right; left |].
           simpl. split; [done | lia].
  - split; [done |]. split; [done |]. split; [done |].
    intros i P Hi.
    destruct (decide (i < length Pre)%nat) as [Hlt|Hge].
    + rewrite lookup_app_l in Hi by done. by apply Hforth.
    + rewrite lookup_app_r in Hi by lia.
      destruct (i - length Pre)%nat as [|n]; simpl in Hi; done.
Qed.

Lemma registerVertexBuffers_ok (Slots Pre : list (option ParmVarDecl))
    (Rs : list AttributeRecord) :
  attributes_ok Pre Rs ->
  attributes_ok (Pre ++ Slots)
    (registerVertexBuffers Slots (Z.of_nat (length Pre)) Rs).
Proof.
  revert Pre Rs. induction Slots as [|Slot Slots IH]; intros Pre Rs Hok.
  - simpl. by rewrite app_nil_r.
  - simpl. rewrite (cons_middle Slot Pre Slots), app_assoc.
    replace (Z.of_nat (length Pre) + 1)
      with (Z.of_nat (length (Pre ++ [Slot])))
      by (rewrite length_app; simpl; lia).
    apply IH. apply (attributes_ok_step Pre Slot Rs Hok).
Qed.

(** X8.  The attribute records [run] registers from the vertex buffer
    slots: no two have the same name; they are in ascending order of their
    bindings; every record is the one of the parameter that holds the slot
    of its binding; and every parameter that holds a slot has a record of
    its name, with the binding of the lowest slot held under that name. *)
Theorem attribute_records_of_slots (Slots : list (option ParmVarDecl)) :
  let Rs := registerVertexBuffers Slots 0 [] in
  NoDup (AttributeName <$> Rs)
  /\ (forall i j A B, Rs !! i = Some A -> Rs !! j = Some B -> (i < j)%nat ->
        Binding A < Binding B)
  /\ (forall A, A ∈ Rs ->
        0 <= Binding A < Z.of_nat (length Slots)
        /\ exists P, Slots !! Z.to_nat (Binding A) = Some (Some P)
                     /\ A = attributeOf P (Binding A))
  /\ (forall i P, Slots !! i = Some (Some P) ->
        exists A, A ∈ Rs /\ AttributeName A = ParmName P
                  /\ Binding A <= Z.of_nat i).
Proof.
  apply (registerVertexBuffers_ok Slots [] []).
  split; [apply NoDup_nil_2 |]. split; [by intros i j A B ? |].
  split; [by intros A ?%elem_of_nil | done].
Qed.

(** The color target record [run] makes of the color target parameter of
    slot [i]. *)
Definition colorTargetOf (P : ParmVarDecl) (i : Z) : ColorTargetRecord :=
  mkColorTargetRecord (ParmName P) i.

(** What holds of the color target records once the slots [Pre] have been gone
    through. *)
Definition colorTargets_ok (Pre : list (option ParmVarDecl))
    (Rs : list ColorTargetRecord) : Prop :=
  NoDup (ColorTargetName <$> Rs)
  /\ (forall i j A B, Rs !! i = Some A -> Rs !! j = Some B -> (i < j)%nat ->
        ColorTargetIndex A < ColorTargetIndex B)
  /\ (forall A, A ∈ Rs ->
        0 <= ColorTargetIndex A < Z.of_nat (length Pre)
        /\ exists P, Pre !! Z.to_nat (ColorTargetIndex A) = Some (Some P)
                     /\ A = colorTargetOf P (ColorTargetIndex A))
  /\ (forall i P, Pre !! i = Some (Some P) ->
        exists A, A ∈ Rs /\ ColorTargetName A = ParmName P
                  /\ ColorTargetIndex A <= Z.of_nat i).

Lemma colorTargets_ok_step (Pre : list (option ParmVarDecl))
    (Slot : option ParmVarDecl) (Rs : list ColorTargetRecord) :
  colorTargets_ok Pre Rs ->
  colorTargets_ok (Pre ++ [Slot])
    match Slot with
    | Some P =>
        registerColorTarget (colorTargetOf P (Z.of_nat (length Pre))) Rs
    | None => Rs
    end.
Proof.
  intros (Hnd & Hsort & Hback & Hforth).
  assert (forall A, A ∈ Rs ->
            0 <= ColorTargetIndex A < Z.of_nat (length (Pre ++ [Slot]))
            /\ exists P, (Pre ++ [Slot]) !! Z.to_nat (ColorTargetIndex A) = Some (Some P)
                         /\ A = colorTargetOf P (ColorTargetIndex A)) as Hback'.
  { intros A [HA (P & HP & HAP)]%Hback. rewrite length_app. simpl.
    split; [lia |]. exists P. split; [| done].
    by apply lookup_app_l_Some. }
  assert (forall i P, Pre !! i = Some (Some P) ->
            exists A, A ∈ Rs /\ ColorTargetName A = ParmName P
                      /\ ColorTargetIndex A <= Z.of_nat i) as Hforth' by done.
  destruct Slot as [P|].
  - unfold registerColorTarget.
    pose proof (list_find_name ColorTargetName
                  (ColorTargetName (colorTargetOf P (Z.of_nat (length Pre)))) Rs)
      as Hfind.
    destruct (list_find _ Rs) as [[k A]|].
    + destruct Hfind as [HA Hname].
      split; [done |]. split; [done |]. split; [done |].
      intros i P' Hi.
      destruct (decide (i < length Pre)%nat) as [Hlt|Hge].
      * rewrite lookup_app_l in Hi by done. by apply Hforth.
      * rewrite lookup_app_r in Hi by lia.
        destruct (i - length Pre)%nat as [|n] eqn:Hn; simpl in Hi; [| done].
        injection Hi as <-. exists A. split; [done |]. split; [done |].
        destruct (Hback A HA) as [? _]. lia.
    + split; [| split; [| split]].
      * rewrite fmap_app. apply NoDup_app. split; [done |].
        split; [| apply NoDup_singleton].
        by intros x Hx ->%list_elem_of_singleton.
      * intros i j A B Hi Hj Hij.
        pose proof (lookup_lt_Some _ _ _ Hj) as Hjlt.
        rewrite length_app in Hjlt. simpl in Hjlt.
        rewrite lookup_app_l in Hi by lia.
        destruct (decide (j < length Rs)%nat) as [Hlt|Hge].
        -- rewrite lookup_app_l in Hj by done. by eapply Hsort.
        -- rewrite lookup_app_r in Hj by lia.
           destruct (j - length Rs)%nat as [|n] eqn:Hn; simpl in Hj; [| done].
           injection Hj as <-. simpl.
           destruct (Hback A) as [? _]; [by eapply list_elem_of_lookup_2 |].
           lia.
      * intros A [HA | ->%list_elem_of_singleton]%elem_of_app;
          [by apply Hback' |].
        simpl. rewrite length_app. simpl. split; [lia |].
        exists P. rewrite Nat2Z.id. split; [| done].
        by apply list_lookup_middle.
      * intros i P' Hi.
        destruct (decide (i < length Pre)%nat) as [Hlt|Hge].
        -- rewrite lookup_app_l in Hi by done.
           destruct (Hforth _ _ Hi) as (A & HA & HAn & HAb).
           exists A. split; [apply elem_of_app; by left | done].
        -- rewrite lookup_app_r in Hi by lia.
           destruct (i - length Pre)%nat as [|n] eqn:Hn; simpl in Hi; [| done].
           injection Hi as <-. eexists. split; [apply elem_of_app; right; left |].
           simpl. split; [done | lia].
  - split; [done |]. split; [done |]. split; [done |].
    intros i P Hi.
    destruct (decide (i < length Pre)%nat) as [Hlt|Hge].
    + rewrite lookup_app_l in Hi by done. by apply Hforth.
    + rewrite lookup_app_r in Hi by lia.
      destruct (i - length Pre)%nat as [|n]; simpl in Hi; done.
Qed.

Lemma registerColorTargets_ok (Slots Pre : list (option ParmVarDecl))
    (Rs : list ColorTargetRecord) :
  colorTargets_ok Pre Rs ->
  colorTargets_ok (Pre ++ Slots)
    (registerColorTargets Slots (Z.of_nat (length Pre)) Rs).
Proof.
  revert Pre Rs. induction Slots as [|Slot Slots IH]; intros Pre Rs Hok.
  - simpl. by rewrite app_nil_r.
  - simpl. rewrite (cons_middle Slot Pre Slots), app_assoc.
    replace (Z.of_nat (length Pre) + 1)
      with (Z.of_nat (length (Pre ++ [Slot])))
      by (rewrite length_app; simpl; lia).
    apply IH. apply (colorTargets_ok_step Pre Slot Rs Hok).
Qed.

(** X9.  The color target records [run] registers from the color target
    slots: no two have the same name; they are in ascending order of their
    indices; every record has the name of the parameter that holds the slot
    of its index; and every parameter that holds a slot has a record of its
    name, with the index of the lowest slot held under that name. *)
Theorem color_target_records_of_slots (Slots : list (option ParmVarDecl)) :
  let Rs := registerColorTargets Slots 0 [] in
  NoDup (ColorTargetName <$> Rs)
  /\ (forall i j A B, Rs !! i = Some A -> Rs !! j = Some B -> (i < j)%nat ->
        ColorTargetIndex A < ColorTargetIndex B)
  /\ (forall A, A ∈ Rs ->
        0 <= ColorTargetIndex A < Z.of_nat (length Slots)
        /\ exists P, Slots !! Z.to_nat (ColorTargetIndex A) = Some (Some P)
                     /\ A = colorTargetOf P (ColorTargetIndex A))
  /\ (forall i P, Slots !! i = Some (Some P) ->
        exists A, A ∈ Rs /\ ColorTargetName A = ParmName P
                  /\ ColorTargetIndex A <= Z.of_nat i).
Proof.
  apply (registerColorTargets_ok Slots [] []).
  split; [apply NoDup_nil_2 |]. split; [by intros i j A B ? |].
  split; [by intros A ?%elem_of_nil | done].
Qed.


(** ** Fields of a vertex buffer record *)

(** The fields [CheckHshFieldTypeCompatibility] accepts: those of a builtin
    type that is not a texture type, and those of type [float] or
    [double]. *)
Definition fieldAccepted (FD : RecordField) : bool :=
  (negb (bool_decide (FieldBuiltin FD = HBT_None))
   && negb (isTextureType (FieldBuiltin FD)))
  || match FieldClass FD with
     | FloatType | DoubleType => true
     | _ => false
     end.

(** The message for a field that is not accepted. *)
Definition fieldMessage (FD : RecordField) : DiagMessage :=
  match FieldClass FD with
  | IntegralOrEnumeration IntWidth =>
      if IntWidth =? 32 then BadRecordType else BadIntegerType
  | _ => BadRecordType
  end.

Lemma CheckHshFieldTypeCompatibility_verdict (FD : RecordField)
    (Diags : list Diagnostic) :
  CheckHshFieldTypeCompatibility FD Diags =
    if fieldAccepted FD then (true, Diags)
    else (false, Diags ++ [mkDiag Error (fieldMessage FD) (FieldPtr FD)]).
Proof.
  unfold CheckHshFieldTypeCompatibility, fieldAccepted, fieldMessage,
    ReportCustom.
  destruct (negb (bool_decide _) && negb _); simpl; [done |].
  destruct (FieldClass FD) as [w| | |]; try done.
  by destruct (w =? 32).
Qed.

Lemma CheckHshRecordCompatibility_verdict (fields : list RecordField)
    (Diags : list Diagnostic) :
  CheckHshRecordCompatibility fields Diags =
    (forallb fieldAccepted fields,
     Diags ++ ((fun FD => mkDiag Error (fieldMessage FD) (FieldPtr FD))
                 <$> filter (fun FD => fieldAccepted FD = false) fields)).
Proof.
  revert Diags. induction fields as [|FD fields IH]; intros Diags; simpl.
  - by rewrite app_nil_r.
  - rewrite CheckHshFieldTypeCompatibility_verdict.
    destruct (fieldAccepted FD) eqn:Hacc.
    + rewrite IH. rewrite filter_cons_False by congruence. done.
    + rewrite IH. rewrite filter_cons_True by done. simpl.
      by rewrite <- app_assoc.
Qed.

(** X10.  [CheckHshRecordCompatibility] goes through every field of the
    record: it accepts the record exactly when every field is of a builtin
    type that is not a texture type, or of type [float] or [double]; it
    reports one error for every other field, at the field and in the order
    of the fields, and nothing else.  In particular a record with a field of
    an integer or enumeration type is never accepted, whatever the width:
    the error is about the integer when the width is not 32, and about the
    record when it is. *)
Theorem record_compatibility (fields : list RecordField)
    (Diags : list Diagnostic) :
  let r := CheckHshRecordCompatibility fields Diags in
  (r.1 = true <-> forall FD, FD ∈ fields -> fieldAccepted FD = true)
  /\ r.2 = Diags ++ ((fun FD => mkDiag Error (fieldMessage FD) (FieldPtr FD))
                       <$> filter (fun FD => fieldAccepted FD = false) fields)
  /\ (forall FD w, FD ∈ fields -> FieldBuiltin FD = HBT_None ->
        FieldClass FD = IntegralOrEnumeration w ->
        r.1 = false
        /\ mkDiag Error (if w =? 32 then BadRecordType else BadIntegerType)
             (FieldPtr FD) ∈ r.2).
Proof.
  intros r. unfold r. rewrite CheckHshRecordCompatibility_verdict. simpl.
  split; [| split; [done |]].
  - rewrite forallb_forall. split.
    + intros H FD HFD. apply H. by apply list_elem_of_In.
    + intros H FD HFD. apply H. by apply list_elem_of_In.
  - intros FD w HFD HB HC.
    assert (fieldAccepted FD = false) as Hrej.
    { unfold fieldAccepted. by rewrite HB, HC. }
    split.
    + apply not_true_is_false. rewrite forallb_forall. intros H.
      rewrite (H FD) in Hrej by (by apply list_elem_of_In). done.
    + apply elem_of_app. right. apply list_elem_of_fmap. exists FD.
      split; [unfold fieldMessage; by rewrite HC |].
      by apply list_elem_of_filter.
Qed.

(** ** The verdict of the parameter checks *)

Section CheckFacts.

Variable ShaderInterface :
  list (AttrKind * HshStage * HshInterfaceDirection).

#[local] Abbreviation checkParameters' :=
  (checkParameters ShaderInterface).
#[local] Abbreviation checkParameter' :=
  (checkParameter ShaderInterface).
#[local] Abbreviation isInput P :=
  (DetermineParmVarDirection ShaderInterface P = HshInput).

(** A check is silent when it accepts, and has added diagnostics, an error
    among them, and left the tables alone when it rejects. *)
Definition verdict (T : ParmTables) (Diags : list Diagnostic)
    (r : bool * ParmTables * list Diagnostic) : Prop :=
  if r.1.1 then r.2 = Diags
  else r.1.2 = T
       /\ exists More, r.2 = Diags ++ More
                       /\ Exists (fun d => Level d = Error) More.

Lemma Exists_Error_snoc (More : list Diagnostic) (msg : DiagMessage)
    (at_ : Ptr) :
  Exists (fun d => Level d = Error) (More ++ [mkDiag Error msg at_]).
Proof. apply Exists_app. right. by left. Qed.

Lemma CheckVertexBufferParm_verdict (PVD : ParmVarDecl) (Res : Z)
    (T : ParmTables) (Diags : list Diagnostic)
    (r : bool * ParmTables * list Diagnostic) :
  CheckVertexBufferParm PVD Res T Diags = Done r -> verdict T Diags r.
Proof.
  unfold CheckVertexBufferParm, CheckVertexBufferParm_checks, verdict,
    ReportCustom.
  assert (exists Ret1 More1,
            match StructureOrClass (ParmTypeOf PVD) with
            | Some fields => CheckHshRecordCompatibility fields Diags
            | None => (false, Diags ++ [mkDiag Error BadVertexBufferType
                                          (ParmPtr PVD)])
            end = (Ret1, Diags ++ More1)
            /\ if Ret1 then More1 = []
               else Exists (fun d => Level d = Error) More1)
    as (Ret1 & More1 & -> & H1).
  { destruct (StructureOrClass (ParmTypeOf PVD)) as [fields|].
    - rewrite CheckHshRecordCompatibility_verdict.
      eexists _, _. split; [done |].
      destruct (forallb fieldAccepted fields) eqn:Hall.
      + rewrite forallb_forall in Hall.
        induction fields as [|FD fields IH]; [done |].
        rewrite filter_cons_False.
        * apply IH. intros x Hx. apply Hall. by right.
        * rewrite (Hall FD) by (by left). done.
      + apply Exists_fmap. simpl.
        induction fields as [|FD fields IH]; [done |]. simpl in Hall.
        destruct (fieldAccepted FD) eqn:Hacc; simpl in Hall.
        * rewrite filter_cons_False by congruence. by apply IH.
        * rewrite filter_cons_True by done. by left.
    - exists false, [mkDiag Error BadVertexBufferType (ParmPtr PVD)].
      split; [done |]. by left. }
  destruct ((Res <? 0) || (HSH_MAX_VERTEX_BUFFERS <=? Res));
    destruct (readVertexBufferParm T Res) as [[OtherPVD|]| |]; simpl;
    try done.
  - intros [= <-]; simpl.
    split; [done |]. eexists. rewrite <- !app_assoc. split; [done |].
    apply Exists_app. right. apply Exists_app. left. by left.
  - intros [= <-]; simpl.
    split; [done |]. eexists. rewrite <- !app_assoc. split; [done |].
    apply Exists_app. right. by left.
  - intros [= <-]; simpl.
    split; [done |]. eexists. rewrite <- !app_assoc. split; [done |].
    apply Exists_app. right. by left.
  - destruct Ret1; simpl; intros [= <-]; simpl.
    + subst More1. by rewrite app_nil_r.
    + split; [done |]. by exists More1.
Qed.

Lemma CheckTextureParm_verdict (PVD : ParmVarDecl) (Res : Z) (Stage : Z)
    (T : ParmTables) (Diags : list Diagnostic)
    (r : bool * ParmTables * list Diagnostic) :
  CheckTextureParm PVD Res Stage T Diags = Done r -> verdict T Diags r.
Proof.
  unfold CheckTextureParm, CheckTextureParm_checks, verdict, ReportCustom.
  destruct (negb (isTextureType (Builtin (ParmTypeOf PVD))));
    destruct ((Res <? 0) || (HSH_MAX_TEXTURES <=? Res));
    destruct (readTextureParm T Stage Res) as [[OtherPVD|]| |]; simpl;
    try done; intros [= <-]; simpl; try done;
    (split; [done |]); eexists; rewrite <- ?app_assoc; (split; [done |]);
    simpl; repeat constructor.
Qed.

Lemma CheckColorTargetParm_verdict (PVD : ParmVarDecl) (Res : Z)
    (T : ParmTables) (Diags : list Diagnostic) :
  verdict T Diags (CheckColorTargetParm PVD Res T Diags).
Proof.
  unfold CheckColorTargetParm, verdict, ReportCustom.
  destruct (negb (bool_decide (Builtin (ParmTypeOf PVD) = HBT_float4)));
    destruct ((Res <? 0) || (HSH_MAX_COLOR_TARGETS <=? Res)); simpl;
    try done;
    (split; [done |]); eexists; rewrite <- ?app_assoc; (split; [done |]);
    simpl; repeat constructor.
Qed.

Lemma checkParameter_verdict (Param : ParmVarDecl) (T : ParmTables)
    (Diags : list Diagnostic) (r : bool * ParmTables * list Diagnostic) :
  checkParameter' Param T Diags = Done r -> verdict T Diags r.
Proof.
  unfold checkParameter.
  destruct (negb (bool_decide (isInput Param))).
  - destruct (hasAttr HshPositionAttr Param).
    + destruct (negb (bool_decide _)); intros [= <-]; unfold verdict; simpl;
        [| done].
      split; [done |]. eexists. split; [done |]. by left.
    + destruct (getAttr HshColorTargetAttr Param) as [CA|];
        [| by intros [= <-]].
      pose proof (CheckColorTargetParm_verdict Param (AttrIndex CA) T Diags)
        as HV.
      destruct (CheckColorTargetParm Param (AttrIndex CA) T Diags)
        as [[ok T'] Diags'].
      unfold verdict in *. simpl in *. by destruct ok; intros [= <-].
  - destruct (getAttr HshVertexBufferAttr Param);
      [apply CheckVertexBufferParm_verdict |].
    destruct (getAttr HshInstanceBufferAttr Param);
      [apply CheckVertexBufferParm_verdict |].
    destruct (getAttr HshVertexTextureAttr Param);
      [apply CheckTextureParm_verdict |].
    destruct (getAttr HshFragmentTextureAttr Param);
      [apply CheckTextureParm_verdict |].
    by intros [= <-].
Qed.

Lemma checkParameter_embedded (Param : ParmVarDecl) (T : ParmTables)
    (Diags : list Diagnostic) :
  checkParameter' Param T Diags <> NotEmbedded.
Proof.
  unfold checkParameter, CheckVertexBufferParm, CheckTextureParm,
    readVertexBufferParm, readTextureParm, array_get.
  intros H.
  repeat (first [ case_match | progress simplify_eq/=
                | match goal with
                  | H : context [mbind _ ?m] |- _ => destruct m eqn:?
                  end ]).
Qed.

(** X11.  The loop of [run] over the parameters is silent as long as it
    accepts: when it runs to its end it has reported nothing.  When [run]
    returns from within it, diagnostics have been added to those there
    were, and an error is among them.  The loop comes to one of the two,
    or to the undefined behaviour of a read outside an array. *)
Theorem validation_verdict (Params : list ParmVarDecl) (T : ParmTables)
    (Diags : list Diagnostic) :
  match checkParameters' Params T Diags with
  | Done (Some _, Diags') => Diags' = Diags
  | Done (None, Diags') =>
      hasErrorOccurred Diags' = true
      /\ exists More, Diags' = Diags ++ More
                      /\ Exists (fun d => Level d = Error) More
  | Undefined => True
  | NotEmbedded => False
  end.
Proof.
  revert T. induction Params as [|Param Params IH]; intros T; simpl; [done |].
  pose proof (checkParameter_verdict Param T Diags) as HV.
  destruct (checkParameter' Param T Diags) as [[[ok T'] Diags']| |] eqn:HP;
    simpl; [| done | by apply checkParameter_embedded in HP].
  specialize (HV _ eq_refl).
  unfold verdict in HV. simpl in HV. destruct ok; simpl.
  - subst Diags'. apply IH.
  - destruct HV as [_ (More & -> & HE)]. split; [| by exists More].
    unfold hasErrorOccurred. apply bool_decide_eq_true.
    apply Exists_app. by right.
Qed.

End CheckFacts.


(** ** The slots of the accepted parameters *)

(** The index of the attribute under which [run] checks a parameter as a
    vertex buffer: that of the vertex buffer attribute, else that of the
    instance buffer attribute. *)
Definition bufferIndex (P : ParmVarDecl) : option Z :=
  match getAttr HshVertexBufferAttr P with
  | Some VB => Some (AttrIndex VB)
  | None => AttrIndex <$> getAttr HshInstanceBufferAttr P
  end.

Section SlotFacts.

Variable ShaderInterface :
  list (AttrKind * HshStage * HshInterfaceDirection).

#[local] Abbreviation checkParameters' :=
  (checkParameters ShaderInterface).
#[local] Abbreviation checkParameter' :=
  (checkParameter ShaderInterface).
#[local] Abbreviation isInput P :=
  (DetermineParmVarDirection ShaderInterface P = HshInput).

(** What holds of the vertex buffer slots once the parameters [Seen] have
    been accepted. *)
Definition buffers_ok (Seen : list ParmVarDecl) (T : ParmTables) : Prop :=
  Z.of_nat (length (VertexBufferParms T)) = HSH_MAX_VERTEX_BUFFERS
  /\ (forall i P, VertexBufferParms T !! i = Some (Some P) ->
        P ∈ Seen /\ isInput P /\ bufferIndex P = Some (Z.of_nat i))
  /\ (forall P Res, P ∈ Seen -> isInput P -> bufferIndex P = Some Res ->
        0 <= Res < HSH_MAX_VERTEX_BUFFERS
        /\ VertexBufferParms T !! Z.to_nat Res = Some (Some P)).

(** What holds of the texture slots once the parameters [Seen] have been
    accepted. *)
Definition textures_ok (Seen : list ParmVarDecl) (T : ParmTables) : Prop :=
  Z.of_nat (length (TextureParms T)) = HshMaxStage
  /\ (forall s Row, TextureParms T !! s = Some Row ->
        Z.of_nat (length Row) = HSH_MAX_TEXTURES)
  /\ (forall s i Row P,
        TextureParms T !! s = Some Row -> Row !! i = Some (Some P) ->
        P ∈ Seen /\ isInput P /\ bufferIndex P = None
        /\ getTextureIndex P = (Z.of_nat s, Z.of_nat i))
  /\ (forall P Stage Res,
        P ∈ Seen -> isInput P -> bufferIndex P = None ->
        getTextureIndex P = (Stage, Res) -> Stage <> HshNoStage ->
        0 <= Res < HSH_MAX_TEXTURES
        /\ exists Row, TextureParms T !! Z.to_nat Stage = Some Row
                       /\ Row !! Z.to_nat Res = Some (Some P)).

(** What an accepted parameter does to the tables of the buffers and the
    textures. *)
Lemma checkParameter_accepted (Param : ParmVarDecl) (T T' : ParmTables)
    (Diags Diags' : list Diagnostic) :
  checkParameter' Param T Diags = Done (true, T', Diags') ->
  (~ isInput Param
   /\ VertexBufferParms T' = VertexBufferParms T
   /\ TextureParms T' = TextureParms T)
  \/ (isInput Param /\ exists Res,
        bufferIndex Param = Some Res
        /\ 0 <= Res < HSH_MAX_VERTEX_BUFFERS
        /\ readVertexBufferParm T Res = Done None
        /\ VertexBufferParms T' =
             <[Z.to_nat Res := Some Param]> (VertexBufferParms T)
        /\ TextureParms T' = TextureParms T)
  \/ (isInput Param /\ bufferIndex Param = None /\ exists Stage Res,
        getTextureIndex Param = (Stage, Res) /\ Stage <> HshNoStage
        /\ (Stage = HshVertexStage \/ Stage = HshFragmentStage)
        /\ 0 <= Res < HSH_MAX_TEXTURES
        /\ readTextureParm T Stage Res = Done None
        /\ VertexBufferParms T' = VertexBufferParms T
        /\ TextureParms T' =
             alter (fun Row => <[Z.to_nat Res := Some Param]> Row)
               (Z.to_nat Stage) (TextureParms T))
  \/ (isInput Param /\ bufferIndex Param = None
      /\ getTextureIndex Param = (HshNoStage, 0)
      /\ VertexBufferParms T' = VertexBufferParms T
      /\ TextureParms T' = TextureParms T).
Proof.
  unfold checkParameter.
  case_bool_decide as Hdir; simpl.
  - assert (forall Res,
              CheckVertexBufferParm Param Res T Diags
                = Done (true, T', Diags') ->
              0 <= Res < HSH_MAX_VERTEX_BUFFERS
              /\ readVertexBufferParm T Res = Done None
              /\ VertexBufferParms T' =
                   <[Z.to_nat Res := Some Param]> (VertexBufferParms T)
              /\ TextureParms T' = TextureParms T) as HVB.
    { intros Res. unfold CheckVertexBufferParm, CheckVertexBufferParm_checks.
      destruct (match StructureOrClass (ParmTypeOf Param) with
                | Some _ => _ | None => _ end) as [Ret1 Diags1].
      destruct ((Res <? 0) || (HSH_MAX_VERTEX_BUFFERS <=? Res)) eqn:Hr;
        destruct (readVertexBufferParm T Res) as [[OtherPVD|]| |];
        simpl; try done.
      destruct Ret1; simpl; [| done]. intros [= <- <-]. simpl.
      apply orb_false_iff in Hr as [?%Z.ltb_ge ?%Z.leb_gt].
      split; [lia | done]. }
    assert (forall Res Stage,
              CheckTextureParm Param Res Stage T Diags
                = Done (true, T', Diags') ->
              0 <= Res < HSH_MAX_TEXTURES
              /\ readTextureParm T Stage Res = Done None
              /\ VertexBufferParms T' = VertexBufferParms T
              /\ TextureParms T' =
                   alter (fun Row => <[Z.to_nat Res := Some Param]> Row)
                     (Z.to_nat Stage) (TextureParms T)) as HTex.
    { intros Res Stage. unfold CheckTextureParm, CheckTextureParm_checks.
      destruct (negb (isTextureType (Builtin (ParmTypeOf Param))));
        destruct ((Res <? 0) || (HSH_MAX_TEXTURES <=? Res)) eqn:Hr;
        destruct (readTextureParm T Stage Res) as [[OtherPVD|]| |];
        simpl; try done.
      intros [= <- <-]. simpl.
      apply orb_false_iff in Hr as [?%Z.ltb_ge ?%Z.leb_gt].
      split; [lia | done]. }
    unfold bufferIndex, getTextureIndex.
    destruct (getAttr HshVertexBufferAttr Param) as [VB|].
    { intros H%HVB. right. left. split; [done |]. by exists (AttrIndex VB). }
    destruct (getAttr HshInstanceBufferAttr Param) as [IB|].
    { intros H%HVB. right. left. split; [done |]. by exists (AttrIndex IB). }
    simpl.
    destruct (getAttr HshVertexTextureAttr Param) as [VTA|].
    { intros (? & ? & ? & ?)%HTex. right. right. left.
      split; [done |]. split; [done |].
      exists HshVertexStage, (AttrIndex VTA).
      split; [done |]. split; [done |]. split; [by left |]. done. }
    destruct (getAttr HshFragmentTextureAttr Param) as [FTA|].
    { intros (? & ? & ? & ?)%HTex. right. right. left.
      split; [done |]. split; [done |].
      exists HshFragmentStage, (AttrIndex FTA).
      split; [done |]. split; [done |]. split; [by right |]. done. }
    intros [= <- <-]. right. right. right. done.
  - left. split; [done |]. revert H.
    destruct (hasAttr HshPositionAttr Param).
    + destruct (negb (bool_decide _)); [done |]. by intros [= <- <-].
    + destruct (getAttr HshColorTargetAttr Param) as [CA|];
        [| by intros [= <- <-]].
      unfold CheckColorTargetParm.
      destruct (negb (bool_decide _));
        destruct ((AttrIndex CA <? 0) || _); simpl; try done.
      by intros [= <- <-].
Qed.

Lemma buffers_ok_step (Seen : list ParmVarDecl) (Param : ParmVarDecl)
    (T T' : ParmTables) (Diags Diags' : list Diagnostic) :
  checkParameter' Param T Diags = Done (true, T', Diags') ->
  buffers_ok Seen T -> buffers_ok (Seen ++ [Param]) T'.
Proof.
  intros Hcheck (Hlen & Hback & Hforth).
  assert (VertexBufferParms T' = VertexBufferParms T ->
          (isInput Param -> bufferIndex Param = None) ->
          buffers_ok (Seen ++ [Param]) T') as Hkeep.
  { intros HVB Hnone. unfold buffers_ok. rewrite HVB.
    split; [done |]. split.
    - intros i P [HP HPi]%Hback. split; [| done]. apply elem_of_app. by left.
    - intros P Res [HP | ->%list_elem_of_singleton]%elem_of_app Hin HB.
      + by apply Hforth.
      + rewrite (Hnone Hin) in HB. done. }
  destruct (checkParameter_accepted _ _ _ _ _ Hcheck)
    as [(Hout & HVB & _)
       |[(Hin & Res & HB & Hr & Hread & HVB & _)
        |[(Hin & HB & _ & _ & _ & _ & _ & _ & _ & HVB & _)
         |(Hin & HB & _ & HVB & _)]]];
    try (apply Hkeep; done).
  unfold HSH_MAX_VERTEX_BUFFERS in *.
  assert (VertexBufferParms T !! Z.to_nat Res = Some None) as Hfree.
  { unfold readVertexBufferParm, array_get in Hread.
    destruct (lookup_lt_is_Some_2 (VertexBufferParms T) (Z.to_nat Res))
      as [e He]; [lia |].
    rewrite He in Hread. case_match; congruence. }
  unfold buffers_ok. rewrite HVB, length_insert.
  split; [done |]. split.
  - intros i P Hi. destruct (decide (i = Z.to_nat Res)) as [-> |Hne].
    + rewrite list_lookup_insert_eq in Hi by lia. injection Hi as <-.
      split; [apply elem_of_app; right; left |]. split; [done |].
      rewrite HB. f_equal. lia.
    + rewrite list_lookup_insert_ne in Hi by done.
      destruct (Hback i P Hi) as [HP HPi]. split; [| done].
      apply elem_of_app. by left.
  - intros P Res' [HP | ->%list_elem_of_singleton]%elem_of_app HPin HPB.
    + destruct (Hforth P Res' HP HPin HPB) as [Hr' Hl]. split; [done |].
      rewrite list_lookup_insert_ne; [done |].
      intros Heq. rewrite <- Heq in Hl. congruence.
    + rewrite HB in HPB. injection HPB as <-. split; [done |].
      apply list_lookup_insert_eq. lia.
Qed.

Lemma textures_ok_step (Seen : list ParmVarDecl) (Param : ParmVarDecl)
    (T T' : ParmTables) (Diags Diags' : list Diagnostic) :
  checkParameter' Param T Diags = Done (true, T', Diags') ->
  textures_ok Seen T -> textures_ok (Seen ++ [Param]) T'.
Proof.
  intros Hcheck (Hlen & Hrows & Hback & Hforth).
  assert (TextureParms T' = TextureParms T ->
          (isInput Param -> bufferIndex Param = None ->
           getTextureIndex Param = (HshNoStage, 0)) ->
          textures_ok (Seen ++ [Param]) T') as Hkeep.
  { intros HTP Hnone. unfold textures_ok. rewrite HTP.
    split; [done |]. split; [done |]. split.
    - intros s i Row P HRow [HP HPi]%(Hback s i Row P HRow).
      split; [| done]. apply elem_of_app. by left.
    - intros P Stage Res [HP | ->%list_elem_of_singleton]%elem_of_app
        Hin HB HTI HS.
      + by apply Hforth.
      + rewrite (Hnone Hin HB) in HTI. by injection HTI as <- <-. }
  destruct (checkParameter_accepted _ _ _ _ _ Hcheck)
    as [(Hout & _ & HTP)
       |[(Hin & Res & HB & _ & _ & _ & HTP)
        |[(Hin & HB & Stage & Res & HTI & HS & HSt & Hr & Hread & _ & HTP)
         |(Hin & HB & HTI & _ & HTP)]]];
    try (apply Hkeep; [done | intros; congruence]).
  unfold HSH_MAX_TEXTURES, HshMaxStage in *.
  assert (0 <= Stage < 6) as HSr
    by (unfold HshVertexStage, HshFragmentStage in HSt; lia).
  destruct (lookup_lt_is_Some_2 (TextureParms T) (Z.to_nat Stage))
    as [Row0 HRow0]; [lia |].
  pose proof (Hrows _ _ HRow0) as Hlen0.
  assert (Row0 !! Z.to_nat Res = Some None) as Hfree.
  { unfold readTextureParm, array_get in Hread. rewrite HRow0 in Hread.
    destruct (lookup_lt_is_Some_2 Row0 (Z.to_nat Res)) as [e He]; [lia |].
    destruct ((0 <=? Stage) && _); simpl in Hread; [| done].
    rewrite He in Hread. case_match; congruence. }
  assert (forall s Row,
            TextureParms T' !! s = Some Row ->
            (s = Z.to_nat Stage
             /\ Row = <[Z.to_nat Res := Some Param]> Row0)
            \/ (s <> Z.to_nat Stage /\ TextureParms T !! s = Some Row))
    as Hrow'.
  { intros s Row. rewrite HTP.
    destruct (decide (s = Z.to_nat Stage)) as [-> |Hne].
    - rewrite list_lookup_alter_eq, HRow0. simpl. intros [= <-]. by left.
    - rewrite list_lookup_alter_ne by done. by right. }
  unfold textures_ok. split; [by rewrite HTP, length_alter |]. split; [| split].
  - intros s Row [[-> ->]|[_ HRow]]%Hrow'.
    + by rewrite length_insert.
    + by eapply Hrows.
  - intros s i Row P [[-> ->]|[Hne HRow]]%Hrow' Hi.
    + destruct (decide (i = Z.to_nat Res)) as [-> |Hne].
      * rewrite list_lookup_insert_eq in Hi by lia. injection Hi as <-.
        split; [apply elem_of_app; right; left |]. split; [done |].
        split; [done |]. rewrite HTI. f_equal; lia.
      * rewrite list_lookup_insert_ne in Hi by done.
        destruct (Hback _ _ _ _ HRow0 Hi) as [HP HPi]. split; [| done].
        apply elem_of_app. by left.
    + destruct (Hback _ _ _ _ HRow Hi) as [HP HPi]. split; [| done].
      apply elem_of_app. by left.
  - intros P Stage' Res' [HP | ->%list_elem_of_singleton]%elem_of_app
      HPin HPB HPTI HPS.
    + destruct (Hforth P Stage' Res' HP HPin HPB HPTI HPS)
        as [Hr' (Row & HRow & Hl)].
      split; [done |]. rewrite HTP.
      destruct (decide (Z.to_nat Stage' = Z.to_nat Stage)) as [Heq|Hne].
      * rewrite Heq in HRow |- *. rewrite list_lookup_alter_eq, HRow0. simpl.
        eexists. split; [done |]. assert (Row = Row0) as -> by congruence.
        rewrite list_lookup_insert_ne; [done |].
        intros Heq'. rewrite <- Heq' in Hl. congruence.
      * rewrite list_lookup_alter_ne by done. by exists Row.
    + rewrite HTI in HPTI. injection HPTI as <- <-. split; [done |].
      rewrite HTP, list_lookup_alter_eq, HRow0. simpl. eexists.
      split; [done |]. apply list_lookup_insert_eq. lia.
Qed.

Lemma checkParameters_slots (Params Seen : list ParmVarDecl)
    (T T' : ParmTables) (Diags Diags' : list Diagnostic) :
  checkParameters' Params T Diags = Done (Some T', Diags') ->
  buffers_ok Seen T /\ textures_ok Seen T ->
  buffers_ok (Seen ++ Params) T' /\ textures_ok (Seen ++ Params) T'.
Proof.
  revert Seen T Diags. induction Params as [|Param Params IH];
    intros Seen T Diags; simpl.
  - intros [= <- <-]. by rewrite app_nil_r.
  - destruct (checkParameter' Param T Diags) as [[[ok T1] Diags1]| |]
      eqn:Hcheck; simpl; [| done | done].
    destruct ok; simpl; [| done]. intros Hrest [HB HT].
    rewrite (cons_middle Param Seen Params), app_assoc.
    apply (IH _ _ _ Hrest). split.
    + by eapply buffers_ok_step.
    + by eapply textures_ok_step.
Qed.

Lemma ParmTables_new_slots :
  buffers_ok [] ParmTables_new /\ textures_ok [] ParmTables_new.
Proof.
  split.
  - split; [done |]. split.
    + intros i P Hi. apply lookup_replicate in Hi as [? _]. done.
    + by intros P Res ?%elem_of_nil.
  - split; [done |]. split; [| split].
    + intros s Row [-> _]%lookup_replicate. done.
    + intros s i Row P [-> _]%lookup_replicate Hi.
      apply lookup_replicate in Hi as [? _]. done.
    + by intros P Stage Res ?%elem_of_nil.
Qed.

(** X12.  When the loop of [run] over the parameters has accepted them
    all, every input parameter with a vertex buffer or an instance buffer
    attribute holds the slot of [VertexBufferParms] of its index, which is
    within the array; every slot that is held is held by such a parameter;
    so no two of these parameters have the same index. *)
Theorem vertex_buffer_slots (Params : list ParmVarDecl) (T : ParmTables)
    (Diags Diags' : list Diagnostic) :
  checkParameters' Params ParmTables_new Diags = Done (Some T, Diags') ->
  (forall P Res, P ∈ Params -> isInput P -> bufferIndex P = Some Res ->
     0 <= Res < HSH_MAX_VERTEX_BUFFERS
     /\ VertexBufferParms T !! Z.to_nat Res = Some (Some P))
  /\ (forall i P, VertexBufferParms T !! i = Some (Some P) ->
        P ∈ Params /\ isInput P /\ bufferIndex P = Some (Z.of_nat i))
  /\ (forall P1 P2 Res, P1 ∈ Params -> P2 ∈ Params ->
        isInput P1 -> isInput P2 ->
        bufferIndex P1 = Some Res -> bufferIndex P2 = Some Res -> P1 = P2).
Proof.
  intros Hcheck.
  destruct (checkParameters_slots Params [] _ _ _ _ Hcheck
              ParmTables_new_slots) as [(_ & Hback & Hforth) _].
  simpl in Hback, Hforth. split; [done |]. split; [done |].
  intros P1 P2 Res H1 H2 Hi1 Hi2 HB1 HB2.
  destruct (Hforth P1 Res H1 Hi1 HB1) as [_ Hl1].
  destruct (Hforth P2 Res H2 Hi2 HB2) as [_ Hl2]. congruence.
Qed.

(** X13.  When the loop of [run] over the parameters has accepted them
    all, every input parameter without buffer attribute for which
    [getTextureIndex] finds a stage and an index holds the slot of this
    index in the row of this stage of [TextureParms]: the slot [run] keeps a
    texture parameter in is the one the builder later samples it by.  Every
    slot that is held is held by such a parameter, so no two of them have
    the same index in one stage. *)
Theorem texture_slots (Params : list ParmVarDecl) (T : ParmTables)
    (Diags Diags' : list Diagnostic) :
  checkParameters' Params ParmTables_new Diags = Done (Some T, Diags') ->
  (forall P Stage Res,
     P ∈ Params -> isInput P -> bufferIndex P = None ->
     getTextureIndex P = (Stage, Res) -> Stage <> HshNoStage ->
     0 <= Res < HSH_MAX_TEXTURES
     /\ exists Row, TextureParms T !! Z.to_nat Stage = Some Row
                    /\ Row !! Z.to_nat Res = Some (Some P))
  /\ (forall s i Row P,
        TextureParms T !! s = Some Row -> Row !! i = Some (Some P) ->
        P ∈ Params /\ isInput P /\ bufferIndex P = None
        /\ getTextureIndex P = (Z.of_nat s, Z.of_nat i))
  /\ (forall P1 P2 Stage Res, P1 ∈ Params -> P2 ∈ Params ->
        isInput P1 -> isInput P2 ->
        bufferIndex P1 = None -> bufferIndex P2 = None ->
        Stage <> HshNoStage ->
        getTextureIndex P1 = (Stage, Res) ->
        getTextureIndex P2 = (Stage, Res) -> P1 = P2).
Proof.
  intros Hcheck.
  destruct (checkParameters_slots Params [] _ _ _ _ Hcheck
              ParmTables_new_slots) as [_ (_ & _ & Hback & Hforth)].
  simpl in Hback, Hforth. split; [done |]. split; [done |].
  intros P1 P2 Stage Res H1 H2 Hi1 Hi2 HB1 HB2 HS HT1 HT2.
  destruct (Hforth P1 Stage Res H1 Hi1 HB1 HT1 HS) as [_ (Row1 & HR1 & Hl1)].
  destruct (Hforth P2 Stage Res H2 Hi2 HB2 HT2 HS) as [_ (Row2 & HR2 & Hl2)].
  congruence.
Qed.

End SlotFacts.

Lemma vertex_buffer_slots_witness :
  let P :=
    mkParmVarDecl 5%nat "v"
      (mkParmType HBT_None (Some [mkRecordField 6%nat HBT_float3 OtherType]))
      [mkHshAttr HshVertexBufferAttr 3] in
  let T :=
    mkParmTables 1 (<[3%nat := Some P]> (replicate 32 None))
      (replicate 6 (replicate 32 None)) (replicate 8 None) in
  0 <= 3 < HSH_MAX_VERTEX_BUFFERS
  /\ VertexBufferParms T !! Z.to_nat 3 = Some (Some P).
Proof.
  intros P T.
  apply (proj1 (vertex_buffer_slots ShaderInterface_spec [P] T [] [] eq_refl) P 3).
  - apply list_elem_of_here.
  - reflexivity.
  - reflexivity.
Defined.

Lemma texture_slots_witness :
  let P :=
    mkParmVarDecl 5%nat "t" (mkParmType (HBT_Texture texture2d Tex_float) None)
      [mkHshAttr HshFragmentTextureAttr 2] in
  let Row := <[2%nat := Some P]> (replicate 32 None) in
  let T :=
    mkParmTables 1 (replicate 32 None)
      (<[5%nat := Row]> (replicate 6 (replicate 32 None))) (replicate 8 None) in
  0 <= 2 < HSH_MAX_TEXTURES
  /\ exists Row, TextureParms T !! Z.to_nat HshFragmentStage = Some Row
                 /\ Row !! Z.to_nat 2 = Some (Some P).
Proof.
  intros P Row T.
  apply (proj1 (texture_slots ShaderInterface_spec [P] T [] [] eq_refl) P HshFragmentStage 2).
  - apply list_elem_of_here.
  - reflexivity.
  - reflexivity.
  - reflexivity.
  - done.
Defined.


(** ** The stages in use and the color targets after the checks *)

Section OutputFacts.

Variable ShaderInterface :
  list (AttrKind * HshStage * HshInterfaceDirection).

#[local] Abbreviation checkParameters' :=
  (checkParameters ShaderInterface).
#[local] Abbreviation checkParameter' :=
  (checkParameter ShaderInterface).
#[local] Abbreviation isInput P :=
  (DetermineParmVarDirection ShaderInterface P = HshInput).
#[local] Abbreviation stageOf P :=
  (DetermineParmVarStage ShaderInterface P).

(** The index under which [run] checks a parameter as a color target: the
    parameter is not an input, has no position attribute and has a color
    target attribute. *)
Definition colorTargetIndex (P : ParmVarDecl) : option Z :=
  if bool_decide (isInput P) then None
  else if hasAttr HshPositionAttr P then None
  else AttrIndex <$> getAttr HshColorTargetAttr P.

Lemma CheckColorTargetParm_accepted (PVD : ParmVarDecl) (Res : Z)
    (T T' : ParmTables) (Diags Diags' : list Diagnostic) :
  CheckColorTargetParm PVD Res T Diags = (true, T', Diags') ->
  0 <= Res < HSH_MAX_COLOR_TARGETS
  /\ Builtin (ParmTypeOf PVD) = HBT_float4
  /\ T' = mkParmTables (RunUseStages T) (VertexBufferParms T)
            (TextureParms T)
            (<[Z.to_nat Res := Some PVD]> (ColorTargetParms T)).
Proof.
  unfold CheckColorTargetParm.
  case_bool_decide as HB; simpl;
    destruct ((Res <? 0) || (HSH_MAX_COLOR_TARGETS <=? Res)) eqn:Hr; simpl;
    try done.
  intros [= <- <-]. apply orb_false_iff in Hr as [?%Z.ltb_ge ?%Z.leb_gt].
  split; [lia | done].
Qed.

(** What an accepted parameter does to the stages in use and to the color
    targets. *)
Lemma checkParameter_outputs (Param : ParmVarDecl) (T T' : ParmTables)
    (Diags Diags' : list Diagnostic) :
  checkParameter' Param T Diags = Done (true, T', Diags') ->
  RunUseStages T' =
    (if bool_decide (isInput Param) then RunUseStages T
     else Z.lor (RunUseStages T) (StageBit (unsigned (stageOf Param))))
  /\ match colorTargetIndex Param with
     | Some Res =>
         0 <= Res < HSH_MAX_COLOR_TARGETS
         /\ Builtin (ParmTypeOf Param) = HBT_float4
         /\ ColorTargetParms T' =
              <[Z.to_nat Res := Some Param]> (ColorTargetParms T)
     | None => ColorTargetParms T' = ColorTargetParms T
     end.
Proof.
  unfold checkParameter, colorTargetIndex.
  case_bool_decide as Hdir; simpl.
  - unfold CheckVertexBufferParm, CheckTextureParm. intros H.
    repeat (first [ case_match | progress simplify_eq/=
                  | match goal with
                    | H : context [mbind _ ?m] |- _ => destruct m eqn:?
                    end ]); done.
  - destruct (hasAttr HshPositionAttr Param).
    + destruct (negb (bool_decide _)); [done |]. by intros [= <- <-].
    + destruct (getAttr HshColorTargetAttr Param) as [CA|]; simpl;
        [| by intros [= <- <-]].
      destruct (CheckColorTargetParm Param (AttrIndex CA) T Diags)
        as [[ok T1] Diags1] eqn:Hcheck.
      destruct ok; simpl; [| done]. intros [= <- <-].
      apply CheckColorTargetParm_accepted in Hcheck as (Hr & HB & ->).
      done.
Qed.

Lemma checkParameters_stages (Params : list ParmVarDecl) (T T' : ParmTables)
    (Diags Diags' : list Diagnostic) (D : Z) :
  (forall e, e ∈ ShaderInterface -> HshHostStage <= e.1.2 < HshMaxStage) ->
  HshHostStage <= D < HshMaxStage ->
  checkParameters' Params T Diags = Done (Some T', Diags') ->
  Z.testbit (RunUseStages T') D = true <->
  Z.testbit (RunUseStages T) D = true
  \/ exists P, P ∈ Params /\ ~ isInput P /\ stageOf P = D.
Proof.
  intros HSI HD. unfold HshHostStage, HshMaxStage in *.
  assert (forall P, 0 <= stageOf P < 6) as Hstage.
  { intros P. unfold DetermineParmVarStage.
    destruct (find _ ShaderInterface) as [e|] eqn:Hf; [| done].
    apply HSI. apply list_elem_of_In. by eapply find_some. }
  revert T Diags. induction Params as [|Param Params IH]; intros T Diags; simpl.
  - intros [= <- <-]. split; [by left |].
    intros [? | (P & ?%elem_of_nil & _)]; done.
  - destruct (checkParameter' Param T Diags) as [[[ok T1] Diags1]| |]
      eqn:Hcheck; simpl; [| done | done].
    destruct ok; simpl; [| done]. intros Hrest.
    rewrite (IH _ _ Hrest).
    destruct (checkParameter_outputs _ _ _ _ _ Hcheck) as [-> _].
    case_bool_decide as Hdir.
    + split.
      * intros [? | (P & HP & HPo & HPs)]; [by left |].
        right. exists P. split; [by right | done].
      * intros [? | (P & [-> | HP]%elem_of_cons & HPo & HPs)];
          [by left | done |].
        right. by exists P.
    + pose proof (Hstage Param) as HS.
      assert (unsigned (stageOf Param) = stageOf Param) as ->.
      { unfold unsigned. apply Z.mod_small. lia. }
      rewrite Z.lor_spec, StageBit_testbit by lia.
      split.
      * intros [[? | Heq%bool_decide_eq_true]%orb_true_iff
               | (P & HP & HPo & HPs)].
        -- by left.
        -- right. exists Param. split; [by left | done].
        -- right. exists P. split; [by right | done].
      * intros [? | (P & [-> | HP]%elem_of_cons & HPo & HPs)].
        -- left. apply orb_true_iff. by left.
        -- left. apply orb_true_iff. right. by apply bool_decide_eq_true.
        -- right. by exists P.
Qed.

(** X14.  Let the stages of ShaderInterface.def be stages, from the host
    stage to the fragment stage.  When the loop of [run] over the
    parameters has accepted them all, the stages in use are the host stage
    and the stages of the parameters that are not inputs, and no other
    stage. *)
Theorem use_stages_of_outputs (Params : list ParmVarDecl) (T : ParmTables)
    (Diags Diags' : list Diagnostic) (D : Z) :
  (forall e, e ∈ ShaderInterface -> HshHostStage <= e.1.2 < HshMaxStage) ->
  HshHostStage <= D < HshMaxStage ->
  checkParameters' Params ParmTables_new Diags = Done (Some T, Diags') ->
  StageUsed (RunUseStages T) D = true <->
  D = HshHostStage \/ exists P, P ∈ Params /\ ~ isInput P /\ stageOf P = D.
Proof.
  intros HSI HD Hcheck.
  rewrite StageUsed_testbit by (unfold HshHostStage, HshMaxStage in HD; lia).
  rewrite (checkParameters_stages _ _ _ _ _ D HSI HD Hcheck). simpl.
  assert (Z.testbit 1 D = true <-> D = HshHostStage) as ->; [| done].
  unfold HshHostStage, HshMaxStage in *.
  change 1 with (2 ^ 0). rewrite Z.pow2_bits_eqb by lia.
  destruct (Z.eqb_spec 0 D); split; intros; congruence.
Qed.

Lemma checkParameters_color_targets (Params : list ParmVarDecl)
    (T T' : ParmTables) (Diags Diags' : list Diagnostic) (i : nat) :
  checkParameters' Params T Diags = Done (Some T', Diags') ->
  (i < length (ColorTargetParms T))%nat ->
  ColorTargetParms T' !! i =
    match last (filter (fun P => colorTargetIndex P = Some (Z.of_nat i))
                  Params) with
    | Some P => Some (Some P)
    | None => ColorTargetParms T !! i
    end.
Proof.
  revert T Diags. induction Params as [|Param Params IH]; intros T Diags; simpl.
  - by intros [= <- <-].
  - destruct (checkParameter' Param T Diags) as [[[ok T1] Diags1]| |]
      eqn:Hcheck; simpl; [| done | done].
    destruct ok; simpl; [| done]. intros Hrest Hi.
    destruct (checkParameter_outputs _ _ _ _ _ Hcheck) as [_ HCT].
    assert (length (ColorTargetParms T1) = length (ColorTargetParms T))
      as Hlen.
    { destruct (colorTargetIndex Param); [| by rewrite HCT].
      destruct HCT as (_ & _ & ->). apply length_insert. }
    rewrite (IH _ _ Hrest) by lia.
    destruct (decide (colorTargetIndex Param = Some (Z.of_nat i)))
      as [Heq|Hne].
    + rewrite filter_cons_True by done.
      rewrite Heq in HCT. destruct HCT as (_ & _ & ->).
      rewrite Nat2Z.id.
      destruct (filter _ Params) as [|Q Qs] eqn:HF; simpl.
      * by apply list_lookup_insert_eq.
      * rewrite last_cons. by destruct (last Qs).
    + rewrite filter_cons_False by done.
      destruct (last (filter _ Params)); [done |].
      destruct (colorTargetIndex Param) as [Res|]; [| by rewrite HCT].
      destruct HCT as (HR & _ & ->).
      apply list_lookup_insert_ne. intros Heq. apply Hne. f_equal. lia.
Qed.

(** X15.  A color target parameter is never rejected because its slot is
    taken: what [CheckColorTargetParm] answers and reports does not depend
    on the tables.  So when the loop of [run] over the parameters has
    accepted them all, a slot of [ColorTargetParms] holds the last of the
    parameters checked as color target with the index of the slot, and is
    null when there is none. *)
Theorem color_target_slots (Params : list ParmVarDecl) (T : ParmTables)
    (Diags Diags' : list Diagnostic) :
  checkParameters' Params ParmTables_new Diags = Done (Some T, Diags') ->
  (forall i, 0 <= i < HSH_MAX_COLOR_TARGETS ->
     ColorTargetParms T !! Z.to_nat i =
       Some (last (filter (fun P => colorTargetIndex P = Some i) Params)))
  /\ (forall P Res, P ∈ Params -> colorTargetIndex P = Some Res ->
        0 <= Res < HSH_MAX_COLOR_TARGETS)
  /\ (forall PVD Res T1 T2 Diags0,
        (CheckColorTargetParm PVD Res T1 Diags0).1.1 =
          (CheckColorTargetParm PVD Res T2 Diags0).1.1
        /\ (CheckColorTargetParm PVD Res T1 Diags0).2 =
             (CheckColorTargetParm PVD Res T2 Diags0).2).
Proof.
  intros Hcheck. split; [| split].
  - intros i Hi. unfold HSH_MAX_COLOR_TARGETS in Hi.
    rewrite (checkParameters_color_targets _ _ _ _ _ _ Hcheck)
      by (unfold ParmTables_new; cbn [ColorTargetParms];
          rewrite length_replicate; unfold HSH_MAX_COLOR_TARGETS; lia).
    rewrite Z2Nat.id by lia.
    destruct (last _); [done |].
    unfold ParmTables_new. cbn [ColorTargetParms]. f_equal.
    apply lookup_replicate_2. unfold HSH_MAX_COLOR_TARGETS. lia.
  - revert Hcheck. generalize ParmTables_new. revert Diags.
    induction Params as [|Param Params IH]; intros Diags0 T0; simpl.
    + by intros _ P Res ?%elem_of_nil.
    + destruct (checkParameter' Param T0 Diags0) as [[[ok T1] Diags1]| |]
        eqn:Hcheck; simpl; [| done | done].
      destruct ok; simpl; [| done].
      intros Hrest P Res [-> | HP]%elem_of_cons HPi.
      * destruct (checkParameter_outputs _ _ _ _ _ Hcheck) as [_ HCT].
        rewrite HPi in HCT. by destruct HCT.
      * by eapply IH.
  - intros PVD Res T1 T2 Diags0. unfold CheckColorTargetParm.
    destruct (negb (bool_decide _)); destruct ((Res <? 0) || _); done.
Qed.

End OutputFacts.

Lemma use_stages_of_outputs_witness :
  let P :=
    mkParmVarDecl 5%nat "c" (mkParmType HBT_float4 None)
      [mkHshAttr HshColorTargetAttr 0] in
  let T :=
    mkParmTables 33 (replicate 32 None) (replicate 6 (replicate 32 None))
      (<[0%nat := Some P]> (replicate 8 None)) in
  StageUsed (RunUseStages T) HshFragmentStage = true.
Proof.
  intros P T.
  apply (use_stages_of_outputs ShaderInterface_spec [P] T [] [] HshFragmentStage).
  - intros e He. unfold ShaderInterface_spec in He.
    repeat (apply elem_of_cons in He as [-> | He]; [done |]).
    by apply elem_of_nil in He.
  - done.
  - reflexivity.
  - right. exists P. split; [apply list_elem_of_here |]. split; [| done].
    by vm_compute.
Defined.

Lemma color_target_slots_witness :
  let A :=
    mkParmVarDecl 5%nat "a" (mkParmType HBT_float4 None)
      [mkHshAttr HshColorTargetAttr 0] in
  let B :=
    mkParmVarDecl 6%nat "b" (mkParmType HBT_float4 None)
      [mkHshAttr HshColorTargetAttr 0] in
  let T :=
    mkParmTables 33 (replicate 32 None) (replicate 6 (replicate 32 None))
      (<[0%nat := Some B]> (replicate 8 None)) in
  ColorTargetParms T !! Z.to_nat 0 = Some (Some B).
Proof.
  intros A B T.
  apply (proj1 (color_target_slots ShaderInterface_spec [A; B] T [] [] eq_refl) 0).
  done.
Defined.


(** ** Textures and samplers of a stage *)

Lemma declaredInStage_testbit (Stage U : Z) :
  0 <= Stage < 32 -> declaredInStage Stage U = Z.testbit U Stage.
Proof.
  intros HS. rewrite <- StageUsed_testbit by done.
  unfold declaredInStage, StageUsed. rewrite Z.land_comm.
  assert (unsigned Stage = Stage) as ->; [| done].
  unfold unsigned. apply Z.mod_small. lia.
Qed.

(** What holds of the texture table once the registrations [Seen] have been
    made. *)
Definition textures_declared
    (Seen : list (string * HshTextureKind * HshStage)) (b : StagesBuilder)
    : Prop :=
  NoDup (textureNames b)
  /\ (forall T, T ∈ Textures b ->
        forall Stage, HshHostStage <= Stage < HshMaxStage ->
          declaredInStage Stage (TextureUseStages T) = true <->
          exists K, (TextureName T, K, Stage) ∈ Seen)
  /\ (forall r, r ∈ Seen -> r.1.1 ∈ textureNames b).

Lemma textures_declared_step
    (Seen : list (string * HshTextureKind * HshStage)) (b : StagesBuilder)
    (Name : string) (K : HshTextureKind) (Stage : Z) :
  HshHostStage <= Stage < HshMaxStage ->
  textures_declared Seen b ->
  textures_declared (Seen ++ [(Name, K, Stage)])
    (registerTexture Name K Stage b).
Proof.
  intros HS (Hnd & Hmask & Hnames).
  unfold HshHostStage, HshMaxStage in *.
  split; [by apply registerTexture_NoDup |].
  destruct (decide (Name ∈ textureNames b)) as [Hin|Hnin].
  - destruct (registerTexture_known Name K Stage b Hin)
      as (i & T0 & Hi & HT0 & _ & Heq).
    pose proof (lookup_lt_Some _ _ _ Hi) as Hlt.
    split.
    + intros T HT S' HS'. unfold HshHostStage, HshMaxStage in HS'.
      rewrite Heq in HT.
      apply list_elem_of_lookup in HT as [j Hj].
      destruct (decide (j = i)) as [-> |Hne].
      * rewrite list_lookup_insert_eq in Hj by done. injection Hj as <-.
        simpl. rewrite declaredInStage_testbit, Z.lor_spec by lia.
        rewrite StageBit_testbit by lia.
        rewrite <- declaredInStage_testbit by lia.
        split.
        -- intros [Hold | ->%bool_decide_eq_true]%orb_true_iff.
           ++ apply (Hmask T0) in Hold as [K' HK'];
                [| by eapply list_elem_of_lookup_2 | lia].
              exists K'. apply elem_of_app. left. by rewrite <- HT0.
           ++ exists K. apply elem_of_app. right. left.
        -- intros [K' [HK' | Hnew%list_elem_of_singleton]%elem_of_app].
           ++ apply orb_true_iff. left.
              apply (Hmask T0); [by eapply list_elem_of_lookup_2 | lia |].
              exists K'. by rewrite HT0.
           ++ assert (S' = Stage) as -> by congruence. apply orb_true_iff. right.
              by apply bool_decide_eq_true.
      * rewrite list_lookup_insert_ne in Hj by done.
        assert (TextureName T <> Name) as Hname.
        { intros HN. rewrite <- HT0 in HN.
          apply Hne. eapply NoDup_lookup; [exact Hnd | |];
            unfold textureNames; rewrite list_lookup_fmap.
          - by rewrite Hj.
          - by rewrite Hi, HN. }
        rewrite (Hmask T) by (by eapply list_elem_of_lookup_2 || lia).
        split.
        -- intros [K' HK']. exists K'. apply elem_of_app. by left.
        -- intros [K' [HK' | Hnew%list_elem_of_singleton]%elem_of_app];
             [by exists K' |]. congruence.
    + intros r [Hr | ->%list_elem_of_singleton]%elem_of_app;
        rewrite registerTexture_names, bool_decide_eq_true_2 by done;
        [by apply Hnames | done].
  - pose proof (registerTexture_fresh Name K Stage b Hnin) as Heq.
    split.
    + intros T HT S' HS'. unfold HshHostStage, HshMaxStage in HS'.
      rewrite Heq in HT.
      apply elem_of_app in HT as [HT | ->%list_elem_of_singleton].
      * assert (TextureName T <> Name) as Hname.
        { intros <-. apply Hnin. apply list_elem_of_fmap. by exists T. }
        rewrite (Hmask T) by (done || lia).
        split.
        -- intros [K' HK']. exists K'. apply elem_of_app. by left.
        -- intros [K' [HK' | Hnew%list_elem_of_singleton]%elem_of_app];
             [by exists K' |]. congruence.
      * simpl. rewrite declaredInStage_testbit, StageBit_testbit by lia.
        split.
        -- intros ->%bool_decide_eq_true. exists K.
           apply elem_of_app. right. left.
        -- intros [K' [HK' | Hnew%list_elem_of_singleton]%elem_of_app].
           ++ destruct Hnin. by apply (Hnames (Name, K', S')).
           ++ assert (S' = Stage) as -> by congruence. by apply bool_decide_eq_true.
    + intros r Hr.
      rewrite registerTexture_names, bool_decide_eq_false_2 by done.
      apply elem_of_app in Hr as [Hr | ->%list_elem_of_singleton].
      * apply elem_of_app. left. by apply Hnames.
      * apply elem_of_app. right. left.
Qed.

Lemma registerTextures_declared
    (regs Seen : list (string * HshTextureKind * HshStage))
    (b : StagesBuilder) :
  (forall r, r ∈ regs -> HshHostStage <= r.2 < HshMaxStage) ->
  textures_declared Seen b ->
  textures_declared (Seen ++ regs) (registerTextures regs b).
Proof.
  revert Seen b. induction regs as [|[[Name K] Stage] regs IH];
    intros Seen b Hstages Hok.
  - simpl. by rewrite app_nil_r.
  - simpl. rewrite (cons_middle _ Seen regs), app_assoc. apply IH.
    + intros r Hr. apply Hstages. by right.
    + apply textures_declared_step; [| done].
      apply (Hstages (Name, K, Stage)). by left.
Qed.

(** X16.  After any sequence of texture registrations on a new builder,
    each for a stage from the host stage to the fragment stage, every name
    registered has its record in the table, and the test under which a
    printing policy declares a texture in a stage holds of a record and a
    stage exactly when the name of the record was registered for that
    stage. *)
Theorem texture_declared_where_registered
    (regs : list (string * HshTextureKind * HshStage)) (C : ASTContext)
    (U : Z) :
  (forall r, r ∈ regs -> HshHostStage <= r.2 < HshMaxStage) ->
  let b := registerTextures regs (StagesBuilder_new C U) in
  (forall r, r ∈ regs -> r.1.1 ∈ textureNames b)
  /\ (forall T, T ∈ Textures b ->
        forall Stage, HshHostStage <= Stage < HshMaxStage ->
          declaredInStage Stage (TextureUseStages T) = true <->
          exists K, (TextureName T, K, Stage) ∈ regs).
Proof.
  intros Hstages b.
  destruct (registerTextures_declared regs [] (StagesBuilder_new C U) Hstages)
    as (_ & Hmask & Hnames).
  - split; [apply NoDup_nil_2 |]. split.
    + by intros T ?%elem_of_nil.
    + by intros r ?%elem_of_nil.
  - done.
Qed.

Lemma texture_declared_where_registered_witness :
  let regs := [("tex", (texture2d, Tex_float), HshVertexStage);
               ("tex", (texture2d, Tex_float), HshFragmentStage)] in
  let b := registerTextures regs (StagesBuilder_new (mkASTContext 0%nat []) 35)
  in
  (forall r, r ∈ regs -> r.1.1 ∈ textureNames b)
  /\ (forall T, T ∈ Textures b ->
        forall Stage, HshHostStage <= Stage < HshMaxStage ->
          declaredInStage Stage (TextureUseStages T) = true <->
          exists K, (TextureName T, K, Stage) ∈ regs).
Proof.
  intros regs b.
  apply (texture_declared_where_registered regs (mkASTContext 0%nat []) 35).
  intros r Hr. unfold regs in Hr.
  repeat (apply elem_of_cons in Hr as [-> | Hr]; [done |]).
  by apply elem_of_nil in Hr.
Defined.


(** ** Sample calls and the samplers they name *)

(** What holds of the recorded sample calls and the sampler table: the
    calls of a stage are calls of different expressions, and each names a
    sampler of the table that is declared in the stage. *)
Definition samples_ok (b : StagesBuilder) : Prop :=
  Z.of_nat (length (SampleCalls b)) = HshMaxStage
  /\ Z.of_nat (length (Samplers b)) <= HSH_MAX_SAMPLERS
  /\ (forall s Calls, SampleCalls b !! s = Some Calls ->
        NoDup (SampleExpr <$> Calls))
  /\ (forall s Calls Call,
        SampleCalls b !! s = Some Calls -> Call ∈ Calls ->
        exists Samp,
          0 <= SamplerIndex Call
          /\ Samplers b !! Z.to_nat (SamplerIndex Call) = Some Samp
          /\ declaredInStage (Z.of_nat s) (SamplerUseStages Samp) = true).

Lemma samples_ok_record (b : StagesBuilder) (Samplers' : list SamplerRecord)
    (TexStage : Z) (StageCalls : list SampleCall) (Call : SampleCall) :
  samples_ok b ->
  array_get (SampleCalls b) TexStage = Done StageCalls ->
  SampleExpr Call ∉ SampleExpr <$> StageCalls ->
  Z.of_nat (length Samplers') <= HSH_MAX_SAMPLERS ->
  (forall j Samp, Samplers b !! j = Some Samp ->
     exists Samp', Samplers' !! j = Some Samp'
       /\ forall s, 0 <= s < 32 ->
            Z.testbit (SamplerUseStages Samp) s = true ->
            Z.testbit (SamplerUseStages Samp') s = true) ->
  (exists Samp, 0 <= SamplerIndex Call
     /\ Samplers' !! Z.to_nat (SamplerIndex Call) = Some Samp
     /\ Z.testbit (SamplerUseStages Samp) TexStage = true) ->
  samples_ok
    (set_SampleCalls
       (array_set (SampleCalls b) TexStage (StageCalls ++ [Call]))
       (set_Samplers Samplers' b)).
Proof.
  intros (Hlen & Hmax & Hnd & Hrefs) [HS0 HSC]%array_get_Done Hnew Hmax'
    Hmono (Samp & HI0 & HI & HIb).
  pose proof (lookup_lt_Some _ _ _ HSC) as HSlt.
  unfold HshMaxStage in Hlen.
  assert (forall s Calls,
            array_set (SampleCalls b) TexStage (StageCalls ++ [Call]) !! s
              = Some Calls ->
            (s = Z.to_nat TexStage /\ Calls = StageCalls ++ [Call])
            \/ (s <> Z.to_nat TexStage /\ SampleCalls b !! s = Some Calls))
    as Hcases.
  { intros s Calls. unfold array_set.
    destruct (decide (s = Z.to_nat TexStage)) as [-> |Hne].
    - rewrite list_lookup_insert_eq by done. intros [= <-]. by left.
    - rewrite list_lookup_insert_ne by done. by right. }
  assert (forall s Calls Call',
            SampleCalls b !! s = Some Calls -> Call' ∈ Calls ->
            exists Samp',
              0 <= SamplerIndex Call'
              /\ Samplers' !! Z.to_nat (SamplerIndex Call') = Some Samp'
              /\ declaredInStage (Z.of_nat s) (SamplerUseStages Samp') = true)
    as Hold.
  { intros s Calls Call' Hs HC.
    pose proof (lookup_lt_Some _ _ _ Hs) as Hslt.
    destruct (Hrefs s Calls Call' Hs HC) as (Samp0 & H0 & Hl & Hd).
    destruct (Hmono _ _ Hl) as (Samp' & Hl' & Hbits).
    exists Samp'. split; [done |]. split; [done |].
    rewrite declaredInStage_testbit in Hd |- * by lia.
    apply Hbits; [lia | done]. }
  split; [| split; [| split]]; simpl.
  - by rewrite array_set_length.
  - done.
  - intros s Calls [[-> ->]|[_ Hs]]%Hcases; [| by eapply Hnd].
    rewrite fmap_app. apply NoDup_app. split; [by eapply Hnd |].
    split; [| apply NoDup_singleton].
    by intros x Hx ->%list_elem_of_singleton.
  - intros s Calls Call' [[-> ->]|[_ Hs]]%Hcases HC; [| by eapply Hold].
    apply elem_of_app in HC as [HC | ->%list_elem_of_singleton];
      [by eapply Hold |].
    exists Samp. split; [done |]. split; [done |].
    rewrite Z2Nat.id by done.
    rewrite declaredInStage_testbit by lia. done.
Qed.

Lemma registerSampleCall_samples_ok (C : SampleCallSite)
    (b b' : StagesBuilder) :
  registerSampleCall C b = Done b' -> samples_ok b ->
  samples_ok b'
  /\ forall TexStage TexIdx, TextureParm C = Some (TexStage, TexIdx) ->
       HshHostStage <= TexStage < HshMaxStage.
Proof.
  intros Hreg Hok. pose proof Hok as (Hlen & Hmax & Hnd & Hrefs).
  unfold registerSampleCall in Hreg.
  destruct (TextureParm C) as [[TexStage TexIdx]|];
    [| injection Hreg as <-; done].
  destruct (array_get (SampleCalls b) TexStage) as [StageCalls| |] eqn:HSC;
    simpl in Hreg; [| done | done].
  pose proof (proj1 (array_get_Done _ _ _) HSC) as [HS0 HSl].
  pose proof (lookup_lt_Some _ _ _ HSl) as HSlt.
  split; [| intros ? ? [= <- <-]; unfold HshHostStage; lia].
  unfold HshMaxStage, HSH_MAX_SAMPLERS in *.
  destruct (existsb _ StageCalls) eqn:Hex; [by injection Hreg as <- |].
  assert (CallPtr C ∉ SampleExpr <$> StageCalls) as Hnew.
  { intros (Call & Heq & Hin)%list_elem_of_fmap.
    assert (existsb (fun Call => bool_decide (SampleExpr Call = CallPtr C))
              StageCalls = true) as Hex'; [| congruence].
    apply existsb_exists. exists Call. split; [by apply list_elem_of_In |].
    by apply bool_decide_eq_true. }
  destruct (SamplerArg C) as [Res|]; [| by injection Hreg as <-].
  destruct (negb (ValidateSamplerStruct Res)); [by injection Hreg as <- |].
  destruct (list_find _ (Samplers b)) as [[i S]|] eqn:Hfind.
  - apply list_find_Some in Hfind as (Hi & _ & _).
    pose proof (lookup_lt_Some _ _ _ Hi) as Hilt.
    assert (unsigned (Z.of_nat i) = Z.of_nat i) as Hu.
    { unfold unsigned. apply Z.mod_small. lia. }
    injection Hreg as <-.
    apply samples_ok_record; try done.
    + unfold HSH_MAX_SAMPLERS. rewrite length_alter. lia.
    + intros j Samp Hj. destruct (decide (j = i)) as [-> |Hne].
      * rewrite list_lookup_alter_eq, Hj. simpl. eexists. split; [done |].
        intros s Hs Hb. simpl. rewrite Z.lor_spec, Hb. done.
      * rewrite list_lookup_alter_ne by done. by exists Samp.
    + simpl. rewrite Hu, Nat2Z.id. eexists. split; [lia |].
      rewrite list_lookup_alter_eq, Hi. simpl. split; [done |]. simpl.
      rewrite Z.lor_spec, StageBit_testbit by lia.
      rewrite (bool_decide_eq_true_2 (TexStage = TexStage)) by done.
      apply orb_true_r.
  - destruct (Z.eqb_spec (Z.of_nat (length (Samplers b))) 32) as [Heq|Hne];
      [by injection Hreg as <- |].
    assert (unsigned (Z.of_nat (length (Samplers b)))
            = Z.of_nat (length (Samplers b))) as Hu.
    { unfold unsigned. apply Z.mod_small. lia. }
    injection Hreg as <-.
    apply samples_ok_record; try done.
    + unfold HSH_MAX_SAMPLERS. rewrite length_app. simpl. lia.
    + intros j Samp Hj. exists Samp. split; [| done].
      by apply lookup_app_l_Some.
    + simpl. rewrite Hu, Nat2Z.id. eexists. split; [lia |].
      split; [by apply list_lookup_middle |]. simpl.
      rewrite StageBit_testbit by lia. by apply bool_decide_eq_true.
Qed.

Lemma registerSampleCalls_samples_ok (calls : list SampleCallSite)
    (b b' : StagesBuilder) :
  registerSampleCalls calls b = Done b' -> samples_ok b ->
  samples_ok b'
  /\ forall C TexStage TexIdx, C ∈ calls ->
       TextureParm C = Some (TexStage, TexIdx) ->
       HshHostStage <= TexStage < HshMaxStage.
Proof.
  revert b. induction calls as [|C calls IH]; intros b; simpl.
  - intros [= <-] Hok. split; [done |]. by intros C ? ? ?%elem_of_nil.
  - destruct (registerSampleCall C b) as [b1| |] eqn:H1; simpl; try done.
    intros H2 Hok.
    destruct (registerSampleCall_samples_ok _ _ _ H1 Hok) as [Hok1 HC].
    destruct (IH _ H2 Hok1) as [Hok' Hrest]. split; [done |].
    intros C' TexStage TexIdx [-> | HC']%elem_of_cons; [apply HC |].
    by apply Hrest.
Qed.

(** X17.  When a sequence of sample calls has been registered on a new
    builder, the sampler table holds [HSH_MAX_SAMPLERS] records at most; the
    calls recorded for a stage are calls of different expressions; every
    recorded call names a record of the sampler table, and the test under
    which a printing policy declares a sampler in a stage holds of this
    record and the stage of the call; and every call site that was
    registered on a parameter is one on a texture parameter of a stage, from
    the host stage to the fragment stage: for a parameter without texture
    attribute, for which [getTextureIndex] gives [HshNoStage], the
    registration indexes [SampleCalls] outside the array. *)
Theorem sample_calls_name_declared_samplers (calls : list SampleCallSite)
    (C : ASTContext) (U : Z) (b' : StagesBuilder) :
  registerSampleCalls calls (StagesBuilder_new C U) = Done b' ->
  Z.of_nat (length (Samplers b')) <= HSH_MAX_SAMPLERS
  /\ (forall s Calls, SampleCalls b' !! s = Some Calls ->
        NoDup (SampleExpr <$> Calls))
  /\ (forall s Calls Call,
        SampleCalls b' !! s = Some Calls -> Call ∈ Calls ->
        exists Samp,
          0 <= SamplerIndex Call
          /\ Samplers b' !! Z.to_nat (SamplerIndex Call) = Some Samp
          /\ declaredInStage (Z.of_nat s) (SamplerUseStages Samp) = true)
  /\ (forall Site TexStage TexIdx, Site ∈ calls ->
        TextureParm Site = Some (TexStage, TexIdx) ->
        HshHostStage <= TexStage < HshMaxStage)
  /\ (forall Site PVD b,
        getAttr HshVertexTextureAttr PVD = None ->
        getAttr HshFragmentTextureAttr PVD = None ->
        TextureParm Site = Some (getTextureIndex PVD) ->
        registerSampleCall Site b = Undefined).
Proof.
  intros Hreg.
  destruct (registerSampleCalls_samples_ok _ _ _ Hreg)
    as [(_ & Hmax & Hnd & Hrefs) Hsites].
  { split; [done |]. split; [done |]. split.
    - intros s Calls [-> _]%lookup_replicate. apply NoDup_nil_2.
    - intros s Calls Call [-> _]%lookup_replicate ?%elem_of_nil. done. }
  split; [done |]. split; [done |]. split; [done |]. split; [done |].
  intros Site PVD b HV HF HT. unfold registerSampleCall.
  rewrite HT. unfold getTextureIndex. rewrite HV, HF. done.
Qed.

Lemma sample_calls_name_declared_samplers_witness :
  let Site :=
    mkSampleCallSite 7%nat 8%nat (Some (HshFragmentStage, 0))
      (Some (APStruct [APInt 0; APInt 1])) in
  let b := StagesBuilder_new (mkASTContext 0%nat []) 35 in
  let b' :=
    set_SampleCalls [[]; []; []; []; []; [mkSampleCall 7%nat 0 0]]
      (set_Samplers [mkSamplerRecord (mkSamplerConfig 0 1) 32] b) in
  Z.of_nat (length (Samplers b')) <= HSH_MAX_SAMPLERS.
Proof.
  intros Site b b'.
  apply (sample_calls_name_declared_samplers [Site] (mkASTContext 0%nat []) 35
           b').
  reflexivity.
Defined.


(** ** Text targets, from the sources to the artifacts *)

Section TextFacts.

Variable xxHash64 : list Z -> Z.

(** The bytes [StagesCompilerText] makes of a source. *)
Definition textBinary (Source : string) : list Z :=
  bytes_of_string Source ++ [0].

Lemma emitStageBinary_nonempty (Target : HshTarget) (Stage : Z)
    (Source : string) (Data : list Z) (Hash : Z) (G : GenerateConsumer) :
  Data <> [] ->
  let G' := emitStageBinary Target Stage Source Data Hash G in
  AnonOS G' = AnonOS G ++ [ShaderObjectRef Hash]
  /\ (OS G' = OS G
      \/ OS G' = OS G ++ [mkShaderArtifact Stage Target Source Data Hash]).
Proof.
  intros Hne. unfold emitStageBinary.
  rewrite bool_decide_eq_false_2 by done. simpl.
  case_bool_decide; simpl; split; auto.
Qed.

Lemma emitStageBinaries_text (Target : HshTarget) (Srcs : list string)
    (StageIt : Z) (G : GenerateConsumer) :
  let Bins :=
    (fun Binary : list Z * Z =>
       if bool_decide (Binary.1 = []) then Binary
       else (Binary.1, xxHash64 Binary.1))
      <$> ((fun Stage : string =>
              if bool_decide (Stage = "") then ([], 0)
              else (textBinary Stage, 0)) <$> Srcs) in
  let G' := emitStageBinaries Target Bins Srcs StageIt G in
  AnonOS G' =
    AnonOS G ++ ((fun Src => ShaderObjectRef (xxHash64 (textBinary Src)))
                   <$> filter (fun Src => Src <> "") Srcs)
  /\ exists New,
       OS G' = OS G ++ New
       /\ Forall (fun a =>
                    ArtifactTarget a = Target
                    /\ ArtifactSource a <> ""
                    /\ ArtifactData a = textBinary (ArtifactSource a)
                    /\ ArtifactHash a = xxHash64 (ArtifactData a)
                    /\ exists k : nat,
                         ArtifactStage a = StageIt + Z.of_nat k
                         /\ Srcs !! k = Some (ArtifactSource a)) New.
Proof.
  revert StageIt G. induction Srcs as [|Src Srcs IH]; intros StageIt G; simpl.
  - rewrite app_nil_r. split; [done |]. exists []. by rewrite app_nil_r.
  - assert (forall New,
              Forall (fun a =>
                        ArtifactTarget a = Target
                        /\ ArtifactSource a <> ""
                        /\ ArtifactData a = textBinary (ArtifactSource a)
                        /\ ArtifactHash a = xxHash64 (ArtifactData a)
                        /\ exists k : nat,
                             ArtifactStage a = StageIt + 1 + Z.of_nat k
                             /\ Srcs !! k = Some (ArtifactSource a)) New ->
              Forall (fun a =>
                        ArtifactTarget a = Target
                        /\ ArtifactSource a <> ""
                        /\ ArtifactData a = textBinary (ArtifactSource a)
                        /\ ArtifactHash a = xxHash64 (ArtifactData a)
                        /\ exists k : nat,
                             ArtifactStage a = StageIt + Z.of_nat k
                             /\ (Src :: Srcs) !! k
                                = Some (ArtifactSource a)) New) as Hshift.
    { intros New HN. eapply Forall_impl; [exact HN |].
      intros a (? & ? & ? & ? & k & ? & ?). repeat (split; [done |]).
      exists (S k). split; [lia | done]. }
    destruct (decide (Src = "")) as [-> |Hsrc].
    + rewrite filter_cons_False by (intros HH; by destruct HH).
      destruct (IH (StageIt + 1) G) as [HA (New & HO & HN)].
      split; [exact HA |]. exists New. split; [exact HO |]. by apply Hshift.
    + rewrite filter_cons_True by done.
      assert (textBinary Src <> []) as Hne.
      { unfold textBinary. by destruct (bytes_of_string Src). }
      rewrite (bool_decide_eq_false_2 (Src = "")) by done. cbn [fst snd].
      rewrite (bool_decide_eq_false_2 (textBinary Src = [])) by done.
      destruct (emitStageBinary_nonempty Target StageIt Src (textBinary Src)
                  (xxHash64 (textBinary Src)) G Hne) as [HA1 HO1].
      destruct (IH (StageIt + 1)
                  (emitStageBinary Target StageIt Src (textBinary Src)
                     (xxHash64 (textBinary Src)) G))
        as [HA (New & HO & HN)].
      cbv zeta in HA, HO. rewrite HA1 in HA.
      split; [rewrite <- app_assoc in HA; exact HA |].
      destruct HO1 as [HO1 | HO1]; rewrite HO1 in HO.
      * exists New. split; [exact HO |]. by apply Hshift.
      * eexists (_ :: New).
        split; [rewrite <- app_assoc in HO; exact HO |].
        constructor; [| by apply Hshift]. simpl.
        repeat (split; [done |]). exists 0%nat. split; [lia | done].
Qed.

(** X18.  For a text target, what [run] emits from the binaries
    [StagesCompilerText] makes of the sources: a stage without source gets
    neither a reference nor an artifact; every other stage gets a reference
    that names the hash of its source followed by a zero byte; and every
    artifact written is for a stage that has the source the artifact
    carries, with this source followed by a zero byte as its bytes and the
    hash of these bytes as its hash. *)
Theorem text_target_emission (S : StageSources) (G : GenerateConsumer) :
  let G' := emitTarget xxHash64 (Sources S) (doCompileText S) G in
  AnonOS G' =
    AnonOS G ++ ((fun Src => ShaderObjectRef (xxHash64 (textBinary Src)))
                   <$> filter (fun Src => Src <> "") (Sources S))
  /\ exists New,
       OS G' = OS G ++ New
       /\ Forall (fun a =>
                    ArtifactTarget a = SourcesTarget S
                    /\ ArtifactSource a <> ""
                    /\ ArtifactData a = textBinary (ArtifactSource a)
                    /\ ArtifactHash a = xxHash64 (ArtifactData a)
                    /\ exists k : nat,
                         ArtifactStage a = HshHostStage + Z.of_nat k
                         /\ Sources S !! k = Some (ArtifactSource a)) New.
Proof.
  apply (emitStageBinaries_text (SourcesTarget S) (Sources S) HshHostStage G).
Qed.

End TextFacts.

(** ** The stage of an operation *)

Lemma DoVisitExprRange_Stage_bounds (Target : Z) (Ss : list Z) (Acc : Z) :
  Acc <= Target -> Forall (fun S => S <= Target) Ss ->
  Acc <= fold_left Z.max Ss Acc <= Target
  /\ Forall (fun S => S <= fold_left Z.max Ss Acc) Ss.
Proof.
  revert Acc. induction Ss as [|S Ss IH]; intros Acc HA HF; simpl.
  - split; [lia | done].
  - apply Forall_cons in HF as [HS HF].
    destruct (IH (Z.max Acc S)) as [Hb Hall]; [lia | done |].
    split; [lia |]. constructor; [lia | done].
Qed.

(** X19.  The stage [ValueTracer] gives an operation is the latest stage
    of its operands or the target stage.  When no operand is of a stage
    after the target stage, it is then not before the stage of any operand,
    so that the operands are carried forward, and not after the target
    stage.  A call with other than two arguments, and a call of a function
    over which interpolation distributes, is of the latest stage of its
    arguments. *)
Theorem operation_stage_bounds (Target L R : Z) (Ss : list Z)
    (Opcode : BinaryOperatorKind) (Operator : OverloadedOperatorKind)
    (Dist : bool) :
  let B := VisitBinaryOperator_Stage Target Opcode L R in
  let O := VisitCXXOperatorCallExpr_Stage Target Operator Ss in
  let F := VisitCallExpr_Stage Target Dist Ss in
  let M := DoVisitExprRange_Stage Ss in
  (B = Z.max L R \/ B = Target)
  /\ (O = M \/ O = Target)
  /\ (F = M \/ F = Target)
  /\ (length Ss <> 2%nat -> O = M /\ F = M)
  /\ VisitCallExpr_Stage Target true Ss = M
  /\ (L <= Target -> R <= Target -> L <= B <= Target /\ R <= B <= Target)
  /\ (HshNoStage <= Target -> Forall (fun S => S <= Target) Ss ->
        O <= Target /\ F <= Target
        /\ Forall (fun S => S <= O) Ss /\ Forall (fun S => S <= F) Ss).
Proof.
  intros B O F M.
  assert (B = Z.max L R \/ B = Target) as HB.
  { unfold B, VisitBinaryOperator_Stage.
    destruct (_ || _); [| by left].
    destruct Opcode; try (by left); try (by right);
      (destruct (GetInterpolated Target R); [by right | by left]). }
  assert (O = M \/ O = Target) as HO.
  { unfold O, VisitCXXOperatorCallExpr_Stage.
    destruct Ss as [|S0 [|S1 [|S2 Ss]]]; try (by left).
    destruct (_ || _); [| by left].
    destruct Operator; try (by left); try (by right);
      (destruct (GetInterpolated Target S1); [by right | by left]). }
  assert (F = M \/ F = Target) as HF.
  { unfold F, VisitCallExpr_Stage.
    destruct Ss as [|S0 [|S1 [|S2 Ss]]]; try (by left).
    destruct (_ && _); [by right | by left]. }
  split; [done |]. split; [done |]. split; [done |]. split; [| split; [| split]].
  - intros Hlen. unfold O, F, VisitCXXOperatorCallExpr_Stage,
      VisitCallExpr_Stage.
    by destruct Ss as [|S0 [|S1 [|S2 Ss]]].
  - unfold VisitCallExpr_Stage.
    destruct Ss as [|S0 [|S1 [|S2 Ss]]]; try done.
    by rewrite andb_false_r.
  - intros HL HR. destruct HB as [-> | ->]; lia.
  - intros HT HSs.
    destruct (DoVisitExprRange_Stage_bounds Target Ss HshNoStage HT HSs)
      as [Hb Hall].
    fold (DoVisitExprRange_Stage Ss) in Hb, Hall. fold M in Hb, Hall.
    destruct HO as [-> | ->], HF as [-> | ->]; repeat split; done || lia.
Qed.

Lemma operation_stage_bounds_witness :
  HshVertexStage <=
    VisitBinaryOperator_Stage HshFragmentStage BO_Div HshVertexStage
      HshHostStage <= HshFragmentStage
  /\ HshHostStage <=
       VisitBinaryOperator_Stage HshFragmentStage BO_Div HshVertexStage
         HshHostStage <= HshFragmentStage.
Proof.
  apply (operation_stage_bounds HshFragmentStage HshVertexStage HshHostStage
           [] BO_Div OO_Plus false); done.
Defined.

(** ** Builtin types *)

Lemma identifyBuiltinType_loop_first (T : Ptr) (Types : list (option Ptr))
    (Ret : Z) :
  ((Some T ∉ Types) /\ identifyBuiltinType_loop T Types Ret = 0)
  \/ exists k : nat,
       identifyBuiltinType_loop T Types Ret = Ret + Z.of_nat k
       /\ Types !! k = Some (Some T)
       /\ forall j, (j < k)%nat -> Types !! j <> Some (Some T).
Proof.
  revert Ret. induction Types as [|Tp Types IH]; intros Ret; simpl.
  - left. split; [by intros ?%elem_of_nil | done].
  - case_bool_decide as Heq.
    + subst Tp. right. exists 0%nat. split; [lia |]. split; [done |].
      intros j Hj. lia.
    + destruct (IH (Ret + 1)) as [[Hnin H0] | (k & Hk & Hl & Hfirst)].
      * left. split; [| done]. by intros [? | ?]%elem_of_cons.
      * right. exists (S k). split; [lia |]. split; [done |].
        intros [|j] Hj; simpl; [congruence |]. apply Hfirst. lia.
Qed.

(** X20.  [identifyBuiltinType] answers [HBT_None], which is zero, for a
    type without declaration and for a declaration that is not in [Types];
    for a declaration that is in [Types] it answers the first index that
    holds it, so that [getTypeDecl] of the answer is the declaration again
    and of no earlier type is. *)
Theorem identify_builtin_type (Types : list (option Ptr)) (T : Ptr) :
  let Tp := identifyBuiltinType Types (Some T) in
  identifyBuiltinType Types None = 0
  /\ (Some T ∉ Types -> Tp = 0)
  /\ (Some T ∈ Types ->
        getTypeDecl Types Tp = Done (Some T)
        /\ forall j, 0 <= j < Tp -> getTypeDecl Types j <> Done (Some T)).
Proof.
  intros Tp. split; [done |]. unfold Tp, identifyBuiltinType.
  destruct (identifyBuiltinType_loop_first T Types 0)
    as [[Hnin H0] | (k & Hk & Hl & Hfirst)].
  - split; [done |]. by intros Hin.
  - rewrite Hk. split.
    + intros Hnin. destruct Hnin. by eapply list_elem_of_lookup_2.
    + intros _. unfold getTypeDecl. split.
      * apply array_get_Done. split; [lia |].
        by replace (Z.to_nat (0 + Z.of_nat k)) with k by lia.
      * intros j Hj [_ Hlj]%array_get_Done.
        apply (Hfirst (Z.to_nat j)); [lia | done].
Qed.

Lemma identify_builtin_type_witness :
  getTypeDecl [None; Some 4%nat; Some 9%nat]
    (identifyBuiltinType [None; Some 4%nat; Some 9%nat] (Some 9%nat))
  = Done (Some 9%nat).
Proof.
  apply (identify_builtin_type [None; Some 4%nat; Some 9%nat] 9%nat).
  apply list_elem_of_further, list_elem_of_further, list_elem_of_here.
Defined.


(** ** Names of interface fields *)

Lemma firstLetter_inj (S1 S2 : Z) :
  HshNoStage <= S1 < HshMaxStage -> HshNoStage <= S2 < HshMaxStage ->
  firstLetter (HshStageToString S1) = firstLetter (HshStageToString S2) ->
  S1 = S2.
Proof.
  unfold HshNoStage, HshMaxStage. intros H1 H2.
  assert (S1 = -1 \/ S1 = 0 \/ S1 = 1 \/ S1 = 2 \/ S1 = 3 \/ S1 = 4 \/ S1 = 5)
    as HS1 by lia.
  assert (S2 = -1 \/ S2 = 0 \/ S2 = 1 \/ S2 = 2 \/ S2 = 3 \/ S2 = 4 \/ S2 = 5)
    as HS2 by lia.
  destruct HS1 as [-> |[-> |[-> |[-> |[-> |[-> | ->]]]]]];
    destruct HS2 as [-> |[-> |[-> |[-> |[-> |[-> | ->]]]]]];
    vm_compute; congruence.
Qed.

Lemma FieldName_inj (F1 F2 : FieldDecl) :
  HshNoStage <= FieldS F1 < HshMaxStage ->
  HshNoStage <= FieldD F1 < HshMaxStage ->
  HshNoStage <= FieldS F2 < HshMaxStage ->
  HshNoStage <= FieldD F2 < HshMaxStage ->
  FieldName F1 = FieldName F2 -> F1 = F2.
Proof.
  intros HS1 HD1 HS2 HD2. unfold FieldName. simpl.
  intros [= HS HD HI].
  apply firstLetter_inj in HS; [| done | done].
  apply firstLetter_inj in HD; [| done | done].
  apply (inj pretty) in HI.
  destruct F1, F2. simpl in *. congruence.
Qed.

Section NameFacts.

Variable same : Expr -> Expr -> bool.

(** The fields of a record are those declared in it, the field at index
    [i] being the one made for the stages of the record and [i]. *)
Definition fields_numbered (R : InterfaceRecord) : Prop :=
  RecordDecl R = Some ((Fields R).*2)
  /\ forall i P, Fields R !! i = Some P ->
       P.2 = mkFieldDecl (SStage R) (DStage R) i.

Lemma getFieldForExpr_numbered (R R' : InterfaceRecord) (E : Expr)
    (IgnoreExisting : bool) (o : option FieldDecl) :
  getFieldForExpr same R E IgnoreExisting = Done (o, R') ->
  fields_numbered R ->
  fields_numbered R' /\ SStage R' = SStage R /\ DStage R' = DStage R.
Proof.
  unfold getFieldForExpr. intros Hget [Hdecl Hnum].
  destruct (find _ (Fields R)); [by injection Hget as <- <- |].
  rewrite Hdecl in Hget. injection Hget as <- <-.
  split; [| done]. split; simpl.
  - by rewrite fmap_app.
  - intros i P Hi.
    destruct (decide (i < length (Fields R))%nat) as [Hlt|Hge].
    + rewrite lookup_app_l in Hi by done. by apply Hnum.
    + rewrite lookup_app_r in Hi by lia.
      apply list_lookup_singleton_Some in Hi as [Hi0 <-]. simpl.
      f_equal. lia.
Qed.

Lemma requestFields_numbered (reqs : list (Expr * bool))
    (R R' : InterfaceRecord) :
  requestFields same reqs R = Done R' -> fields_numbered R ->
  fields_numbered R' /\ SStage R' = SStage R /\ DStage R' = DStage R.
Proof.
  revert R. induction reqs as [|[E f] reqs IH]; intros R; simpl.
  - by intros [= <-].
  - destruct (getFieldForExpr same R E f) as [[o R1]| |] eqn:Hget;
      simpl; try done.
    intros Hrest Hok.
    destruct (getFieldForExpr_numbered _ _ _ _ _ Hget Hok)
      as (Hok1 & HS1 & HD1).
    destruct (IH _ Hrest Hok1) as (Hok' & HS' & HD').
    split; [done |]. split; congruence.
Qed.

(** X21.  After any requests for fields to the record the constructor
    declares from stage [S] to stage [D], the record declaration holds the
    fields of the entries, in their order; the field of entry [i] has the
    name made of an underscore, the first letters of the names of [S] and
    [D], and [i] in decimal; and no two fields of the record have the same
    name.  Fields of two records for different stages have different names
    as well. *)
Theorem record_field_names (reqs : list (Expr * bool)) (S D : Z)
    (R' : InterfaceRecord) :
  HshNoStage <= S < HshMaxStage -> HshNoStage <= D < HshMaxStage ->
  requestFields same reqs (initializeRecord InterfaceRecord_new S D) = Done R' ->
  RecordDecl R' = Some ((Fields R').*2)
  /\ (forall i P, Fields R' !! i = Some P ->
        FieldName P.2 =
          "_" +:+ String (firstLetter (HshStageToString S))
                    (String (firstLetter (HshStageToString D)) (pretty i)))
  /\ NoDup (FieldName <$> (Fields R').*2)
  /\ (forall F1 F2,
        HshNoStage <= FieldS F1 < HshMaxStage ->
        HshNoStage <= FieldD F1 < HshMaxStage ->
        HshNoStage <= FieldS F2 < HshMaxStage ->
        HshNoStage <= FieldD F2 < HshMaxStage ->
        FieldName F1 = FieldName F2 -> F1 = F2).
Proof.
  intros HS HD Hreq.
  destruct (requestFields_numbered _ _ _ Hreq) as ((Hdecl & Hnum) & HS' & HD').
  { split; [done |]. by intros i P ?. }
  simpl in HS', HD'. rewrite HS', HD' in Hnum.
  split; [done |]. split; [| split; [| apply FieldName_inj]].
  - intros i P Hi. by rewrite (Hnum i P Hi).
  - apply NoDup_alt. intros i j N Hi Hj.
    rewrite !list_lookup_fmap in Hi, Hj.
    destruct (Fields R' !! i) as [Pi|] eqn:HPi; [| done].
    destruct (Fields R' !! j) as [Pj|] eqn:HPj; [| done].
    simpl in Hi, Hj. injection Hi as Hi. injection Hj as Hj.
    rewrite (Hnum i Pi HPi) in Hi. rewrite (Hnum j Pj HPj) in Hj.
    assert (mkFieldDecl S D i = mkFieldDecl S D j) as Heq.
    { apply FieldName_inj; simpl; try done. congruence. }
    congruence.
Qed.

End NameFacts.

Lemma record_field_names_witness :
  let E := DeclRefExpr 3%nat (ParmVar 1%nat) in
  let F := mkFieldDecl HshVertexStage HshFragmentStage 0 in
  FieldName F = "_vf0".
Proof.
  intros E F.
  pose proof (record_field_names (fun _ _ => false) [(E, false)]
                HshVertexStage HshFragmentStage
                (mkInterfaceRecord (Some [F]) [(E, F)]
                   (Some (ProducerVar HshVertexStage HshFragmentStage))
                   (Some (ConsumerVar HshVertexStage HshFragmentStage))
                   HshVertexStage HshFragmentStage)) as H.
  destruct H as (_ & Hname & _); [done | done | reflexivity |].
  apply (Hname 0%nat (E, F)). reflexivity.
Defined.


(** ** The C array of a stage binary *)

Section CArrayFacts.

Variable write_hex : Z -> string.

(** What the stream does for one character: the line break when the line
    is full, then the character. *)
Definition write_char (S : raw_carray_ostream) (c : Z) : raw_carray_ostream :=
  let S1 :=
    if (LineRem S =? 0)%nat
    then mk_raw_carray_ostream (CArrayOS S +:+ newline +:+ " ") LineSize
    else S in
  mk_raw_carray_ostream (CArrayOS S1 +:+ " " +:+ write_hex c +:+ ",")
    (LineRem S1 - 1).

Lemma write_chars_line (l : list Z) (S : raw_carray_ostream) :
  (length l <= LineRem S)%nat ->
  foldl write_char S l =
    mk_raw_carray_ostream (write_line write_hex l (CArrayOS S))
      (LineRem S - length l).
Proof.
  revert S. induction l as [|c l IH]; intros S Hlen; simpl in *.
  - rewrite Nat.sub_0_r. by destruct S.
  - unfold write_char at 2.
    destruct (Nat.eqb_spec (LineRem S) 0) as [H0|Hn0]; [lia |].
    rewrite IH by (simpl; lia). simpl. f_equal. lia.
Qed.

Lemma write_char_full (S : raw_carray_ostream) (c : Z) :
  LineRem S = 0%nat ->
  write_char S c =
    write_char
      (mk_raw_carray_ostream (CArrayOS S +:+ newline +:+ " ") LineSize) c.
Proof. intros H0. unfold write_char. by rewrite H0. Qed.

Lemma write_impl_loop_chars (fuel : nat) (Ptr : list Z)
    (S : raw_carray_ostream) :
  (length Ptr <= fuel)%nat ->
  write_impl_loop write_hex fuel Ptr S = Some (foldl write_char S Ptr).
Proof.
  revert Ptr S. induction fuel as [|fuel IH]; intros [|c Ptr] S Hlen;
    simpl in Hlen; try done; try lia.
  assert (foldl write_char S (c :: Ptr) =
          foldl write_char
            (if (LineRem S =? 0)%nat
             then mk_raw_carray_ostream (CArrayOS S +:+ newline +:+ " ")
                    LineSize
             else S) (c :: Ptr)) as ->.
  { destruct (Nat.eqb_spec (LineRem S) 0) as [H0|Hn0]; [| done].
    simpl. by rewrite (write_char_full S c H0). }
  cbn [write_impl_loop].
  set (S1 := if (LineRem S =? 0)%nat
             then mk_raw_carray_ostream (CArrayOS S +:+ newline +:+ " ")
                    LineSize
             else S).
  assert (1 <= LineRem S1)%nat as HS1.
  { unfold S1. destruct (Nat.eqb_spec (LineRem S) 0); simpl;
      [unfold LineSize |]; lia. }
  set (n := Nat.min (length (c :: Ptr)) (LineRem S1)).
  assert (1 <= n <= length (c :: Ptr))%nat as Hn by (unfold n; cbn [length]; lia).
  cbn [length] in Hn.
  rewrite IH by (rewrite length_drop; cbn [length]; lia).
  f_equal.
  rewrite <- (take_drop n (c :: Ptr)) at 3.
  rewrite foldl_app. f_equal.
  rewrite write_chars_line by (rewrite length_take; cbn [length]; lia).
  f_equal. rewrite length_take. cbn [length]. lia.
Qed.

Lemma write_chars_LineRem (l : list Z) (S : raw_carray_ostream) :
  (LineRem S < LineSize)%nat ->
  (LineRem (foldl write_char S l) < LineSize)%nat
  /\ Z.of_nat (LineRem (foldl write_char S l)) =
       (Z.of_nat (LineRem S) - Z.of_nat (length l)) mod Z.of_nat LineSize.
Proof.
  unfold LineSize. revert S. induction l as [|c l IH]; intros S HS; simpl.
  - split; [done |]. rewrite Z.sub_0_r, Z.mod_small; lia.
  - destruct (IH (write_char S c)) as [Hlt Heq].
    { unfold write_char. destruct (Nat.eqb_spec (LineRem S) 0); simpl;
        [unfold LineSize |]; lia. }
    split; [done |]. rewrite Heq.
    unfold write_char. destruct (Nat.eqb_spec (LineRem S) 0) as [H0|Hn0];
      simpl.
    + rewrite H0. unfold LineSize.
      replace (Z.of_nat 11 - Z.of_nat (length l))
        with (Z.of_nat 0 - Z.of_nat (Datatypes.S (length l))
              + 1 * Z.of_nat 12) by lia.
      by rewrite Z.mod_add.
    + f_equal. lia.
Qed.

(** X22.  [write_impl] always returns, and what it writes for a buffer is
    what it writes character by character: a line break and two spaces
    before the first character of every line, then a space, the character
    in hexadecimal and a comma.  So the text does not depend on how the
    characters arrive: writing two buffers one after the other is writing
    them as one.  A line holds [LineSize] characters: from a stream whose
    line is not full, [LineRem] afterwards is the difference of [LineRem]
    before and the number of characters written, modulo [LineSize]. *)
Theorem carray_written_by_character (Ptr1 Ptr2 : list Z)
    (S : raw_carray_ostream) :
  write_impl write_hex Ptr1 S = Some (foldl write_char S Ptr1)
  /\ write_impl write_hex (Ptr1 ++ Ptr2) S =
       (S1 ← write_impl write_hex Ptr1 S; write_impl write_hex Ptr2 S1)
  /\ ((LineRem S < LineSize)%nat ->
        Z.of_nat (LineRem (foldl write_char S Ptr1)) =
          (Z.of_nat (LineRem S) - Z.of_nat (length Ptr1))
            mod Z.of_nat LineSize).
Proof.
  unfold write_impl. split; [| split].
  - by apply write_impl_loop_chars.
  - rewrite !write_impl_loop_chars by done. simpl.
    rewrite write_impl_loop_chars by done. by rewrite foldl_app.
  - intros HS. by apply write_chars_LineRem.
Qed.

End CArrayFacts.

(** ** The command line of the compiler *)

Lemma append_cons (a : Ascii.ascii) (s1 s2 : string) :
  String a s1 +:+ s2 = String a (s1 +:+ s2).
Proof. reflexivity. Qed.

Lemma prefix_append (s1 s2 : string) :
  String.prefix s1 s2 = true <-> exists r, s2 = s1 +:+ r.
Proof.
  revert s2. induction s1 as [|a s1 IH]; intros [|b s2].
  - split; [| done]. intros _. by exists "".
  - split; [| done]. intros _. by exists (String b s2).
  - split; [done |]. intros [r Hr]. by rewrite append_cons in Hr.
  - cbn [String.prefix]. destruct (Ascii.ascii_dec a b) as [-> |Hne].
    + rewrite IH. split; intros [r Hr]; exists r;
        rewrite append_cons in *; congruence.
    + split; [done |]. intros [r Hr]. rewrite append_cons in Hr. congruence.
Qed.

Lemma length_append (s1 s2 : string) :
  String.length (s1 +:+ s2) = (String.length s1 + String.length s2)%nat.
Proof.
  induction s1 as [|a s1 IH]; [done |].
  rewrite append_cons. simpl. by rewrite IH.
Qed.

Lemma get_append (s1 s2 : string) :
  String.get (String.length s1) (s1 +:+ s2) = String.get 0 s2.
Proof.
  induction s1 as [|a s1 IH]; [done |]. rewrite append_cons. by simpl.
Qed.

Lemma isProfileModeDef_iff (Def : string) :
  isProfileModeDef Def = true <->
  Def = TestLiteral \/ exists Rest, Def = TestLiteral +:+ "=" +:+ Rest.
Proof.
  unfold isProfileModeDef. rewrite andb_true_iff, prefix_append. split.
  - intros [[r ->] Hrest]. apply orb_true_iff in Hrest as [Hlen | Hget].
    + left. apply Nat.eqb_eq in Hlen. rewrite length_append in Hlen.
      destruct r; simpl in Hlen; [done | lia].
    + right. apply bool_decide_eq_true in Hget. rewrite get_append in Hget.
      destruct r as [|a r]; simpl in Hget; [done |].
      injection Hget as ->. by exists r.
  - intros [-> | [Rest ->]].
    + split; [by exists "" | done].
    + split; [by eexists |]. apply orb_true_iff. right.
      apply bool_decide_eq_true. by rewrite get_append.
Qed.

(** The options with other definitions. *)
Definition withCompileDefs (Defs : list string) (o : HshgenOptions)
    : HshgenOptions :=
  mkHshgenOptions (argv0 o) (onLinux o) (Verbose o) (colorsEnabled o)
    (IncludeDirs o) Defs (MD o) (MF o) (MT o) (Input o) (Output o).

(** X23.  [main] leaves out of the command line of the compiler exactly
    the definitions of [HSH_PROFILE_MODE], with or without a value: a
    definition of a longer name that begins the same is handed on.  The
    command line is that of the options without these definitions, in
    which every definition is handed on with [-D], in order; it begins with
    the name of the program and ends with [-o], the output and the
    input. *)
Theorem hshgen_arguments (o : HshgenOptions) :
  (forall Def, isProfileModeDef Def = true <->
     Def = "HSH_PROFILE_MODE"
     \/ exists Rest, Def = "HSH_PROFILE_MODE=" +:+ Rest)
  /\ hshgenArgs o =
       hshgenArgs
         (withCompileDefs
            (filter (fun Def => isProfileModeDef Def = false) (CompileDefs o))
            o)
  /\ ((forall Def, Def ∈ CompileDefs o -> isProfileModeDef Def = false) ->
        exists Pre Post,
          hshgenArgs o =
            Pre ++ flat_map (fun Def => ["-D"; Def]) (CompileDefs o) ++ Post)
  /\ exists Mid, hshgenArgs o = argv0 o :: Mid ++ ["-o"; Output o; Input o].
Proof.
  split; [apply isProfileModeDef_iff |].
  assert (forall Defs : list string,
            flat_map (fun Def => if isProfileModeDef Def then []
                                 else ["-D"; Def]) Defs =
            flat_map (fun Def => ["-D"; Def])
              (filter (fun Def => isProfileModeDef Def = false) Defs))
    as Hdefs.
  { induction Defs as [|Def Defs IH]; [done |]. simpl.
    destruct (isProfileModeDef Def) eqn:HP.
    - rewrite filter_cons_False by congruence. done.
    - rewrite filter_cons_True by done. simpl. by rewrite IH. }
  split; [| split].
  - unfold hshgenArgs, withCompileDefs. simpl.
    rewrite !Hdefs. do 6 f_equal. by rewrite list_filter_filter_l.
  - intros Hall. unfold hshgenArgs. rewrite Hdefs.
    assert (filter (fun Def => isProfileModeDef Def = false) (CompileDefs o)
            = CompileDefs o) as ->.
    { induction (CompileDefs o) as [|Def Defs IH]; [done |].
      rewrite filter_cons_True by (apply Hall; by left).
      f_equal. apply IH. intros D HD. apply Hall. by right. }
    match goal with
    | |- exists Pre Post,
           ?a ++ ?b ++ ?c ++ ?d ++ ?e ++ ?f ++ ?g ++ ?h = _ =>
        exists (a ++ b ++ c ++ d ++ e ++ f), h
    end.
    by rewrite <- !app_assoc.
  - unfold hshgenArgs.
    match goal with
    | |- exists Mid,
           ?a ++ ?b ++ ?c ++ ?d ++ ?e ++ ?f ++ ?g ++ ?h ++ ?i = _ =>
        exists (b ++ c ++ d ++ e ++ f ++ g ++ h)
    end.
    by rewrite <- !app_assoc.
Qed.


(** ** Includes and macro expansions *)

(** The entries of a [std::map] are in ascending order of their keys. *)
Fixpoint ascending {V} (m : list (Z * V)) : Prop :=
  match m with
  | [] => True
  | e :: m' => (forall e', e' ∈ m' -> e.1 < e'.1) /\ ascending m'
  end.

Lemma map_assign_elem {V} (k : Z) (v : V) (m : list (Z * V)) (e : Z * V) :
  ascending m ->
  e ∈ map_assign k v m <-> e = (k, v) \/ (e ∈ m /\ e.1 <> k).
Proof.
  induction m as [|e0 m IH]; intros Hasc; simpl.
  - rewrite list_elem_of_singleton. split; [by left |].
    by intros [? | [?%elem_of_nil _]].
  - destruct Hasc as [Hlt Hasc].
    destruct (Z.ltb_spec k e0.1) as [Hk|Hk].
    + rewrite !elem_of_cons. split.
      * intros [-> | [-> | He]]; [by left | right | right].
        -- split; [by left | lia].
        -- split; [by right |]. specialize (Hlt _ He). lia.
      * intros [-> | [[-> | He] _]]; auto.
    + destruct (Z.eqb_spec k e0.1) as [Heq|Hne].
      * rewrite !elem_of_cons. split.
        -- intros [-> | He]; [by left |]. right.
           split; [by right |]. specialize (Hlt _ He). lia.
        -- intros [-> | [[-> | He] Hk']]; [by left | congruence | by right].
      * rewrite !elem_of_cons, (IH Hasc). split.
        -- intros [-> | [-> | [He Hk']]]; auto.
        -- intros [-> | [[-> | He] Hk']]; auto.
Qed.

Lemma map_assign_ascending {V} (k : Z) (v : V) (m : list (Z * V)) :
  ascending m -> ascending (map_assign k v m).
Proof.
  induction m as [|e0 m IH]; intros Hasc; simpl;
    [split; [by intros e' ?%elem_of_nil | done] |].
  pose proof Hasc as [Hlt Hasc'].
  destruct (Z.ltb_spec k e0.1) as [Hk|Hk].
  - split; [| done]. intros e' [-> | He]%elem_of_cons; simpl; [done |].
    specialize (Hlt _ He). lia.
  - destruct (Z.eqb_spec k e0.1) as [Heq|Hne].
    + split; [| done]. intros e' He. specialize (Hlt _ He). simpl. lia.
    + split; [| by apply IH].
      intros e' [-> | [He _]]%(map_assign_elem k v m e' Hasc'); simpl;
        [lia | by apply Hlt].
Qed.

Lemma find_unique {A} (f : A -> bool) (l : list A) (x : A) :
  x ∈ l -> f x = true -> (forall y, y ∈ l -> f y = true -> y = x) ->
  find f l = Some x.
Proof.
  induction l as [|a l IH]; intros Hin Hfx Huniq; simpl.
  - by apply elem_of_nil in Hin.
  - destruct (f a) eqn:Hfa.
    + f_equal. apply Huniq; [by left | done].
    + apply IH; [| done |].
      * apply elem_of_cons in Hin as [-> | Hin]; [congruence | done].
      * intros y Hy. apply Huniq. by right.
Qed.

Lemma find_all_false {A} (f : A -> bool) (l : list A) :
  (forall y, y ∈ l -> f y = false) -> find f l = None.
Proof.
  induction l as [|a l IH]; intros Hall; simpl; [done |].
  rewrite (Hall a) by (by left). apply IH. intros y Hy. apply Hall. by right.
Qed.

Section PreprocessorFacts.

Variable isWrittenInMainFile : Z -> bool.
Variable getPresumedLine : Z -> Z.
Variable ExpectedName : string.

#[local] Abbreviation registerExpansion :=
  (registerHshExpansion isWrittenInMainFile).
#[local] Abbreviation registerHeadInclude :=
  (registerHshHeadInclude isWrittenInMainFile ExpectedName).
#[local] Abbreviation nameBeforeLambda :=
  (getExpansionNameBeforeLambda getPresumedLine).

(** What holds of the expansions seen: they are in the order of their
    locations, each under the begin of its range, which is in the main
    file, and no two have the same name. *)
Definition expansions_ok (St : PreprocessorState) : Prop :=
  ascending (SeenHshExpansions St)
  /\ NoDup ((fun e => e.2.2) <$> SeenHshExpansions St)
  /\ forall e, e ∈ SeenHshExpansions St ->
       isWrittenInMainFile e.1 = true /\ e.2.1.1 = e.1.

Lemma registerHshExpansion_cases (Range : SourceRange) (Name : string)
    (St : PreprocessorState) :
  (isWrittenInMainFile Range.1 = false
   /\ registerExpansion Range Name St = St)
  \/ (isWrittenInMainFile Range.1 = true
      /\ exists e, e ∈ SeenHshExpansions St /\ e.2.2 = Name
           /\ registerExpansion Range Name St =
                mkPreprocessorState (HeadInclude St) (SeenHshExpansions St)
                  (ConsumerDiags St ++
                     [mkConsumerDiag Error ExpansionNotUnique Range.1;
                      mkConsumerDiag Note PreviousIdentifierUsage e.1]))
  \/ (isWrittenInMainFile Range.1 = true
      /\ (Name ∉ (fun e => e.2.2) <$> SeenHshExpansions St)
      /\ registerExpansion Range Name St =
           mkPreprocessorState (HeadInclude St)
             (map_assign Range.1 (Range, Name) (SeenHshExpansions St))
             (ConsumerDiags St)).
Proof.
  unfold registerHshExpansion.
  destruct (isWrittenInMainFile Range.1); [| by left]. right.
  destruct (find _ (SeenHshExpansions St)) as [e|] eqn:Hfind.
  - left. split; [done |]. exists e.
    apply find_some in Hfind as [Hin Heq%String.eqb_eq].
    split; [by apply list_elem_of_In |]. done.
  - right. split; [done |]. split; [| done].
    intros (e & -> & He)%list_elem_of_fmap.
    apply list_elem_of_In in He.
    pose proof (find_none _ _ Hfind e He) as Hne. simpl in Hne.
    by rewrite String.eqb_refl in Hne.
Qed.

Lemma registerHshExpansion_ok (Range : SourceRange) (Name : string)
    (St : PreprocessorState) :
  expansions_ok St -> expansions_ok (registerExpansion Range Name St).
Proof.
  intros (Hasc & Hnd & Hkeys).
  destruct (registerHshExpansion_cases Range Name St)
    as [[_ ->] | [(_ & e & _ & _ & ->) | (Hmain & Hnew & ->)]]; try done.
  split; [by apply map_assign_ascending |]. simpl. split.
  - clear Hkeys. revert Hasc Hnd Hnew.
    induction (SeenHshExpansions St) as [|e0 m IH]; simpl;
      intros Hasc Hnd Hnew.
    + apply NoDup_singleton.
    + apply NoDup_cons in Hnd as [Hnin Hnd].
      apply not_elem_of_cons in Hnew as [Hne0 Hnew].
      destruct Hasc as [Hlt Hasc].
      destruct (Range.1 <? e0.1).
      * simpl. apply NoDup_cons. split; [| by apply NoDup_cons].
        intros [? | ?]%elem_of_cons; done.
      * destruct (Range.1 =? e0.1); simpl.
        -- by apply NoDup_cons.
        -- apply NoDup_cons. split; [| by apply IH].
           intros (e & He2 & [-> | [He _]]%(map_assign_elem _ _ m e Hasc))
             %list_elem_of_fmap; simpl in *; [congruence |].
           apply Hnin. apply list_elem_of_fmap. by exists e.
  - intros e [-> | [He _]]%(map_assign_elem _ _ _ e Hasc); [done |].
    by apply Hkeys.
Qed.

Lemma registerHshExpansions_ok (exps : list (SourceRange * string))
    (St : PreprocessorState) :
  expansions_ok St ->
  expansions_ok (foldl (fun St e => registerExpansion e.1 e.2 St) St exps).
Proof.
  revert St. induction exps as [|e exps IH]; intros St Hok; simpl; [done |].
  apply IH. by apply registerHshExpansion_ok.
Qed.

(** X24.  However many expansions are registered, from a state that has
    seen none: the expansions seen are in the order of their locations,
    all in the main file, and no two have the same name.  An expansion
    outside the main file is ignored.  One in the main file under a name
    that was seen is not recorded: an error is reported at it and a note
    at the expansion seen under the name. *)
Theorem expansion_names_unique (exps : list (SourceRange * string))
    (Head : option (Z * string)) (Diags0 : list ConsumerDiag)
    (Range : SourceRange) (Name : string) :
  let St :=
    foldl (fun St e => registerExpansion e.1 e.2 St)
      (mkPreprocessorState Head [] Diags0) exps in
  let St' := registerExpansion Range Name St in
  ascending (SeenHshExpansions St)
  /\ NoDup ((fun e => e.2.2) <$> SeenHshExpansions St)
  /\ (forall e, e ∈ SeenHshExpansions St ->
        isWrittenInMainFile e.1 = true /\ e.2.1.1 = e.1)
  /\ (isWrittenInMainFile Range.1 = false -> St' = St)
  /\ (isWrittenInMainFile Range.1 = true ->
      Name ∈ (fun e => e.2.2) <$> SeenHshExpansions St ->
      exists e,
        e ∈ SeenHshExpansions St /\ e.2.2 = Name
        /\ St' =
             mkPreprocessorState (HeadInclude St) (SeenHshExpansions St)
               (ConsumerDiags St ++
                  [mkConsumerDiag Error ExpansionNotUnique Range.1;
                   mkConsumerDiag Note PreviousIdentifierUsage e.1])).
Proof.
  intros St St'.
  assert (expansions_ok St) as (Hasc & Hnd & Hkeys).
  { apply registerHshExpansions_ok.
    split; [done |]. split; [apply NoDup_nil_2 |].
    by intros e ?%elem_of_nil. }
  split; [done |]. split; [done |]. split; [done |].
  destruct (registerHshExpansion_cases Range Name St)
    as [[Hmain Heq] | [(Hmain & e & He & Hname & Heq)
                      | (Hmain & Hnew & Heq)]].
  - split; [done |]. intros Hmain'. congruence.
  - split; [intros Hmain'; congruence |]. intros _ _. by exists e.
  - split; [intros Hmain'; congruence |]. by intros _ Hin.
Qed.

(** X25.  Once an expansion has been registered in the main file under a
    name that was not seen, and no other expansion seen begins on its
    line, [getExpansionNameBeforeLambda] gives its name for attributes of
    which the first generator lambda attribute is on that line.  It gives
    the empty name when no expansion seen begins on the line of a
    generator lambda attribute. *)
Theorem expansion_name_before_lambda (Range : SourceRange) (Name : string)
    (St : PreprocessorState) (Others Rest : list (bool * Z)) (L : Z) :
  isWrittenInMainFile Range.1 = true ->
  Name ∉ (fun e => e.2.2) <$> SeenHshExpansions St ->
  ascending (SeenHshExpansions St) ->
  (forall e, e ∈ SeenHshExpansions St -> e.1 <> Range.1 ->
     getPresumedLine e.1 <> getPresumedLine Range.1) ->
  Forall (fun Attr => Attr.1 = false) Others ->
  getPresumedLine L = getPresumedLine Range.1 ->
  nameBeforeLambda (Others ++ (true, L) :: Rest)
    (SeenHshExpansions (registerExpansion Range Name St)) = Name
  /\ forall Attrs Seen,
       (forall Attr e, Attr ∈ Attrs -> Attr.1 = true -> e ∈ Seen ->
          getPresumedLine e.1 <> getPresumedLine Attr.2) ->
       nameBeforeLambda Attrs Seen = "".
Proof.
  intros Hmain Hnew Hasc Hlines Hothers HL. split.
  - destruct (registerHshExpansion_cases Range Name St)
      as [[Hmain' _] | [(_ & e & He & Hname & _) | (_ & _ & ->)]].
    + congruence.
    + destruct Hnew. apply list_elem_of_fmap. by exists e.
    + simpl. induction Others as [|[k Lk] Others IH]; simpl.
      * rewrite (find_unique _ _ (Range.1, (Range, Name))); [done | | |].
        -- apply map_assign_elem; [done |]. by left.
        -- simpl. apply Z.eqb_eq. by rewrite HL.
        -- intros y [-> | [Hy Hk]]%(map_assign_elem _ _ _ y Hasc) Hline;
             [done |].
           apply Z.eqb_eq in Hline. rewrite HL in Hline.
           by destruct (Hlines y Hy Hk).
      * apply Forall_cons in Hothers as [Hk Hothers]. simpl in Hk. subst k.
        by apply IH.
  - intros Attrs Seen Hnone.
    induction Attrs as [|[k Lk] Attrs IH]; simpl; [done |].
    assert (nameBeforeLambda Attrs Seen = "") as Hrest.
    { apply IH. intros Attr e HA. apply Hnone. by right. }
    destruct k; [| done].
    rewrite find_all_false; [done |].
    intros y Hy. apply Z.eqb_neq. apply (Hnone (true, Lk) y); [by left | | ];
      done.
Qed.

(** The includes that count as head include: those in the main file that
    name the output file. *)
Definition headIncludes (incs : list (Z * Z * string))
    : list (Z * Z * string) :=
  filter (fun i => isWrittenInMainFile i.1.1 = true /\ i.2 = ExpectedName)
    incs.

Definition errorCount (Diags : list ConsumerDiag) : nat :=
  length (filter (fun d => ConsumerLevel d = Error) Diags).

Lemma registerHshHeadInclude_cases (i : Z * Z * string)
    (St : PreprocessorState) :
  (isWrittenInMainFile i.1.1 = false
   /\ registerHeadInclude i.1.1 i.1.2 i.2 St = St)
  \/ (isWrittenInMainFile i.1.1 = true
      /\ exists Head, HeadInclude St = Some Head
           /\ registerHeadInclude i.1.1 i.1.2 i.2 St =
                mkPreprocessorState (Some Head) (SeenHshExpansions St)
                  (ConsumerDiags St ++
                     [mkConsumerDiag Error MultipleHeadIncludes i.1.1;
                      mkConsumerDiag Note PreviousIncludeHere Head.1]))
  \/ (isWrittenInMainFile i.1.1 = true /\ HeadInclude St = None
      /\ i.2 <> ExpectedName
      /\ registerHeadInclude i.1.1 i.1.2 i.2 St =
           mkPreprocessorState None (SeenHshExpansions St)
             (ConsumerDiags St ++
                [mkConsumerDiag Error HeadIncludeMismatch i.1.2]))
  \/ (isWrittenInMainFile i.1.1 = true /\ HeadInclude St = None
      /\ i.2 = ExpectedName
      /\ registerHeadInclude i.1.1 i.1.2 i.2 St =
           mkPreprocessorState (Some (i.1.1, i.2)) (SeenHshExpansions St)
             (ConsumerDiags St)).
Proof.
  unfold registerHshHeadInclude.
  destruct (isWrittenInMainFile i.1.1); [| by left]. right.
  destruct (HeadInclude St) as [Head|]; [left; split; [done |]; by exists Head |].
  right. destruct (String.eqb_spec ExpectedName i.2) as [Heq|Hne]; simpl.
  - right. done.
  - left. split; [done |]. split; [done |]. split; [congruence | done].
Qed.

Lemma errorCount_snoc_error (Diags : list ConsumerDiag)
    (msg : ConsumerDiagMessage) (loc : Z) (notes : list ConsumerDiag) :
  Forall (fun d => ConsumerLevel d = Note) notes ->
  errorCount (Diags ++ mkConsumerDiag Error msg loc :: notes) =
    S (errorCount Diags).
Proof.
  intros Hnotes. unfold errorCount.
  rewrite filter_app, length_app, filter_cons_True by done.
  assert (filter (fun d => ConsumerLevel d = Error) notes = []) as ->.
  { induction Hnotes as [|d notes Hd _ IH]; [done |].
    rewrite filter_cons_False by congruence. done. }
  simpl. lia.
Qed.

Lemma registerHeadIncludes_held (incs : list (Z * Z * string))
    (St : PreprocessorState) (Head : Z * string) :
  HeadInclude St = Some Head ->
  let St' :=
    foldl (fun St i => registerHeadInclude i.1.1 i.1.2 i.2 St) St incs in
  HeadInclude St' = Some Head
  /\ SeenHshExpansions St' = SeenHshExpansions St
  /\ errorCount (ConsumerDiags St') =
       (errorCount (ConsumerDiags St)
        + length (filter (fun i => isWrittenInMainFile i.1.1 = true) incs))%nat.
Proof.
  revert St. induction incs as [|i incs IH]; intros St HH; cbn [foldl].
  - cbv zeta. split; [done |]. split; [done |]. simpl. lia.
  - destruct (registerHshHeadInclude_cases i St)
      as [[Hmain ->] | [(Hmain & Head' & HH' & ->)
                       | [(_ & HN & _) | (_ & HN & _)]]];
      try congruence.
    + rewrite filter_cons_False by congruence. by apply IH.
    + rewrite filter_cons_True by done.
      destruct (IH (mkPreprocessorState (Some Head') (SeenHshExpansions St)
                      (ConsumerDiags St ++
                         [mkConsumerDiag Error MultipleHeadIncludes i.1.1;
                          mkConsumerDiag Note PreviousIncludeHere Head'.1])))
        as (H1 & H2 & H3); [simpl; congruence |].
      cbv zeta in H1, H2, H3. cbv zeta.
      split; [done |]. split; [done |]. rewrite H3. simpl.
      rewrite errorCount_snoc_error by (by repeat constructor). lia.
Qed.

(** X26.  However many includes are registered, from a state without head
    include: the head include is the first include in the main file that
    names the output file, if there is one; every other include in the main
    file is reported as an error, and no include outside the main file is;
    the expansions seen stay as they are. *)
Theorem head_include_once (incs : list (Z * Z * string))
    (Seen : list (Z * (SourceRange * string))) (Diags0 : list ConsumerDiag) :
  let St :=
    foldl (fun St i => registerHeadInclude i.1.1 i.1.2 i.2 St)
      (mkPreprocessorState None Seen Diags0) incs in
  HeadInclude St = (fun i => (i.1.1, i.2)) <$> head (headIncludes incs)
  /\ SeenHshExpansions St = Seen
  /\ (errorCount (ConsumerDiags St)
      + match HeadInclude St with Some _ => 1 | None => 0 end)%nat =
       (errorCount Diags0
        + length (filter (fun i => isWrittenInMainFile i.1.1 = true) incs))%nat.
Proof.
  revert Diags0. induction incs as [|i incs IH]; intros Diags0; cbn [foldl].
  - cbv zeta. split; [done |]. split; [done |]. simpl. lia.
  - unfold headIncludes.
    destruct (registerHshHeadInclude_cases i
                (mkPreprocessorState None Seen Diags0))
      as [[Hmain ->] | [(_ & Head' & HH' & _)
                       | [(Hmain & _ & Hname & ->)
                         | (Hmain & _ & Hname & ->)]]];
      try done.
    + rewrite (filter_cons_False
                 (fun i => isWrittenInMainFile i.1.1 = true)) by congruence.
      rewrite filter_cons_False by (intros [? _]; congruence).
      apply IH.
    + rewrite (filter_cons_True (fun i => isWrittenInMainFile i.1.1 = true))
        by done.
      rewrite filter_cons_False by (intros [_ ?]; congruence).
      destruct (IH (Diags0 ++
                      [mkConsumerDiag Error HeadIncludeMismatch i.1.2]))
        as (H1 & H2 & H3).
      cbv zeta in H1, H2, H3. cbv zeta. cbn [SeenHshExpansions ConsumerDiags].
      split; [done |]. split; [done |]. rewrite H3.
      rewrite errorCount_snoc_error by done. simpl. lia.
    + rewrite (filter_cons_True (fun i => isWrittenInMainFile i.1.1 = true))
        by done.
      rewrite filter_cons_True by done.
      destruct (registerHeadIncludes_held incs
                  (mkPreprocessorState (Some (i.1.1, i.2)) Seen Diags0)
                  (i.1.1, i.2) eq_refl) as (H1 & H2 & H3).
      cbv zeta in H1, H2, H3. cbv zeta. cbn [SeenHshExpansions ConsumerDiags].
      rewrite H1, H2, H3. simpl. split; [done |]. split; [done | lia].
Qed.

End PreprocessorFacts.

Lemma expansion_name_before_lambda_witness :
  getExpansionNameBeforeLambda (fun Loc => Loc / 100)
    ([(false, 498)] ++ (true, 499) :: [])
    (SeenHshExpansions
       (registerHshExpansion (fun _ => true) (410, 430) "Pipeline"
          (mkPreprocessorState None [(120, ((120, 140), "Other"))] [])))
  = "Pipeline".
Proof.
  apply (expansion_name_before_lambda (fun _ => true) (fun Loc => Loc / 100)
           (410, 430) "Pipeline"
           (mkPreprocessorState None [(120, ((120, 140), "Other"))] [])
           [(false, 498)] [] 499).
  - done.
  - simpl. intros [H | H]%elem_of_cons; [done | by apply elem_of_nil in H].
  - simpl. split; [| done]. by intros e ?%elem_of_nil.
  - simpl. intros e [-> | H]%elem_of_cons; [done | by apply elem_of_nil in H].
  - by repeat constructor.
  - done.
Defined.


(** ** The stages that are printed *)

Lemma previous_of_next (U S : Z) :
  HshVertexStage <= S < HshMaxStage -> StageUsed U S = true ->
  nextUsedStage U S <> HshNoStage ->
  previousUsedStage U (nextUsedStage U S) = S.
Proof.
  intros HS HU HN.
  destruct (nextUsedStage_spec U S) as [[HR _]|(HR & HUR & Hnone)];
    [lia | done |].
  destruct (previousUsedStage_spec U (nextUsedStage U S))
    as [[_ Hnone']|(HR' & HUR' & Hnone')].
  - rewrite Hnone' in HU by lia. done.
  - destruct (Z.lt_trichotomy (previousUsedStage U (nextUsedStage U S)) S)
      as [Hlt|[Heq|Hgt]]; [| done |].
    + rewrite Hnone' in HU by lia. done.
    + rewrite Hnone in HUR' by lia. done.
Qed.

Lemma next_of_previous (U S : Z) :
  HshVertexStage <= S < HshMaxStage -> StageUsed U S = true ->
  previousUsedStage U S <> HshNoStage ->
  nextUsedStage U (previousUsedStage U S) = S.
Proof.
  intros HS HU HN.
  destruct (previousUsedStage_spec U S) as [[HR _]|(HR & HUR & Hnone)];
    [done |].
  destruct (nextUsedStage_spec U (previousUsedStage U S))
    as [[_ Hnone']|(HR' & HUR' & Hnone')]; [lia | |].
  - rewrite Hnone' in HU by lia. done.
  - destruct (Z.lt_trichotomy (nextUsedStage U (previousUsedStage U S)) S)
      as [Hlt|[Heq|Hgt]]; [| done |].
    + rewrite Hnone in HUR' by lia. done.
    + rewrite Hnone' in HU by lia. done.
Qed.

Lemma printResults_loop_stages (U : Z) (n : nat) (S B : Z) :
  PrintStage <$> printResults_loop U n S B = usedStages U n S.
Proof.
  revert S B. induction n as [|n IH]; intros S B; simpl; [done |].
  destruct (StageUsed U S); simpl; by rewrite IH.
Qed.

Lemma printResults_loop_bindings (U : Z) (n : nat) (S B : Z) :
  0 <= B -> B + Z.of_nat n < 2 ^ 32 ->
  PrintUniformBinding <$> printResults_loop U n S B =
    (fun k => B + Z.of_nat k) <$> seq 0 (length (printResults_loop U n S B)).
Proof.
  revert S B. induction n as [|n IH]; intros S B HB Hn; simpl; [done |].
  destruct (StageUsed U S); [| apply IH; lia].
  assert (unsigned (B + 1) = B + 1) as ->
    by (unfold unsigned; apply Z.mod_small; lia).
  simpl. f_equal; [lia |].
  rewrite IH by lia. rewrite <- fmap_S_seq, <- list_fmap_compose.
  apply list_fmap_ext. intros i k _. simpl. lia.
Qed.

Lemma elem_of_printResults_loop (U : Z) (n : nat) (S0 B : Z)
    (c : PrintStageCall) :
  c ∈ printResults_loop U n S0 B ->
  S0 <= PrintStage c < S0 + Z.of_nat n
  /\ StageUsed U (PrintStage c) = true
  /\ PrintFrom c = previousUsedStage U (PrintStage c)
  /\ PrintTo c = nextUsedStage U (PrintStage c).
Proof.
  revert S0 B. induction n as [|n IH]; intros S0 B; simpl.
  - by intros ?%elem_of_nil.
  - destruct (StageUsed U S0) eqn:HU.
    + intros [-> | Hin]%elem_of_cons; simpl; [split; [lia | done] |].
      destruct (IH _ _ Hin) as [? ?]. split; [lia | done].
    + intros Hin. destruct (IH _ _ Hin) as [? ?]. split; [lia | done].
Qed.

Lemma printResults_loop_has (U : Z) (n : nat) (S0 B S : Z) :
  S0 <= S < S0 + Z.of_nat n -> StageUsed U S = true ->
  exists c, c ∈ printResults_loop U n S0 B /\ PrintStage c = S
            /\ PrintFrom c = previousUsedStage U S
            /\ PrintTo c = nextUsedStage U S.
Proof.
  revert S0 B. induction n as [|n IH]; intros S0 B HS HU; simpl; [lia |].
  destruct (decide (S = S0)) as [-> |Hne].
  - rewrite HU. eexists. split; [by left | done].
  - destruct (IH (S0 + 1) (if StageUsed U S0 then unsigned (B + 1) else B))
      as (c & Hc & Hrest); [lia | done |].
    exists c. split; [| done].
    destruct (StageUsed U S0); [by right | done].
Qed.

(** X27.  [printResults] calls the policy once for every used stage from
    the vertex stage on, in the order of the stages, with the uniform
    bindings 0, 1, 2 and so on.  The stages are chained: when a call is
    told of a next stage, the call for that stage is made and is told of
    this stage as the one before it, and the record the stage writes to,
    [InterStageRecords[NextStage]], is the one the constructor declared
    from this stage to the next; when a call is told of a stage before it,
    the call for that stage is made and is told of this stage as its
    next. *)
Theorem printed_stages_chained (C : ASTContext) (U : Z) :
  let calls := printResults U in
  PrintStage <$> calls =
    usedStages U (Z.to_nat (HshMaxStage - HshVertexStage)) HshVertexStage
  /\ PrintUniformBinding <$> calls = Z.of_nat <$> seq 0 (length calls)
  /\ (forall c, c ∈ calls -> PrintTo c <> HshNoStage ->
        (exists c', c' ∈ calls /\ PrintStage c' = PrintTo c
                    /\ PrintFrom c' = PrintStage c)
        /\ array_get (InterStageRecords (StagesBuilder_new C U)) (PrintTo c) =
             Done (initializeRecord InterfaceRecord_new (PrintStage c)
                     (PrintTo c)))
  /\ (forall c, c ∈ calls -> PrintFrom c <> HshNoStage ->
        exists c', c' ∈ calls /\ PrintStage c' = PrintFrom c
                   /\ PrintTo c' = PrintStage c).
Proof.
  intros calls. unfold calls, printResults.
  split; [apply printResults_loop_stages |]. split.
  { rewrite printResults_loop_bindings by (by vm_compute).
    apply list_fmap_ext. intros i k _. simpl. lia. }
  split.
  - intros c Hc HTo.
    apply elem_of_printResults_loop in Hc as (HS & HU & HF & HT).
    unfold HshMaxStage, HshVertexStage in HS. simpl in HS.
    rewrite HT in HTo |- *.
    destruct (nextUsedStage_spec U (PrintStage c))
      as [[HR _]|(HR & HUR & Hnone)];
      [unfold HshMaxStage; lia | done |].
    unfold HshMaxStage in HR.
    assert (previousUsedStage U (nextUsedStage U (PrintStage c))
            = PrintStage c) as Hback.
    { apply previous_of_next; [unfold HshVertexStage, HshMaxStage; lia | |];
        done. }
    split.
    + destruct (printResults_loop_has U
                  (Z.to_nat (HshMaxStage - HshVertexStage)) HshVertexStage 0
                  (nextUsedStage U (PrintStage c)))
        as (c' & Hc' & HS' & HF' & _);
        [unfold HshMaxStage, HshVertexStage; simpl; lia | done |].
      exists c'. split; [done |]. split; [done |]. by rewrite HF'.
    + rewrite StagesBuilder_new_inter
        by (unfold HshHostStage, HshMaxStage; lia).
      rewrite HUR.
      rewrite (proj2 (Z.leb_le HshControlStage _))
        by (unfold HshControlStage; lia).
      simpl. do 2 f_equal. unfold feedingStage. rewrite Hback.
      destruct (Z.eqb_spec (PrintStage c) HshNoStage) as [Heq|Hne]; [| done].
      unfold HshNoStage in Heq. lia.
  - intros c Hc HFrom.
    apply elem_of_printResults_loop in Hc as (HS & HU & HF & HT).
    unfold HshMaxStage, HshVertexStage in HS. simpl in HS.
    rewrite HF in HFrom |- *.
    destruct (previousUsedStage_spec U (PrintStage c))
      as [[HR _]|(HR & HUR & Hnone)]; [done |].
    unfold HshVertexStage in HR.
    destruct (printResults_loop_has U
                (Z.to_nat (HshMaxStage - HshVertexStage)) HshVertexStage 0
                (previousUsedStage U (PrintStage c)))
      as (c' & Hc' & HS' & _ & HT');
      [unfold HshMaxStage, HshVertexStage; simpl; lia | done |].
    exists c'. split; [done |]. split; [done |]. rewrite HT'.
    apply next_of_previous; [unfold HshVertexStage, HshMaxStage; lia | |];
      done.
Qed.

(** ** A sample call registered twice *)

(** X28.  When [registerSampleCall] has recorded a call, it has reported
    nothing, and registering the same call expression again changes
    nothing: neither a second call is recorded nor is the mask of a sampler
    touched. *)
Theorem sample_call_recorded_once (C : SampleCallSite)
    (b b' : StagesBuilder) :
  registerSampleCall C b = Done b' ->
  SampleCalls b' <> SampleCalls b ->
  Context b' = Context b /\ registerSampleCall C b' = Done b'.
Proof.
  unfold registerSampleCall at 1.
  destruct (TextureParm C) as [[TexStage TexIdx]|] eqn:HT;
    [| by intros [= <-]].
  destruct (array_get (SampleCalls b) TexStage) as [StageCalls| |] eqn:HSC;
    simpl; [| done | done].
  destruct (existsb _ StageCalls); [by intros [= <-] |].
  destruct (SamplerArg C) as [Res|]; [| by intros [= <-]].
  destruct (negb (ValidateSamplerStruct Res)); [by intros [= <-] |].
  assert (forall Search Samplers',
            let b1 :=
              set_SampleCalls
                (array_set (SampleCalls b) TexStage
                   (StageCalls ++
                      [mkSampleCall (CallPtr C) (unsigned TexIdx)
                         (unsigned (Z.of_nat Search))]))
                (set_Samplers Samplers' b) in
            Context b1 = Context b /\ registerSampleCall C b1 = Done b1)
    as Hrec.
  { intros Search Samplers' b1. split; [done |].
    unfold registerSampleCall. rewrite HT.
    assert (array_get (SampleCalls b1) TexStage =
              Done (StageCalls ++
                      [mkSampleCall (CallPtr C) (unsigned TexIdx)
                         (unsigned (Z.of_nat Search))])) as ->.
    { unfold b1. simpl. by eapply array_get_set_eq. }
    simpl. rewrite existsb_app. simpl.
    rewrite (bool_decide_eq_true_2 (CallPtr C = CallPtr C)) by done.
    by rewrite orb_true_r. }
  destruct (list_find _ (Samplers b)) as [[i S]|].
  - intros [= <-] _. apply Hrec.
  - destruct (_ =? _); [by intros [= <-] |].
    intros [= <-] _. apply Hrec.
Qed.

Lemma sample_call_recorded_once_witness :
  let Site :=
    mkSampleCallSite 7%nat 8%nat (Some (HshFragmentStage, 0))
      (Some (APStruct [APInt 0; APInt 1])) in
  let b := StagesBuilder_new (mkASTContext 0%nat []) 35 in
  let b' :=
    set_SampleCalls [[]; []; []; []; []; [mkSampleCall 7%nat 0 0]]
      (set_Samplers [mkSamplerRecord (mkSamplerConfig 0 1) 32] b) in
  Context b' = Context b /\ registerSampleCall Site b' = Done b'.
Proof.
  intros Site b b'.
  apply (sample_call_recorded_once Site b b'); [reflexivity | done].
Defined.
